(** * A shallow embedding of the file organizer (main.py)

    The development follows the layout of the program:
    - [Sha256]  : the digest behind [hashlib.sha256] / [hexdigest];
    - [PyStr]   : the string and [pathlib] name operations the program calls;
    - [Fs]      : a directory tree with the system calls the program issues,
                  in a state-and-exception monad;
    - the program itself: [compute_hash], [is_same_file], [scan_files],
      [organize_files], [find_duplicates], [remove_duplicates];
    - the properties, claim by claim. *)

From Stdlib Require Import List String Ascii Bool Arith ZArith NArith Lia.
From Stdlib Require Import Permutation Sorted DecimalString DecimalNat Finite.
From Stdlib Require Import Init.Byte.
Import ListNotations.

Set Warnings "-register-all".
Local Open Scope list_scope.

(* ------------------------------------------------------------------ *)
(** ** SHA-256, as computed by [hashlib.sha256(...).hexdigest()] *)

Module Sha256.

Local Open Scope N_scope.

Definition mask32 : N := 0xffffffff.
Definition add32 (a b : N) : N := N.land (a + b) mask32.
Definition rotr (n x : N) : N :=
  N.lor (N.shiftr x n) (N.land (N.shiftl x (32 - n)) mask32).
Definition not32 (x : N) : N := N.lxor x mask32.

(** The constants of FIPS 180-4 are derived from the first primes: the
    first 32 bits of the fractional parts of their square roots (initial
    hash value) and of their cube roots (round constants). *)
Definition is_prime (n : nat) : bool :=
  forallb (fun d => negb (Nat.eqb (n mod d) 0)) (seq 2 (n - 2)).

Definition primes (bound : nat) : list N :=
  map N.of_nat (filter is_prime (seq 2 bound)).

(** The largest [x] below [2 ^ bits] with [x ^ 3 <= n], bit by bit. *)
Fixpoint cube_root (bits : nat) (n x : N) : N :=
  match bits with
  | O => x
  | S b =>
      let y := N.lor x (N.shiftl 1 (N.of_nat b)) in
      cube_root b n (if y * y * y <=? n then y else x)
  end.

Definition frac_sqrt (p : N) : N := N.land (N.sqrt (N.shiftl p 64)) mask32.
Definition frac_cbrt (p : N) : N := N.land (cube_root 36 (N.shiftl p 96) 0) mask32.

Definition K : list N := Eval vm_compute in map frac_cbrt (primes 310).

Definition H0 : list N := Eval vm_compute in map frac_sqrt (primes 18).

(** Padding: a 1 bit, zeros up to 56 mod 64, the bit length on 8 bytes. *)
Fixpoint be_bytes (n : nat) (x : N) : list N :=
  match n with
  | O => []
  | S k => N.land (N.shiftr x (8 * N.of_nat k)) 0xff :: be_bytes k x
  end.

Definition pad (msg : list N) : list N :=
  let len := N.of_nat (List.length msg) in
  let zeros := (64 - ((len + 9) mod 64)) mod 64 in
  msg ++ [0x80] ++ repeat 0 (N.to_nat zeros) ++ be_bytes 8 (8 * len).

Fixpoint words (fuel : nat) (bs : list N) : list N :=
  match fuel, bs with
  | S k, b0 :: b1 :: b2 :: b3 :: rest =>
      (N.shiftl b0 24 + N.shiftl b1 16 + N.shiftl b2 8 + b3) :: words k rest
  | _, _ => []
  end.

Definition ssig0 (x : N) := N.lxor (N.lxor (rotr 7 x) (rotr 18 x)) (N.shiftr x 3).
Definition ssig1 (x : N) := N.lxor (N.lxor (rotr 17 x) (rotr 19 x)) (N.shiftr x 10).
Definition bsig0 (x : N) := N.lxor (N.lxor (rotr 2 x) (rotr 13 x)) (rotr 22 x).
Definition bsig1 (x : N) := N.lxor (N.lxor (rotr 6 x) (rotr 11 x)) (rotr 25 x).
Definition ch (x y z : N) := N.lxor (N.land x y) (N.land (not32 x) z).
Definition maj (x y z : N) := N.lxor (N.lxor (N.land x y) (N.land x z)) (N.land y z).

(** The message schedule, kept most recent word first while it is built. *)
Fixpoint schedule (n : nat) (rev_w : list N) : list N :=
  match n with
  | O => rev rev_w
  | S k =>
      let w2 := nth 1 rev_w 0 in
      let w7 := nth 6 rev_w 0 in
      let w15 := nth 14 rev_w 0 in
      let w16 := nth 15 rev_w 0 in
      schedule k (add32 (add32 (ssig1 w2) w7) (add32 (ssig0 w15) w16) :: rev_w)
  end.

Definition round (st : list N) (kw : N * N) : list N :=
  match st with
  | [a; b; c; d; e; f; g; h] =>
      let t1 := add32 (add32 (add32 h (bsig1 e)) (add32 (ch e f g) (fst kw))) (snd kw) in
      let t2 := add32 (bsig0 a) (maj a b c) in
      [add32 t1 t2; a; b; c; add32 d t1; e; f; g]
  | _ => st
  end.

Definition compress (hs : list N) (block : list N) : list N :=
  let w := schedule 48 (rev block) in
  let st := fold_left round (combine K w) hs in
  map (fun p => add32 (fst p) (snd p)) (combine hs st).

Fixpoint blocks (fuel : nat) (ws : list N) (hs : list N) : list N :=
  match fuel, ws with
  | _, [] => hs
  | O, _ => hs
  | S k, _ => blocks k (skipn 16 ws) (compress hs (firstn 16 ws))
  end.

Definition digest_words (msg : list byte) : list N :=
  let bs := pad (map Byte.to_N msg) in
  let ws := words (List.length bs) bs in
  blocks (List.length ws) ws H0.

Definition hex_digit (n : N) : ascii :=
  if n <? 10 then ascii_of_N (48 + n) else ascii_of_N (87 + n).

Fixpoint hex_word (n : nat) (x : N) : string :=
  match n with
  | O => EmptyString
  | S k => String (hex_digit (N.land (N.shiftr x (4 * N.of_nat k)) 0xf)) (hex_word k x)
  end.

(** [hashlib.sha256(msg).hexdigest()] *)
Definition hexdigest (msg : list byte) : string :=
  fold_right (fun w s => (hex_word 8 w ++ s)%string) EmptyString (digest_words msg).

End Sha256.

(* ------------------------------------------------------------------ *)
(** ** The string and path operations of Python that the program calls

    File names are byte strings; [lower] is [str.lower] on ASCII.
    [suffix] and [stem] are those of [pathlib.PurePath] (Python 3.8
    to 3.13): the suffix starts at the last dot of the name, unless that
    dot is the first or the last character. *)

Module PyStr.

Local Open Scope string_scope.

Definition dot : ascii := "."%char.

Definition lower_ascii (c : ascii) : ascii :=
  let n := nat_of_ascii c in
  if (65 <=? n)%nat && (n <=? 90)%nat then ascii_of_nat (n + 32) else c.

(** [s.lower()] *)
Fixpoint lower (s : string) : string :=
  match s with
  | EmptyString => EmptyString
  | String c s' => String (lower_ascii c) (lower s')
  end.

(** [s.lstrip('.')] *)
Fixpoint lstrip_dot (s : string) : string :=
  match s with
  | String c s' => if Ascii.eqb c dot then lstrip_dot s' else s
  | EmptyString => EmptyString
  end.

(** [s.rfind('.')]; [None] stands for Python's [-1]. *)
Fixpoint rfind_dot (s : string) : option nat :=
  match s with
  | EmptyString => None
  | String c s' =>
      match rfind_dot s' with
      | Some i => Some (S i)
      | None => if Ascii.eqb c dot then Some 0%nat else None
      end
  end.

(** The index at which [pathlib] splits a name into stem and suffix:
    [i = name.rfind('.')] when [0 < i < len(name) - 1]. *)
Definition split_index (name : string) : option nat :=
  match rfind_dot name with
  | Some i => if (0 <? i)%nat && (i <? String.length name - 1)%nat then Some i else None
  | None => None
  end.

(** [PurePath.suffix], on the final component. *)
Definition suffix (name : string) : string :=
  match split_index name with
  | Some i => substring i (String.length name - i) name
  | None => ""
  end.

(** [PurePath.stem], on the final component. *)
Definition stem (name : string) : string :=
  match split_index name with
  | Some i => substring 0 i name
  | None => name
  end.

(** [sub in s] *)
Fixpoint contains (sub s : string) : bool :=
  String.prefix sub s ||
  match s with
  | EmptyString => false
  | String _ s' => contains sub s'
  end.

(** [f"{n}"] for a non-negative integer. *)
Definition dec (n : nat) : string := NilEmpty.string_of_uint (Nat.to_uint n).

End PyStr.

(** A path is the sequence of its components below the file system's root,
    as [PurePath.parts] gives them (without the leading anchor). *)
Definition path := list string.

(** [str(p)] *)
Definition path_str (p : path) : string := ("/" ++ String.concat "/" p)%string.

(** [p.name] *)
Definition name (p : path) : string := last p ""%string.

(** [p.parent] *)
Definition parent (p : path) : path := removelast p.

(** [p.suffix.lower().lstrip('.')] *)
Definition ext_of (p : path) : string :=
  PyStr.lstrip_dot (PyStr.lower (PyStr.suffix (name p))).

(** [p.suffix.lower().lstrip('.') or 'no_ext'] *)
Definition category (p : path) : string :=
  if String.eqb (ext_of p) "" then "no_ext"%string else ext_of p.

(** [p.relative_to(root).parts]; [None] is the [ValueError] of a path that
    does not start with [root]. *)
Fixpoint relative_to (p root : path) : option path :=
  match root, p with
  | [], _ => Some p
  | r :: root', s :: p' => if String.eqb r s then relative_to p' root' else None
  | _ :: _, [] => None
  end.

(* ------------------------------------------------------------------ *)
(** ** The file system

    A directory keeps its entries in the order in which [os.scandir] lists
    them. A regular file carries its bytes, its modification time
    ([st_mtime], in integer ticks), whether it can be opened for reading and
    whether it is locked against removal and renaming (read-only or in-use
    files on Windows, immutable files on Linux). Directory sizes and
    timestamps are data of the snapshot; the model does not update them. *)

Record file := mkFile {
  content : list byte;
  mtime : Z;
  readable : bool;
  locked : bool
}.

Record dirstat := mkDirstat { d_size : Z; d_mtime : Z }.

Inductive node :=
| File (f : file)
| Dir (st : dirstat) (entries : list (string * node)).

(** Induction on a tree, with the hypothesis on every entry of a
    directory. *)
Fixpoint node_ind2 (P : node -> Prop)
  (HF : forall f, P (File f))
  (HD : forall st es, Forall (fun e => P (snd e)) es -> P (Dir st es))
  (n : node) : P n :=
  match n with
  | File f => HF f
  | Dir st es =>
      HD st es
        ((fix entries (l : list (string * node)) : Forall (fun e => P (snd e)) l :=
            match l with
            | [] => Forall_nil _
            | e :: l' => Forall_cons e (node_ind2 P HF HD (snd e)) (entries l')
            end) es)
  end.

Inductive errno := ENOENT | EACCES | EISDIR | ENOTDIR | EEXIST | ENOTEMPTY.

(** The exceptions the program can meet. [LoopBound] does not exist in
    Python: it marks the exhaustion of the bound that makes the destination
    loop a structural recursion, and is shown never to be raised. *)
Inductive exn :=
| OSError (e : errno) (p : path)
| ValueError
| IndexError
| LoopBound.

Inductive result (A : Type) :=
| Ok (a : A)
| Raise (e : exn).
Arguments Ok {A} a.
Arguments Raise {A} e.

Module Fs.

Fixpoint find_entry (s : string) (es : list (string * node)) : option node :=
  match es with
  | [] => None
  | (s', c) :: es' => if String.eqb s' s then Some c else find_entry s es'
  end.

(** Replace the entry called [s], or add it after the last entry. *)
Fixpoint put_entry (s : string) (v : node) (es : list (string * node))
  : list (string * node) :=
  match es with
  | [] => [(s, v)]
  | (s', c) :: es' =>
      if String.eqb s' s then (s, v) :: es' else (s', c) :: put_entry s v es'
  end.

Definition del_entry (s : string) (es : list (string * node)) : list (string * node) :=
  filter (fun e => negb (String.eqb (fst e) s)) es.

(** Path resolution from the root directory. *)
Fixpoint find_node (n : node) (p : path) : option node :=
  match p with
  | [] => Some n
  | s :: p' =>
      match n with
      | File _ => None
      | Dir _ es =>
          match find_entry s es with
          | Some c => find_node c p'
          | None => None
          end
      end
  end.

(** The error of a failed resolution. *)
Fixpoint missing_errno (n : node) (p : path) : errno :=
  match p with
  | [] => ENOENT
  | s :: p' =>
      match n with
      | File _ => ENOTDIR
      | Dir _ es =>
          match find_entry s es with
          | Some c => missing_errno c p'
          | None => ENOENT
          end
      end
  end.

(** Create or replace the entry at [p]; the parent must be a directory. *)
Fixpoint write_node (n : node) (p : path) (v : node) : option node :=
  match p with
  | [] => Some v
  | s :: p' =>
      match n with
      | File _ => None
      | Dir st es =>
          match find_entry s es with
          | Some c =>
              match write_node c p' v with
              | Some c' => Some (Dir st (put_entry s c' es))
              | None => None
              end
          | None =>
              match p' with
              | [] => Some (Dir st (put_entry s v es))
              | _ :: _ => None
              end
          end
      end
  end.

(** Remove the entry at [p]. *)
Fixpoint delete_node (n : node) (p : path) : option node :=
  match p with
  | [] => None
  | s :: p' =>
      match n with
      | File _ => None
      | Dir st es =>
          match find_entry s es with
          | None => None
          | Some c =>
              match p' with
              | [] => Some (Dir st (del_entry s es))
              | _ :: _ =>
                  match delete_node c p' with
                  | Some c' => Some (Dir st (put_entry s c' es))
                  | None => None
                  end
              end
          end
      end
  end.

Definition new_dir : dirstat := mkDirstat 4096 0.

(** The chain of fresh directories [s1/s2/.../sn] below a new entry. *)
Fixpoint fresh_dirs (p : path) : node :=
  match p with
  | [] => Dir new_dir []
  | s :: p' => Dir new_dir [(s, fresh_dirs p')]
  end.

(** [Path(p).mkdir(parents=True, exist_ok=True)] on the tree: the error is
    [EEXIST] when [p] is a regular file and [ENOTDIR] when a proper prefix
    of [p] is one. *)
Fixpoint mkdirs (n : node) (p : path) : errno + node :=
  match p with
  | [] => match n with Dir _ _ => inr n | File _ => inl EEXIST end
  | s :: p' =>
      match n with
      | File _ => inl ENOTDIR
      | Dir st es =>
          match find_entry s es with
          | Some c =>
              match mkdirs c p' with
              | inr c' => inr (Dir st (put_entry s c' es))
              | inl e => inl e
              end
          | None => inr (Dir st (put_entry s (fresh_dirs p') es))
          end
      end
  end.

Definition path_exists (fs : node) (p : path) : bool :=
  match find_node fs p with Some _ => true | None => false end.

Definition is_file (fs : node) (p : path) : bool :=
  match find_node fs p with Some (File _) => true | _ => false end.

Definition is_dir (fs : node) (p : path) : bool :=
  match find_node fs p with Some (Dir _ _) => true | _ => false end.

(** The regular file at [p], if there is one. *)
Definition find_file (fs : node) (p : path) : option file :=
  match find_node fs p with Some (File f) => Some f | _ => None end.

Definition st_size (n : node) : Z :=
  match n with
  | File f => Z.of_nat (List.length (content f))
  | Dir st _ => d_size st
  end.

Definition st_mtime (n : node) : Z :=
  match n with
  | File f => mtime f
  | Dir st _ => d_mtime st
  end.

(** [os.walk(top)], top-down, not following links: one triple
    [(dirpath, dirnames, filenames)] per directory. *)
Definition is_dir_node (n : node) : bool :=
  match n with Dir _ _ => true | File _ => false end.

Definition dirnames (es : list (string * node)) : list string :=
  map fst (filter (fun e => is_dir_node (snd e)) es).

Definition filenames (es : list (string * node)) : list string :=
  map fst (filter (fun e => negb (is_dir_node (snd e))) es).

Fixpoint walk_node (dirpath : path) (n : node)
  : list (path * list string * list string) :=
  match n with
  | File _ => []
  | Dir _ es =>
      (dirpath, dirnames es, filenames es)
      :: flat_map (fun e => walk_node (dirpath ++ [fst e]) (snd e)) es
  end.

Definition walk (fs : node) (top : path) : list (path * list string * list string) :=
  match find_node fs top with
  | Some n => walk_node top n
  | None => []
  end.

End Fs.

(** *** The state-and-exception monad of the program's effects *)

Definition M (A : Type) : Type := node -> result A * node.

Definition ret {A} (a : A) : M A := fun fs => (Ok a, fs).

Definition bind {A B} (m : M A) (k : A -> M B) : M B :=
  fun fs =>
    match m fs with
    | (Ok a, fs') => k a fs'
    | (Raise e, fs') => (Raise e, fs')
    end.

Definition raise {A} (e : exn) : M A := fun fs => (Raise e, fs).

(** [try: m  except OSError/Exception as e: h e] *)
Definition try_catch {A} (m : M A) (h : exn -> M A) : M A :=
  fun fs =>
    match m fs with
    | (Ok a, fs') => (Ok a, fs')
    | (Raise e, fs') => h e fs'
    end.

Definition gets {A} (f : node -> A) : M A := fun fs => (Ok (f fs), fs).

Declare Scope fs_scope.
Delimit Scope fs_scope with fs.
Notation "x <- m ;; k" := (bind m (fun x => k))
  (at level 100, m at next level, right associativity) : fs_scope.
Notation "m ;;; k" := (bind m (fun _ => k))
  (at level 100, right associativity) : fs_scope.
Local Open Scope fs_scope.

(** *** System and library calls *)

Definition os_error {A} (fs : node) (p : path) : result A :=
  Raise (OSError (Fs.missing_errno fs p) p).

(** [os.stat(p)], projected on the field asked for. *)
Definition os_stat {A} (field : node -> A) (p : path) : M A :=
  fun fs =>
    match Fs.find_node fs p with
    | Some n => (Ok (field n), fs)
    | None => (os_error fs p, fs)
    end.

(** [os.path.getsize(p)] *)
Definition getsize (p : path) : M Z := os_stat Fs.st_size p.

(** [open(p, "rb")] followed by reading: the bytes of the file. *)
Definition open_read (p : path) : M (list byte) :=
  fun fs =>
    match Fs.find_node fs p with
    | Some (File f) =>
        if readable f then (Ok (content f), fs) else (Raise (OSError EACCES p), fs)
    | Some (Dir _ _) => (Raise (OSError EISDIR p), fs)
    | None => (os_error fs p, fs)
    end.

(** [os.remove(p)] / [os.unlink(p)] *)
Definition os_remove (p : path) : M unit :=
  fun fs =>
    match Fs.find_node fs p with
    | Some (File f) =>
        if locked f then (Raise (OSError EACCES p), fs)
        else match Fs.delete_node fs p with
             | Some fs' => (Ok tt, fs')
             | None => (Raise (OSError ENOENT p), fs)
             end
    | Some (Dir _ _) => (Raise (OSError EISDIR p), fs)
    | None => (os_error fs p, fs)
    end.

Definition path_eqb (p q : path) : bool :=
  if list_eq_dec string_dec p q then true else false.

(** [os.rename(src, dst)] of a regular file; renaming a directory is
    modelled for a destination that does not exist. *)
Definition os_rename (src dst : path) : M unit :=
  fun fs =>
    match Fs.find_node fs src with
    | None => (os_error fs src, fs)
    | Some n =>
        if match n with File f => locked f | Dir _ _ => false end
        then (Raise (OSError EACCES src), fs)
        else if path_eqb src dst then (Ok tt, fs)
        else
          match n, Fs.find_node fs dst with
          | File _, Some (Dir _ _) => (Raise (OSError EISDIR dst), fs)
          | Dir _ _, Some (File _) => (Raise (OSError ENOTDIR dst), fs)
          | Dir _ _, Some (Dir _ _) => (Raise (OSError ENOTEMPTY dst), fs)
          | _, _ =>
              match Fs.delete_node fs src with
              | None => (Raise (OSError ENOENT src), fs)
              | Some fs1 =>
                  match Fs.write_node fs1 dst n with
                  | Some fs2 => (Ok tt, fs2)
                  | None => (os_error fs1 dst, fs)
                  end
              end
          end
    end.

(** [shutil.copy2(src, dst)]: into [dst] when it is a directory; the copy
    keeps the bytes, the timestamp and the permission bits. *)
Definition shutil_copy2 (src dst : path) : M unit :=
  fun fs =>
    let real_dst := if Fs.is_dir fs dst then dst ++ [name src] else dst in
    match Fs.find_node fs src with
    | None => (os_error fs src, fs)
    | Some (Dir _ _) => (Raise (OSError EISDIR src), fs)
    | Some (File f) =>
        if path_eqb src real_dst then (Raise (OSError EEXIST real_dst), fs)
        else if negb (readable f) then (Raise (OSError EACCES src), fs)
        else
          match Fs.find_node fs real_dst with
          | Some (Dir _ _) => (Raise (OSError EISDIR real_dst), fs)
          | Some (File g) =>
              if locked g then (Raise (OSError EACCES real_dst), fs)
              else match Fs.write_node fs real_dst (File (mkFile (content f) (mtime f) (readable f) false)) with
                   | Some fs' => (Ok tt, fs')
                   | None => (os_error fs real_dst, fs)
                   end
          | None =>
              match Fs.write_node fs real_dst (File (mkFile (content f) (mtime f) (readable f) false)) with
              | Some fs' => (Ok tt, fs')
              | None => (os_error fs real_dst, fs)
              end
          end
    end.

(** [shutil.move(src, dst)]: into [dst] when it is a directory, by
    [os.rename], and by copy-then-unlink when the rename fails. *)
Definition shutil_move (src dst : path) : M unit :=
  fun fs =>
    if Fs.is_dir fs dst && Fs.path_exists fs (dst ++ [name src])
    then (Raise (OSError EEXIST (dst ++ [name src])), fs)
    else
      let real_dst := if Fs.is_dir fs dst then dst ++ [name src] else dst in
      try_catch (os_rename src real_dst)
        (fun _ => shutil_copy2 src real_dst ;;; os_remove src) fs.

(** [Path(p).mkdir(parents=True, exist_ok=True)] *)
Definition safe_mkdir (p : path) : M unit :=
  fun fs =>
    match Fs.mkdirs fs p with
    | inr fs' => (Ok tt, fs')
    | inl e => (Raise (OSError e p), fs)
    end.

(* ------------------------------------------------------------------ *)
(** ** The program *)

(** *** Utility functions *)

(** The reading loop of [compute_hash]: [f.read(chunk_size)] until the
    chunk is empty, each chunk fed to [h.update]. The hash object is the
    sequence of the bytes fed so far. *)
Fixpoint read_loop (fuel chunk_size : nat) (stream h : list byte) : list byte :=
  match fuel with
  | O => h
  | S k =>
      match firstn chunk_size stream with
      | [] => h
      | chunk => read_loop k chunk_size (skipn chunk_size stream) (h ++ chunk)
      end
  end.

Definition compute_hash_chunked (chunk_size : nat) (p : path) : M string :=
  stream <- open_read p ;;
  ret (Sha256.hexdigest (read_loop (S (List.length stream)) chunk_size stream [])).

Definition compute_hash (p : path) : M string := compute_hash_chunked (8 * 1024) p.

Definition is_same_file (a b : path) : M bool :=
  sa <- getsize a ;;
  sb <- getsize b ;;
  if negb (Z.eqb sa sb) then ret false
  else
    ha <- compute_hash a ;;
    hb <- compute_hash b ;;
    ret (String.eqb ha hb).

(** *** Core features *)

(** The body of the [for fname in filenames] loop of [scan_files]. *)
Definition scan_dir (fs : node) (dirpath : path) (fnames : list string)
  (files : list path) : list path :=
  fold_left
    (fun acc fname =>
       let full := dirpath ++ [fname] in
       if negb (Fs.is_file fs full) then acc else acc ++ [full])
    fnames files.

Definition ignored (ignore_dirs : list string) (dirpath : path) : bool :=
  existsb (fun ig => PyStr.contains ig (path_str dirpath)) ignore_dirs.

(** The [for dirpath, dirnames, filenames in os.walk(root)] loop. *)
Fixpoint scan_loop (fs : node) (recursive : bool) (ignore_dirs : list string)
  (w : list (path * list string * list string)) (files : list path) : list path :=
  match w with
  | [] => files
  | (dirpath, _, fnames) :: w' =>
      if ignored ignore_dirs dirpath
      then scan_loop fs recursive ignore_dirs w' files
      else
        let files' := scan_dir fs dirpath fnames files in
        if negb recursive then files'
        else scan_loop fs recursive ignore_dirs w' files'
  end.

Definition scan_files_in (fs : node) (root : path) (recursive : bool)
  (ignore_dirs : list string) : list path :=
  scan_loop fs recursive ignore_dirs (Fs.walk fs root) [].

Definition scan_files (root : path) (recursive : bool) (ignore_dirs : list string)
  : M (list path) :=
  gets (fun fs => scan_files_in fs root recursive ignore_dirs).

Inductive action := SkipSame | Move | Copy.

(** An entry of [ops]: [{'action': ..., 'src': str(f), 'dest': str(dest)}];
    the record keeps the paths that [str] renders. *)
Record op := mkOp { op_action : action; op_src : path; op_dest : path }.

(** How the [while dest.exists()] loop ends: by [break], on a destination
    with the same content, or by its [else], on a free destination. *)
Inductive found := Same (dest : path) | Free (dest : path).

(** [folder / (f.stem + f"_{counter}" + f.suffix)] *)
Definition numbered (folder f : path) (counter : nat) : path :=
  folder ++ [(PyStr.stem (name f) ++ "_" ++ PyStr.dec counter ++ PyStr.suffix (name f))%string].

Fixpoint dest_loop (fuel : nat) (folder f dest : path) (counter : nat) : M found :=
  match fuel with
  | O => raise LoopBound
  | S k =>
      e <- gets (fun fs => Fs.path_exists fs dest) ;;
      if e then
        same <- is_same_file dest f ;;
        if same then ret (Same dest)
        else dest_loop k folder f (numbered folder f counter) (S counter)
      else ret (Free dest)
  end.

(** The number of entries of the directory at [p]. *)
Definition entry_count (fs : node) (p : path) : nat :=
  match Fs.find_node fs p with
  | Some (Dir _ es) => List.length es
  | _ => O
  end.

(** [len(rel_path.parts) >= 2 and
     rel_path.parts[0].lower() == f.suffix.lower().lstrip('.')] *)
Definition already_organized (rel f : path) : bool :=
  (2 <=? List.length rel)%nat && String.eqb (PyStr.lower (hd ""%string rel)) (ext_of f).

(** The body of the [for f in files] loop of [organize_files]; [None] is
    the [continue] that emits nothing. *)
Definition organize_one (root target_dir : path) (dry_run move : bool) (f : path)
  : M (option op) :=
  match relative_to f root with
  | None => raise ValueError
  | Some rel_path =>
      if already_organized rel_path f then ret None
      else
        let ext := category f in
        let folder := target_dir ++ [ext] in
        safe_mkdir folder ;;;
        (let dest := folder ++ [name f] in
         bound <- gets (fun fs => S (entry_count fs folder)) ;;
         r <- dest_loop bound folder f dest 1 ;;
         match r with
         | Same d => ret (Some (mkOp SkipSame f d))
         | Free d =>
             (if dry_run then ret tt
              else if move then shutil_move f d else shutil_copy2 f d) ;;;
             ret (Some (mkOp (if negb move then Copy else Move) f d))
         end)
  end.

Fixpoint organize_loop (root target_dir : path) (dry_run move : bool)
  (files : list path) (ops : list op) : M (list op) :=
  match files with
  | [] => ret ops
  | f :: files' =>
      o <- organize_one root target_dir dry_run move f ;;
      organize_loop root target_dir dry_run move files'
        (match o with Some x => ops ++ [x] | None => ops end)
  end.

Definition organize_files (root : path) (target_dir : option path)
  (dry_run move : bool) (ignore_dirs : list string) : M (list op) :=
  files <- scan_files root true ignore_dirs ;;
  (let target_dir := match target_dir with Some t => t | None => root end in
   organize_loop root target_dir dry_run move files []).

(** [defaultdict(list)]: keys in insertion order, [d[k].append(v)]. *)
Section DefaultDict.
Context {K V : Type} (eqb : K -> K -> bool).

Fixpoint dd_append (k : K) (v : V) (d : list (K * list V)) : list (K * list V) :=
  match d with
  | [] => [(k, [v])]
  | (k', vs) :: d' =>
      if eqb k' k then (k', vs ++ [v]) :: d' else (k', vs) :: dd_append k v d'
  end.

End DefaultDict.

(** [except (OSError, PermissionError): continue] *)
Definition except_oserror {A} (m : M A) (otherwise : A) : M A :=
  try_catch m (fun e => match e with OSError _ _ => ret otherwise | _ => raise e end).

Fixpoint size_loop (files : list path) (size_map : list (Z * list path))
  : M (list (Z * list path)) :=
  match files with
  | [] => ret size_map
  | f :: files' =>
      m <- except_oserror
             (sz <- os_stat Fs.st_size f ;; ret (dd_append Z.eqb sz f size_map))
             size_map ;;
      size_loop files' m
  end.

Fixpoint hash_loop (group : list path) (hash_map : list (string * list path))
  : M (list (string * list path)) :=
  match group with
  | [] => ret hash_map
  | p :: group' =>
      m <- except_oserror
             (h <- compute_hash p ;; ret (dd_append String.eqb h p hash_map))
             hash_map ;;
      hash_loop group' m
  end.

Definition emit_loop (hash_map : list (string * list path))
  (duplicates : list (string * list path)) : list (string * list path) :=
  fold_left
    (fun acc hp => if (1 <? List.length (snd hp))%nat then acc ++ [hp] else acc)
    hash_map duplicates.

Fixpoint group_loop (size_map : list (Z * list path))
  (duplicates : list (string * list path)) : M (list (string * list path)) :=
  match size_map with
  | [] => ret duplicates
  | (_, group) :: size_map' =>
      if (List.length group <? 2)%nat then group_loop size_map' duplicates
      else
        hash_map <- hash_loop group [] ;;
        group_loop size_map' (emit_loop hash_map duplicates)
  end.

(** [find_duplicates] from the scanned list on. *)
Definition find_duplicates_of (files : list path) : M (list (string * list path)) :=
  size_map <- size_loop files [] ;;
  group_loop size_map [].

Definition find_duplicates (root : path) (ignore_dirs : list string)
  : M (list (string * list path)) :=
  files <- scan_files root true ignore_dirs ;;
  find_duplicates_of files.

(** [sorted(l, key=...)] on a list of (key, value) pairs: a stable sort. *)
Fixpoint insert_by_key {A} (x : Z * A) (l : list (Z * A)) : list (Z * A) :=
  match l with
  | [] => [x]
  | y :: l' => if (fst x <=? fst y)%Z then x :: l else y :: insert_by_key x l'
  end.

Definition sort_by_key {A} (l : list (Z * A)) : list (Z * A) :=
  fold_right insert_by_key [] l.

(** The keys [p.stat().st_mtime], computed in list order. *)
Fixpoint mtime_keys (plist : list path) : M (list (Z * path)) :=
  match plist with
  | [] => ret []
  | p :: plist' =>
      k <- os_stat Fs.st_mtime p ;;
      ks <- mtime_keys plist' ;;
      ret ((k, p) :: ks)
  end.

Definition sorted_by_mtime (plist : list path) : M (list path) :=
  ks <- mtime_keys plist ;;
  ret (map snd (sort_by_key ks)).

(** An entry of [removed]: [{'hash': h, 'removed': str(p), 'kept':
    str(keeper)}] and, after a failed deletion, ['error': str(e)]. *)
Record removal := mkRemoval {
  r_hash : string;
  r_removed : path;
  r_kept : path;
  r_error : option exn
}.

(** [sorted_list[0]], [sorted_list[1:]], [sorted_list[-1]], [sorted_list[:-1]] *)
Definition select (keep : string) (sorted_list : list path) : M (path * list path) :=
  if String.eqb keep "first" then
    match sorted_list with
    | [] => raise IndexError
    | x :: rest => ret (x, rest)
    end
  else if String.eqb keep "latest" then
    match sorted_list with
    | [] => raise IndexError
    | _ :: _ => ret (last sorted_list [], removelast sorted_list)
    end
  else
    match sorted_list with
    | [] => raise IndexError
    | x :: rest => ret (x, rest)
    end.

(** The [for p in to_remove] loop. *)
Fixpoint remove_loop (h : string) (keeper : path) (dry_run : bool)
  (to_remove : list path) (removed : list removal) : M (list removal) :=
  match to_remove with
  | [] => ret removed
  | p :: rest =>
      r <- (if dry_run then ret (mkRemoval h p keeper None)
            else try_catch (os_remove p ;;; ret (mkRemoval h p keeper None))
                   (fun e => ret (mkRemoval h p keeper (Some e)))) ;;
      remove_loop h keeper dry_run rest (removed ++ [r])
  end.

Fixpoint remove_groups (duplicates : list (string * list path)) (keep : string)
  (dry_run : bool) (removed : list removal) : M (list removal) :=
  match duplicates with
  | [] => ret removed
  | (h, plist) :: duplicates' =>
      sorted_list <- sorted_by_mtime plist ;;
      kt <- select keep sorted_list ;;
      removed' <- remove_loop h (fst kt) dry_run (snd kt) removed ;;
      remove_groups duplicates' keep dry_run removed'
  end.

Definition remove_duplicates (duplicates : list (string * list path))
  (keep : string) (dry_run : bool) : M (list removal) :=
  remove_groups duplicates keep dry_run [].


(* ------------------------------------------------------------------ *)
(** ** Views used in the statements *)

(** What the system calls can observe of a node: everything but the
    entries of a directory. *)
Definition meta (n : node) : file + dirstat :=
  match n with
  | File f => inl f
  | Dir st _ => inr st
  end.

Definition find_meta (fs : node) (p : path) : option (file + dirstat) :=
  option_map meta (Fs.find_node fs p).

(** [st_mtime] of the node at [p] in [fs], when there is one. *)
Definition mtime_at (fs : node) (p : path) : option Z :=
  option_map Fs.st_mtime (Fs.find_node fs p).

(** [q] starts with [p]. *)
Fixpoint is_prefix (p q : path) : bool :=
  match p, q with
  | [], _ => true
  | s :: p', t :: q' => String.eqb s t && is_prefix p' q'
  | _ :: _, [] => false
  end.

(** A removal record without its ['error'] key. *)
Definition without_error (r : removal) : removal :=
  mkRemoval (r_hash r) (r_removed r) (r_kept r) None.

(** [fs'] is [fs] with some entries removed: whatever is found in [fs'] is
    found, with the same attributes, in [fs]. *)
Definition shrunk (fs fs' : node) : Prop :=
  forall q, find_meta fs' q = None \/ find_meta fs' q = find_meta fs q.

(** The digest [compute_hash] returns for [p], when it returns one. *)
Definition hash_at (fs : node) (p : path) : option string :=
  match Fs.find_file fs p with
  | Some f => if readable f then Some (Sha256.hexdigest (content f)) else None
  | None => None
  end.

(** The size [f.stat().st_size] returns for [p], when it returns one. *)
Definition size_at (fs : node) (p : path) : option Z :=
  option_map Fs.st_size (Fs.find_node fs p).

(** [p] was modified no later than [q]. *)
Definition mtime_le (fs : node) (p q : path) : Prop :=
  match mtime_at fs p, mtime_at fs q with
  | Some a, Some b => (a <= b)%Z
  | _, _ => False
  end.

(** The choice of [remove_duplicates] in a sorted group. *)
Definition selected (keep : string) (sorted_list : list path)
  (keeper : path) (to_remove : list path) : Prop :=
  if String.eqb keep "latest" then sorted_list = to_remove ++ [keeper]
  else sorted_list = keeper :: to_remove.

(** The records [rs] are those of the group [g]: the group sorted by
    modification time, one entry selected, one record per other entry. *)
Definition group_records (fs : node) (keep : string) (g : string * list path)
  (rs : list removal) : Prop :=
  exists sorted_list keeper to_remove,
    Permutation sorted_list (snd g) /\
    StronglySorted (mtime_le fs) sorted_list /\
    Forall (fun p => mtime_le fs p p) sorted_list /\
    selected keep sorted_list keeper to_remove /\
    map r_removed rs = to_remove /\
    Forall (fun r => r_hash r = fst g /\ r_kept r = keeper) rs.

(** A computation that only reads the file system. *)
Definition read_only {A} (m : M A) : Prop :=
  forall fs r fs', m fs = (r, fs') -> fs' = fs.

(** The order [sorted] puts keyed entries in. *)
Definition key_le {A} (x y : Z * A) : Prop := (fst x <= fst y)%Z.

(** Groups as [find_duplicates] produces them: non-empty groups of regular
    files, no file listed twice. *)
Definition duplicate_groups (fs : node) (dups : list (string * list path)) : Prop :=
  Forall (fun g => snd g <> [] /\ Forall (fun p => Fs.is_file fs p = true) (snd g)) dups /\
  NoDup (List.concat (map snd dups)).

(** What a record says about the group [g] it comes from, [keeper] being
    the entry that is kept. *)
Definition record_of_group (g : string * list path) (keeper : path) (r : removal) : Prop :=
  r_hash r = fst g /\ r_kept r = keeper /\ In (r_removed r) (snd g) /\
  (NoDup (snd g) -> r_removed r <> keeper).

(** The error a record carries exactly when its file is locked. *)
Definition error_iff_locked (fs : node) (r : removal) : Prop :=
  exists f, Fs.find_file fs (r_removed r) = Some f /\
            r_error r = if locked f then Some (OSError EACCES (r_removed r)) else None.

(** The records [rs] of the group [g] under the rule [keep]: the group is
    ordered by modification time, ascending; the rules "first" and "largest"
    keep the head of that order and record all the entries after it, the
    rule "latest" keeps its last entry and records all the entries before
    it. *)
Definition kept_by_mtime (fs : node) (keep : string) (g : string * list path)
  (rs : list removal) : Prop :=
  exists sorted_list keeper,
    Permutation sorted_list (snd g) /\
    StronglySorted (mtime_le fs) sorted_list /\
    Forall (fun r => r_kept r = keeper) rs /\
    (keep = "first"%string \/ keep = "largest"%string ->
       sorted_list = keeper :: map r_removed rs /\
       forall p, In p (snd g) -> mtime_le fs keeper p) /\
    (keep = "latest"%string ->
       sorted_list = map r_removed rs ++ [keeper] /\
       forall p, In p (snd g) -> mtime_le fs p keeper).

(** The records [rs] of a group [g] of n entries: n - 1 records, all naming
    the same kept entry of the group, which is not among the removed ones
    when the entries of the group are distinct. *)
Definition one_kept (g : string * list path) (rs : list removal) : Prop :=
  exists keeper,
    In keeper (snd g) /\
    S (List.length rs) = List.length (snd g) /\
    Forall (record_of_group g keeper) rs.

(** The destinations [organize_files] tries for [f] in [folder]: the name
    of [f] itself, then [stem_1.ext], [stem_2.ext], ... *)
Definition candidate_name (f : path) (k : nat) : string :=
  match k with
  | O => name f
  | S _ => (PyStr.stem (name f) ++ "_" ++ PyStr.dec k ++ PyStr.suffix (name f))%string
  end.

Definition candidate (folder f : path) (k : nat) : path :=
  folder ++ [candidate_name f k].

(** The destination search of [f] in [folder] ends at candidate [k] with
    outcome [r] in the file system [fs]: every earlier candidate exists
    with a different content, and candidate [k] either holds the same
    content or does not exist. *)
Definition search_ends (fs : node) (folder f : path) (k : nat) (r : found) : Prop :=
  (forall j, (j < k)%nat ->
     Fs.path_exists fs (candidate folder f j) = true /\
     is_same_file (candidate folder f j) f fs = (Ok false, fs)) /\
  match r with
  | Same d =>
      d = candidate folder f k /\ Fs.path_exists fs d = true /\
      is_same_file d f fs = (Ok true, fs)
  | Free d =>
      d = candidate folder f k /\ Fs.path_exists fs d = false
  end.

(** The test that makes [organize_files] pass over a file. *)
Definition skipped (root f : path) : bool :=
  match relative_to f root with
  | Some rel => already_organized rel f
  | None => false
  end.

(** The entries of [files] whose key is [k]; a file without key (a failed
    [stat] or hash) belongs to no class. *)
Definition class_of {K} (key : path -> option K) (eqb : K -> K -> bool) (k : K)
  (files : list path) : list path :=
  filter (fun f => match key f with Some k' => eqb k' k | None => false end) files.

(** The paths with their keys, without the paths that have none. *)
Definition keyed {K} (key : path -> option K) (files : list path) : list (K * path) :=
  flat_map (fun f => match key f with Some k => [(k, f)] | None => [] end) files.

(** A [defaultdict(list)] filled by [d[k].append(v)] in list order. *)
Definition group_by {K} (eqb : K -> K -> bool) (kvs : list (K * path))
  (d : list (K * list path)) : list (K * list path) :=
  fold_left (fun d kv => dd_append eqb (fst kv) (snd kv) d) kvs d.

(** [plist] is a duplicate group of [files] for the digest [h]: the files
    of one size class that hash to [h], at least two of them. *)
Definition is_group (fs : node) (files : list path) (h : string) (plist : list path) : Prop :=
  exists s,
    plist = class_of (hash_at fs) String.eqb h (class_of (size_at fs) Z.eqb s files) /\
    (2 <= List.length plist)%nat.

(** The values appended under the key [k], in order. *)
Definition vals {K} (eqb : K -> K -> bool) (k : K) (kvs : list (K * path)) : list path :=
  map snd (filter (fun kv => eqb (fst kv) k) kvs).

(** The dictionary [d] holds exactly the non-empty classes of [kvs]. *)
Definition grouped {K} (eqb : K -> K -> bool) (d : list (K * list path))
  (kvs : list (K * path)) : Prop :=
  NoDup (map fst d) /\
  forall k vs, In (k, vs) d <-> (vs = vals eqb k kvs /\ vs <> []).

(** A name that does not end with a dot. *)
Definition tame (n : string) : Prop := forall s, n <> (s ++ ".")%string.

(** [st_size] as seen from the attributes of a node. *)
Definition meta_size (m : file + dirstat) : Z :=
  match m with
  | inl f => Z.of_nat (List.length (content f))
  | inr st => d_size st
  end.

(** What [is_same_file] returns, when it returns, from the attributes of
    its two arguments. *)
Definition same_meta (ma mb : option (file + dirstat)) : option bool :=
  match ma, mb with
  | Some x, Some y =>
      if negb (Z.eqb (meta_size x) (meta_size y)) then Some false
      else
        match x, y with
        | inl fa, inl fb =>
            if readable fa && readable fb
            then Some (String.eqb (Sha256.hexdigest (content fa))
                                  (Sha256.hexdigest (content fb)))
            else None
        | _, _ => None
        end
  | _, _ => None
  end.

(** [fs'] has every node of [fs], with the same attributes. *)
Definition extends (fs fs' : node) : Prop :=
  forall q m, find_meta fs q = Some m -> find_meta fs' q = Some m.

(** The paths [scan_files] looks at: below the root, in a directory that
    is not ignored. *)
Definition eligible (root : path) (ign : list string) (g : path) : Prop :=
  exists rel x, g = root ++ rel ++ [x] /\ ignored ign (root ++ rel) = false.

(** A file for which a further run of [organize_files] into the root has
    nothing to move: it is passed over, or its destination search ends on
    a file of the same content, or it is its own first destination. *)
Definition quiet (root : path) (fs : node) (g : path) : Prop :=
  skipped root g = true \/
  (tame (name g) /\ exists k d, search_ends fs (root ++ [category g]) g k (Same d)) \/
  (candidate (root ++ [category g]) g 0 = g /\ Fs.is_file fs g = true).

(** The state of a first run of [organize_files] into the root with the
    files [todo] still to process: they are regular files, and every other
    regular file the scan can reach is quiet. *)
Definition first_run_inv (root : path) (ign : list string) (fs : node)
  (todo : list path) : Prop :=
  (forall g, In g todo -> Fs.is_file fs g = true) /\
  (forall g, Fs.is_file fs g = true -> eligible root ign g ->
             In g todo \/ quiet root fs g).

(** The boolean test behind [tame]. *)
Fixpoint ends_with_dot (n : string) : bool :=
  match n with
  | EmptyString => false
  | String c EmptyString => Ascii.eqb c PyStr.dot
  | String _ s => ends_with_dot s
  end.

(** The regular file at [g] can be opened for reading. *)
Definition can_read (fs : node) (g : path) : Prop :=
  exists fl, Fs.find_file fs g = Some fl /\ readable fl = true.

(** Every regular file the scan can reach can be read. *)
Definition all_readable (root : path) (ign : list string) (fs : node) : Prop :=
  forall g, Fs.is_file fs g = true -> eligible root ign g -> can_read fs g.

(** The destination [d] holds a regular file with the bytes of the file
    [x], and both can be read: identical content. *)
Definition holds_same (fs : node) (d : path) (x : file) : Prop :=
  exists y, Fs.find_file fs d = Some y /\
            readable y = true /\ readable x = true /\ content y = content x.

(** The destination [d] holds a regular file that is told from the file
    [x] by its size, or by its digest when both can be read: a different
    content, as far as the program knows one. *)
Definition holds_other (fs : node) (d : path) (x : file) : Prop :=
  exists y, Fs.find_file fs d = Some y /\
    (List.length (content y) <> List.length (content x) \/
     (readable y = true /\ readable x = true /\
      Sha256.hexdigest (content y) <> Sha256.hexdigest (content x))).

(** What the move or the copy of the file [x] from [f] to [d] has left:
    the bytes at the destination, and the source gone or in place. *)
Definition transferred (move : bool) (fs : node) (f d : path) (x : file) : Prop :=
  (exists y, Fs.find_file fs d = Some y /\ content y = content x) /\
  Fs.find_file fs f = if move then None else Some x.

(* ------------------------------------------------------------------ *)
(** ** The remaining helper of the program *)

(** [categorize_by_extension(files)]: the [defaultdict(list)] filled by
    [by_ext[ext].append(p)] in the order of [files]. *)
Definition categorize_by_extension (files : list path) : list (string * list path) :=
  fold_left (fun by_ext p => dd_append String.eqb (category p) p by_ext) files [].

(* ------------------------------------------------------------------ *)
(** ** Further views used in the statements *)

(** No name occurs twice in [l]. *)
Fixpoint distinct (l : list string) : bool :=
  match l with
  | [] => true
  | x :: l' => negb (existsb (String.eqb x) l') && distinct l'
  end.

(** A tree as a file system holds it: no directory lists a name twice. *)
Fixpoint well_formed (n : node) : bool :=
  match n with
  | File _ => true
  | Dir _ es => distinct (map fst es) && forallb (fun e => well_formed (snd e)) es
  end.

(** The files one directory contributes to the scan. *)
Definition scan_step (fs : node) (ign : list string)
  (t : path * list string * list string) : list path :=
  if ignored ign (fst (fst t)) then []
  else filter (Fs.is_file fs) (map (fun x => fst (fst t) ++ [x]) (snd t)).

(** The destination of [o] holds the bytes and the timestamp of its
    source. *)
Definition holds_copy (fs : node) (o : op) : Prop :=
  exists fl fl',
    Fs.find_file fs (op_src o) = Some fl /\ Fs.find_file fs (op_dest o) = Some fl' /\
    content fl' = content fl /\ mtime fl' = mtime fl.

(** What an action of a copying run that started in [fs0] has left in
    [fs]: a copy at a destination that did not exist, or a destination that
    compares equal to the source. *)
Definition settled (fs0 fs : node) (o : op) : Prop :=
  match op_action o with
  | Copy => Fs.path_exists fs0 (op_dest o) = false /\ holds_copy fs o
  | SkipSame => is_same_file (op_dest o) (op_src o) fs = (Ok true, fs)
  | Move => False
  end.

(** The file [fl] that was at [p] is still there in [fs], or [ops] lists
    its move to a destination that holds its bytes in [fs]. *)
Definition kept_or_moved (fs : node) (ops : list op) (p : path) (fl : file) : Prop :=
  Fs.find_file fs p = Some fl \/
  exists d fl',
    In (mkOp Move p d) ops /\ Fs.find_file fs d = Some fl' /\
    content fl' = content fl /\ readable fl' = readable fl.

(** The effect of the deletions recorded in [rs], from [fs] to [fs']:
    nothing is added or changed, the paths that no record names are as
    they were, the path of a record without error is gone, and the tree
    stays well formed. *)
Definition removed_from (fs fs' : node) (rs : list removal) : Prop :=
  shrunk fs fs' /\
  (forall q, ~ In q (map r_removed rs) -> find_meta fs' q = find_meta fs q) /\
  (forall r, In r rs -> r_error r = None -> find_meta fs' (r_removed r) = None) /\
  (well_formed fs = true -> well_formed fs' = true).

(** Whether the records [rs] say that [q] was deleted: one of them names
    [q] as removed and carries no error. *)
Definition deleted_by (rs : list removal) (q : path) : bool :=
  existsb (fun r => path_eqb q (r_removed r) &&
                    match r_error r with None => true | Some _ => false end) rs.

(** From [fs] to [fs'] nothing changed but for new, empty directories on
    the way to one of [folders]. *)
Definition only_new_folders (folders : list path) (fs fs' : node) : Prop :=
  forall q,
    find_meta fs' q = find_meta fs q \/
    (find_meta fs q = None /\ find_meta fs' q = Some (inr Fs.new_dir) /\
     exists d, In d folders /\ is_prefix q d = true).

(** [p] was modified before [q]. *)
Definition mtime_lt (fs : node) (p q : path) : Prop :=
  match mtime_at fs p, mtime_at fs q with
  | Some a, Some b => (a < b)%Z
  | _, _ => False
  end.

(** The entry of [plist] that the keep rule selects, ties included: under
    "latest" the last of the entries modified last, under any other rule
    the first of the entries modified first. *)
Definition kept_by_order (fs : node) (keep : string) (plist : list path)
  (keeper : path) : Prop :=
  exists l1 l2,
    plist = l1 ++ keeper :: l2 /\
    if String.eqb keep "latest"
    then Forall (fun q => mtime_le fs q keeper) l1 /\
         Forall (fun q => mtime_lt fs q keeper) l2
    else Forall (fun q => mtime_lt fs keeper q) l1 /\
         Forall (fun q => mtime_le fs keeper q) l2.

(** The records [rs] of the group [g] all name the entry that the keep
    rule selects, ties included. *)
Definition keeps_by_order (fs : node) (keep : string) (g : string * list path)
  (rs : list removal) : Prop :=
  exists keeper,
    kept_by_order fs keep (snd g) keeper /\ Forall (fun r => r_kept r = keeper) rs.

(** Every regular file the scan can reach that is not in [todo] is passed
    over by [organize_files] or can be read. *)
Definition read_or_skipped (root : path) (ign : list string) (fs : node)
  (todo : list path) : Prop :=
  forall g, Fs.is_file fs g = true -> eligible root ign g ->
    In g todo \/ skipped root g = true \/ can_read fs g.

(** A name written in ASCII, where [PyStr.lower] is [str.lower]. *)
Definition is_ascii (s : string) : bool :=
  forallb (fun c => (nat_of_ascii c <? 128)%nat) (list_ascii_of_string s).

(** [fs'] has every regular file of [fs], unchanged and at its place, and
    every directory of [fs]. *)
Definition grows (fs fs' : node) : Prop :=
  (forall p fl, Fs.find_file fs p = Some fl -> Fs.find_file fs' p = Some fl) /\
  (forall p, Fs.is_dir fs p = true -> Fs.is_dir fs' p = true).

(** From [fs] to [fs'] no regular file was added, removed or changed and
    no directory was removed; a directory was added only on the way to one
    of [folders]. *)
Definition adds_folders (folders : list path) (fs fs' : node) : Prop :=
  (forall p, Fs.find_file fs' p = Fs.find_file fs p) /\
  (forall p, Fs.is_dir fs p = true -> Fs.is_dir fs' p = true) /\
  (forall p, Fs.is_dir fs' p = true ->
     Fs.is_dir fs p = true \/ exists d, In d folders /\ is_prefix p d = true).

(** A lower-case hexadecimal digit. *)
Definition is_hex (c : ascii) : bool :=
  let n := nat_of_ascii c in
  ((48 <=? n) && (n <=? 57) || (97 <=? n) && (n <=? 102))%nat.

Fixpoint all_hex (s : string) : bool :=
  match s with
  | EmptyString => true
  | String c s' => is_hex c && all_hex s'
  end.

(** Where [organize_files] puts the file of an action: in the folder of
    its category, under a name with the same suffix unless the name of the
    file ends with a dot. *)
Definition placed (target : path) (o : op) : Prop :=
  parent (op_dest o) = target ++ [category (op_src o)] /\
  (tame (name (op_src o)) ->
   PyStr.suffix (name (op_dest o)) = PyStr.suffix (name (op_src o)) /\
   category (op_dest o) = category (op_src o)).

(* ------------------------------------------------------------------ *)
(** ** The report and the command line

    The library calls behind the report are parameters of this part: the
    clock, the texts that [json.dumps] and [csv.writer] produce, and the
    test whether a text can be encoded in UTF-8. The paths of the command
    line are taken as [Path.resolve] leaves them, absolute and normalised.
    The standard output is taken to accept every string. *)

(** The dictionary that [generate_report] builds. *)
Record report := mkReport {
  rp_timestamp : string;
  rp_operations : list op;
  rp_duplicates_found : list (string * list string);
  rp_removed : list removal
}.

(** The values of the ['action'] key. *)
Definition action_str (a : action) : string :=
  match a with
  | SkipSame => "skip_same"
  | Move => "move"
  | Copy => "copy"
  end.

(** The rows given to [writer.writerow], in order. *)
Definition csv_table (timestamp : string) (ops : list op) (removed : list removal)
  : list (list string) :=
  [["timestamp"%string; timestamp]; []; ["Operation"; "Source"; "Destination"]%string]
  ++ map (fun o => [action_str (op_action o); path_str (op_src o); path_str (op_dest o)]) ops
  ++ [[]; ["Removed"; "Path"; "Kept"]%string]
  ++ map (fun r => [r_hash r; path_str (r_removed r); path_str (r_kept r)]) removed.

(** The namespace that [parse_args] returns. *)
Record args := mkArgs {
  a_root : path;
  a_organize : bool;
  a_move : bool;
  a_dry_run : bool;
  a_duplicates : bool;
  a_remove_duplicates : bool;
  a_keep : string;
  a_report : option path;
  a_ignore : list string;
  a_recursive : bool
}.

(** The namespace with another value of [--duplicates]. *)
Definition with_duplicates (a : args) (b : bool) : args :=
  mkArgs (a_root a) (a_organize a) (a_move a) (a_dry_run a) b (a_remove_duplicates a)
    (a_keep a) (a_report a) (a_ignore a) (a_recursive a).

(** Effects on the file system and on the standard output, whose lines are
    kept in the order in which they are printed. *)
Definition W (A : Type) : Type := node * list string -> result A * (node * list string).

Definition wret {A} (a : A) : W A := fun w => (Ok a, w).

Definition wbind {A B} (m : W A) (k : A -> W B) : W B :=
  fun w =>
    match m w with
    | (Ok a, w') => k a w'
    | (Raise e, w') => (Raise e, w')
    end.

(** A computation on the file system, run where it stands. *)
Definition lift {A} (m : M A) : W A :=
  fun w => let (r, fs') := m (fst w) in (r, (fs', snd w)).

(** [print(s)], on a standard output that accepts every string. *)
Definition print (s : string) : W unit := fun w => (Ok tt, (fst w, snd w ++ [s])).

Declare Scope io_scope.
Delimit Scope io_scope with io.
Notation "x <- m ;; k" := (wbind m (fun x => k))
  (at level 100, m at next level, right associativity) : io_scope.
Notation "m ;;; k" := (wbind m (fun _ => k))
  (at level 100, right associativity) : io_scope.

(** [for p in plist: print("  ", p)] *)
Fixpoint print_paths (plist : list path) : W unit :=
  match plist with
  | [] => wret tt
  | p :: rest => wbind (print ("   " ++ path_str p)) (fun _ => print_paths rest)
  end.

(** [for h, plist in duplicates: print(f"Hash: {h} -> {len(plist)} files"); ...] *)
Fixpoint print_groups (duplicates : list (string * list path)) : W unit :=
  match duplicates with
  | [] => wret tt
  | (h, plist) :: rest =>
      wbind (print ("Hash: " ++ h ++ " -> " ++ PyStr.dec (List.length plist) ++ " files"))
        (fun _ => wbind (print_paths plist) (fun _ => print_groups rest))
  end.

Section CommandLine.

(** [datetime.utcnow().isoformat()] at the call of [generate_report], and
    the modification time that a file written then receives. *)
Variable now : string.
Variable clock : Z.

(** [json.dumps(report, indent=2)], and the text that [csv.writer] writes
    for the rows it is given. *)
Variable json_dumps : report -> string.
Variable csv_rows : list (list string) -> string.

(** Whether [str.encode('utf-8')] accepts a text. It refuses the surrogate
    escapes that stand for the bytes of a file name that is not UTF-8. The
    text of [json.dumps] is ASCII and is always accepted. *)
Variable encodable : string -> bool.

(** [open(p, 'w')] and the writing of [text]: the file is created in an
    existing directory, or replaces the content of the file that was
    there. *)
Definition write_text (p : path) (text : string) : M unit :=
  fun fs =>
    match Fs.find_node fs p with
    | Some (Dir _ _) => (Raise (OSError EISDIR p), fs)
    | Some (File g) =>
        if locked g then (Raise (OSError EACCES p), fs)
        else
          match Fs.write_node fs p
                  (File (mkFile (list_byte_of_string text) clock (readable g) false)) with
          | Some fs' => (Ok tt, fs')
          | None => (os_error fs p, fs)
          end
    | None =>
        match Fs.write_node fs p (File (mkFile (list_byte_of_string text) clock true false)) with
        | Some fs' => (Ok tt, fs')
        | None => (os_error fs p, fs)
        end
    end.

(** The rows written before the first row with a cell that cannot be
    encoded, and whether all the rows are written. *)
Fixpoint written_rows (rows : list (list string)) : list (list string) * bool :=
  match rows with
  | [] => ([], true)
  | r :: rest =>
      if forallb encodable r
      then let (w, all) := written_rows rest in (r :: w, all)
      else ([], false)
  end.

(** [with open(p, 'w', newline='', encoding='utf-8') as csvf] and the
    [writer.writerow] calls in it: the file is opened, which empties it,
    and the rows are written in order; a row that cannot be encoded raises
    [UnicodeEncodeError], a [ValueError], and the file is closed on the
    rows written before it. *)
Definition write_csv (p : path) (rows : list (list string)) : M unit :=
  let (w, all) := written_rows rows in
  bind (write_text p (csv_rows w))
    (fun _ => if all then ret tt else raise ValueError).

(** [generate_report(ops, duplicates, removed, out_file)]; [None] stands
    for an [out_file] that is [None] or empty. *)
Definition generate_report (ops : list op) (duplicates : list (string * list path))
  (removed : list removal) (out_file : option path) : M report :=
  let report :=
    mkReport (now ++ "Z") ops
      (map (fun d => (fst d, map path_str (snd d))) duplicates) removed in
  bind
    (match out_file with
     | Some out_path =>
         if String.eqb (PyStr.lower (PyStr.suffix (name out_path))) ".json"
         then write_text out_path (json_dumps report)
         else if String.eqb (PyStr.lower (PyStr.suffix (name out_path))) ".csv"
         then write_csv out_path (csv_table (rp_timestamp report) ops removed)
         else write_text out_path (json_dumps report)
     | None => ret tt
     end)
    (fun _ => ret report).

Local Open Scope io_scope.

(** [main()], from the parsed arguments on; the value is the exit status
    of the process when no exception escapes. *)
Definition main (a : args) : W nat :=
  let root := a_root a in
  e <- lift (gets (fun fs => Fs.path_exists fs root)) ;;
  if negb e then
    print ("Error: root path does not exist: " ++ path_str root) ;;;
    wret 1%nat
  else
    ops <- (if a_organize a then
              print ((if a_dry_run a then "DRY RUN: " else "")
                     ++ "Organizing files under: " ++ path_str root) ;;;
              ops <- lift (organize_files root (Some root) (a_dry_run a) (a_move a)
                             (a_ignore a)) ;;
              print ("Organize operations: " ++ PyStr.dec (List.length ops)) ;;;
              wret ops
            else wret []) ;;
    duplicates <- (if a_duplicates a then
                     print "Scanning for duplicates..." ;;;
                     duplicates <- lift (find_duplicates root (a_ignore a)) ;;
                     print ("Duplicate groups found: "
                            ++ PyStr.dec (List.length duplicates)) ;;;
                     print_groups duplicates ;;;
                     wret duplicates
                   else wret []) ;;
    dr <- (if a_remove_duplicates a then
             duplicates' <- (match duplicates with
                             | [] => lift (find_duplicates root (a_ignore a))
                             | _ :: _ => wret duplicates
                             end) ;;
             print ((if a_dry_run a then "DRY RUN: " else "")
                    ++ "Removing duplicates (keep=" ++ a_keep a ++ ")...") ;;;
             removed <- lift (remove_duplicates duplicates' (a_keep a) (a_dry_run a)) ;;
             print ("Files removed: " ++ PyStr.dec (List.length removed)) ;;;
             wret (duplicates', removed)
           else wret (duplicates, [])) ;;
    match a_report a with
    | Some out =>
        report <- lift (generate_report ops (fst dr) (snd dr) (Some out)) ;;
        print ("Report written to: " ++ path_str out) ;;;
        wret 0%nat
    | None =>
        report <- lift (generate_report ops (fst dr) (snd dr) None) ;;
        print (json_dumps report) ;;;
        wret 0%nat
    end.

End CommandLine.

(** Whatever a computation does, the file systems before and after it are
    related by [R]. *)
Definition m_rel (R : node -> node -> Prop) {A} (m : M A) : Prop :=
  forall fs r fs', m fs = (r, fs') -> R fs fs'.

Definition run_rel (R : node -> node -> Prop) {A} (m : W A) : Prop :=
  forall w r w', m w = (r, w') -> R (fst w) (fst w').

(** The regular files are the same, but for the one at [out]. *)
Definition same_files_but (out : option path) (fs fs' : node) : Prop :=
  forall p, out <> Some p -> Fs.find_file fs' p = Fs.find_file fs p.

(** The regular files that were there are still there, unchanged, but for
    the one at [out]. *)
Definition keeps_files_but (out : option path) (fs fs' : node) : Prop :=
  forall p fl, out <> Some p -> Fs.find_file fs p = Some fl -> Fs.find_file fs' p = Some fl.

(** An exception of the [OSError] family. *)
Definition os_failure (e : exn) : Prop := exists en p, e = OSError en p.

(** [m] returns a value that satisfies [Q], or raises an exception that
    satisfies [E]. *)
Definition sat {A} (E : exn -> Prop) (Q : A -> Prop) (m : W A) : Prop :=
  forall w r w', m w = (r, w') ->
    match r with
    | Ok a => Q a
    | Raise e => E e
    end.

(** The same result and the same file system, whatever was printed. *)
Definition same_outcome {A} (x y : result A * (node * list string)) : Prop :=
  fst x = fst y /\ fst (snd x) = fst (snd y).

(** What [m] returns and does to the file system does not depend on what
    has been printed before. *)
Definition blind {A} (m : W A) : Prop :=
  forall fs o1 o2, same_outcome (m (fs, o1)) (m (fs, o2)).
(* ------------------------------------------------------------------ *)
(** ** Concrete file systems used as test inputs *)

Module Fx.

Local Open Scope string_scope.

Definition d0 : dirstat := mkDirstat 4096 0.

(** A readable, unlocked file with the given bytes and timestamp. *)
Definition plain (bytes : list byte) (t : Z) : node := File (mkFile bytes t true false).

(** [/root] with a [docs] and a [library_docs] directory. *)
Definition lib_fs : node :=
  Dir d0 [("root", Dir d0
     [("docs", Dir d0 [("y.txt", plain [x59] 2)]);
      ("library_docs", Dir d0 [("x.txt", plain [x58] 1)])])].

End Fx.

Module FxDup.

Local Open Scope string_scope.

(** Three copies of the same bytes, modified at 30, 10 and 20. *)
Definition fs : node :=
  Dir Fx.d0 [("root", Dir Fx.d0
     [("a.txt", Fx.plain [x58] 30);
      ("b.txt", Fx.plain [x58] 10);
      ("c.txt", Fx.plain [x58] 20)])].

Definition a : path := ["root"; "a.txt"].
Definition b : path := ["root"; "b.txt"].
Definition c : path := ["root"; "c.txt"].

Definition digest : string :=
  "4b68ab3847feda7d6c62c1fbcbeebfa35eab7351ed5e78f4ddadea5df64b8015".

Definition dups : list (string * list path) := [(digest, [a; b; c])].

Definition first_records : list removal :=
  [mkRemoval digest c b None; mkRemoval digest a b None].

Definition latest_records : list removal :=
  [mkRemoval digest b a None; mkRemoval digest c a None].

(** The tree after the two deletions of a run that keeps the oldest. *)
Definition fs_first : node :=
  Dir Fx.d0 [("root", Dir Fx.d0 [("b.txt", Fx.plain [x58] 10)])].

End FxDup.

Module FxCol.

Local Open Scope string_scope.

(** [a.txt] to organize while [txt/a.txt] and [txt/a_1.txt] exist with
    other contents of the same size. *)
Definition fs : node :=
  Dir Fx.d0 [("root", Dir Fx.d0
     [("a.txt", Fx.plain [x58] 1);
      ("txt", Dir Fx.d0 [("a.txt", Fx.plain [x59] 2);
                         ("a_1.txt", Fx.plain [x5a] 3)])])].

Definition root : path := ["root"].
Definition a : path := ["root"; "a.txt"].
Definition folder : path := ["root"; "txt"].

End FxCol.

Module FxSkip.

Local Open Scope string_scope.

(** A text file in a folder named [TXT] and a file without extension in
    the folder [no_ext]. *)
Definition fs : node :=
  Dir Fx.d0 [("root", Dir Fx.d0
     [("TXT", Dir Fx.d0 [("a.txt", Fx.plain [x58] 1)]);
      ("no_ext", Dir Fx.d0 [("README", Fx.plain [x59] 2)])])].

Definition root : path := ["root"].
Definition a : path := ["root"; "TXT"; "a.txt"].
Definition readme : path := ["root"; "no_ext"; "README"].

End FxSkip.

Module FxABC.

Local Open Scope string_scope.

(** The fixture of the specification: a root that contains exactly
    [a.txt] and [b.txt] with content "X" and [c.txt] with content "Y",
    listed by the system in the order [es]. *)
Definition ea : string * node := ("a.txt", Fx.plain [x58] 1).
Definition eb : string * node := ("b.txt", Fx.plain [x58] 2).
Definition ec : string * node := ("c.txt", Fx.plain [x59] 3).

Definition fixture (es : list (string * node)) : node :=
  Dir Fx.d0 [("root", Dir Fx.d0 es)].

Definition fs : node := fixture [ea; eb; ec].

Definition root : path := ["root"].
Definition a : path := ["root"; "a.txt"].
Definition b : path := ["root"; "b.txt"].
Definition c : path := ["root"; "c.txt"].

Definition digest_X : string :=
  "4b68ab3847feda7d6c62c1fbcbeebfa35eab7351ed5e78f4ddadea5df64b8015".

Definition move_a : op := mkOp Move a ["root"; "txt"; "a.txt"].
Definition move_b : op := mkOp Move b ["root"; "txt"; "b.txt"].
Definition move_c : op := mkOp Move c ["root"; "txt"; "c.txt"].

End FxABC.

Module FxErr.

Local Open Scope string_scope.

(** [a.txt] and [b.txt] to organize, while [txt/a.txt] exists, has the
    size of [a.txt] and cannot be read. *)
Definition fs : node :=
  Dir Fx.d0 [("root", Dir Fx.d0
     [("a.txt", Fx.plain [x58] 1);
      ("b.txt", Fx.plain [x59] 2);
      ("txt", Dir Fx.d0 [("a.txt", File (mkFile [x5a] 3 false false))])])].

Definition root : path := ["root"].
Definition a : path := ["root"; "a.txt"].
Definition b : path := ["root"; "b.txt"].
Definition dest_a : path := ["root"; "txt"; "a.txt"].

(** Two copies of the same bytes, the older one locked. *)
Definition locked_fs : node :=
  Dir Fx.d0 [("root", Dir Fx.d0
     [("k.txt", Fx.plain [x58] 5);
      ("l.txt", File (mkFile [x58] 7 true true));
      ("m.txt", Fx.plain [x58] 9)])].

Definition k : path := ["root"; "k.txt"].
Definition l : path := ["root"; "l.txt"].
Definition m : path := ["root"; "m.txt"].

End FxErr.

Module FxDry.

Local Open Scope string_scope.

(** Two files of the same name and content in two directories. *)
Definition fs : node :=
  Dir Fx.d0 [("root", Dir Fx.d0
     [("d1", Dir Fx.d0 [("a.txt", Fx.plain [x58] 1)]);
      ("d2", Dir Fx.d0 [("a.txt", Fx.plain [x58] 2)])])].

Definition root : path := ["root"].
Definition a1 : path := ["root"; "d1"; "a.txt"].
Definition a2 : path := ["root"; "d2"; "a.txt"].
Definition dest : path := ["root"; "txt"; "a.txt"].

End FxDry.

Module FxTwice.

Local Open Scope string_scope.

(** A tree with two copies of the same bytes, two files of the same name
    and different bytes, a file without extension, and a file that
    already has its copy in the category folder. *)
Definition fs : node :=
  Dir Fx.d0 [("root", Dir Fx.d0
     [("a.txt", Fx.plain [x58] 1);
      ("b.txt", Fx.plain [x58] 2);
      ("README", Fx.plain [x5a] 3);
      ("d1", Dir Fx.d0 [("a.txt", Fx.plain [x59] 4)]);
      ("d2", Dir Fx.d0 [("c.txt", Fx.plain [x57] 5)]);
      ("txt", Dir Fx.d0 [("c.txt", Fx.plain [x57] 6)])])].

Definition root : path := ["root"].

Definition ops1 : list op :=
  [mkOp Move ["root"; "a.txt"] ["root"; "txt"; "a.txt"];
   mkOp Move ["root"; "b.txt"] ["root"; "txt"; "b.txt"];
   mkOp Move ["root"; "README"] ["root"; "no_ext"; "README"];
   mkOp Move ["root"; "d1"; "a.txt"] ["root"; "txt"; "a_1.txt"];
   mkOp SkipSame ["root"; "d2"; "c.txt"] ["root"; "txt"; "c.txt"]].

Definition ops2 : list op :=
  [mkOp SkipSame ["root"; "d2"; "c.txt"] ["root"; "txt"; "c.txt"];
   mkOp SkipSame ["root"; "no_ext"; "README"] ["root"; "no_ext"; "README"]].

(** The tree after the first and after the second run. *)
Definition fs1 : node := snd (organize_files root None false true [] fs).
Definition fs2 : node := snd (organize_files root None false true [] fs1).

(** A file whose name ends with a dot, next to a different file of the
    same name in [no_ext]. *)
Definition dot_fs : node :=
  Dir Fx.d0 [("root", Dir Fx.d0
     [("a.", Fx.plain [x58] 1);
      ("no_ext", Dir Fx.d0 [("a.", Fx.plain [x59] 2)])])].

Definition dot_fs1 : node := snd (organize_files root None false true [] dot_fs).

Definition dot_ops1 : list op :=
  [mkOp Move ["root"; "a."] ["root"; "no_ext"; "a._1"];
   mkOp SkipSame ["root"; "no_ext"; "a."] ["root"; "no_ext"; "a."]].

Definition dot_ops2 : list op :=
  [mkOp SkipSame ["root"; "no_ext"; "a."] ["root"; "no_ext"; "a."];
   mkOp Move ["root"; "no_ext"; "a._1"] ["root"; "_1"; "a._1"]].

(** A file without extension that cannot be read. *)
Definition unreadable_fs : node :=
  Dir Fx.d0 [("root", Dir Fx.d0 [("README", File (mkFile [x58] 1 false false))])].

Definition unreadable_fs1 : node :=
  snd (organize_files root None false true [] unreadable_fs).

End FxTwice.


Module FxTie.

Local Open Scope string_scope.

(** Four copies of the same bytes; [a] and [b] share the least
    modification time, [c] and [d] the greatest. *)
Definition fs : node :=
  Dir Fx.d0 [("root", Dir Fx.d0
     [("a.txt", Fx.plain [x58] 5);
      ("b.txt", Fx.plain [x58] 5);
      ("c.txt", Fx.plain [x58] 7);
      ("d.txt", Fx.plain [x58] 7)])].

Definition a : path := ["root"; "a.txt"].
Definition b : path := ["root"; "b.txt"].
Definition c : path := ["root"; "c.txt"].
Definition d : path := ["root"; "d.txt"].

Definition dups : list (string * list path) := [(FxDup.digest, [c; a; d; b])].

(** The records of a dry run that keeps the oldest: [a] is kept, not [b]. *)
Definition records : list removal :=
  [mkRemoval FxDup.digest b a None;
   mkRemoval FxDup.digest c a None;
   mkRemoval FxDup.digest d a None].

End FxTie.

Module FxMain.

Local Open Scope string_scope.

(** Stand-ins for the clock and for the texts of the report. *)
Definition now : string := "2026-01-01T00:00:00".
Definition clock : Z := 9.
Definition json_text (r : report) : string := "{}".
Definition csv_text (rows : list (list string)) : string :=
  String.concat "," (List.concat rows).

(** A text without the byte 255, which no UTF-8 text contains. *)
Definition utf8_ok (s : string) : bool :=
  negb (PyStr.contains (String (ascii_of_nat 255) "") s).

(** A file whose name is not UTF-8, and its move. *)
Definition odd : path := ["root"; String (ascii_of_nat 255) ".txt"].
Definition move_odd : op := mkOp Move odd ["root"; "txt"; String (ascii_of_nat 255) ".txt"].

(** [--organize --move --duplicates --remove-duplicates --dry-run] *)
Definition dry : args := mkArgs ["root"] true true true true true "first" None [] true.

(** [--organize] alone, with a report. *)
Definition organize_only : args :=
  mkArgs ["root"] true false false false false "first"
    (Some ["root"; "report.csv"]) [] true.

(** [--remove-duplicates], without and with [--duplicates]. *)
Definition remove_only : args :=
  mkArgs ["root"] false false false false true "first" None [] true.

(** A root that does not exist. *)
Definition nowhere : args :=
  mkArgs ["missing"] true true false true true "first" None [] true.

End FxMain.
(* ------------------------------------------------------------------ *)
(** * Properties *)

(** ** Test vectors *)

(** The two standard test vectors of FIPS 180-4. *)
Example sha256_empty :
  Sha256.hexdigest [] =
  "e3b0c44298fc1c149afbf4c8996fb92427ae41e4649b934ca495991b7852b855"%string.
Proof. vm_compute. reflexivity. Qed.

Example sha256_abc :
  Sha256.hexdigest [x61; x62; x63] =
  "ba7816bf8f01cfea414140de5dae2223b00361a396177a9cb410ff61f20015ad"%string.
Proof. vm_compute. reflexivity. Qed.

Example suffix_examples :
  PyStr.suffix "a.txt" = ".txt"%string /\ PyStr.stem "a.txt" = "a"%string /\
  PyStr.suffix "archive.tar.GZ" = ".GZ"%string /\
  PyStr.suffix ".bashrc" = ""%string /\ PyStr.stem ".bashrc" = ".bashrc"%string /\
  PyStr.suffix "a." = ""%string /\ PyStr.suffix "README" = ""%string /\
  ext_of ["r"; "Photo.JPG"]%string = "jpg"%string /\
  category ["r"; "README"]%string = "no_ext"%string /\
  PyStr.dec 12 = "12"%string /\
  path_str ["home"; "u"]%string = "/home/u"%string /\ path_str [] = "/"%string /\
  PyStr.contains "lib" "/r/library_docs" = true /\ PyStr.contains "lib" "/r/docs" = false.
Proof. repeat split; reflexivity. Qed.


(** ** Strings *)

Section StringFacts.

Local Open Scope string_scope.

Lemma str_length_app (a b : string) :
  String.length (a ++ b) = (String.length a + String.length b)%nat.
Proof. induction a as [|c a IH]; simpl; [reflexivity | now rewrite IH]. Qed.

Lemma str_app_assoc (a b c : string) : (a ++ b) ++ c = a ++ (b ++ c).
Proof. induction a as [|x a IH]; simpl; [reflexivity | now rewrite IH]. Qed.

Lemma str_app_nil_r (a : string) : a ++ "" = a.
Proof. induction a as [|x a IH]; simpl; [reflexivity | now rewrite IH]. Qed.

Lemma str_app_inv_head (s a b : string) : s ++ a = s ++ b -> a = b.
Proof.
  induction s as [|c s IH]; simpl; intros H; [exact H|].
  injection H as H. auto.
Qed.

Lemma str_app_inv_tail (t a b : string) : a ++ t = b ++ t -> a = b.
Proof.
  revert b. induction a as [|c a IH]; intros [|d b] H; simpl in H.
  - reflexivity.
  - apply (f_equal String.length) in H. simpl in H.
    rewrite str_length_app in H. lia.
  - apply (f_equal String.length) in H. simpl in H.
    rewrite str_length_app in H. lia.
  - injection H as -> H. f_equal. auto.
Qed.

Lemma prefix_app (a b : string) : String.prefix a (a ++ b) = true.
Proof.
  induction a as [|c a IH]; simpl.
  - destruct b; reflexivity.
  - destruct (ascii_dec c c); [exact IH | congruence].
Qed.

Lemma contains_prefix (sub s : string) :
  String.prefix sub s = true -> PyStr.contains sub s = true.
Proof. intros H. destruct s; cbn [PyStr.contains]; rewrite H; reflexivity. Qed.

Lemma contains_app (sub a b : string) :
  PyStr.contains sub (a ++ sub ++ b) = true.
Proof.
  induction a as [|c a IH].
  - cbn [append]. apply contains_prefix, prefix_app.
  - cbn [append PyStr.contains]. rewrite IH. apply orb_true_r.
Qed.

Lemma dec_inj (j k : nat) : PyStr.dec j = PyStr.dec k -> j = k.
Proof.
  unfold PyStr.dec. intros H.
  apply (f_equal NilEmpty.uint_of_string) in H.
  rewrite !NilEmpty.usu in H. injection H as H.
  apply (f_equal Nat.of_uint) in H.
  now rewrite !DecimalNat.Unsigned.of_to in H.
Qed.

Lemma substring_split (s : string) (i : nat) :
  (i <= String.length s)%nat ->
  substring 0 i s ++ substring i (String.length s - i) s = s.
Proof.
  revert i. induction s as [|c s IH]; intros [|i] H; simpl in *; try lia.
  - reflexivity.
  - f_equal. clear. induction s as [|c s IH]; simpl; [reflexivity | now f_equal].
  - f_equal. apply IH. lia.
Qed.

Lemma stem_suffix (n : string) : PyStr.stem n ++ PyStr.suffix n = n.
Proof.
  unfold PyStr.stem, PyStr.suffix, PyStr.split_index.
  destruct (PyStr.rfind_dot n) as [i|]; [|apply str_app_nil_r].
  destruct ((0 <? i)%nat && (i <? String.length n - 1)%nat) eqn:E;
    [|apply str_app_nil_r].
  apply andb_true_iff in E as [_ E]. apply Nat.ltb_lt in E.
  apply substring_split. lia.
Qed.

End StringFacts.

Section PathFacts.

Local Open Scope string_scope.

Lemma prefix_app_r (sub s t : string) :
  String.prefix sub s = true -> String.prefix sub (s ++ t) = true.
Proof.
  revert s. induction sub as [|c sub IH]; intros [|d s] H; simpl in *;
    try discriminate.
  - destruct t; reflexivity.
  - reflexivity.
  - destruct (ascii_dec c d); [auto | discriminate].
Qed.

Lemma contains_app_r (sub s t : string) :
  PyStr.contains sub s = true -> PyStr.contains sub (s ++ t) = true.
Proof.
  induction s as [|c s IH]; cbn [PyStr.contains append]; intros H.
  - rewrite orb_false_r in H. apply contains_prefix.
    apply (prefix_app_r sub "" t H).
  - apply orb_true_iff in H as [H|H].
    + apply (prefix_app_r _ _ t) in H. cbn [append] in H. now rewrite H.
    + rewrite (IH H). apply orb_true_r.
Qed.

Lemma contains_app_l (sub a s : string) :
  PyStr.contains sub s = true -> PyStr.contains sub (a ++ s) = true.
Proof.
  intros H. induction a as [|c a IH]; cbn [PyStr.contains append];
    [exact H | rewrite IH; apply orb_true_r].
Qed.

Lemma concat_cons (x : string) (l : list string) :
  exists t, String.concat "/" (x :: l) = x ++ t.
Proof.
  destruct l as [|y l]; simpl.
  - exists "". now rewrite str_app_nil_r.
  - eexists. reflexivity.
Qed.

Lemma concat_app (d rest : path) :
  d <> [] -> exists t, String.concat "/" (d ++ rest)%list = String.concat "/" d ++ t.
Proof.
  induction d as [|x d IH]; intros Hd; [congruence|].
  destruct d as [|y d].
  - apply concat_cons.
  - destruct IH as [t IH]; [discriminate|].
    exists t. change ((x :: y :: d) ++ rest)%list with (x :: (y :: d) ++ rest)%list.
    change ((y :: d) ++ rest)%list with (y :: (d ++ rest))%list in *.
    cbn [String.concat] in *. rewrite IH. now rewrite !str_app_assoc.
Qed.

(** The rendering of a directory is a prefix of the rendering of every
    path below it. *)
Lemma path_str_app (d rest : path) :
  exists t, path_str (d ++ rest)%list = path_str d ++ t.
Proof.
  unfold path_str. destruct d as [|x d].
  - simpl. eexists. reflexivity.
  - destruct (concat_app (x :: d) rest) as [t ->]; [discriminate|].
    exists t. now rewrite str_app_assoc.
Qed.

(** Every component of a path occurs in its rendering. *)
Lemma path_str_segment (seg : string) (d : path) :
  In seg d -> exists a b, path_str d = a ++ seg ++ b.
Proof.
  unfold path_str. induction d as [|x d IH]; [intros [] | intros [->|H]].
  - destruct (concat_cons seg d) as [t ->]. exists "/", t. reflexivity.
  - destruct (IH H) as (a & b & E).
    destruct d as [|y d]; [destruct H|].
    change ("/" ++ String.concat "/" (y :: d)) with (String "/" (String.concat "/" (y :: d))) in E.
    exists ("/" ++ x ++ a), b.
    change (String.concat "/" (x :: y :: d))
      with (x ++ String "/" (String.concat "/" (y :: d))).
    rewrite E. cbn [append]. now rewrite !str_app_assoc.
Qed.

Lemma contains_segment (ig seg : string) (d : path) :
  In seg d -> PyStr.contains ig seg = true ->
  PyStr.contains ig (path_str d) = true.
Proof.
  intros Hin Hc. destruct (path_str_segment seg d Hin) as (a & b & ->).
  apply contains_app_l, contains_app_r, Hc.
Qed.

Lemma ignored_prefix (ign : list string) (d rest : path) :
  ignored ign d = true -> ignored ign (d ++ rest)%list = true.
Proof.
  unfold ignored. rewrite !existsb_exists. intros (ig & Hin & Hc).
  exists ig. split; [exact Hin|].
  destruct (path_str_app d rest) as [t ->]. now apply contains_app_r.
Qed.

Lemma parent_snoc (d : path) (x : string) : parent (d ++ [x])%list = d.
Proof. apply removelast_last. Qed.

Lemma name_snoc (d : path) (x : string) : name (d ++ [x])%list = x.
Proof. apply last_last. Qed.

End PathFacts.

(** ** The scan *)

Lemma scan_dir_spec (fs : node) (dirpath : path) (fnames : list string)
  (files : list path) :
  scan_dir fs dirpath fnames files =
  files ++ filter (Fs.is_file fs) (map (fun x => dirpath ++ [x]) fnames).
Proof.
  unfold scan_dir. revert files.
  induction fnames as [|x fnames IH]; intros files; simpl.
  - now rewrite app_nil_r.
  - rewrite IH. destruct (Fs.is_file fs (dirpath ++ [x])); simpl;
      [now rewrite <- app_assoc | reflexivity].
Qed.

(** Every scanned file was listed in a directory that is not ignored. *)
Lemma scan_loop_not_ignored fs recursive ign w files :
  (forall f, In f files -> ignored ign (parent f) = false) ->
  forall f, In f (scan_loop fs recursive ign w files) ->
            ignored ign (parent f) = false.
Proof.
  revert files. induction w as [|[[dirpath dnames] fnames] w IH];
    intros files Hfiles f; simpl.
  - apply Hfiles.
  - destruct (ignored ign dirpath) eqn:Hig; [now apply IH|].
    assert (Hstep : forall g, In g (scan_dir fs dirpath fnames files) ->
                              ignored ign (parent g) = false).
    { intros g. rewrite scan_dir_spec, in_app_iff, filter_In, in_map_iff.
      intros [Hg | [(x & <- & _) _]]; [now apply Hfiles|].
      now rewrite parent_snoc. }
    destruct recursive; simpl; [now apply IH | apply Hstep].
Qed.

Lemma scan_files_run root recursive ign fs :
  scan_files root recursive ign fs =
  (Ok (scan_files_in fs root recursive ign), fs).
Proof. reflexivity. Qed.

Lemma scan_files_not_ignored fs root recursive ign f :
  In f (scan_files_in fs root recursive ign) -> ignored ign (parent f) = false.
Proof.
  apply scan_loop_not_ignored. intros g [].
Qed.

(** ** The directory tree *)

Section TreeFacts.

Lemma find_entry_put_same s v es : Fs.find_entry s (Fs.put_entry s v es) = Some v.
Proof.
  induction es as [|[s' c] es IH]; simpl.
  - now rewrite String.eqb_refl.
  - destruct (String.eqb s' s) eqn:E; simpl.
    + now rewrite String.eqb_refl.
    + now rewrite E.
Qed.

Lemma find_entry_put_other s t v es :
  s <> t -> Fs.find_entry t (Fs.put_entry s v es) = Fs.find_entry t es.
Proof.
  intros Hne. induction es as [|[s' c] es IH]; simpl.
  - apply String.eqb_neq in Hne. now rewrite Hne.
  - destruct (String.eqb s' s) eqn:E; simpl.
    + apply String.eqb_eq in E. subst s'.
      apply String.eqb_neq in Hne. now rewrite Hne.
    + now rewrite IH.
Qed.

Lemma find_entry_del_same s es : Fs.find_entry s (Fs.del_entry s es) = None.
Proof.
  induction es as [|[s' c] es IH]; simpl; [reflexivity|].
  destruct (String.eqb s' s) eqn:E; simpl; [exact IH | now rewrite E].
Qed.

Lemma find_entry_del_other s t es :
  s <> t -> Fs.find_entry t (Fs.del_entry s es) = Fs.find_entry t es.
Proof.
  intros Hne. induction es as [|[s' c] es IH]; simpl; [reflexivity|].
  destruct (String.eqb s' s) eqn:E; simpl.
  - apply String.eqb_eq in E. subst s'.
    apply String.eqb_neq in Hne. now rewrite Hne.
  - now rewrite IH.
Qed.

Lemma find_entry_In s c es : Fs.find_entry s es = Some c -> In (s, c) es.
Proof.
  induction es as [|[s' c'] es IH]; simpl; [discriminate|].
  destruct (String.eqb s' s) eqn:E.
  - apply String.eqb_eq in E. intros [= ->]. left. now subst.
  - auto.
Qed.

Lemma path_eqb_eq p q : path_eqb p q = true <-> p = q.
Proof. unfold path_eqb. destruct (list_eq_dec string_dec p q); split; congruence. Qed.

Lemma path_eqb_refl p : path_eqb p p = true.
Proof. now apply path_eqb_eq. Qed.

Lemma path_eqb_neq p q : path_eqb p q = false <-> p <> q.
Proof. unfold path_eqb. destruct (list_eq_dec string_dec p q); split; congruence. Qed.

(** Removing a regular file changes what is found at its path only. *)
Lemma delete_file_meta p : forall fs fs' f,
  Fs.find_node fs p = Some (File f) ->
  Fs.delete_node fs p = Some fs' ->
  forall q, find_meta fs' q = if path_eqb q p then None else find_meta fs q.
Proof.
  unfold find_meta.
  induction p as [|s p IH]; intros fs fs' f Hf Hd q; [discriminate|].
  destruct fs as [g|st es]; [discriminate|].
  simpl in Hf, Hd. destruct (Fs.find_entry s es) as [c|] eqn:Hc; [|discriminate].
  destruct q as [|t q].
  - simpl. destruct p; [injection Hd as <-; reflexivity|].
    destruct (Fs.delete_node c (s0 :: p)); [|discriminate].
    injection Hd as <-. reflexivity.
  - destruct (string_dec s t) as [<-|Hne].
    + destruct p as [|s0 p].
      * injection Hd as <-. simpl. rewrite find_entry_del_same, Hc.
        injection Hf as ->.
        destruct q; [now rewrite path_eqb_refl|].
        simpl. destruct (path_eqb _ _); reflexivity.
      * destruct (Fs.delete_node c (s0 :: p)) as [c'|] eqn:Hd'; [|discriminate].
        injection Hd as <-. simpl. rewrite find_entry_put_same, Hc.
        rewrite (IH c c' f Hf Hd' q).
        destruct (path_eqb q (s0 :: p)) eqn:E.
        -- apply path_eqb_eq in E. subst q. now rewrite path_eqb_refl.
        -- apply path_eqb_neq in E.
           assert (E' : path_eqb (s :: q) (s :: s0 :: p) = false)
             by (apply path_eqb_neq; congruence).
           now rewrite E'.
    + assert (E : path_eqb (t :: q) (s :: p) = false)
        by (apply path_eqb_neq; congruence).
      rewrite E. destruct p as [|s0 p].
      * injection Hd as <-. simpl. now rewrite find_entry_del_other.
      * destruct (Fs.delete_node c (s0 :: p)) as [c'|]; [|discriminate].
        injection Hd as <-. simpl. now rewrite find_entry_put_other.
Qed.

(** A regular file below the root can be removed. *)
Lemma delete_file_succeeds p : forall fs f,
  Fs.find_node fs p = Some (File f) -> p <> [] ->
  exists fs', Fs.delete_node fs p = Some fs'.
Proof.
  induction p as [|s p IH]; intros fs f Hf Hp; [congruence|].
  destruct fs as [g|st es]; [discriminate|].
  simpl in *. destruct (Fs.find_entry s es) as [c|]; [|discriminate].
  destruct p as [|s0 p]; [eexists; reflexivity|].
  destruct (IH c f Hf) as [c' ->]; [discriminate|]. eexists; reflexivity.
Qed.

(** [mkdir -p] leaves every existing node as it is and adds directories. *)
Lemma mkdirs_meta p : forall fs fs',
  Fs.mkdirs fs p = inr fs' ->
  forall q, find_meta fs' q =
            match find_meta fs q with
            | Some m => Some m
            | None => if is_prefix q p then Some (inr Fs.new_dir) else None
            end.
Proof.
  unfold find_meta.
  assert (Hfresh : forall p q,
            option_map meta (Fs.find_node (Fs.fresh_dirs p) q)
            = if is_prefix q p then Some (inr Fs.new_dir) else None).
  { clear. induction p as [|s p IH]; intros [|t q]; simpl; try reflexivity.
    rewrite (String.eqb_sym s t). destruct (String.eqb t s); simpl; [apply IH | reflexivity]. }
  induction p as [|s p IH]; intros fs fs' Hm q.
  - simpl in Hm. destruct fs; [discriminate|]. injection Hm as <-.
    destruct (option_map meta (Fs.find_node (Dir st entries) q)) eqn:E; [reflexivity|].
    destruct q; [discriminate | reflexivity].
  - destruct fs as [g|st es]; [discriminate|]. simpl in Hm.
    destruct (Fs.find_entry s es) as [c|] eqn:Hc.
    + destruct (Fs.mkdirs c p) as [e|c'] eqn:Hm'; [discriminate|].
      injection Hm as <-. destruct q as [|t q]; [reflexivity|].
      destruct (string_dec s t) as [<-|Hne].
      * simpl. rewrite find_entry_put_same, Hc, String.eqb_refl. simpl.
        apply (IH c c' Hm' q).
      * simpl. rewrite find_entry_put_other by exact Hne.
        apply String.eqb_neq in Hne. rewrite String.eqb_sym, Hne. simpl.
        destruct (Fs.find_entry t es) as [c0|]; [|reflexivity].
        destruct (option_map meta (Fs.find_node c0 q)); reflexivity.
    + injection Hm as <-. destruct q as [|t q]; [reflexivity|].
      destruct (string_dec s t) as [<-|Hne].
      * simpl. rewrite find_entry_put_same, Hc, String.eqb_refl. simpl.
        apply Hfresh.
      * simpl. rewrite find_entry_put_other by exact Hne.
        apply String.eqb_neq in Hne. rewrite String.eqb_sym, Hne. simpl.
        destruct (Fs.find_entry t es) as [c0|]; [|reflexivity].
        destruct (option_map meta (Fs.find_node c0 q)); reflexivity.
Qed.

Lemma find_file_meta fs p :
  Fs.find_file fs p = match find_meta fs p with Some (inl f) => Some f | _ => None end.
Proof.
  unfold Fs.find_file, find_meta. destruct (Fs.find_node fs p) as [[f|st es]|]; reflexivity.
Qed.

Lemma path_exists_meta fs p :
  Fs.path_exists fs p = match find_meta fs p with Some _ => true | None => false end.
Proof. unfold Fs.path_exists, find_meta. destruct (Fs.find_node fs p); reflexivity. Qed.

Lemma mtime_at_meta fs p :
  mtime_at fs p = option_map (fun m => match m with inl f => mtime f | inr st => d_mtime st end)
                    (find_meta fs p).
Proof. unfold mtime_at, find_meta. destruct (Fs.find_node fs p) as [[f|st es]|]; reflexivity. Qed.

(** Directory creation neither adds, removes nor alters a regular file. *)
Lemma mkdirs_find_file p fs fs' q :
  Fs.mkdirs fs p = inr fs' -> Fs.find_file fs' q = Fs.find_file fs q.
Proof.
  intros Hm. rewrite !find_file_meta, (mkdirs_meta p fs fs' Hm q).
  destruct (find_meta fs q) as [m|]; [reflexivity|].
  destruct (is_prefix q p); reflexivity.
Qed.

Lemma shrunk_refl fs : shrunk fs fs.
Proof. intros q. now right. Qed.

Lemma shrunk_trans fs1 fs2 fs3 : shrunk fs1 fs2 -> shrunk fs2 fs3 -> shrunk fs1 fs3.
Proof.
  intros H12 H23 q. destruct (H23 q) as [H|H]; [now left|].
  rewrite H. apply H12.
Qed.

End TreeFacts.

(** ** The monad *)

Lemma bind_inv {A B} (m : M A) (k : A -> M B) fs r fs' :
  bind m k fs = (r, fs') ->
  (exists a fs1, m fs = (Ok a, fs1) /\ k a fs1 = (r, fs')) \/
  (exists e, m fs = (Raise e, fs') /\ r = Raise e).
Proof.
  unfold bind. destruct (m fs) as [[a|e] fs1]; intros H.
  - left. eauto.
  - right. injection H as <- <-. eauto.
Qed.

Lemma bind_ok_inv {A B} (m : M A) (k : A -> M B) fs b fs' :
  bind m k fs = (Ok b, fs') ->
  exists a fs1, m fs = (Ok a, fs1) /\ k a fs1 = (Ok b, fs').
Proof.
  intros H. apply bind_inv in H as [H | (e & _ & H)]; [exact H | discriminate].
Qed.

Lemma bind_ext {A B} (m : M A) (k1 k2 : A -> M B) fs :
  (forall a fs1, k1 a fs1 = k2 a fs1) -> bind m k1 fs = bind m k2 fs.
Proof. intros H. unfold bind. destruct (m fs) as [[a|e] fs1]; auto. Qed.

Lemma bind_ext_l {A B} (m1 m2 : M A) (k : A -> M B) fs :
  (forall fs1, m1 fs1 = m2 fs1) -> bind m1 k fs = bind m2 k fs.
Proof. intros H. unfold bind. now rewrite H. Qed.

Lemma bind_ok {A B} (m : M A) (k : A -> M B) fs a fs1 :
  m fs = (Ok a, fs1) -> bind m k fs = k a fs1.
Proof. unfold bind. now intros ->. Qed.

Lemma bind_raise {A B} (m : M A) (k : A -> M B) fs e fs1 :
  m fs = (Raise e, fs1) -> bind m k fs = (Raise e, fs1).
Proof. unfold bind. now intros ->. Qed.

Lemma read_only_ret {A} (a : A) : read_only (ret a).
Proof. intros fs r fs' [= _ <-]. reflexivity. Qed.

Lemma read_only_raise {A} e : read_only (@raise A e).
Proof. intros fs r fs' [= _ <-]. reflexivity. Qed.

Lemma read_only_gets {A} (f : node -> A) : read_only (gets f).
Proof. intros fs r fs' [= _ <-]. reflexivity. Qed.

Lemma read_only_bind {A B} (m : M A) (k : A -> M B) :
  read_only m -> (forall a, read_only (k a)) -> read_only (bind m k).
Proof.
  intros Hm Hk fs r fs' H. apply bind_inv in H as [(a & fs1 & H1 & H2) | (e & H1 & _)].
  - apply Hm in H1. subst fs1. now apply Hk in H2.
  - now apply Hm in H1.
Qed.

Lemma read_only_try {A} (m : M A) (h : exn -> M A) :
  read_only m -> (forall e, read_only (h e)) -> read_only (try_catch m h).
Proof.
  intros Hm Hh fs r fs'. unfold try_catch.
  destruct (m fs) as [[a|e] fs1] eqn:E; intros H; apply Hm in E; subst fs1.
  - now injection H as _ <-.
  - now apply Hh in H.
Qed.

Lemma read_only_os_stat {A} (field : node -> A) p : read_only (os_stat field p).
Proof.
  intros fs r fs'. unfold os_stat.
  destruct (Fs.find_node fs p); intros [= _ <-]; reflexivity.
Qed.

Lemma read_only_open_read p : read_only (open_read p).
Proof.
  intros fs r fs'. unfold open_read.
  destruct (Fs.find_node fs p) as [[f|st es]|]; [destruct (readable f)| |];
    intros [= _ <-]; reflexivity.
Qed.

Lemma read_only_compute_hash p : read_only (compute_hash p).
Proof.
  apply read_only_bind; [apply read_only_open_read | intros; apply read_only_ret].
Qed.

Lemma read_only_is_same_file a b : read_only (is_same_file a b).
Proof.
  unfold is_same_file, getsize.
  apply read_only_bind; [apply read_only_os_stat | intros sa].
  apply read_only_bind; [apply read_only_os_stat | intros sb].
  destruct (negb (sa =? sb)%Z); [apply read_only_ret|].
  apply read_only_bind; [apply read_only_compute_hash | intros ha].
  apply read_only_bind; [apply read_only_compute_hash | intros hb].
  apply read_only_ret.
Qed.

Lemma os_stat_ok {A} (field : node -> A) p fs v fs' :
  os_stat field p fs = (Ok v, fs') ->
  exists n, Fs.find_node fs p = Some n /\ v = field n.
Proof.
  unfold os_stat, os_error. destruct (Fs.find_node fs p) as [n|]; [|discriminate].
  intros [= <- _]. eauto.
Qed.

Lemma os_stat_found {A} (field : node -> A) p fs n :
  Fs.find_node fs p = Some n -> os_stat field p fs = (Ok (field n), fs).
Proof. unfold os_stat. now intros ->. Qed.

(** ** Sorting by key *)

Section SortFacts.
Context {A : Type}.

Lemma insert_by_key_perm (x : Z * A) l : Permutation (insert_by_key x l) (x :: l).
Proof.
  induction l as [|y l IH]; simpl; [reflexivity|].
  destruct (fst x <=? fst y)%Z; [reflexivity|].
  rewrite IH. apply perm_swap.
Qed.

Lemma sort_by_key_perm (l : list (Z * A)) : Permutation (sort_by_key l) l.
Proof.
  induction l as [|x l IH]; simpl; [reflexivity|].
  rewrite insert_by_key_perm. now constructor.
Qed.

Lemma insert_by_key_sorted (x : Z * A) l :
  StronglySorted key_le l -> StronglySorted key_le (insert_by_key x l).
Proof.
  induction l as [|y l IH]; intros Hs; simpl.
  - constructor; constructor.
  - inversion Hs as [|y' l' Hs' Hall]; subst.
    destruct (fst x <=? fst y)%Z eqn:E.
    + apply Z.leb_le in E. constructor; [exact Hs|].
      constructor; [exact E|].
      eapply Forall_impl; [|exact Hall]. unfold key_le. intros; lia.
    + apply Z.leb_gt in E. constructor; [now apply IH|].
      eapply Permutation_Forall; [symmetry; apply insert_by_key_perm|].
      constructor; [unfold key_le; lia | exact Hall].
Qed.

Lemma sort_by_key_sorted (l : list (Z * A)) : StronglySorted key_le (sort_by_key l).
Proof.
  induction l as [|x l IH]; simpl; [constructor | now apply insert_by_key_sorted].
Qed.

End SortFacts.

(** ** Removing duplicates *)

Lemma meta_st_mtime n n' : meta n = meta n' -> Fs.st_mtime n = Fs.st_mtime n'.
Proof. destruct n, n'; simpl; congruence. Qed.

Lemma meta_st_size n n' : meta n = meta n' -> Fs.st_size n = Fs.st_size n'.
Proof. destruct n, n'; simpl; congruence. Qed.

Lemma shrunk_mtime_at fs0 fs p k :
  shrunk fs0 fs -> mtime_at fs p = Some k -> mtime_at fs0 p = Some k.
Proof.
  intros Hs. rewrite !mtime_at_meta. destruct (Hs p) as [H|H]; rewrite H; [discriminate|auto].
Qed.

Lemma os_remove_spec p fs r fs' :
  os_remove p fs = (r, fs') ->
  shrunk fs fs' /\
  (forall q, q <> p -> find_meta fs' q = find_meta fs q) /\
  (forall e, r = Raise e -> fs' = fs).
Proof.
  unfold os_remove, os_error.
  destruct (Fs.find_node fs p) as [[f|st es]|] eqn:Hf.
  - destruct (locked f).
    + intros [= <- <-]. split; [apply shrunk_refl | auto].
    + destruct (Fs.delete_node fs p) as [fs1|] eqn:Hd.
      * intros [= <- <-].
        pose proof (delete_file_meta p fs fs1 f Hf Hd) as Hm.
        split; [|split].
        -- intros q. rewrite Hm. destruct (path_eqb q p); auto.
        -- intros q Hq. rewrite Hm. apply path_eqb_neq in Hq. now rewrite Hq.
        -- discriminate.
      * intros [= <- <-]. split; [apply shrunk_refl | auto].
  - intros [= <- <-]. split; [apply shrunk_refl | auto].
  - intros [= <- <-]. split; [apply shrunk_refl | auto].
Qed.

Lemma remove_loop_spec h keeper dry l : forall acc fs,
  exists rs fs',
    remove_loop h keeper dry l acc fs = (Ok (acc ++ rs), fs') /\
    map r_removed rs = l /\
    Forall (fun r => r_hash r = h /\ r_kept r = keeper) rs /\
    shrunk fs fs' /\
    (forall q, ~ In q l -> find_meta fs' q = find_meta fs q) /\
    (dry = true -> fs' = fs /\ Forall (fun r => r_error r = None) rs).
Proof.
  induction l as [|p l IH]; intros acc fs.
  - exists [], fs. simpl. rewrite app_nil_r.
    repeat split; auto using shrunk_refl.
  - cbn [remove_loop]. destruct dry.
    + destruct (IH (acc ++ [mkRemoval h p keeper None]) fs)
        as (rs & fs' & Hrun & Hmap & Hall & Hsh & Hfr & Hdry).
      exists (mkRemoval h p keeper None :: rs), fs'.
      unfold bind at 1. cbn [ret]. rewrite Hrun, <- app_assoc.
      destruct (Hdry eq_refl) as [-> Hnone].
      repeat split; simpl; auto; try congruence.
    + destruct (os_remove p fs) as [[[]|e] fs1] eqn:Hrm.
      * destruct (os_remove_spec _ _ _ _ Hrm) as (Hs1 & Hf1 & _).
        destruct (IH (acc ++ [mkRemoval h p keeper None]) fs1)
          as (rs & fs' & Hrun & Hmap & Hall & Hsh & Hfr & _).
        exists (mkRemoval h p keeper None :: rs), fs'.
        unfold bind at 1, try_catch, bind at 1. rewrite Hrm. cbn [ret].
        rewrite Hrun, <- app_assoc.
        repeat split; simpl; auto; try congruence.
        -- eapply shrunk_trans; eauto.
        -- intros q Hq. rewrite Hfr by tauto. apply Hf1. intros ->. tauto.
      * destruct (os_remove_spec _ _ _ _ Hrm) as (Hs1 & Hf1 & _).
        destruct (IH (acc ++ [mkRemoval h p keeper (Some e)]) fs1)
          as (rs & fs' & Hrun & Hmap & Hall & Hsh & Hfr & _).
        exists (mkRemoval h p keeper (Some e) :: rs), fs'.
        unfold bind at 1, try_catch, bind at 1. rewrite Hrm. cbn [ret].
        rewrite Hrun, <- app_assoc.
        repeat split; simpl; auto; try congruence.
        -- eapply shrunk_trans; eauto.
        -- intros q Hq. rewrite Hfr by tauto. apply Hf1. intros ->. tauto.
Qed.

Lemma read_only_mtime_keys l : read_only (mtime_keys l).
Proof.
  induction l as [|p l IH]; [apply read_only_ret|].
  cbn [mtime_keys].
  apply read_only_bind; [apply read_only_os_stat | intros k].
  apply read_only_bind; [exact IH | intros ks; apply read_only_ret].
Qed.

Lemma mtime_keys_ok l : forall fs ks fs',
  mtime_keys l fs = (Ok ks, fs') ->
  map snd ks = l /\ Forall (fun kp => mtime_at fs (snd kp) = Some (fst kp)) ks.
Proof.
  induction l as [|p l IH]; intros fs ks fs' H.
  - injection H as <- _. split; constructor.
  - cbn [mtime_keys] in H.
    apply bind_ok_inv in H as (k & fs1 & Hk & H).
    pose proof (read_only_os_stat _ _ _ _ _ Hk) as ->.
    apply os_stat_ok in Hk as (n & Hn & ->).
    apply bind_ok_inv in H as (ks' & fs2 & Hks & H).
    injection H as <- _.
    destruct (IH _ _ _ Hks) as [Hmap Hall].
    split; [simpl; congruence|].
    constructor; [|exact Hall]. unfold mtime_at. simpl. now rewrite Hn.
Qed.

Lemma mtime_keys_total l fs :
  Forall (fun p => Fs.path_exists fs p = true) l ->
  exists ks, mtime_keys l fs = (Ok ks, fs).
Proof.
  induction l as [|p l IH]; intros Hall.
  - eexists. reflexivity.
  - inversion Hall as [|p' l' Hp Hl]; subst.
    destruct (IH Hl) as [ks Hks].
    unfold Fs.path_exists in Hp.
    destruct (Fs.find_node fs p) as [n|] eqn:Hn; [|discriminate].
    exists ((Fs.st_mtime n, p) :: ks). cbn [mtime_keys].
    rewrite (bind_ok _ _ _ _ _ (os_stat_found Fs.st_mtime p fs n Hn)).
    rewrite (bind_ok _ _ _ _ _ Hks). reflexivity.
Qed.

Lemma strongly_sorted_map {X Y} (R : X -> X -> Prop) (R' : Y -> Y -> Prop)
  (P : X -> Prop) (f : X -> Y) (l : list X) :
  (forall x y, P x -> P y -> R x y -> R' (f x) (f y)) ->
  Forall P l -> StronglySorted R l -> StronglySorted R' (map f l).
Proof.
  intros HR HP Hs. induction Hs as [|x l Hs IH Hx]; simpl; [constructor|].
  inversion HP as [|x' l' Px Pl]; subst.
  constructor; [now apply IH|].
  apply Forall_map. rewrite Forall_forall in *. auto.
Qed.

Lemma strongly_sorted_impl {X} (R R' : X -> X -> Prop) (l : list X) :
  (forall x y, R x y -> R' x y) -> StronglySorted R l -> StronglySorted R' l.
Proof.
  intros HR Hs. induction Hs as [|x l Hs IH Hx]; constructor; auto.
  eapply Forall_impl; [|exact Hx]. auto.
Qed.

Lemma sorted_by_mtime_ok plist fs sorted_list fs' :
  sorted_by_mtime plist fs = (Ok sorted_list, fs') ->
  fs' = fs /\ Permutation sorted_list plist /\
  StronglySorted (mtime_le fs) sorted_list /\
  Forall (fun p => mtime_le fs p p) sorted_list.
Proof.
  unfold sorted_by_mtime. intros H.
  apply bind_ok_inv in H as (ks & fs1 & Hks & H).
  pose proof (read_only_mtime_keys _ _ _ _ Hks) as ->.
  injection H as <- <-.
  destruct (mtime_keys_ok _ _ _ _ Hks) as [Hmap Hall].
  assert (Hall' : Forall (fun kp => mtime_at fs (snd kp) = Some (fst kp)) (sort_by_key ks))
    by (eapply Permutation_Forall; [symmetry; apply sort_by_key_perm | exact Hall]).
  split; [reflexivity|]. split; [|split].
  - rewrite <- Hmap. apply Permutation_map, sort_by_key_perm.
  - apply (strongly_sorted_map key_le (mtime_le fs)
             (fun kp => mtime_at fs (snd kp) = Some (fst kp))).
    + intros x y Hx Hy Hle. unfold mtime_le. now rewrite Hx, Hy.
    + exact Hall'.
    + apply sort_by_key_sorted.
  - apply Forall_map. eapply Forall_impl; [|exact Hall'].
    intros kp Hkp. unfold mtime_le. rewrite Hkp. lia.
Qed.

Lemma select_ok keep sorted_list fs keeper to_remove fs' :
  select keep sorted_list fs = (Ok (keeper, to_remove), fs') ->
  fs' = fs /\ selected keep sorted_list keeper to_remove.
Proof.
  unfold select, selected.
  destruct (String.eqb keep "first") eqn:E1.
  - apply String.eqb_eq in E1. subst keep. simpl.
    destruct sorted_list; [discriminate|]. intros [= <- <- <-]. auto.
  - destruct (String.eqb keep "latest") eqn:E2.
    + destruct sorted_list as [|x l]; [discriminate|]. intros [= <- <- <-].
      split; [reflexivity|].
      exact (@app_removelast_last _ (x :: l) [] ltac:(discriminate)).
    + destruct sorted_list; [discriminate|]. intros [= <- <- <-]. auto.
Qed.

Lemma select_total keep sorted_list fs :
  sorted_list <> [] -> exists kt, select keep sorted_list fs = (Ok kt, fs).
Proof.
  intros Hne. unfold select.
  destruct sorted_list as [|x l]; [congruence|].
  destruct (String.eqb keep "first"); [|destruct (String.eqb keep "latest")];
    eexists; reflexivity.
Qed.

Lemma mtime_le_shrunk fs0 fs p q :
  shrunk fs0 fs -> mtime_le fs p q -> mtime_le fs0 p q.
Proof.
  unfold mtime_le. intros Hs.
  destruct (mtime_at fs p) as [a|] eqn:Ha; [|tauto].
  destruct (mtime_at fs q) as [b|] eqn:Hb; [|tauto].
  now rewrite (shrunk_mtime_at _ _ _ _ Hs Ha), (shrunk_mtime_at _ _ _ _ Hs Hb).
Qed.

(** Each group contributes its own records, in the order of the groups. *)
Lemma remove_groups_decompose keep dry fs0 dups : forall acc fs recs fs',
  shrunk fs0 fs ->
  remove_groups dups keep dry acc fs = (Ok recs, fs') ->
  exists rss,
    recs = acc ++ List.concat rss /\
    Forall2 (group_records fs0 keep) dups rss /\
    shrunk fs0 fs'.
Proof.
  induction dups as [|[h plist] dups IH]; intros acc fs recs fs' Hs H.
  - injection H as <- <-. exists []. simpl. rewrite app_nil_r. auto.
  - cbn [remove_groups] in H.
    apply bind_ok_inv in H as (sl & fs1 & Hsort & H).
    destruct (sorted_by_mtime_ok _ _ _ _ Hsort) as (-> & Hperm & Hsorted & Hself).
    apply bind_ok_inv in H as ([keeper to_remove] & fs2 & Hsel & H).
    destruct (select_ok _ _ _ _ _ _ Hsel) as (-> & Hselected).
    apply bind_ok_inv in H as (removed' & fs3 & Hloop & H).
    cbn [fst snd] in Hloop.
    destruct (remove_loop_spec h keeper dry to_remove acc fs)
      as (rs & fs3' & Hrun & Hmap & Hall & Hsh & _).
    rewrite Hrun in Hloop. injection Hloop as <- <-.
    destruct (IH _ _ _ _ (shrunk_trans _ _ _ Hs Hsh) H) as (rss & -> & Hf2 & Hs').
    exists (rs :: rss). split; [simpl; now rewrite app_assoc|].
    split; [|exact Hs'].
    constructor; [|exact Hf2].
    exists sl, keeper, to_remove. cbn [fst snd].
    repeat split; auto.
    + eapply strongly_sorted_impl; [|exact Hsorted].
      intros p q. now apply mtime_le_shrunk.
    + eapply Forall_impl; [|exact Hself].
      intros p. now apply mtime_le_shrunk.
Qed.

Lemma selected_cases keep sl keeper to_remove :
  selected keep sl keeper to_remove ->
  In keeper sl /\ List.length sl = S (List.length to_remove) /\
  incl to_remove sl /\ (NoDup sl -> ~ In keeper to_remove).
Proof.
  unfold selected. destruct (String.eqb keep "latest"); intros ->.
  - repeat split.
    + apply in_or_app. right. now left.
    + rewrite length_app. simpl. lia.
    + intros x Hx. apply in_or_app. now left.
    + intros Hnd Hin. apply NoDup_remove_2 in Hnd. apply Hnd.
      now rewrite app_nil_r.
  - repeat split.
    + now left.
    + intros x Hx. now right.
    + intros Hnd. now inversion Hnd.
Qed.

Lemma is_file_exists fs p : Fs.is_file fs p = true -> Fs.path_exists fs p = true.
Proof.
  unfold Fs.is_file, Fs.path_exists. destruct (Fs.find_node fs p); [reflexivity | discriminate].
Qed.

Lemma is_file_meta fs p :
  Fs.is_file fs p = match find_meta fs p with Some (inl _) => true | _ => false end.
Proof. unfold Fs.is_file, find_meta. destruct (Fs.find_node fs p) as [[f|st es]|]; reflexivity. Qed.

(** The errors of one [for p in to_remove] loop over distinct regular files. *)
Lemma remove_loop_errors h keeper l : forall acc fs,
  NoDup l ->
  Forall (fun p => Fs.is_file fs p = true /\ p <> []) l ->
  exists rs fs',
    remove_loop h keeper false l acc fs = (Ok (acc ++ rs), fs') /\
    Forall (error_iff_locked fs) rs.
Proof.
  induction l as [|p l IH]; intros acc fs Hnd Hall.
  - exists [], fs. simpl. rewrite app_nil_r. auto.
  - inversion Hnd as [|p' l' Hnotin Hnd']; subst.
    inversion Hall as [|p' l' [Hp Hne] Hl]; subst.
    unfold Fs.is_file in Hp.
    destruct (Fs.find_node fs p) as [[f|st es]|] eqn:Hf; try discriminate.
    cbn [remove_loop].
    assert (Hstep : exists e fs1,
               try_catch (os_remove p;;; ret (mkRemoval h p keeper None))
                 (fun e => ret (mkRemoval h p keeper (Some e))) fs
               = (Ok (mkRemoval h p keeper e), fs1) /\
               e = (if locked f then Some (OSError EACCES p) else None) /\
               forall q, q <> p -> find_meta fs1 q = find_meta fs q).
    { unfold try_catch, bind, os_remove. rewrite Hf.
      destruct (locked f).
      - do 2 eexists. repeat split.
      - destruct (delete_file_succeeds p fs f Hf Hne) as [fs1 Hd]. rewrite Hd.
        do 2 eexists. split; [reflexivity|]. split; [reflexivity|].
        intros q Hq. rewrite (delete_file_meta p fs fs1 f Hf Hd).
        apply path_eqb_neq in Hq. now rewrite Hq. }
    destruct Hstep as (e & fs1 & Hstep & He & Hframe).
    destruct (IH (acc ++ [mkRemoval h p keeper e]) fs1 Hnd') as (rs & fs' & Hrun & Herr).
    { rewrite Forall_forall in *. intros q Hq. destruct (Hl q Hq) as [Hq1 Hq2].
      split; [|exact Hq2].
      rewrite is_file_meta, Hframe in *; [exact Hq1 | intros ->; tauto]. }
    exists (mkRemoval h p keeper e :: rs), fs'.
    rewrite (bind_ok _ _ _ _ _ Hstep), Hrun, <- app_assoc.
    split; [reflexivity|].
    constructor.
    + exists f. cbn [r_removed r_error]. unfold Fs.find_file. now rewrite Hf.
    + assert (Hrem : map r_removed rs = l).
      { destruct (remove_loop_spec h keeper false l (acc ++ [mkRemoval h p keeper e]) fs1)
          as (rs' & fs'' & Hrun' & Hmap & _).
        rewrite Hrun in Hrun'. injection Hrun' as Hrs _.
        apply app_inv_head in Hrs. now subst rs'. }
      rewrite Forall_forall in *. intros r Hr.
      destruct (Herr r Hr) as (g & Hg & Hge). exists g. split; [|exact Hge].
      rewrite find_file_meta in *. rewrite <- Hframe; [exact Hg|].
      intros Heq. apply Hnotin. rewrite <- Hrem, <- Heq. now apply in_map.
Qed.

Lemma nodup_app_disjoint {X} (l1 l2 : list X) :
  NoDup (l1 ++ l2) -> forall x, In x l1 -> ~ In x l2.
Proof.
  induction l1 as [|a l1 IH]; intros Hnd x Hx; [destruct Hx|].
  simpl in Hnd. inversion Hnd as [|a' l' Ha Hnd']; subst.
  destruct Hx as [->|Hx]; [|now apply IH].
  intros Hin. apply Ha, in_or_app. now right.
Qed.

Lemma selected_perm_incl keep sl keeper to_remove plist :
  Permutation sl plist -> selected keep sl keeper to_remove -> incl to_remove plist.
Proof.
  intros Hp Hs x Hx. apply (Permutation_in _ Hp).
  now apply (selected_cases _ _ _ _ Hs).
Qed.

Lemma selected_nodup keep sl keeper to_remove :
  NoDup sl -> selected keep sl keeper to_remove -> NoDup to_remove.
Proof.
  unfold selected. destruct (String.eqb keep "latest"); intros Hnd ->.
  - now apply NoDup_app_remove_r in Hnd.
  - now inversion Hnd.
Qed.

Lemma sorted_by_mtime_total plist fs :
  Forall (fun p => Fs.path_exists fs p = true) plist ->
  exists sl, sorted_by_mtime plist fs = (Ok sl, fs).
Proof.
  intros H. destruct (mtime_keys_total plist fs H) as [ks Hks].
  eexists. unfold sorted_by_mtime. rewrite (bind_ok _ _ _ _ _ Hks). reflexivity.
Qed.

(** On groups of existing paths that share no path, the run returns. *)
Lemma remove_groups_total keep dry dups : forall acc fs,
  Forall (fun g => snd g <> [] /\
                   Forall (fun p => Fs.path_exists fs p = true) (snd g)) dups ->
  NoDup (List.concat (map snd dups)) ->
  exists recs fs', remove_groups dups keep dry acc fs = (Ok recs, fs').
Proof.
  induction dups as [|[h plist] dups IH]; intros acc fs Hall Hnd.
  - do 2 eexists. reflexivity.
  - inversion Hall as [|g l [Hne Hex] Hrest]; subst. cbn [fst snd] in *.
    simpl in Hnd.
    destruct (sorted_by_mtime_total plist fs Hex) as [sl Hsl].
    destruct (sorted_by_mtime_ok _ _ _ _ Hsl) as (_ & Hperm & _).
    destruct (select_total keep sl fs) as [[keeper to_remove] Hsel].
    { intros ->. apply Permutation_nil in Hperm. congruence. }
    destruct (select_ok _ _ _ _ _ _ Hsel) as (_ & Hselected).
    destruct (remove_loop_spec h keeper dry to_remove acc fs)
      as (rs & fs1 & Hrun & _ & _ & _ & Hframe & _).
    destruct (IH (acc ++ rs) fs1) as (recs & fs' & Hgo).
    + rewrite Forall_forall in *. intros g Hg. destruct (Hrest g Hg) as [Hg1 Hg2].
      split; [exact Hg1|]. rewrite Forall_forall in *. intros p Hp.
      rewrite path_exists_meta, Hframe; [rewrite <- path_exists_meta; auto|].
      intros Hin. apply (selected_perm_incl _ _ _ _ _ Hperm Hselected) in Hin.
      apply (nodup_app_disjoint _ _ Hnd p Hin).
      apply in_concat. exists (snd g). split; [now apply in_map | exact Hp].
    + now apply NoDup_app_remove_l in Hnd.
    + exists recs, fs'. cbn [remove_groups].
      rewrite (bind_ok _ _ _ _ _ Hsl), (bind_ok _ _ _ _ _ Hsel).
      cbn [fst snd]. now rewrite (bind_ok _ _ _ _ _ Hrun).
Qed.

(** In a run that deletes, a record carries an error exactly when its file
    is locked, and the run returns all the same. *)
Lemma remove_groups_errors keep dups : forall acc fs,
  Forall (fun g => snd g <> [] /\
                   Forall (fun p => Fs.is_file fs p = true /\ p <> []) (snd g)) dups ->
  NoDup (List.concat (map snd dups)) ->
  exists rs fs',
    remove_groups dups keep false acc fs = (Ok (acc ++ rs), fs') /\
    Forall (error_iff_locked fs) rs /\
    Forall (fun r => In (r_removed r) (List.concat (map snd dups))) rs.
Proof.
  induction dups as [|[h plist] dups IH]; intros acc fs Hall Hnd.
  - exists [], fs. simpl. rewrite app_nil_r. auto.
  - inversion Hall as [|g l [Hne Hex] Hrest]; subst. cbn [fst snd] in *.
    simpl in Hnd.
    destruct (sorted_by_mtime_total plist fs) as [sl Hsl].
    { eapply Forall_impl; [|exact Hex]. intros p [Hp _]. now apply is_file_exists. }
    destruct (sorted_by_mtime_ok _ _ _ _ Hsl) as (_ & Hperm & _).
    destruct (select_total keep sl fs) as [[keeper to_remove] Hsel].
    { intros ->. apply Permutation_nil in Hperm. congruence. }
    destruct (select_ok _ _ _ _ _ _ Hsel) as (_ & Hselected).
    pose proof (selected_perm_incl _ _ _ _ _ Hperm Hselected) as Hincl.
    destruct (remove_loop_errors h keeper to_remove acc fs) as (rs & fs1 & Hrun & Herr).
    { eapply selected_nodup; [|exact Hselected].
      eapply Permutation_NoDup; [symmetry; exact Hperm|].
      now apply NoDup_app_remove_r in Hnd. }
    { rewrite Forall_forall in *. auto. }
    destruct (remove_loop_spec h keeper false to_remove acc fs)
      as (rs' & fs1' & Hrun' & Hmap & _ & _ & Hframe & _).
    rewrite Hrun in Hrun'. injection Hrun' as Hrs <-.
    apply app_inv_head in Hrs. subst rs'.
    assert (Hdisj : forall p, In p (List.concat (map snd dups)) -> ~ In p to_remove).
    { intros p Hp Hin. exact (nodup_app_disjoint _ _ Hnd p (Hincl p Hin) Hp). }
    destruct (IH (acc ++ rs) fs1) as (rs2 & fs' & Hgo & Herr2 & Hin2).
    + rewrite Forall_forall in *. intros g Hg. destruct (Hrest g Hg) as [Hg1 Hg2].
      split; [exact Hg1|]. rewrite Forall_forall in *. intros p Hp.
      destruct (Hg2 p Hp) as [Hp1 Hp2]. split; [|exact Hp2].
      rewrite is_file_meta, Hframe; [rewrite <- is_file_meta; auto|].
      apply Hdisj. apply in_concat. exists (snd g). split; [now apply in_map | exact Hp].
    + now apply NoDup_app_remove_l in Hnd.
    + exists (rs ++ rs2), fs'. split; [|split].
      * cbn [remove_groups].
        rewrite (bind_ok _ _ _ _ _ Hsl), (bind_ok _ _ _ _ _ Hsel).
        cbn [fst snd]. rewrite (bind_ok _ _ _ _ _ Hrun), Hgo.
        now rewrite app_assoc.
      * apply Forall_app. split; [exact Herr|].
        rewrite Forall_forall in *. intros r Hr.
        destruct (Herr2 r Hr) as (f & Hf & He). exists f. split; [|exact He].
        rewrite find_file_meta in *. rewrite <- Hframe; [exact Hf|].
        apply Hdisj, Hin2, Hr.
      * apply Forall_app. split.
        -- rewrite Forall_forall. intros r Hr. simpl. apply in_or_app. left.
           apply Hincl. rewrite <- Hmap. now apply in_map.
        -- eapply Forall_impl; [|exact Hin2]. intros r Hr. simpl.
           apply in_or_app. now right.
Qed.

(** ** The destination loop *)

Lemma numbered_candidate folder f i : numbered folder f (S i) = candidate folder f (S i).
Proof. reflexivity. Qed.

Lemma candidate_name_inj f j k : candidate_name f j = candidate_name f k -> j = k.
Proof.
  assert (Hlen : forall k, candidate_name f 0 <> candidate_name f (S k)).
  { intros i H. simpl in H. apply (f_equal String.length) in H.
    rewrite <- (stem_suffix (name f)) in H at 1.
    rewrite !str_length_app in H. simpl in H. rewrite !str_length_app in H. lia. }
  destruct j as [|j], k as [|k]; intros H.
  - reflexivity.
  - now apply Hlen in H.
  - symmetry in H. now apply Hlen in H.
  - simpl in H. apply str_app_inv_head in H. simpl in H. injection H as H.
    apply str_app_inv_tail in H. now apply dec_inj in H.
Qed.

Lemma candidate_inj folder f j k : candidate folder f j = candidate folder f k -> j = k.
Proof.
  unfold candidate. intros H. apply app_inv_head in H. injection H as H.
  now apply candidate_name_inj in H.
Qed.

Lemma find_node_snoc folder x : forall fs,
  Fs.find_node fs (folder ++ [x]) =
  match Fs.find_node fs folder with
  | Some (Dir _ es) => Fs.find_entry x es
  | _ => None
  end.
Proof.
  induction folder as [|s folder IH]; intros fs; simpl.
  - destruct fs as [g|st es]; [reflexivity|].
    destruct (Fs.find_entry x es); reflexivity.
  - destruct fs as [g|st es]; [reflexivity|].
    destruct (Fs.find_entry s es) as [c|]; [apply IH | reflexivity].
Qed.

Lemma find_entry_names x es :
  Fs.find_entry x es <> None -> In x (map fst es).
Proof.
  induction es as [|[s c] es IH]; simpl; [congruence|].
  destruct (String.eqb s x) eqn:E.
  - apply String.eqb_eq in E. now left.
  - intros H. right. now apply IH.
Qed.

Lemma is_same_file_raises a b fs e fs' :
  is_same_file a b fs = (Raise e, fs') -> exists en p, e = OSError en p.
Proof.
  assert (Hstat : forall (p : path) fs e fs',
            getsize p fs = (Raise e, fs') -> exists en q, e = OSError en q).
  { intros p fs0 e0 fs0'. unfold getsize, os_stat, os_error.
    destruct (Fs.find_node fs0 p); [discriminate|]. intros [= <- _]. eauto. }
  assert (Hhash : forall (p : path) fs e fs',
            compute_hash p fs = (Raise e, fs') -> exists en q, e = OSError en q).
  { intros p fs0 e0 fs0'. unfold compute_hash, compute_hash_chunked. intros H.
    apply bind_inv in H as [(x & fs1 & _ & H) | (e1 & H & [= ->])]; [discriminate|].
    unfold open_read, os_error in H.
    destruct (Fs.find_node fs0 p) as [[g|st es]|]; [destruct (readable g)| |];
      try discriminate; injection H as <- _; eauto. }
  unfold is_same_file. intros H.
  apply bind_inv in H as [(sa & fs1 & _ & H) | (e1 & H & [= ->])]; [|eauto].
  apply bind_inv in H as [(sb & fs2 & _ & H) | (e1 & H & [= ->])]; [|eauto].
  destruct (negb (sa =? sb)%Z); [discriminate|].
  apply bind_inv in H as [(ha & fs3 & _ & H) | (e1 & H & [= ->])]; [|eauto].
  apply bind_inv in H as [(hb & fs4 & _ & H) | (e1 & H & [= ->])]; [discriminate|eauto].
Qed.

Lemma read_only_dest_loop fuel folder f : forall dest counter,
  read_only (dest_loop fuel folder f dest counter).
Proof.
  induction fuel as [|fuel IH]; intros dest counter; [apply read_only_raise|].
  cbn [dest_loop].
  apply read_only_bind; [apply read_only_gets | intros e].
  destruct e; [|apply read_only_ret].
  apply read_only_bind; [apply read_only_is_same_file | intros same].
  destruct same; [apply read_only_ret | apply IH].
Qed.

(** Where the loop stops, and what it saw on the way. *)
Lemma dest_loop_ok folder f fuel : forall i fs r fs',
  dest_loop fuel folder f (candidate folder f i) (S i) fs = (Ok r, fs') ->
  exists k, (i <= k)%nat /\
    (forall j, (i <= j < k)%nat ->
       Fs.path_exists fs (candidate folder f j) = true /\
       is_same_file (candidate folder f j) f fs = (Ok false, fs)) /\
    match r with
    | Same d =>
        d = candidate folder f k /\ Fs.path_exists fs d = true /\
        is_same_file d f fs = (Ok true, fs)
    | Free d =>
        d = candidate folder f k /\ Fs.path_exists fs d = false
    end.
Proof.
  induction fuel as [|fuel IH]; intros i fs r fs' H; [discriminate|].
  cbn [dest_loop] in H. unfold bind at 1, gets in H.
  destruct (Fs.path_exists fs (candidate folder f i)) eqn:Hex.
  - apply bind_ok_inv in H as (same & fs1 & Hsame & H).
    pose proof (read_only_is_same_file _ _ _ _ _ Hsame) as ->.
    destruct same.
    + injection H as <- _. exists i. split; [lia|]. split; [intros; lia|auto].
    + rewrite numbered_candidate in H.
      destruct (IH _ _ _ _ H) as (k & Hk & Hbefore & Hend).
      exists k. split; [lia|]. split; [|exact Hend].
      intros j Hj. destruct (Nat.eq_dec j i) as [->|Hne]; [auto|].
      apply Hbefore. lia.
  - injection H as <- _. exists i. split; [lia|]. split; [intros; lia|auto].
Qed.

(** The loop exhausts its bound only on candidates that all exist. *)
Lemma dest_loop_bound folder f fuel : forall i fs fs',
  dest_loop fuel folder f (candidate folder f i) (S i) fs = (Raise LoopBound, fs') ->
  forall j, (i <= j < i + fuel)%nat -> Fs.path_exists fs (candidate folder f j) = true.
Proof.
  induction fuel as [|fuel IH]; intros i fs fs' H j Hj; [lia|].
  cbn [dest_loop] in H. unfold bind at 1, gets in H.
  destruct (Fs.path_exists fs (candidate folder f i)) eqn:Hex; [|discriminate].
  apply bind_inv in H as [(same & fs1 & Hsame & H) | (e & Hsame & He)].
  - pose proof (read_only_is_same_file _ _ _ _ _ Hsame) as ->.
    destruct same; [discriminate|].
    rewrite numbered_candidate in H.
    destruct (Nat.eq_dec j i) as [->|Hne]; [exact Hex|].
    apply (IH _ _ _ H). lia.
  - apply is_same_file_raises in Hsame as (en & p & ->). discriminate.
Qed.

(** A directory with n entries cannot hold n + 1 distinct candidates. *)
Lemma dest_loop_terminates folder f fs fs' :
  dest_loop (S (entry_count fs folder)) folder f (candidate folder f 0) 1 fs
  <> (Raise LoopBound, fs').
Proof.
  intros H. pose proof (dest_loop_bound _ _ _ _ _ _ H) as Hall.
  set (n := entry_count fs folder) in *.
  set (names := map (candidate_name f) (seq 0 (S n))).
  assert (Hnd : NoDup names).
  { apply Finite.Injective_map_NoDup; [|apply seq_NoDup].
    intros j k. apply candidate_name_inj. }
  assert (Hincl : exists es : list (string * node), List.length es = n /\ incl names (map fst es)).
  { assert (Hn : n = entry_count fs folder) by reflexivity.
    unfold entry_count in Hn.
    destruct (Fs.find_node fs folder) as [[g|st es]|] eqn:Hf.
    - exists []. split; [now rewrite Hn|]. intros x Hx.
      apply in_map_iff in Hx as (j & <- & Hj). apply in_seq in Hj.
      specialize (Hall j Hj).
      unfold Fs.path_exists, candidate in Hall. rewrite find_node_snoc, Hf in Hall.
      discriminate.
    - exists es. split; [now rewrite Hn|]. intros x Hx.
      apply in_map_iff in Hx as (j & <- & Hj). apply in_seq in Hj.
      specialize (Hall j Hj).
      unfold Fs.path_exists, candidate in Hall. rewrite find_node_snoc, Hf in Hall.
      apply find_entry_names. destruct (Fs.find_entry _ es); [discriminate|discriminate].
    - exists []. split; [now rewrite Hn|]. intros x Hx.
      apply in_map_iff in Hx as (j & <- & Hj). apply in_seq in Hj.
      specialize (Hall j Hj).
      unfold Fs.path_exists, candidate in Hall. rewrite find_node_snoc, Hf in Hall.
      discriminate. }
  destruct Hincl as (es & Hlen & Hincl).
  apply NoDup_incl_length in Hincl; [|exact Hnd].
  unfold names in Hincl. rewrite !length_map, length_seq in Hincl. lia.
Qed.

(** ** One file of [organize_files] *)

Lemma shutil_copy2_raises src dst fs e fs' :
  shutil_copy2 src dst fs = (Raise e, fs') -> exists en p, e = OSError en p.
Proof.
  unfold shutil_copy2, os_error.
  destruct (Fs.find_node fs src) as [[f|st es]|];
    [|intros [= <- _]; eauto|intros [= <- _]; eauto].
  destruct (path_eqb src _); [intros [= <- _]; eauto|].
  destruct (negb (readable f)); [intros [= <- _]; eauto|].
  destruct (Fs.find_node fs _) as [[g|st es]|].
  - destruct (locked g); [intros [= <- _]; eauto|].
    destruct (Fs.write_node _ _ _); [discriminate | intros [= <- _]; eauto].
  - intros [= <- _]; eauto.
  - destruct (Fs.write_node _ _ _); [discriminate | intros [= <- _]; eauto].
Qed.

Lemma os_remove_raises p fs e fs' :
  os_remove p fs = (Raise e, fs') -> exists en q, e = OSError en q.
Proof.
  unfold os_remove, os_error.
  destruct (Fs.find_node fs p) as [[f|st es]|];
    [|intros [= <- _]; eauto|intros [= <- _]; eauto].
  destruct (locked f); [intros [= <- _]; eauto|].
  destruct (Fs.delete_node fs p); [discriminate | intros [= <- _]; eauto].
Qed.

Lemma shutil_move_raises src dst fs e fs' :
  shutil_move src dst fs = (Raise e, fs') -> exists en p, e = OSError en p.
Proof.
  unfold shutil_move.
  destruct (Fs.is_dir fs dst && Fs.path_exists fs (dst ++ [name src]));
    [intros [= <- _]; eauto|].
  unfold try_catch. destruct (os_rename _ _ fs) as [[[]|e0] fs0]; [discriminate|].
  intros H. apply bind_inv in H as [(u & fs1 & _ & H) | (e1 & H & [= ->])].
  - now apply os_remove_raises in H.
  - now apply shutil_copy2_raises in H.
Qed.

(** The step taken for a file that is not skipped, after the category
    folder was created. *)
Lemma organize_one_inv root target dry_run move f fs r fs' :
  organize_one root target dry_run move f fs = (r, fs') ->
  (relative_to f root = None /\ r = Raise ValueError /\ fs' = fs) \/
  (exists rel, relative_to f root = Some rel /\ already_organized rel f = true /\
               r = Ok None /\ fs' = fs) \/
  (exists rel, relative_to f root = Some rel /\ already_organized rel f = false /\
     let folder := target ++ [category f] in
     ((exists en, safe_mkdir folder fs = (Raise (OSError en folder), fs) /\
                  r = Raise (OSError en folder) /\ fs' = fs) \/
      (exists fs1, safe_mkdir folder fs = (Ok tt, fs1) /\
         ((exists en p,
             dest_loop (S (entry_count fs1 folder)) folder f (candidate folder f 0) 1 fs1
             = (Raise (OSError en p), fs1) /\
             r = Raise (OSError en p) /\ fs' = fs1) \/
          (exists k d,
             dest_loop (S (entry_count fs1 folder)) folder f (candidate folder f 0) 1 fs1
             = (Ok (Same d), fs1) /\
             search_ends fs1 folder f k (Same d) /\
             r = Ok (Some (mkOp SkipSame f d)) /\ fs' = fs1) \/
          (exists k d,
             dest_loop (S (entry_count fs1 folder)) folder f (candidate folder f 0) 1 fs1
             = (Ok (Free d), fs1) /\
             search_ends fs1 folder f k (Free d) /\
             ((exists u,
                 (if dry_run then ret tt
                  else if move then shutil_move f d else shutil_copy2 f d) fs1
                 = (Ok u, fs') /\
                 r = Ok (Some (mkOp (if negb move then Copy else Move) f d))) \/
              (exists en p,
                 (if dry_run then ret tt
                  else if move then shutil_move f d else shutil_copy2 f d) fs1
                 = (Raise (OSError en p), fs') /\
                 r = Raise (OSError en p)))))))).
Proof.
  unfold organize_one.
  destruct (relative_to f root) as [rel|]; [|intros [= <- <-]; auto].
  destruct (already_organized rel f) eqn:Hal; [intros [= <- <-]; right; left; eauto|].
  intros H. right. right. exists rel. split; [reflexivity|]. split; [exact Hal|].
  cbv zeta. set (folder := target ++ [category f]) in *.
  unfold bind at 1 in H. unfold safe_mkdir at 1 in H. unfold safe_mkdir.
  destruct (Fs.mkdirs fs folder) as [en|fs1] eqn:Hmk.
  - injection H as <- <-. left. eauto.
  - right. exists fs1. split; [reflexivity|].
    unfold bind at 1, gets in H.
    change (folder ++ [name f]) with (candidate folder f 0) in H.
    destruct (dest_loop (S (entry_count fs1 folder)) folder f (candidate folder f 0) 1 fs1)
      as [[[d|d]|e] fs2] eqn:Hloop;
      pose proof (read_only_dest_loop _ _ _ _ _ _ _ _ Hloop) as ->.
    + right. left. rewrite (bind_ok _ _ _ _ _ Hloop) in H. injection H as <- <-.
      destruct (dest_loop_ok _ _ _ _ _ _ _ Hloop) as (k & _ & Hbefore & Hend).
      exists k, d. split; [reflexivity|].
      split; [split; [intros j Hj; apply Hbefore; lia | exact Hend]|]. auto.
    + right. right. rewrite (bind_ok _ _ _ _ _ Hloop) in H.
      destruct (dest_loop_ok _ _ _ _ _ _ _ Hloop) as (k & _ & Hbefore & Hend).
      exists k, d. split; [reflexivity|].
      split; [split; [intros j Hj; apply Hbefore; lia | exact Hend]|].
      apply bind_inv in H as [(u & fs3 & Hact & H) | (e & Hact & ->)].
      * left. injection H as <- <-. eauto.
      * right.
        assert (He : exists en p, e = OSError en p).
        { destruct dry_run; [discriminate|].
          destruct move; [eapply shutil_move_raises | eapply shutil_copy2_raises]; eauto. }
        destruct He as (en & p & ->). eauto.
    + left. rewrite (bind_raise _ _ _ _ _ Hloop) in H. injection H as <- <-.
      destruct e as [en p| | |].
      * eauto.
      * exfalso. clear -Hloop. revert Hloop.
        generalize (S (entry_count fs1 folder)), 0%nat. intros n.
        induction n as [|n IH]; intros i; [discriminate|].
        cbn [dest_loop]. unfold bind at 1, gets.
        destruct (Fs.path_exists fs1 _); [|discriminate].
        intros H. apply bind_inv in H as [(same & fs2 & Hs & H) | (e & Hs & [= <-])].
        -- pose proof (read_only_is_same_file _ _ _ _ _ Hs) as ->.
           destruct same; [discriminate|]. rewrite numbered_candidate in H. eauto.
        -- apply is_same_file_raises in Hs as (en & p & [=]).
      * exfalso. clear -Hloop. revert Hloop.
        generalize (S (entry_count fs1 folder)), 0%nat. intros n.
        induction n as [|n IH]; intros i; [discriminate|].
        cbn [dest_loop]. unfold bind at 1, gets.
        destruct (Fs.path_exists fs1 _); [|discriminate].
        intros H. apply bind_inv in H as [(same & fs2 & Hs & H) | (e & Hs & [= <-])].
        -- pose proof (read_only_is_same_file _ _ _ _ _ Hs) as ->.
           destruct same; [discriminate|]. rewrite numbered_candidate in H. eauto.
        -- apply is_same_file_raises in Hs as (en & p & [=]).
      * exfalso. now apply dest_loop_terminates in Hloop.
Qed.

Lemma organize_one_src root target dry_run move f fs o fs' :
  organize_one root target dry_run move f fs = (Ok o, fs') ->
  (o = None /\ skipped root f = true) \/
  (exists x, o = Some x /\ op_src x = f /\ skipped root f = false).
Proof.
  intros H. unfold skipped.
  apply organize_one_inv in H
    as [(_ & [=] & _) | [(rel & -> & -> & [= ->] & _) | (rel & -> & -> & H)]];
    [now left|].
  right. cbv zeta in H.
  destruct H as [(en & _ & [=] & _) | (fs1 & _ & H)].
  destruct H as [(en & p & _ & [=] & _) | [(k & d & _ & _ & [= ->] & _) | H]];
    [eauto|].
  destruct H as (k & d & _ & _ & [(u & _ & [= ->]) | (en & p & _ & [=])]).
  eauto.
Qed.

(** The sources of the emitted actions are the scanned files that are not
    skipped, in scan order. *)
Lemma organize_loop_srcs root target dry_run move files : forall ops fs ops' fs',
  organize_loop root target dry_run move files ops fs = (Ok ops', fs') ->
  map op_src ops' = map op_src ops ++ filter (fun f => negb (skipped root f)) files.
Proof.
  induction files as [|f files IH]; intros ops fs ops' fs' H.
  - injection H as <- _. simpl. now rewrite app_nil_r.
  - cbn [organize_loop] in H. apply bind_ok_inv in H as (o & fs1 & Hone & H).
    apply IH in H. rewrite H. simpl.
    apply organize_one_src in Hone as [[-> ->] | (x & -> & <- & ->)]; simpl.
    + reflexivity.
    + now rewrite map_app, <- app_assoc.
Qed.

(** A run that completes met no path outside the root. *)
Lemma organize_loop_relative root target dry_run move files : forall ops fs ops' fs',
  organize_loop root target dry_run move files ops fs = (Ok ops', fs') ->
  forall f, In f files -> exists rel, relative_to f root = Some rel.
Proof.
  induction files as [|g files IH]; intros ops fs ops' fs' H f Hin; [destruct Hin|].
  cbn [organize_loop] in H. apply bind_ok_inv in H as (o & fs1 & Hone & H).
  destruct Hin as [->|Hin]; [|eauto].
  apply organize_one_inv in Hone
    as [(_ & [=] & _) | [(rel & -> & _) | (rel & -> & _)]]; eauto.
Qed.

(** ** Grouping *)

Section GroupFacts.
Context {K : Type} (eqb : K -> K -> bool).
Hypothesis eqb_eq : forall x y, eqb x y = true <-> x = y.

Lemma dd_append_keys (k : K) (v : path) (d : list (K * list path)) :
  map fst (dd_append eqb k v d) =
  if existsb (fun k' => eqb k' k) (map fst d) then map fst d else map fst d ++ [k].
Proof.
  induction d as [|[k' vs] d IH]; simpl; [reflexivity|].
  destruct (eqb k' k); simpl; [reflexivity|].
  rewrite IH. destruct (existsb _ _); reflexivity.
Qed.

Lemma dd_append_nodup (k : K) (v : path) (d : list (K * list path)) :
  NoDup (map fst d) -> NoDup (map fst (dd_append eqb k v d)).
Proof.
  intros Hnd. rewrite dd_append_keys.
  destruct (existsb (fun k' => eqb k' k) (map fst d)) eqn:E; [exact Hnd|].
  apply NoDup_app; [exact Hnd | repeat constructor; intros [] |].
  intros a Ha [Heq|[]]. subst a.
  assert (Ht : existsb (fun k' => eqb k' k) (map fst d) = true).
  { apply existsb_exists. exists k. split; [exact Ha | now apply eqb_eq]. }
  congruence.
Qed.

(** The values gathered for [k'] after one more [append]. *)
Lemma dd_append_In (k : K) (v : path) (d : list (K * list path)) k' vs' :
  NoDup (map fst d) ->
  (In (k', vs') (dd_append eqb k v d) <->
   (k' <> k /\ In (k', vs') d) \/
   (k' = k /\ ((exists vs, In (k, vs) d /\ vs' = vs ++ [v]) \/
               (~ In k (map fst d) /\ vs' = [v])))).
Proof.
  induction d as [|[k0 vs0] d IH]; intros Hnd.
  - simpl. split.
    + intros [H|[]]. injection H as <- <-. right. split; [reflexivity|]. right. auto.
    + intros [[_ []] | [-> [(vs & [] & _) | [_ ->]]]]. now left.
  - inversion Hnd as [|x l Hk0 Hnd']; subst. specialize (IH Hnd').
    assert (Hkey : forall a vs, In (a, vs) d -> In a (map fst d)).
    { intros a vs H. apply in_map_iff. exists (a, vs). auto. }
    cbn [dd_append]. destruct (eqb k0 k) eqn:E.
    + apply eqb_eq in E. subst k0. split.
      * intros [H | Hin].
        -- injection H as <- <-. right. split; [reflexivity|]. left. exists vs0.
           split; [now left | reflexivity].
        -- left. split; [|now right]. intros ->. apply Hk0. eauto.
      * intros [[Hne [H | Hin]] | [-> [(vs & [H | Hin] & ->) | [Hnot _]]]].
        -- injection H as H1 H2. exfalso. now apply Hne.
        -- now right.
        -- injection H as <-. now left.
        -- exfalso. apply Hk0. eauto.
        -- exfalso. apply Hnot. now left.
    + assert (Hne : k0 <> k).
      { intros ->. rewrite (proj2 (eqb_eq k k) eq_refl) in E. discriminate. }
      split.
      * intros [H | Hin].
        -- injection H as <- <-. left. split; [exact Hne | now left].
        -- apply IH in Hin as [[Hn Hin] | [-> [(vs & Hin & ->) | [Hnot ->]]]].
           ++ left. split; [exact Hn | now right].
           ++ right. split; [reflexivity|]. left. exists vs. split; [now right | reflexivity].
           ++ right. split; [reflexivity|]. right. split; [|reflexivity].
              simpl. intros [H|H]; [congruence | tauto].
      * intros [[Hn [H | Hin]] | [-> [(vs & [H | Hin] & ->) | [Hnot ->]]]].
        -- left. exact H.
        -- right. apply IH. left. auto.
        -- injection H as H _. congruence.
        -- right. apply IH. right. split; [reflexivity|]. left. eauto.
        -- right. apply IH. right. split; [reflexivity|]. right.
           split; [|reflexivity]. intros H. apply Hnot. now right.
Qed.

Lemma vals_snoc k kvs k0 v :
  vals eqb k (kvs ++ [(k0, v)]) = vals eqb k kvs ++ (if eqb k0 k then [v] else []).
Proof.
  unfold vals. rewrite filter_app, map_app. simpl.
  destruct (eqb k0 k); reflexivity.
Qed.

Lemma grouped_snoc d kvs k v :
  grouped eqb d kvs -> grouped eqb (dd_append eqb k v d) (kvs ++ [(k, v)]).
Proof.
  intros [Hnd Hin]. split; [now apply dd_append_nodup|].
  intros k' vs'. rewrite (dd_append_In k v d k' vs' Hnd), vals_snoc.
  assert (Hrefl : eqb k k = true) by now apply eqb_eq.
  split.
  - intros [[Hne H] | [-> [(vs & H & ->) | [Hnot ->]]]].
    + apply Hin in H as [-> Hnil].
      destruct (eqb k k') eqn:E; [apply eqb_eq in E; congruence|].
      now rewrite app_nil_r.
    + apply Hin in H as [-> Hnil]. rewrite Hrefl. split; [reflexivity|].
      intros H. now apply app_eq_nil in H as [_ [=]].
    + rewrite Hrefl. split; [|discriminate].
      destruct (vals eqb k kvs) as [|x l] eqn:E; [reflexivity|].
      exfalso. apply Hnot. apply in_map_iff. exists (k, x :: l). split; [reflexivity|].
      apply Hin. rewrite E. split; [reflexivity | discriminate].
  - intros [-> Hnil].
    destruct (eqb k k') eqn:E.
    + apply eqb_eq in E. subst k'. right. split; [reflexivity|].
      destruct (vals eqb k kvs) as [|x l] eqn:Ev.
      * right. split; [|reflexivity]. intros Hk. apply in_map_iff in Hk as ([k1 vs1] & Hk & H1).
        simpl in Hk. subst k1. apply Hin in H1 as [-> H1]. congruence.
      * left. exists (x :: l). split; [|reflexivity]. apply Hin. rewrite Ev.
        split; [reflexivity | discriminate].
    + left. split; [intros ->; congruence|].
      rewrite app_nil_r in *. apply Hin. auto.
Qed.

Lemma grouped_fold kvs2 : forall d kvs1,
  grouped eqb d kvs1 -> grouped eqb (group_by eqb kvs2 d) (kvs1 ++ kvs2).
Proof.
  unfold group_by.
  induction kvs2 as [|[k v] kvs2 IH]; intros d kvs1 H; simpl.
  - now rewrite app_nil_r.
  - replace (kvs1 ++ (k, v) :: kvs2) with ((kvs1 ++ [(k, v)]) ++ kvs2)
      by now rewrite <- app_assoc.
    apply IH. now apply grouped_snoc.
Qed.

Lemma grouped_nil : grouped eqb [] [].
Proof.
  split; [constructor|]. intros k vs. simpl. split; [intros [] | intros [-> H]; now apply H].
Qed.

Lemma vals_keyed (key : path -> option K) k files :
  vals eqb k (keyed key files) = class_of key eqb k files.
Proof.
  unfold vals, keyed, class_of. induction files as [|f files IH]; [reflexivity|].
  simpl. rewrite filter_app, map_app, IH.
  destruct (key f) as [k'|]; simpl; [|reflexivity].
  destruct (eqb k' k); reflexivity.
Qed.

(** The groups of a dictionary filled from [files] are the non-empty key
    classes of [files]. *)
Lemma group_by_classes (key : path -> option K) files k vs :
  In (k, vs) (group_by eqb (keyed key files) []) <->
  (vs = class_of key eqb k files /\ vs <> []).
Proof.
  destruct (grouped_fold (keyed key files) [] [] grouped_nil) as [_ H].
  simpl in H. rewrite H, vals_keyed. reflexivity.
Qed.

End GroupFacts.

(** ** Finding duplicates *)

(** Reading by chunks feeds all the bytes of the file, in order. *)
Lemma read_loop_all chunk_size : (0 < chunk_size)%nat ->
  forall fuel stream h, (List.length stream < fuel)%nat ->
  read_loop fuel chunk_size stream h = h ++ stream.
Proof.
  intros Hc. induction fuel as [|fuel IH]; intros stream h Hlen; [lia|].
  cbn [read_loop]. destruct (firstn chunk_size stream) as [|b chunk] eqn:E.
  - destruct stream as [|x stream]; [now rewrite app_nil_r|].
    destruct chunk_size; [lia | discriminate].
  - rewrite IH.
    + rewrite <- app_assoc, <- E. now rewrite firstn_skipn.
    + rewrite length_skipn.
      assert (List.length stream <> 0)%nat by (destruct stream; [destruct chunk_size|]; simpl in *; congruence).
      lia.
Qed.

Lemma compute_hash_some fs p h :
  hash_at fs p = Some h -> compute_hash p fs = (Ok h, fs).
Proof.
  unfold hash_at, Fs.find_file, compute_hash, compute_hash_chunked, bind, open_read.
  destruct (Fs.find_node fs p) as [[f|st es]|]; try discriminate.
  destruct (readable f); [|discriminate]. intros [= <-]. unfold ret.
  rewrite read_loop_all; [reflexivity | simpl; lia | lia].
Qed.

Lemma compute_hash_none fs p :
  hash_at fs p = None -> exists en q, compute_hash p fs = (Raise (OSError en q), fs).
Proof.
  unfold hash_at, Fs.find_file, compute_hash, compute_hash_chunked, bind, open_read, os_error.
  destruct (Fs.find_node fs p) as [[f|st es]|]; [|eauto|eauto].
  destruct (readable f); [discriminate | eauto].
Qed.

Lemma except_oserror_ok {A} (m : M A) (otherwise : A) fs a fs' :
  m fs = (Ok a, fs') -> except_oserror m otherwise fs = (Ok a, fs').
Proof. unfold except_oserror, try_catch. now intros ->. Qed.

Lemma except_oserror_caught {A} (m : M A) (otherwise : A) fs en p fs' :
  m fs = (Raise (OSError en p), fs') -> except_oserror m otherwise fs = (Ok otherwise, fs').
Proof. unfold except_oserror, try_catch. now intros ->. Qed.

Lemma size_loop_spec files : forall d fs,
  size_loop files d fs = (Ok (group_by Z.eqb (keyed (size_at fs) files) d), fs).
Proof.
  induction files as [|f files IH]; intros d fs; [reflexivity|].
  cbn [size_loop]. unfold keyed, size_at. simpl.
  destruct (Fs.find_node fs f) as [n|] eqn:Hn; simpl.
  - erewrite bind_ok; [apply IH|]. apply except_oserror_ok.
    erewrite bind_ok; [reflexivity|]. now apply os_stat_found.
  - erewrite bind_ok; [apply IH|].
    apply (except_oserror_caught _ _ _ (Fs.missing_errno fs f) f).
    apply bind_raise. unfold os_stat, os_error. now rewrite Hn.
Qed.

Lemma hash_loop_spec group : forall d fs,
  hash_loop group d fs = (Ok (group_by String.eqb (keyed (hash_at fs) group) d), fs).
Proof.
  induction group as [|p group IH]; intros d fs; [reflexivity|].
  cbn [hash_loop]. unfold keyed. simpl.
  destruct (hash_at fs p) as [h|] eqn:Hh; simpl.
  - erewrite bind_ok; [apply IH|]. apply except_oserror_ok.
    erewrite bind_ok; [reflexivity|]. now apply compute_hash_some.
  - destruct (compute_hash_none fs p Hh) as (en & q & Hc).
    erewrite bind_ok; [apply IH|].
    apply (except_oserror_caught _ _ _ en q). now apply bind_raise.
Qed.

Lemma emit_loop_spec hash_map : forall duplicates,
  emit_loop hash_map duplicates =
  duplicates ++ filter (fun hp => (1 <? List.length (snd hp))%nat) hash_map.
Proof.
  unfold emit_loop. induction hash_map as [|hp hm IH]; intros acc; simpl.
  - now rewrite app_nil_r.
  - rewrite IH. destruct (1 <? List.length (snd hp))%nat; [|reflexivity].
    now rewrite <- app_assoc.
Qed.

Lemma group_loop_spec size_map : forall duplicates fs,
  group_loop size_map duplicates fs =
  (Ok (duplicates ++
       flat_map (fun sg =>
                   if (List.length (snd sg) <? 2)%nat then []
                   else filter (fun hp => (1 <? List.length (snd hp))%nat)
                          (group_by String.eqb (keyed (hash_at fs) (snd sg)) []))
         size_map), fs).
Proof.
  induction size_map as [|[s group] sm IH]; intros acc fs; simpl.
  - unfold ret. now rewrite app_nil_r.
  - destruct (List.length group <? 2)%nat; [apply IH|].
    rewrite (bind_ok _ _ _ _ _ (hash_loop_spec group [] fs)).
    rewrite IH, emit_loop_spec. now rewrite <- app_assoc.
Qed.

(** [find_duplicates] never raises, does not touch the file system, and
    returns exactly the duplicate groups of the files it was given. *)
Lemma find_duplicates_of_spec files fs :
  exists dups,
    find_duplicates_of files fs = (Ok dups, fs) /\
    forall h plist, In (h, plist) dups <-> is_group fs files h plist.
Proof.
  eexists. split.
  - unfold find_duplicates_of.
    rewrite (bind_ok _ _ _ _ _ (size_loop_spec files [] fs)).
    apply group_loop_spec.
  - intros h plist. simpl. rewrite in_flat_map. unfold is_group. split.
    + intros ([s grp] & Hin & H). cbn [snd] in H.
      destruct (List.length grp <? 2)%nat; [destruct H|].
      apply filter_In in H as [H Hlen]. cbn [snd] in Hlen. apply Nat.ltb_lt in Hlen.
      apply (group_by_classes Z.eqb Z.eqb_eq) in Hin as [-> _].
      apply (group_by_classes String.eqb String.eqb_eq) in H as [-> _].
      exists s. split; [reflexivity | lia].
    + intros (s & -> & Hlen).
      set (grp := class_of (size_at fs) Z.eqb s files) in *.
      assert (Hgrp : (2 <= List.length grp)%nat).
      { etransitivity; [exact Hlen|]. unfold class_of at 1. apply filter_length_le. }
      exists (s, grp). split.
      * apply (group_by_classes Z.eqb Z.eqb_eq). split; [reflexivity|].
        intros E. rewrite E in Hgrp. simpl in Hgrp. lia.
      * cbn [snd]. apply Nat.ltb_ge in Hgrp. rewrite Hgrp.
        apply filter_In. split.
        -- apply (group_by_classes String.eqb String.eqb_eq). split; [reflexivity|].
           intros E. rewrite E in Hlen. simpl in Hlen. lia.
        -- cbn [snd]. apply Nat.ltb_lt. lia.
Qed.

(** ** Dry runs *)

Lemma remove_loop_dry h keeper l : forall acc fs,
  remove_loop h keeper true l acc fs
  = (Ok (acc ++ map (fun p => mkRemoval h p keeper None) l), fs).
Proof.
  induction l as [|p l IH]; intros acc fs; simpl.
  - unfold ret. now rewrite app_nil_r.
  - unfold bind at 1, ret at 1. rewrite IH. now rewrite <- app_assoc.
Qed.

Lemma without_error_records h keeper rs :
  Forall (fun r => r_hash r = h /\ r_kept r = keeper) rs ->
  map without_error rs = map (fun p => mkRemoval h p keeper None) (map r_removed rs).
Proof.
  induction 1 as [|r rs [Hh Hk] _ IH]; simpl; [reflexivity|].
  rewrite IH. unfold without_error. now rewrite Hh, Hk.
Qed.

Lemma read_only_sorted_by_mtime plist : read_only (sorted_by_mtime plist).
Proof.
  apply read_only_bind; [apply read_only_mtime_keys | intros; apply read_only_ret].
Qed.

Lemma read_only_select keep sl : read_only (select keep sl).
Proof.
  unfold select.
  destruct (String.eqb keep "first"); [|destruct (String.eqb keep "latest")];
    destruct sl; first [apply read_only_raise | apply read_only_ret].
Qed.

Lemma read_only_remove_groups_dry keep dups : forall acc,
  read_only (remove_groups dups keep true acc).
Proof.
  induction dups as [|[h plist] dups IH]; intros acc; [apply read_only_ret|].
  cbn [remove_groups].
  apply read_only_bind; [apply read_only_sorted_by_mtime | intros sl].
  apply read_only_bind; [apply read_only_select | intros kt].
  apply read_only_bind; [|intros r; apply IH].
  intros fs r fs'. rewrite remove_loop_dry. now intros [= _ <-].
Qed.

Lemma shrunk_find_node fs0 fs p n :
  shrunk fs0 fs -> Fs.find_node fs p = Some n ->
  exists n0, Fs.find_node fs0 p = Some n0 /\ meta n0 = meta n.
Proof.
  intros Hs Hn. destruct (Hs p) as [H|H]; unfold find_meta in H; rewrite Hn in H;
    [discriminate|].
  destruct (Fs.find_node fs0 p) as [n0|]; [|discriminate].
  injection H as H. eauto.
Qed.

Lemma mtime_keys_shrunk fs0 l : forall fs ks fs',
  shrunk fs0 fs -> mtime_keys l fs = (Ok ks, fs') -> mtime_keys l fs0 = (Ok ks, fs0).
Proof.
  induction l as [|p l IH]; intros fs ks fs' Hs H.
  - injection H as <- _. reflexivity.
  - cbn [mtime_keys] in *.
    apply bind_ok_inv in H as (k & fs1 & Hk & H).
    pose proof (read_only_os_stat _ _ _ _ _ Hk) as ->.
    apply os_stat_ok in Hk as (n & Hn & ->).
    apply bind_ok_inv in H as (ks' & fs2 & Hks & H).
    injection H as <- _.
    destruct (shrunk_find_node _ _ _ _ Hs Hn) as (n0 & Hn0 & Hm).
    rewrite (bind_ok _ _ _ _ _ (os_stat_found Fs.st_mtime p fs0 n0 Hn0)).
    rewrite (bind_ok _ _ _ _ _ (IH _ _ _ Hs Hks)).
    now rewrite (meta_st_mtime _ _ Hm).
Qed.

(** A run that deletes and returns is matched, record for record, by the
    dry run on the snapshot it started from. *)
Lemma remove_groups_dry_simulates keep fs0 dups : forall acc fs recs fs',
  shrunk fs0 fs ->
  remove_groups dups keep false acc fs = (Ok recs, fs') ->
  remove_groups dups keep true (map without_error acc) fs0
  = (Ok (map without_error recs), fs0).
Proof.
  induction dups as [|[h plist] dups IH]; intros acc fs recs fs' Hs H.
  - injection H as <- _. reflexivity.
  - cbn [remove_groups] in *.
    apply bind_ok_inv in H as (sl & fs1 & Hsort & H).
    pose proof (read_only_sorted_by_mtime _ _ _ _ Hsort) as ->.
    apply bind_ok_inv in H as (kt & fs2 & Hsel & H).
    pose proof (read_only_select _ _ _ _ _ Hsel) as ->.
    apply bind_ok_inv in H as (removed' & fs3 & Hloop & H).
    destruct (remove_loop_spec h (fst kt) false (snd kt) acc fs)
      as (rs & fs3' & Hrun & Hmap & Hall & Hsh & _).
    rewrite Hrun in Hloop. injection Hloop as <- <-.
    assert (Hsort0 : sorted_by_mtime plist fs0 = (Ok sl, fs0)).
    { unfold sorted_by_mtime in *.
      apply bind_ok_inv in Hsort as (ks & fs4 & Hks & Hret). injection Hret as <- _.
      now rewrite (bind_ok _ _ _ _ _ (mtime_keys_shrunk _ _ _ _ _ Hs Hks)). }
    assert (Hsel0 : select keep sl fs0 = (Ok kt, fs0)).
    { clear -Hsel. unfold select in *.
      destruct (String.eqb keep "first"); [|destruct (String.eqb keep "latest")];
        destruct sl; try discriminate; injection Hsel as <-; reflexivity. }
    rewrite (bind_ok _ _ _ _ _ Hsort0), (bind_ok _ _ _ _ _ Hsel0).
    rewrite (bind_ok _ _ _ _ _ (remove_loop_dry h (fst kt) (snd kt) _ fs0)).
    rewrite <- Hmap, <- (without_error_records _ _ _ Hall), <- map_app.
    apply (IH _ _ _ _ (shrunk_trans _ _ _ Hs Hsh) H).
Qed.

(** In a dry run the step for one file leaves every regular file alone. *)
Lemma organize_one_dry_files root target move f fs r fs' :
  organize_one root target true move f fs = (r, fs') ->
  forall p, Fs.find_file fs' p = Fs.find_file fs p.
Proof.
  intros H p.
  apply organize_one_inv in H
    as [(_ & _ & ->) | [(rel & _ & _ & _ & ->) | (rel & _ & _ & H)]]; try reflexivity.
  cbv zeta in H.
  destruct H as [(en & _ & _ & ->) | (fs1 & Hmk & H)]; [reflexivity|].
  assert (Hfs1 : Fs.find_file fs1 p = Fs.find_file fs p).
  { unfold safe_mkdir in Hmk.
    destruct (Fs.mkdirs fs (target ++ [category f])) as [en|fs2] eqn:E; [discriminate|].
    injection Hmk as <-. eapply mkdirs_find_file; eauto. }
  destruct H as [(en & q & _ & _ & ->) | [(k & d & _ & _ & _ & ->) | H]]; try exact Hfs1.
  destruct H as (k & d & _ & _ & [(u & Hact & _) | (en & q & Hact & _)]).
  - injection Hact as _ <-. exact Hfs1.
  - discriminate.
Qed.

Lemma organize_loop_dry_files root target move files : forall ops fs r fs',
  organize_loop root target true move files ops fs = (r, fs') ->
  forall p, Fs.find_file fs' p = Fs.find_file fs p.
Proof.
  induction files as [|f files IH]; intros ops fs r fs' H p.
  - now injection H as _ <-.
  - cbn [organize_loop] in H.
    apply bind_inv in H as [(o & fs1 & Hone & H) | (e & Hone & _)].
    + rewrite (IH _ _ _ _ H p). eapply organize_one_dry_files; eauto.
    + eapply organize_one_dry_files; eauto.
Qed.

(** The step for a file, once its destination search has returned. *)
Lemma organize_one_run root target dry_run move f fs rel fs1 r :
  relative_to f root = Some rel ->
  already_organized rel f = false ->
  safe_mkdir (target ++ [category f]) fs = (Ok tt, fs1) ->
  dest_loop (S (entry_count fs1 (target ++ [category f]))) (target ++ [category f]) f
    (candidate (target ++ [category f]) f 0) 1 fs1 = (Ok r, fs1) ->
  organize_one root target dry_run move f fs =
  match r with
  | Same d => (Ok (Some (mkOp SkipSame f d)), fs1)
  | Free d =>
      bind (if dry_run then ret tt
            else if move then shutil_move f d else shutil_copy2 f d)
        (fun _ => ret (Some (mkOp (if negb move then Copy else Move) f d))) fs1
  end.
Proof.
  intros Hrel Hal Hmk Hloop. unfold organize_one. rewrite Hrel, Hal.
  rewrite (bind_ok _ _ _ _ _ Hmk).
  unfold bind at 1, gets.
  change ((target ++ [category f]) ++ [name f])
    with (candidate (target ++ [category f]) f 0).
  rewrite (bind_ok _ _ _ _ _ Hloop). destruct r; reflexivity.
Qed.

(** The action recorded for a file does not depend on the dry-run flag:
    from the same file system, the dry step records what the effective
    step records. *)
Lemma organize_one_dry_same_action root target move f fs o fs' :
  organize_one root target false move f fs = (Ok o, fs') ->
  exists fs1, organize_one root target true move f fs = (Ok o, fs1).
Proof.
  intros H.
  apply organize_one_inv in H
    as [(_ & [=] & _) | [(rel & Hrel & Hal & [= ->] & _) | (rel & Hrel & Hal & H)]].
  - exists fs. unfold organize_one. now rewrite Hrel, Hal.
  - cbv zeta in H.
    destruct H as [(en & _ & [=] & _) | (fs1 & Hmk & H)].
    destruct H as [(en & p & _ & [=] & _) | [(k & d & Hloop & _ & [= ->] & _) | H]].
    + exists fs1. now rewrite (organize_one_run _ _ _ _ _ _ _ _ _ Hrel Hal Hmk Hloop).
    + destruct H as (k & d & Hloop & _ & [(u & _ & [= ->]) | (en & p & _ & [=])]).
      exists fs1. now rewrite (organize_one_run _ _ _ _ _ _ _ _ _ Hrel Hal Hmk Hloop).
Qed.

(** ** Names and their suffixes *)

Section NameFacts.

Local Open Scope string_scope.

Lemma lower_ascii_idem c : PyStr.lower_ascii (PyStr.lower_ascii c) = PyStr.lower_ascii c.
Proof. destruct c as [[] [] [] [] [] [] [] []]; reflexivity. Qed.

Lemma lower_idem s : PyStr.lower (PyStr.lower s) = PyStr.lower s.
Proof. induction s as [|c s IH]; simpl; [reflexivity | now rewrite lower_ascii_idem, IH]. Qed.

Lemma lower_ascii_dot c : Ascii.eqb (PyStr.lower_ascii c) PyStr.dot = Ascii.eqb c PyStr.dot.
Proof. destruct c as [[] [] [] [] [] [] [] []]; reflexivity. Qed.

Lemma lower_lstrip_dot s : PyStr.lower (PyStr.lstrip_dot s) = PyStr.lstrip_dot (PyStr.lower s).
Proof.
  induction s as [|c s IH]; simpl; [reflexivity|].
  rewrite lower_ascii_dot. destruct (Ascii.eqb c PyStr.dot); [exact IH | reflexivity].
Qed.

Lemma lower_ext_of p : PyStr.lower (ext_of p) = ext_of p.
Proof. unfold ext_of. now rewrite lower_lstrip_dot, lower_idem. Qed.

Lemma lower_category p : PyStr.lower (category p) = category p.
Proof.
  unfold category. destruct (String.eqb (ext_of p) ""); [reflexivity | apply lower_ext_of].
Qed.

Lemma rfind_dot_lt s i : PyStr.rfind_dot s = Some i -> (i < String.length s)%nat.
Proof.
  revert i. induction s as [|c s IH]; intros i; simpl; [discriminate|].
  destruct (PyStr.rfind_dot s) as [j|].
  - intros [= <-]. specialize (IH j eq_refl). lia.
  - destruct (Ascii.eqb c PyStr.dot); [intros [= <-]; lia | discriminate].
Qed.

Lemma rfind_dot_app a b :
  PyStr.rfind_dot (a ++ b) =
  match PyStr.rfind_dot b with
  | Some j => Some (String.length a + j)%nat
  | None => PyStr.rfind_dot a
  end.
Proof.
  induction a as [|c a IH]; simpl.
  - destruct (PyStr.rfind_dot b); reflexivity.
  - rewrite IH. destruct (PyStr.rfind_dot b); reflexivity.
Qed.

Lemma rfind_dot_dec k : PyStr.rfind_dot (PyStr.dec k) = None.
Proof.
  unfold PyStr.dec. generalize (Nat.to_uint k). intros d.
  induction d; simpl; try rewrite IHd; reflexivity.
Qed.

Lemma substring_all s : substring 0 (String.length s) s = s.
Proof. induction s as [|c s IH]; simpl; [reflexivity | now rewrite IH]. Qed.

Lemma substring_app_r a b : substring (String.length a) (String.length b) (a ++ b) = b.
Proof. induction a as [|c a IH]; simpl; [apply substring_all | exact IH]. Qed.

Lemma substring_length s : forall i n,
  (i + n <= String.length s)%nat -> String.length (substring i n s) = n.
Proof.
  induction s as [|c s IH]; intros [|i] [|n] H; simpl in *; try lia; try reflexivity.
  - rewrite IH; lia.
  - apply IH. lia.
  - apply IH. lia.
Qed.

(** A numbered name keeps a non-empty suffix. *)
Lemma suffix_numbered_some n i x :
  PyStr.split_index n = Some i -> x <> "" ->
  PyStr.suffix (x ++ PyStr.suffix n) = PyStr.suffix n.
Proof.
  intros Hi Hx.
  assert (Hsplit := Hi). unfold PyStr.split_index in Hsplit.
  destruct (PyStr.rfind_dot n) as [i'|] eqn:Hr; [|discriminate].
  destruct ((0 <? i')%nat && (i' <? String.length n - 1)%nat) eqn:Hc; [|discriminate].
  injection Hsplit as ->. apply andb_true_iff in Hc as [H0 H1].
  apply Nat.ltb_lt in H0, H1.
  assert (Hstem : PyStr.stem n = substring 0 i n) by (unfold PyStr.stem; now rewrite Hi).
  assert (Hsuf : PyStr.suffix n = substring i (String.length n - i) n)
    by (unfold PyStr.suffix; now rewrite Hi).
  assert (Hlen_stem : String.length (PyStr.stem n) = i)
    by (rewrite Hstem; apply substring_length; lia).
  assert (Hlen_suf : String.length (PyStr.suffix n) = (String.length n - i)%nat)
    by (rewrite Hsuf; apply substring_length; lia).
  assert (Hdot : PyStr.rfind_dot (PyStr.suffix n) = Some 0%nat).
  { pose proof (rfind_dot_app (PyStr.stem n) (PyStr.suffix n)) as Happ.
    rewrite stem_suffix, Hr in Happ.
    destruct (PyStr.rfind_dot (PyStr.suffix n)) as [j|] eqn:Hj.
    - injection Happ as Happ. f_equal. lia.
    - symmetry in Happ. apply rfind_dot_lt in Happ. lia. }
  unfold PyStr.suffix at 1, PyStr.split_index.
  rewrite rfind_dot_app, Hdot, Nat.add_0_r, str_length_app, Hlen_suf.
  assert (Hxlen : (0 < String.length x)%nat) by (destruct x; [congruence | simpl; lia]).
  replace ((0 <? String.length x)%nat) with true by (symmetry; now apply Nat.ltb_lt).
  replace ((String.length x <? String.length x + (String.length n - i) - 1)%nat) with true
    by (symmetry; apply Nat.ltb_lt; lia).
  simpl andb. cbv iota.
  replace (String.length x + (String.length n - i) - String.length x)%nat
    with (String.length (PyStr.suffix n)) by lia.
  apply substring_app_r.
Qed.

Lemma tame_rfind n i :
  tame n -> PyStr.split_index n = None -> PyStr.rfind_dot n = Some i -> i = 0%nat.
Proof.
  intros Ht Hs Hr. unfold PyStr.split_index in Hs. rewrite Hr in Hs.
  destruct (0 <? i)%nat eqn:H0; [|apply Nat.ltb_ge in H0; lia].
  destruct (i <? String.length n - 1)%nat eqn:H1; [discriminate|].
  apply Nat.ltb_lt in H0. apply Nat.ltb_ge in H1.
  pose proof (rfind_dot_lt _ _ Hr) as Hlt.
  exfalso. apply (Ht (substring 0 i n)).
  rewrite <- (substring_split n i) at 1 by lia. f_equal.
  assert (Hi : i = (String.length n - 1)%nat) by lia.
  clear -Hr Hi Hlt. revert i Hr Hi Hlt.
  induction n as [|c n IH]; intros i Hr Hi Hlt; simpl in *; [lia|].
  destruct (PyStr.rfind_dot n) as [j|] eqn:Hj.
  - injection Hr as <-. simpl.
    replace (String.length n - 0 - j)%nat with (String.length n - j)%nat by lia.
    pose proof (rfind_dot_lt _ _ Hj). apply (IH j eq_refl); lia.
  - destruct (Ascii.eqb c PyStr.dot) eqn:Hc; [|discriminate]. injection Hr as <-.
    destruct n; [|simpl in Hi; lia]. apply Ascii.eqb_eq in Hc. now subst c.
Qed.

(** A numbered name without suffix keeps none, when the name is tame. *)
Lemma suffix_numbered_none n k :
  tame n -> PyStr.split_index n = None ->
  PyStr.suffix (n ++ "_" ++ PyStr.dec k) = "".
Proof.
  intros Ht Hs. unfold PyStr.suffix, PyStr.split_index.
  rewrite rfind_dot_app.
  change ("_" ++ PyStr.dec k) with (String "_" (PyStr.dec k)).
  cbn [PyStr.rfind_dot]. rewrite rfind_dot_dec.
  change (Ascii.eqb "_" PyStr.dot) with false. cbv iota.
  destruct (PyStr.rfind_dot n) as [i|] eqn:Hr; [|reflexivity].
  now rewrite (tame_rfind n i Ht Hs Hr).
Qed.

(** Under a tame name all the candidates have the suffix of the name. *)
Lemma suffix_candidate_name f k :
  tame (name f) -> PyStr.suffix (candidate_name f k) = PyStr.suffix (name f).
Proof.
  intros Ht. destruct k as [|k]; [reflexivity|]. cbn [candidate_name].
  destruct (PyStr.split_index (name f)) as [i|] eqn:Hs.
  - rewrite <- !str_app_assoc. apply (suffix_numbered_some _ i); [exact Hs|].
    destruct (PyStr.stem (name f)); discriminate.
  - assert (Hsuf : PyStr.suffix (name f) = "") by (unfold PyStr.suffix; now rewrite Hs).
    assert (Hstem : PyStr.stem (name f) = name f) by (unfold PyStr.stem; now rewrite Hs).
    rewrite Hsuf, Hstem, str_app_nil_r. now apply suffix_numbered_none.
Qed.

End NameFacts.

(** ** What the comparison reads *)

Lemma meta_size_st_size n : meta_size (meta n) = Fs.st_size n.
Proof. destruct n; reflexivity. Qed.

Lemma getsize_meta p fs :
  getsize p fs = match find_meta fs p with
                 | Some m => (Ok (meta_size m), fs)
                 | None => (os_error fs p, fs)
                 end.
Proof.
  unfold getsize, os_stat, find_meta.
  destruct (Fs.find_node fs p) as [n|]; simpl; [now rewrite meta_size_st_size | reflexivity].
Qed.

Lemma hash_at_meta fs p :
  hash_at fs p = match find_meta fs p with
                 | Some (inl f) => if readable f then Some (Sha256.hexdigest (content f)) else None
                 | _ => None
                 end.
Proof.
  unfold hash_at. rewrite find_file_meta.
  destruct (find_meta fs p) as [[f|st]|]; reflexivity.
Qed.

(** The verdict of [is_same_file] is a function of the attributes of the
    two nodes. *)
Lemma is_same_file_meta a b fs v :
  is_same_file a b fs = (Ok v, fs) <->
  same_meta (find_meta fs a) (find_meta fs b) = Some v.
Proof.
  unfold is_same_file, same_meta.
  unfold bind at 1. rewrite getsize_meta.
  destruct (find_meta fs a) as [x|] eqn:Ha; [|split; discriminate].
  unfold bind at 1. rewrite getsize_meta.
  destruct (find_meta fs b) as [y|] eqn:Hb; [|split; discriminate].
  destruct (negb (meta_size x =? meta_size y)%Z); [unfold ret; split; congruence|].
  pose proof (hash_at_meta fs a) as Hha. rewrite Ha in Hha.
  pose proof (hash_at_meta fs b) as Hhb. rewrite Hb in Hhb.
  destruct (hash_at fs a) as [ha|] eqn:Ea.
  - rewrite (bind_ok _ _ _ _ _ (compute_hash_some fs a ha Ea)).
    destruct (hash_at fs b) as [hb|] eqn:Eb.
    + rewrite (bind_ok _ _ _ _ _ (compute_hash_some fs b hb Eb)).
      destruct x as [fa|sa]; [|discriminate]. destruct y as [fb|sb]; [|discriminate].
      destruct (readable fa); [|discriminate]. destruct (readable fb); [|discriminate].
      injection Hha as ->. injection Hhb as ->. unfold ret. simpl. split; congruence.
    + destruct (compute_hash_none fs b Eb) as (en & q & Hc).
      rewrite (bind_raise _ _ _ _ _ Hc).
      destruct x as [fa|sa]; [|split; discriminate].
      destruct y as [fb|sb]; [|destruct (readable fa); split; discriminate].
      destruct (readable fa); [|split; discriminate].
      destruct (readable fb); [discriminate | split; discriminate].
  - destruct (compute_hash_none fs a Ea) as (en & q & Hc).
    rewrite (bind_raise _ _ _ _ _ Hc).
    destruct x as [fa|sa]; [|split; discriminate].
    destruct (readable fa); [discriminate|].
    destruct y; split; discriminate.
Qed.

Lemma same_meta_refl m v : same_meta m m = Some v -> v = true.
Proof.
  unfold same_meta. destruct m as [[f|st]|]; try discriminate.
  - rewrite Z.eqb_refl. simpl. destruct (readable f); simpl; [|discriminate].
    rewrite String.eqb_refl. congruence.
  - rewrite Z.eqb_refl. discriminate.
Qed.

Lemma is_same_file_refl p fs v : is_same_file p p fs = (Ok v, fs) -> v = true.
Proof. rewrite is_same_file_meta. apply same_meta_refl. Qed.

Lemma same_meta_some ma mb v :
  same_meta ma mb = Some v -> ma <> None /\ mb <> None.
Proof. destruct ma, mb; simpl; try discriminate. split; discriminate. Qed.

(** The end of a search is determined by the attributes of the file and of
    the candidates up to it. *)
Lemma search_ends_agree fs fs' folder f k r :
  (forall j, (j <= k)%nat ->
     find_meta fs' (candidate folder f j) = find_meta fs (candidate folder f j)) ->
  find_meta fs' f = find_meta fs f ->
  search_ends fs folder f k r -> search_ends fs' folder f k r.
Proof.
  intros Hc Hf [Hbefore Hend]. split.
  - intros j Hj. destruct (Hbefore j Hj) as [He Hs]. split.
    + rewrite path_exists_meta in *. now rewrite Hc by lia.
    + apply is_same_file_meta. apply is_same_file_meta in Hs.
      now rewrite Hc, Hf by lia.
  - destruct r as [d|d].
    + destruct Hend as (-> & He & Hs). repeat split.
      * rewrite path_exists_meta in *. now rewrite Hc by lia.
      * apply is_same_file_meta. apply is_same_file_meta in Hs.
        now rewrite Hc, Hf by lia.
    + destruct Hend as (-> & He). split; [reflexivity|].
      rewrite path_exists_meta in *. now rewrite Hc by lia.
Qed.

(** A search has one end. *)
Lemma search_ends_unique fs folder f k d k' r' :
  search_ends fs folder f k (Same d) -> search_ends fs folder f k' r' -> r' = Same d.
Proof.
  intros [Hb (-> & He & Hs)] [Hb' Hend'].
  destruct (Nat.lt_trichotomy k k') as [Hlt | [<- | Hgt]].
  - destruct (Hb' k Hlt) as [_ Hs']. rewrite Hs in Hs'. discriminate.
  - destruct r' as [d'|d'].
    + destruct Hend' as (-> & _). reflexivity.
    + destruct Hend' as (-> & He'). congruence.
  - destruct (Hb k' Hgt) as [He1 Hs1].
    destruct r' as [d'|d'].
    + destruct Hend' as (-> & _ & Hs'). rewrite Hs1 in Hs'. discriminate.
    + destruct Hend' as (-> & He'). congruence.
Qed.

(** A file that is its own first candidate is never given a free
    destination. *)
Lemma search_self_not_free fs folder f k d :
  candidate folder f 0 = f -> Fs.path_exists fs f = true ->
  search_ends fs folder f k (Free d) -> False.
Proof.
  intros Hself Hex [Hb (-> & He)]. destruct k as [|k].
  - rewrite Hself in He. congruence.
  - destruct (Hb 0%nat ltac:(lia)) as [_ Hs]. rewrite Hself in Hs.
    apply is_same_file_refl in Hs. discriminate.
Qed.

Lemma search_same_exists fs folder f k d :
  search_ends fs folder f k (Same d) -> find_meta fs f <> None.
Proof.
  intros [_ (_ & _ & Hs)]. apply is_same_file_meta, same_meta_some in Hs. tauto.
Qed.

Lemma extends_refl fs : extends fs fs.
Proof. intros q m H. exact H. Qed.

Lemma extends_trans a b c : extends a b -> extends b c -> extends a c.
Proof. intros H1 H2 q m H. auto. Qed.

Lemma mkdirs_extends fs p fs' : Fs.mkdirs fs p = inr fs' -> extends fs fs'.
Proof. intros H q m Hq. rewrite (mkdirs_meta p fs fs' H q), Hq. reflexivity. Qed.

Lemma safe_mkdir_extends p fs fs' : safe_mkdir p fs = (Ok tt, fs') -> extends fs fs'.
Proof.
  unfold safe_mkdir. destruct (Fs.mkdirs fs p) as [e|fs1] eqn:E; [discriminate|].
  intros [= <-]. eapply mkdirs_extends; eauto.
Qed.

Lemma safe_mkdir_files p fs fs' q :
  safe_mkdir p fs = (Ok tt, fs') -> Fs.is_file fs' q = Fs.is_file fs q.
Proof.
  unfold safe_mkdir. destruct (Fs.mkdirs fs p) as [e|fs1] eqn:E; [discriminate|].
  intros [= <-]. pose proof (mkdirs_find_file p fs fs1 q E) as H.
  unfold Fs.find_file, Fs.is_file in *.
  destruct (Fs.find_node fs1 q) as [[?|? ?]|], (Fs.find_node fs q) as [[?|? ?]|];
    congruence.
Qed.

(** ** Writing and moving files *)

Lemma path_eqb_cons s p q : path_eqb (s :: p) (s :: q) = path_eqb p q.
Proof.
  destruct (path_eqb p q) eqn:E.
  - apply path_eqb_eq in E. subst. apply path_eqb_refl.
  - apply path_eqb_neq in E. apply path_eqb_neq. congruence.
Qed.

Lemma path_eqb_cons_neq s t p q : s <> t -> path_eqb (t :: p) (s :: q) = false.
Proof. intros H. apply path_eqb_neq. congruence. Qed.

(** Creating a regular file at a free path changes what is found at that
    path only. *)
Lemma write_file_meta d : forall fs fs' g,
  Fs.find_node fs d = None ->
  Fs.write_node fs d (File g) = Some fs' ->
  forall q, find_meta fs' q = if path_eqb q d then Some (inl g) else find_meta fs q.
Proof.
  unfold find_meta.
  induction d as [|s d IH]; intros fs fs' g Hnone Hw q; [discriminate|].
  destruct fs as [f0|st es]; [discriminate|].
  simpl in Hnone, Hw.
  destruct (Fs.find_entry s es) as [c|] eqn:Hc.
  - destruct (Fs.write_node c d (File g)) as [c'|] eqn:Hw'; [|discriminate].
    injection Hw as <-. destruct q as [|t q]; [reflexivity|].
    destruct (string_dec s t) as [<-|Hne].
    + simpl. rewrite find_entry_put_same, Hc, path_eqb_cons.
      apply (IH c c' g Hnone Hw' q).
    + simpl. rewrite find_entry_put_other by exact Hne.
      now rewrite (path_eqb_cons_neq s t q d Hne).
  - destruct d as [|s0 d]; [|discriminate]. injection Hw as <-.
    destruct q as [|t q]; [reflexivity|].
    destruct (string_dec s t) as [<-|Hne].
    + simpl. rewrite find_entry_put_same, Hc, path_eqb_cons.
      destruct q as [|x q]; [now rewrite path_eqb_refl|].
      assert (E : path_eqb (x :: q) [] = false) by (apply path_eqb_neq; discriminate).
      now rewrite E.
    + simpl. rewrite find_entry_put_other by exact Hne.
      now rewrite (path_eqb_cons_neq s t q [] Hne).
Qed.

Lemma find_meta_file fs p f :
  find_meta fs p = Some (inl f) <-> Fs.find_node fs p = Some (File f).
Proof.
  unfold find_meta. destruct (Fs.find_node fs p) as [[g|st es]|]; simpl;
    split; intros H; try discriminate; congruence.
Qed.

Lemma find_meta_none fs p : find_meta fs p = None <-> Fs.find_node fs p = None.
Proof.
  unfold find_meta. destruct (Fs.find_node fs p); simpl; split; congruence.
Qed.

(** The effect of a copy to a free destination. *)
Lemma shutil_copy2_free f d fs fs' fl :
  Fs.find_node fs f = Some (File fl) -> Fs.find_node fs d = None ->
  shutil_copy2 f d fs = (Ok tt, fs') ->
  forall q,
    find_meta fs' q =
    if path_eqb q d then Some (inl (mkFile (content fl) (mtime fl) (readable fl) false))
    else find_meta fs q.
Proof.
  intros Hf Hd. unfold shutil_copy2, Fs.is_dir. rewrite Hd, Hf. cbv zeta. rewrite Hd.
  destruct (path_eqb f d); [discriminate|].
  destruct (negb (readable fl)); [discriminate|].
  destruct (Fs.write_node fs d _) as [fs1|] eqn:Hw; [|discriminate].
  intros [= <-]. eapply write_file_meta; eauto.
Qed.

(** The effect of a move of a regular file to a free destination: the
    file is found at the destination, as readable as it was, and no more
    at its source; nothing else changes. *)
Lemma shutil_move_effect f d fs fs' :
  Fs.is_file fs f = true -> Fs.path_exists fs d = false ->
  shutil_move f d fs = (Ok tt, fs') ->
  (exists fl fl',
     Fs.find_file fs f = Some fl /\ Fs.find_file fs' d = Some fl' /\
     readable fl' = readable fl /\ content fl' = content fl) /\
  forall q, q <> d ->
    find_meta fs' q = if path_eqb q f then None else find_meta fs q.
Proof.
  unfold Fs.is_file, Fs.path_exists, Fs.find_file. intros Hf Hd.
  destruct (Fs.find_node fs f) as [[fl|? ?]|] eqn:Ef; try discriminate.
  destruct (Fs.find_node fs d) eqn:Ed; [discriminate|].
  assert (Hne : f <> d) by (intros ->; congruence).
  unfold shutil_move, Fs.is_dir. rewrite Ed. simpl.
  unfold try_catch, os_rename. rewrite Ef, Ed.
  assert (Hfallback : forall fs0,
            (shutil_copy2 f d;;; os_remove f) fs = (Ok tt, fs0) ->
            (exists fl0 fl',
               Some fl = Some fl0 /\
               match Fs.find_node fs0 d with Some (File g) => Some g | _ => None end
               = Some fl' /\
               readable fl' = readable fl0 /\ content fl' = content fl0) /\
            forall q, q <> d -> find_meta fs0 q = if path_eqb q f then None else find_meta fs q).
  { intros fs0 H. apply bind_ok_inv in H as ([] & fsc & Hcopy & Hrm).
    pose proof (shutil_copy2_free f d fs fsc fl Ef Ed Hcopy) as Hc.
    assert (Hfc : Fs.find_node fsc f = Some (File fl)).
    { apply find_meta_file. rewrite Hc. apply path_eqb_neq in Hne. rewrite Hne.
      now apply find_meta_file. }
    unfold os_remove in Hrm. rewrite Hfc in Hrm.
    destruct (locked fl); [discriminate|].
    destruct (Fs.delete_node fsc f) as [fs3|] eqn:Hdel; [|discriminate].
    injection Hrm as <-.
    pose proof (delete_file_meta f fsc fs3 fl Hfc Hdel) as Hm.
    split.
    - assert (Hd3 : find_meta fs3 d
                    = Some (inl (mkFile (content fl) (mtime fl) (readable fl) false))).
      { rewrite Hm. assert (E : path_eqb d f = false) by (apply path_eqb_neq; congruence).
        now rewrite E, Hc, path_eqb_refl. }
      apply find_meta_file in Hd3. rewrite Hd3. do 2 eexists. repeat split.
    - intros q Hq. rewrite Hm. destruct (path_eqb q f); [reflexivity|].
      rewrite Hc. apply path_eqb_neq in Hq. now rewrite Hq. }
  destruct (locked fl); [apply Hfallback|].
  assert (E : path_eqb f d = false) by now apply path_eqb_neq.
  rewrite E.
  destruct (Fs.delete_node fs f) as [fs1|] eqn:Hdel; [|apply Hfallback].
  pose proof (delete_file_meta f fs fs1 fl Ef Hdel) as Hm.
  destruct (Fs.write_node fs1 d (File fl)) as [fs2|] eqn:Hw; [|apply Hfallback].
  intros [= <-].
  assert (Hd1 : Fs.find_node fs1 d = None).
  { apply find_meta_none. rewrite Hm.
    assert (E' : path_eqb d f = false) by (apply path_eqb_neq; congruence).
    rewrite E'. now apply find_meta_none. }
  pose proof (write_file_meta d fs1 fs2 fl Hd1 Hw) as Hm2.
  split.
  - assert (Hd2 : find_meta fs2 d = Some (inl fl)) by now rewrite Hm2, path_eqb_refl.
    apply find_meta_file in Hd2. rewrite Hd2. do 2 eexists. repeat split.
  - intros q Hq. rewrite Hm2. apply path_eqb_neq in Hq. rewrite Hq. apply Hm.
Qed.

Lemma shutil_move_free f d fs fs' :
  Fs.is_file fs f = true -> Fs.path_exists fs d = false ->
  shutil_move f d fs = (Ok tt, fs') ->
  Fs.is_file fs' d = true /\
  forall q, q <> d ->
    find_meta fs' q = if path_eqb q f then None else find_meta fs q.
Proof.
  intros Hf Hd H.
  destruct (shutil_move_effect f d fs fs' Hf Hd H) as [(fl & fl' & _ & Hfl' & _) Hframe].
  split; [|exact Hframe].
  unfold Fs.find_file, Fs.is_file in *.
  destruct (Fs.find_node fs' d) as [[g|? ?]|]; congruence.
Qed.

(** ** What the scan returns *)

Lemma find_node_app a : forall fs b,
  Fs.find_node fs (a ++ b) =
  match Fs.find_node fs a with
  | Some n => Fs.find_node n b
  | None => None
  end.
Proof.
  induction a as [|s a IH]; intros fs b; [reflexivity|].
  simpl. destruct fs as [f|st es]; [reflexivity|].
  destruct (Fs.find_entry s es) as [c|]; [apply IH | reflexivity].
Qed.

(** [os.walk] visits every directory below its top. *)
Lemma walk_node_complete rel : forall n base st es,
  Fs.find_node n rel = Some (Dir st es) ->
  In (base ++ rel, Fs.dirnames es, Fs.filenames es) (Fs.walk_node base n).
Proof.
  induction rel as [|s rel IH]; intros n base st es H.
  - injection H as ->. rewrite app_nil_r. simpl. now left.
  - destruct n as [f|st0 es0]; [discriminate|]. simpl in H.
    destruct (Fs.find_entry s es0) as [c|] eqn:Hc; [|discriminate].
    simpl. right. apply in_flat_map. exists (s, c). split.
    + now apply find_entry_In.
    + simpl. replace (base ++ s :: rel) with ((base ++ [s]) ++ rel)
        by now rewrite <- app_assoc.
      now apply (IH c (base ++ [s]) st es).
Qed.

(** [os.walk] visits only directories below its top. *)
Lemma walk_node_prefix n : forall base t,
  In t (Fs.walk_node base n) -> exists rel, fst (fst t) = base ++ rel.
Proof.
  induction n as [f|st es IH] using node_ind2; intros base t; simpl; [intros []|].
  intros [<-|Hin].
  - exists []. simpl. now rewrite app_nil_r.
  - apply in_flat_map in Hin as (e & He & Ht).
    rewrite Forall_forall in IH.
    destruct (IH e He _ _ Ht) as [rel Hrel].
    exists (fst e :: rel). rewrite Hrel. now rewrite <- app_assoc.
Qed.

Lemma scan_loop_In fs ign w : forall acc g,
  In g (scan_loop fs true ign w acc) <->
  In g acc \/
  exists d dn fn x,
    In (d, dn, fn) w /\ ignored ign d = false /\ In x fn /\
    g = d ++ [x] /\ Fs.is_file fs g = true.
Proof.
  induction w as [|[[d dn] fn] w IH]; intros acc g; simpl.
  - split; [auto | intros [H | (d & dn & fn & x & [] & _)]; exact H].
  - destruct (ignored ign d) eqn:Hig.
    + rewrite IH. split.
      * intros [H | (d' & dn' & fn' & x & Hin & H)]; [auto|].
        right. exists d', dn', fn', x. tauto.
      * intros [H | (d' & dn' & fn' & x & [Heq|Hin] & Hig' & H)]; [auto| |].
        -- injection Heq as <- <- <-. congruence.
        -- right. exists d', dn', fn', x. tauto.
    + rewrite IH, scan_dir_spec, in_app_iff, filter_In, in_map_iff. split.
      * intros [[H | [(x & <- & Hx) Hf]] | (d' & dn' & fn' & x & Hin & H)].
        -- auto.
        -- right. exists d, dn, fn, x. tauto.
        -- right. exists d', dn', fn', x. tauto.
      * intros [H | (d' & dn' & fn' & x & [Heq|Hin] & Hig' & Hx & -> & Hf)].
        -- auto.
        -- injection Heq as <- <- <-. left. right. eauto.
        -- right. exists d', dn', fn', x. tauto.
Qed.

Lemma scan_sound fs root ign g :
  In g (scan_files_in fs root true ign) ->
  Fs.is_file fs g = true /\ eligible root ign g.
Proof.
  unfold scan_files_in. rewrite scan_loop_In.
  intros [[] | (d & dn & fn & x & Hin & Hig & Hx & -> & Hf)].
  split; [exact Hf|].
  unfold Fs.walk in Hin. destruct (Fs.find_node fs root) as [n|]; [|destruct Hin].
  destruct (walk_node_prefix n root _ Hin) as [rel Hrel]. simpl in Hrel. subst d.
  exists rel, x. split; [now rewrite <- app_assoc | exact Hig].
Qed.

Lemma filenames_In x f es : Fs.find_entry x es = Some (File f) -> In x (Fs.filenames es).
Proof.
  intros H. apply find_entry_In in H. unfold Fs.filenames.
  apply in_map_iff. exists (x, File f). split; [reflexivity|].
  apply filter_In. split; [exact H | reflexivity].
Qed.

Lemma scan_complete fs root ign g :
  Fs.is_file fs g = true -> eligible root ign g ->
  In g (scan_files_in fs root true ign).
Proof.
  intros Hf (rel & x & -> & Hig).
  unfold scan_files_in. apply scan_loop_In. right.
  assert (Hg : root ++ rel ++ [x] = (root ++ rel) ++ [x]) by now rewrite <- app_assoc.
  rewrite Hg in *. unfold Fs.is_file in Hf. rewrite find_node_snoc in Hf.
  destruct (Fs.find_node fs (root ++ rel)) as [[f0|st es]|] eqn:Hd; try discriminate.
  destruct (Fs.find_entry x es) as [[f|? ?]|] eqn:Hx; try discriminate.
  exists (root ++ rel), (Fs.dirnames es), (Fs.filenames es), x.
  split; [|split; [exact Hig | split; [eapply filenames_In; eauto | split; [reflexivity|]]]].
  - unfold Fs.walk. rewrite find_node_app in Hd.
    destruct (Fs.find_node fs root) as [n|]; [|discriminate].
    now apply (walk_node_complete rel n root st es).
  - unfold Fs.is_file. now rewrite find_node_snoc, Hd, Hx.
Qed.

(** ** Running [organize_files] again *)

Lemma relative_to_app root : forall rel, relative_to (root ++ rel) root = Some rel.
Proof.
  induction root as [|r root IH]; intros rel; simpl; [destruct rel; reflexivity|].
  now rewrite String.eqb_refl.
Qed.

(** A candidate of a file with a tame name is its own first candidate. *)
Lemma candidate_self root f k d :
  tame (name f) ->
  d = candidate (root ++ [category f]) f k ->
  candidate (root ++ [category d]) d 0 = d.
Proof.
  intros Ht Hd.
  assert (Hname : name d = candidate_name f k) by (rewrite Hd; apply name_snoc).
  assert (Hcat : category d = category f).
  { unfold category, ext_of. now rewrite Hname, suffix_candidate_name. }
  unfold candidate at 1. cbn [candidate_name]. rewrite Hname, Hcat. now rewrite Hd.
Qed.

Lemma extends_file t t' g : extends t t' -> Fs.is_file t g = true -> Fs.is_file t' g = true.
Proof.
  intros He. rewrite !is_file_meta.
  destruct (find_meta t g) as [[f|st]|] eqn:E; try discriminate.
  now rewrite (He g _ E).
Qed.

Lemma extends_exists t t' g :
  extends t t' -> Fs.path_exists t g = true -> Fs.path_exists t' g = true.
Proof.
  intros He. rewrite !path_exists_meta.
  destruct (find_meta t g) as [m|] eqn:E; [|discriminate].
  now rewrite (He g _ E).
Qed.

Lemma extends_meta t t' g :
  extends t t' -> Fs.path_exists t g = true -> find_meta t' g = find_meta t g.
Proof.
  intros He. rewrite path_exists_meta.
  destruct (find_meta t g) as [m|] eqn:E; [|discriminate].
  intros _. now apply He.
Qed.

Lemma search_same_candidates fs folder f k d j :
  search_ends fs folder f k (Same d) -> (j <= k)%nat ->
  Fs.path_exists fs (candidate folder f j) = true.
Proof.
  intros [Hb (-> & He & _)] Hj.
  destruct (Nat.eq_dec j k) as [->|Hne]; [exact He|].
  apply Hb. lia.
Qed.

Lemma search_same_source fs folder f k d :
  search_ends fs folder f k (Same d) -> Fs.path_exists fs f = true.
Proof.
  intros H. apply search_same_exists in H. rewrite path_exists_meta.
  destruct (find_meta fs f); congruence.
Qed.

Lemma search_same_extends t t' folder f k d :
  extends t t' -> search_ends t folder f k (Same d) -> search_ends t' folder f k (Same d).
Proof.
  intros He Hs. apply (search_ends_agree t t' folder f k (Same d)); [| |exact Hs].
  - intros j Hj. apply extends_meta; [exact He|].
    eapply search_same_candidates; eauto.
  - apply extends_meta; [exact He|]. eapply search_same_source; eauto.
Qed.

Lemma quiet_extends root t t' g : extends t t' -> quiet root t g -> quiet root t' g.
Proof.
  intros He [H | [[Ht (k & d & H)] | [Hself Hf]]].
  - now left.
  - right. left. split; [exact Ht|]. exists k, d. eapply search_same_extends; eauto.
  - right. right. split; [exact Hself|]. eapply extends_file; eauto.
Qed.

(** The search of a quiet file does not end on a free destination. *)
Lemma quiet_not_free root t f k d :
  quiet root t f -> skipped root f = false ->
  search_ends t (root ++ [category f]) f k (Free d) -> False.
Proof.
  intros [H | [[_ (k0 & d0 & H)] | [Hself Hf]]] Hskip Hfree.
  - congruence.
  - pose proof (search_ends_unique _ _ _ _ _ _ _ H Hfree). discriminate.
  - eapply search_self_not_free; eauto. now apply is_file_exists.
Qed.

(** The step for a quiet file moves nothing. *)
Lemma organize_one_quiet root f t o t' :
  quiet root t f ->
  organize_one root root false true f t = (Ok o, t') ->
  extends t t' /\ (forall q, Fs.is_file t' q = Fs.is_file t q) /\
  (o = None \/ exists d, o = Some (mkOp SkipSame f d)).
Proof.
  intros Hq H.
  apply organize_one_inv in H
    as [(_ & [=] & _) | [(rel & _ & _ & [= ->] & ->) | (rel & Hrel & Hal & H)]].
  - split; [apply extends_refl|]. auto.
  - cbv zeta in H.
    destruct H as [(en & _ & [=] & _) | (t1 & Hmk & H)].
    pose proof (safe_mkdir_extends _ _ _ Hmk) as He.
    destruct H as [(en & p & _ & [=] & _) | [(k & d & _ & _ & [= ->] & ->) | H]].
    + split; [exact He|]. split; [intros q; eapply safe_mkdir_files; eauto|]. eauto.
    + destruct H as (k & d & _ & Hs & _). exfalso.
      apply (quiet_not_free root t1 f k d); [eapply quiet_extends; eauto | | exact Hs].
      unfold skipped. now rewrite Hrel.
Qed.

Lemma second_run_loop root files : forall t acc ops t',
  (forall g, In g files -> quiet root t g) ->
  Forall (fun o => op_action o = SkipSame) acc ->
  organize_loop root root false true files acc t = (Ok ops, t') ->
  Forall (fun o => op_action o = SkipSame) ops.
Proof.
  induction files as [|f files IH]; intros t acc ops t' Hq Hacc H.
  - now injection H as <- _.
  - cbn [organize_loop] in H. apply bind_ok_inv in H as (o & t1 & Hone & H).
    destruct (organize_one_quiet root f t o t1 (Hq f (or_introl eq_refl)) Hone)
      as (He & _ & Ho).
    eapply IH; [| |exact H].
    + intros g Hg. eapply quiet_extends; [exact He|]. apply Hq. now right.
    + destruct Ho as [-> | [d ->]]; [exact Hacc|].
      apply Forall_app. split; [exact Hacc|]. repeat constructor.
Qed.

(** One step of the first run keeps its invariant. *)
Lemma first_run_step root ign f todo s o s' :
  ~ In f todo -> tame (name f) ->
  first_run_inv root ign s (f :: todo) ->
  organize_one root root false true f s = (Ok o, s') ->
  first_run_inv root ign s' todo.
Proof.
  intros Hnotin Htame [Hfiles Hquiet] H.
  apply organize_one_inv in H
    as [(_ & [=] & _) | [(rel & Hrel & Hal & _ & ->) | (rel & Hrel & Hal & H)]].
  - (* passed over *)
    split; [intros g Hg; apply Hfiles; now right|].
    intros g Hg He. destruct (Hquiet g Hg He) as [[<-|Hin] | Hq]; auto.
    right. left. unfold skipped. now rewrite Hrel.
  - cbv zeta in H.
    destruct H as [(en & _ & [=] & _) | (s1 & Hmk & H)].
    pose proof (safe_mkdir_extends _ _ _ Hmk) as Hext.
    assert (Hsame_files : forall q, Fs.is_file s1 q = Fs.is_file s q)
      by (intros q; eapply safe_mkdir_files; eauto).
    destruct H as [(en & p & _ & [=] & _) | [(k & d & _ & Hs & _ & ->) | H]].
    + (* skip_same *)
      split; [intros g Hg; rewrite Hsame_files; apply Hfiles; now right|].
      intros g Hg He. rewrite Hsame_files in Hg.
      destruct (Hquiet g Hg He) as [[<-|Hin] | Hq]; auto.
      * right. right. left. split; [exact Htame|]. eauto.
      * right. eapply quiet_extends; eauto.
    + (* move *)
      destruct H as (k & d & _ & Hs & [(u & Hact & _) | (en & p & _ & [=])]).
      destruct u.
      assert (Hd : d = candidate (root ++ [category f]) f k /\ Fs.path_exists s1 d = false)
        by (destruct Hs as [_ Hend]; exact Hend).
      destruct Hd as [Hd Hdfree].
      assert (Hf1 : Fs.is_file s1 f = true)
        by (rewrite Hsame_files; apply Hfiles; now left).
      destruct (shutil_move_free f d s1 s' Hf1 Hdfree Hact) as [Hdfile Hframe].
      assert (Hother : forall g, Fs.path_exists s1 g = true -> g <> f ->
                                 find_meta s' g = find_meta s1 g).
      { intros g Hg Hgf. rewrite Hframe by (intros ->; congruence).
        apply path_eqb_neq in Hgf. now rewrite Hgf. }
      split.
      * intros g Hg.
        assert (Hg1 : Fs.is_file s1 g = true) by (rewrite Hsame_files; apply Hfiles; now right).
        rewrite is_file_meta, Hother, <- is_file_meta; auto using is_file_exists.
        intros ->. contradiction.
      * intros g Hg He.
        destruct (list_eq_dec string_dec g d) as [->|Hgd].
        { right. right. right. split; [|exact Hdfile].
          now apply (candidate_self root f k). }
        assert (Hgf : g <> f).
        { intros ->. rewrite is_file_meta, Hframe, path_eqb_refl in Hg by exact Hgd.
          discriminate. }
        assert (Hg1 : Fs.is_file s1 g = true).
        { rewrite is_file_meta, Hframe in Hg by exact Hgd.
          apply path_eqb_neq in Hgf. rewrite Hgf in Hg. now rewrite is_file_meta. }
        assert (Hg0 : Fs.is_file s g = true) by now rewrite <- Hsame_files.
        destruct (Hquiet g Hg0 He) as [[Heq|Hin] | Hq]; [congruence | auto |].
        right. apply (quiet_extends root s s1 g Hext) in Hq.
        destruct Hq as [Hq | [[Htg (k0 & d0 & Hq)] | [Hself _]]].
        -- now left.
        -- right. left. split; [exact Htg|]. exists k0, d0.
           apply (search_ends_agree s1 s' _ g k0 (Same d0)); [| |exact Hq].
           ++ intros j Hj.
              pose proof (search_same_candidates _ _ _ _ _ j Hq Hj) as Hcj.
              apply Hother; [exact Hcj|].
              intros Hcf. apply (search_self_not_free s1 (root ++ [category f]) f k d).
              ** now apply (candidate_self root g j).
              ** now apply is_file_exists.
              ** exact Hs.
           ++ apply Hother; [now apply is_file_exists | exact Hgf].
        -- right. right. split; [exact Hself | exact Hg].
Qed.

Lemma first_run_loop root ign files : forall s acc ops s',
  NoDup files -> (forall g, In g files -> tame (name g)) ->
  first_run_inv root ign s files ->
  organize_loop root root false true files acc s = (Ok ops, s') ->
  first_run_inv root ign s' [].
Proof.
  induction files as [|f files IH]; intros s acc ops s' Hnd Htame Hinv H.
  - now injection H as _ <-.
  - cbn [organize_loop] in H. apply bind_ok_inv in H as (o & s1 & Hone & H).
    inversion Hnd as [|f' l Hnotin Hnd']; subst.
    eapply IH; [exact Hnd' | | |exact H].
    + intros g Hg. apply Htame. now right.
    + eapply first_run_step; eauto. apply Htame. now left.
Qed.

(** ** The second run completes *)

Lemma mkdirs_existing p : forall fs,
  Fs.is_dir fs p = true -> exists fs', Fs.mkdirs fs p = inr fs'.
Proof.
  unfold Fs.is_dir. induction p as [|s p IH]; intros fs H; simpl in *.
  - destruct fs; [discriminate | eauto].
  - destruct fs as [f|st es]; [discriminate|].
    destruct (Fs.find_entry s es) as [c|]; [|discriminate].
    destruct (IH c H) as [c' ->]. eauto.
Qed.

Lemma safe_mkdir_existing p fs :
  Fs.is_dir fs p = true -> exists fs', safe_mkdir p fs = (Ok tt, fs').
Proof.
  intros H. destruct (mkdirs_existing p fs H) as [fs' Hm].
  exists fs'. unfold safe_mkdir. now rewrite Hm.
Qed.

Lemma is_dir_of_child fs folder x :
  Fs.path_exists fs (folder ++ [x]) = true -> Fs.is_dir fs folder = true.
Proof.
  unfold Fs.path_exists, Fs.is_dir. rewrite find_node_snoc.
  destruct (Fs.find_node fs folder) as [[f|st es]|]; [discriminate | reflexivity | discriminate].
Qed.

Lemma safe_mkdir_find_file p fs fs' q :
  safe_mkdir p fs = (Ok tt, fs') -> Fs.find_file fs' q = Fs.find_file fs q.
Proof.
  unfold safe_mkdir. destruct (Fs.mkdirs fs p) as [e|fs1] eqn:E; [discriminate|].
  intros [= <-]. eapply mkdirs_find_file; eauto.
Qed.

(** The loop walks the candidates up to the end of the search. *)
Lemma dest_loop_follows fs folder f k r :
  search_ends fs folder f k r ->
  forall fuel i, (i <= k)%nat ->
    dest_loop fuel folder f (candidate folder f i) (S i) fs = (Ok r, fs) \/
    dest_loop fuel folder f (candidate folder f i) (S i) fs = (Raise LoopBound, fs).
Proof.
  intros [Hbefore Hend]. induction fuel as [|fuel IH]; intros i Hi; [now right|].
  cbn [dest_loop]. unfold bind at 1 3, gets.
  destruct (Nat.eq_dec i k) as [->|Hne].
  - left. destruct r as [d|d].
    + destruct Hend as (-> & He & Hs). rewrite He.
      now rewrite (bind_ok _ _ _ _ _ Hs).
    + destruct Hend as (-> & He). now rewrite He.
  - destruct (Hbefore i ltac:(lia)) as [He Hs]. rewrite He.
    rewrite !(bind_ok _ _ _ _ _ Hs). rewrite numbered_candidate. apply IH. lia.
Qed.

Lemma can_read_self_search fs folder g :
  candidate folder g 0 = g -> can_read fs g ->
  search_ends fs folder g 0 (Same g).
Proof.
  intros Hself (fl & Hfl & Hr). split; [intros j Hj; lia|].
  assert (Hm : find_meta fs g = Some (inl fl)).
  { rewrite find_file_meta in Hfl. destruct (find_meta fs g) as [[x|x]|]; congruence. }
  split; [now rewrite Hself|]. split.
  - rewrite path_exists_meta, Hm. reflexivity.
  - apply is_same_file_meta. rewrite Hm. unfold same_meta.
    rewrite Z.eqb_refl, Hr, String.eqb_refl. reflexivity.
Qed.

Lemma eligible_relative root ign g :
  eligible root ign g -> exists rel, relative_to g root = Some rel.
Proof. intros (rel & x & -> & _). eexists. apply relative_to_app. Qed.

(** The step for a quiet, readable file returns. *)
Lemma organize_one_quiet_total root ign g t :
  quiet root t g -> eligible root ign g -> can_read t g ->
  exists o t', organize_one root root false true g t = (Ok o, t').
Proof.
  intros Hq He Hr. destruct (eligible_relative _ _ _ He) as [rel Hrel].
  destruct (already_organized rel g) eqn:Hal.
  - exists None, t. unfold organize_one. now rewrite Hrel, Hal.
  - assert (Hs : exists k d, search_ends t (root ++ [category g]) g k (Same d)).
    { destruct Hq as [H | [[_ H] | [Hself _]]].
      - unfold skipped in H. rewrite Hrel in H. congruence.
      - exact H.
      - exists 0%nat, g. now apply can_read_self_search. }
    destruct Hs as (k & d & Hs).
    assert (Hdir : Fs.is_dir t (root ++ [category g]) = true).
    { apply (is_dir_of_child _ _ (candidate_name g 0)).
      apply (search_same_candidates _ _ _ _ _ 0%nat Hs). lia. }
    destruct (safe_mkdir_existing _ _ Hdir) as [t1 Hmk].
    pose proof (search_same_extends _ _ _ _ _ _ (safe_mkdir_extends _ _ _ Hmk) Hs) as Hs1.
    destruct (dest_loop_follows _ _ _ _ _ Hs1
                (S (entry_count t1 (root ++ [category g]))) 0%nat ltac:(lia))
      as [Hloop | Hloop].
    + exists (Some (mkOp SkipSame g d)), t1.
      now rewrite (organize_one_run _ _ _ _ _ _ _ _ _ Hrel Hal Hmk Hloop).
    + now apply dest_loop_terminates in Hloop.
Qed.

Lemma extends_can_read t t' g : extends t t' -> can_read t g -> can_read t' g.
Proof.
  intros He (fl & Hfl & Hr). exists fl. split; [|exact Hr].
  rewrite find_file_meta in *.
  destruct (find_meta t g) as [[x|x]|] eqn:E; try discriminate.
  now rewrite (He g _ E).
Qed.

Lemma second_run_total root ign files : forall t acc,
  (forall g, In g files -> quiet root t g /\ eligible root ign g /\ can_read t g) ->
  exists ops t', organize_loop root root false true files acc t = (Ok ops, t').
Proof.
  induction files as [|f files IH]; intros t acc H.
  - do 2 eexists. reflexivity.
  - destruct (H f (or_introl eq_refl)) as (Hq & He & Hr).
    destruct (organize_one_quiet_total root ign f t Hq He Hr) as (o & t1 & Hone).
    destruct (organize_one_quiet root f t o t1 Hq Hone) as (Hext & _ & _).
    destruct (IH t1 (match o with Some x => acc ++ [x] | None => acc end))
      as (ops & t' & Hloop).
    + intros g Hg. destruct (H g (or_intror Hg)) as (Hq' & He' & Hr').
      split; [eapply quiet_extends; eauto|]. split; [exact He'|].
      eapply extends_can_read; eauto.
    + exists ops, t'. cbn [organize_loop]. now rewrite (bind_ok _ _ _ _ _ Hone).
Qed.

(** One step of the first run keeps the files readable. *)
Lemma first_run_readable root ign f s o s' :
  all_readable root ign s -> Fs.is_file s f = true -> eligible root ign f ->
  organize_one root root false true f s = (Ok o, s') ->
  all_readable root ign s'.
Proof.
  intros Hall Hf Hef H.
  apply organize_one_inv in H
    as [(_ & [=] & _) | [(rel & _ & _ & _ & ->) | (rel & Hrel & Hal & H)]];
    [exact Hall|].
  cbv zeta in H.
  destruct H as [(en & _ & [=] & _) | (s1 & Hmk & H)].
  assert (Hall1 : all_readable root ign s1).
  { intros g Hg He. unfold can_read. rewrite (safe_mkdir_find_file _ _ _ g Hmk).
    apply Hall; [|exact He]. now rewrite <- (safe_mkdir_files _ _ _ g Hmk). }
  destruct H as [(en & p & _ & [=] & _) | [(k & d & _ & _ & _ & ->) | H]];
    [exact Hall1|].
  destruct H as (k & d & _ & Hs & [(u & Hact & _) | (en & p & _ & [=])]).
  destruct u.
  assert (Hdfree : Fs.path_exists s1 d = false) by (destruct Hs as [_ [_ H]]; exact H).
  assert (Hf1 : Fs.is_file s1 f = true) by now rewrite (safe_mkdir_files _ _ _ f Hmk).
  destruct (shutil_move_effect f d s1 s' Hf1 Hdfree Hact)
    as [(fl & fl' & Hfl & Hfl' & Hread & _) Hframe].
  intros g Hg He.
  destruct (list_eq_dec string_dec g d) as [->|Hgd].
  - exists fl'. split; [exact Hfl'|]. rewrite Hread.
    destruct (Hall1 f Hf1 Hef) as (fl0 & Hfl0 & Hr0). congruence.
  - assert (Hm : find_meta s' g = find_meta s1 g).
    { rewrite Hframe by exact Hgd. destruct (path_eqb g f) eqn:E; [|reflexivity].
      apply path_eqb_eq in E. subst g.
      rewrite is_file_meta, Hframe, path_eqb_refl in Hg by exact Hgd. discriminate. }
    unfold can_read. rewrite find_file_meta, Hm, <- find_file_meta.
    apply Hall1; [|exact He]. now rewrite is_file_meta, <- Hm, <- is_file_meta.
Qed.

Lemma first_run_loop_readable root ign files : forall s acc ops s',
  NoDup files -> (forall g, In g files -> tame (name g) /\ eligible root ign g) ->
  first_run_inv root ign s files -> all_readable root ign s ->
  organize_loop root root false true files acc s = (Ok ops, s') ->
  first_run_inv root ign s' [] /\ all_readable root ign s'.
Proof.
  induction files as [|f files IH]; intros s acc ops s' Hnd Hfiles Hinv Hall H.
  - injection H as _ <-. auto.
  - cbn [organize_loop] in H. apply bind_ok_inv in H as (o & s1 & Hone & H).
    inversion Hnd as [|f' l Hnotin Hnd']; subst.
    destruct (Hfiles f (or_introl eq_refl)) as [Htame Hel].
    eapply IH; [exact Hnd' | | | |exact H].
    + intros g Hg. apply Hfiles. now right.
    + eapply first_run_step; eauto.
    + eapply first_run_readable; eauto. destruct Hinv as [Hf _]. apply Hf. now left.
Qed.

(** ** Creating folders *)

Lemma put_entry_same s c es :
  Fs.find_entry s es = Some c -> Fs.put_entry s c es = es.
Proof.
  induction es as [|[s' c'] es IH]; simpl; [discriminate|].
  destruct (String.eqb s' s) eqn:E.
  - apply String.eqb_eq in E. subst s'. now intros [= ->].
  - intros H. now rewrite IH.
Qed.

(** [mkdir -p] on an existing directory changes nothing. *)
Lemma mkdirs_noop p : forall fs,
  Fs.is_dir fs p = true -> Fs.mkdirs fs p = inr fs.
Proof.
  unfold Fs.is_dir. induction p as [|s p IH]; intros fs H; simpl in *.
  - destruct fs; [discriminate | reflexivity].
  - destruct fs as [f|st es]; [discriminate|].
    destruct (Fs.find_entry s es) as [c|] eqn:Hc; [|discriminate].
    rewrite (IH c H). now rewrite put_entry_same.
Qed.

Lemma is_prefix_nil q : is_prefix q [] = true -> q = [].
Proof. destruct q; [reflexivity | discriminate]. Qed.

(** [mkdir -p] fails exactly when the path or one of its ancestors is a
    regular file. *)
Lemma mkdirs_fails_iff p : forall fs,
  (exists e, Fs.mkdirs fs p = inl e) <->
  (exists q, is_prefix q p = true /\ Fs.is_file fs q = true).
Proof.
  unfold Fs.is_file.
  induction p as [|s p IH]; intros fs.
  - simpl. destruct fs as [f|st es].
    + split; [intros _; now exists [] | intros _; eauto].
    + split; [intros [e [=]]|].
      intros (q & Hq & Hf). apply is_prefix_nil in Hq. subst q. discriminate.
  - destruct fs as [f|st es].
    + split; [intros _; now exists [] | intros _; simpl; eauto].
    + cbn [Fs.mkdirs]. destruct (Fs.find_entry s es) as [c|] eqn:Hc.
      * destruct (Fs.mkdirs c p) as [e|c'] eqn:Hm.
        -- split; [intros _ | intros _; eauto].
           destruct (proj1 (IH c) (ex_intro _ e Hm)) as (q & Hq & Hf).
           exists (s :: q). simpl. now rewrite String.eqb_refl, Hq, Hc.
        -- split; [intros [e [=]]|].
           intros ([|t q] & Hq & Hf); [discriminate|]. simpl in Hq, Hf.
           apply andb_true_iff in Hq as [Ht Hq]. apply String.eqb_eq in Ht. subst t.
           rewrite Hc in Hf.
           destruct (proj2 (IH c) (ex_intro _ q (conj Hq Hf))) as [e He]. congruence.
      * split; [intros [e [=]]|].
        intros ([|t q] & Hq & Hf); [discriminate|]. simpl in Hq, Hf.
        apply andb_true_iff in Hq as [Ht Hq]. apply String.eqb_eq in Ht. subst t.
        rewrite Hc in Hf. discriminate.
Qed.

Lemma is_prefix_refl p : is_prefix p p = true.
Proof. induction p as [|s p IH]; simpl; [reflexivity | now rewrite String.eqb_refl]. Qed.

(** After [mkdir -p] the path and its ancestors are directories. *)
Lemma mkdirs_dirs p fs fs1 :
  Fs.mkdirs fs p = inr fs1 ->
  forall q, is_prefix q p = true -> Fs.is_dir fs1 q = true.
Proof.
  intros Hm q Hq.
  assert (Hnf : Fs.is_file fs q = false).
  { destruct (Fs.is_file fs q) eqn:Hf; [|reflexivity].
    destruct (proj2 (mkdirs_fails_iff p fs) (ex_intro _ q (conj Hq Hf))) as [e He].
    congruence. }
  pose proof (mkdirs_meta p fs fs1 Hm q) as Hmeta. rewrite Hq in Hmeta.
  rewrite is_file_meta in Hnf.
  unfold Fs.is_dir. unfold find_meta in *.
  destruct (Fs.find_node fs1 q) as [[f|st es]|]; simpl in Hmeta.
  - destruct (Fs.find_node fs q) as [[g|? ?]|]; simpl in *; congruence.
  - reflexivity.
  - destruct (Fs.find_node fs q) as [[g|? ?]|]; simpl in *; congruence.
Qed.


(** ** The transfer to a free destination *)

Lemma find_file_node fs p x : Fs.find_file fs p = Some x -> Fs.find_node fs p = Some (File x).
Proof.
  unfold Fs.find_file. destruct (Fs.find_node fs p) as [[g|st es]|]; congruence.
Qed.

(** An entry can be written into an existing directory. *)
Lemma write_node_child folder x v : forall fs,
  Fs.is_dir fs folder = true -> exists fs', Fs.write_node fs (folder ++ [x]) v = Some fs'.
Proof.
  unfold Fs.is_dir. induction folder as [|s folder IH]; intros fs H; simpl in *.
  - destruct fs as [g|st es]; [discriminate|].
    destruct (Fs.find_entry x es) as [c|]; eauto.
  - destruct fs as [g|st es]; [discriminate|].
    destruct (Fs.find_entry s es) as [c|]; [|discriminate].
    destruct (IH c H) as [c' ->]. eauto.
Qed.

Lemma shutil_copy2_total f folder x fs fl :
  Fs.find_node fs f = Some (File fl) -> readable fl = true ->
  Fs.find_node fs (folder ++ [x]) = None -> Fs.is_dir fs folder = true ->
  exists fs', shutil_copy2 f (folder ++ [x]) fs = (Ok tt, fs').
Proof.
  intros Hf Hr Hd Hdir.
  destruct (write_node_child folder x
              (File (mkFile (content fl) (mtime fl) (readable fl) false)) fs Hdir)
    as [fs' Hw].
  exists fs'. unfold shutil_copy2, Fs.is_dir. rewrite Hd, Hf. cbv zeta. rewrite Hd.
  assert (E : path_eqb f (folder ++ [x]) = false)
    by (apply path_eqb_neq; intros ->; congruence).
  rewrite E, Hw, Hr. reflexivity.
Qed.

Lemma shutil_move_total f folder x fs fl :
  Fs.find_node fs f = Some (File fl) -> locked fl = false ->
  Fs.find_node fs (folder ++ [x]) = None -> Fs.is_dir fs folder = true ->
  exists fs', shutil_move f (folder ++ [x]) fs = (Ok tt, fs').
Proof.
  intros Hf Hl Hd Hdir.
  assert (Hnil : f <> []).
  { intros ->. simpl in Hf. injection Hf as ->.
    unfold Fs.is_dir in Hdir. destruct folder; discriminate. }
  destruct (delete_file_succeeds f fs fl Hf Hnil) as [fs1 Hdel].
  assert (Hdir1 : Fs.is_dir fs1 folder = true).
  { pose proof (delete_file_meta f fs fs1 fl Hf Hdel folder) as Hm.
    assert (E : path_eqb folder f = false).
    { apply path_eqb_neq. intros ->. unfold Fs.is_dir in Hdir. now rewrite Hf in Hdir. }
    rewrite E in Hm. unfold find_meta, Fs.is_dir in *.
    destruct (Fs.find_node fs folder) as [[g|st es]|]; try discriminate.
    destruct (Fs.find_node fs1 folder) as [[g|st' es']|]; simpl in Hm;
      [discriminate | reflexivity | discriminate]. }
  destruct (write_node_child folder x (File fl) fs1 Hdir1) as [fs2 Hw].
  exists fs2. unfold shutil_move, Fs.is_dir. rewrite Hd. simpl.
  unfold try_catch, os_rename. rewrite Hf, Hd, Hl.
  assert (E : path_eqb f (folder ++ [x]) = false)
    by (apply path_eqb_neq; intros ->; congruence).
  now rewrite E, Hdel, Hw.
Qed.

(** What the comparison answers on a destination that holds another, or
    the same, content. *)
Lemma holds_other_differs fs d f x :
  Fs.find_file fs f = Some x -> holds_other fs d x ->
  Fs.path_exists fs d = true /\ is_same_file d f fs = (Ok false, fs).
Proof.
  intros Hx (y & Hy & Hdiff).
  apply find_file_node in Hx, Hy. split.
  - unfold Fs.path_exists. now rewrite Hy.
  - apply is_same_file_meta.
    rewrite (proj2 (find_meta_file fs d y) Hy), (proj2 (find_meta_file fs f x) Hx).
    unfold same_meta, meta_size.
    destruct (Z.eqb (Z.of_nat (List.length (content y)))
                    (Z.of_nat (List.length (content x)))) eqn:E; [|reflexivity].
    apply Z.eqb_eq in E. destruct Hdiff as [Hlen | (Hry & Hrx & Hdig)]; [lia|].
    cbn [negb]. rewrite Hry, Hrx. cbn [andb].
    apply String.eqb_neq in Hdig. now rewrite Hdig.
Qed.

Lemma holds_same_equal fs d f x :
  Fs.find_file fs f = Some x -> holds_same fs d x ->
  Fs.path_exists fs d = true /\ is_same_file d f fs = (Ok true, fs).
Proof.
  intros Hx (y & Hy & Hry & Hrx & Hc).
  apply find_file_node in Hx, Hy. split.
  - unfold Fs.path_exists. now rewrite Hy.
  - apply is_same_file_meta.
    rewrite (proj2 (find_meta_file fs d y) Hy), (proj2 (find_meta_file fs f x) Hx).
    unfold same_meta, meta_size. rewrite Hc, Z.eqb_refl. cbn [negb].
    rewrite Hry, Hrx. cbn [andb]. now rewrite String.eqb_refl.
Qed.

(** The destination search of a regular file, from what the candidates
    hold: after [n] candidates that hold another content, it ends at
    candidate [n]. *)
Lemma dest_loop_reaches fs folder f x n r :
  Fs.find_file fs f = Some x ->
  (forall j, (j < n)%nat -> holds_other fs (candidate folder f j) x) ->
  match r with
  | Same d => d = candidate folder f n /\ holds_same fs d x
  | Free d => d = candidate folder f n /\ Fs.path_exists fs d = false
  end ->
  dest_loop (S (entry_count fs folder)) folder f (candidate folder f 0) 1 fs = (Ok r, fs).
Proof.
  intros Hx Hbefore Hend.
  assert (Hsearch : search_ends fs folder f n r).
  { split.
    - intros j Hj. exact (holds_other_differs fs _ f x Hx (Hbefore j Hj)).
    - destruct r as [d|d].
      + destruct Hend as [-> Hsame].
        destruct (holds_same_equal fs _ f x Hx Hsame) as [He Hs]. auto.
      + exact Hend. }
  destruct (dest_loop_follows fs folder f n r Hsearch (S (entry_count fs folder)) 0
              ltac:(lia)) as [H|H]; [exact H|].
  now apply dest_loop_terminates in H.
Qed.

(* ------------------------------------------------------------------ *)
(** * The claims *)

(** C9. [scan_files] returns no file that lies in or below a directory whose
    rendered path contains an ignore string: the test is a substring test
    on the path string ([ig in dirpath]), so a directory is excluded as soon
    as one of its components contains the string, and with ["lib"] among the
    ignore strings the files under a [library_docs] directory are excluded
    too. *)
Theorem scan_files_ignore_is_substring_match
  (fs : node) (root : path) (recursive : bool) (ign : list string) :
  exists files,
    scan_files root recursive ign fs = (Ok files, fs) /\
    (forall f, In f files ->
       forall d rest ig, parent f = d ++ rest -> In ig ign ->
         PyStr.contains ig (path_str d) = false) /\
    (forall f ig seg, In ig ign -> In seg (parent f) ->
       PyStr.contains ig seg = true -> ~ In f files) /\
    (In "lib"%string ign ->
       forall f, In "library_docs"%string (parent f) -> ~ In f files).
Proof.
  exists (scan_files_in fs root recursive ign).
  split; [reflexivity|].
  assert (Hseg : forall f ig seg, In ig ign -> In seg (parent f) ->
            PyStr.contains ig seg = true ->
            ~ In f (scan_files_in fs root recursive ign)).
  { intros f ig seg Hig Hseg Hc Hf.
    apply scan_files_not_ignored in Hf.
    assert (Ht : ignored ign (parent f) = true).
    { unfold ignored. apply existsb_exists. exists ig. split; [exact Hig|].
      now apply (contains_segment ig seg). }
    congruence. }
  split; [|split].
  - intros f Hf d rest ig Hp Hig.
    apply scan_files_not_ignored in Hf.
    destruct (PyStr.contains ig (path_str d)) eqn:Hc; [|reflexivity].
    assert (Ht : ignored ign (d ++ rest) = true).
    { apply ignored_prefix. unfold ignored. apply existsb_exists.
      exists ig. now split. }
    rewrite <- Hp in Ht. congruence.
  - exact Hseg.
  - intros Hlib f Hdocs. apply (Hseg f "lib"%string "library_docs"%string); auto.
Qed.

Lemma scan_files_ignore_is_substring_match_witness :
  Fs.is_file Fx.lib_fs ["root"; "library_docs"; "x.txt"]%string = true /\
  ~ In ["root"; "library_docs"; "x.txt"]%string
       (scan_files_in Fx.lib_fs ["root"%string] true ["lib"%string]) /\
  scan_files_in Fx.lib_fs ["root"%string] true ["lib"%string]
  = [["root"; "docs"; "y.txt"]%string].
Proof.
  split; [reflexivity|]. split; [|reflexivity].
  destruct (scan_files_ignore_is_substring_match
              Fx.lib_fs ["root"%string] true ["lib"%string])
    as (files & Hrun & _ & _ & Hlib).
  rewrite scan_files_run in Hrun. injection Hrun as <-.
  apply Hlib; simpl; auto.
Defined.

Lemma strongly_sorted_last {X} (R : X -> X -> Prop) (l : list X) (k : X) :
  StronglySorted R (l ++ [k]) -> forall x, In x l -> R x k.
Proof.
  induction l as [|a l IH]; intros Hs x Hx; [destruct Hx|].
  simpl in Hs. inversion Hs as [|a' l' Hs' Hall]; subst.
  destruct Hx as [->|Hx]; [|now apply IH].
  rewrite Forall_forall in Hall. apply Hall, in_or_app. right. now left.
Qed.

Lemma group_records_kept_by_mtime fs keep g rs :
  group_records fs keep g rs -> kept_by_mtime fs keep g rs.
Proof.
  intros (sl & keeper & to_remove & Hperm & Hsorted & Hself & Hsel & Hmap & Hall).
  exists sl, keeper. split; [exact Hperm|]. split; [exact Hsorted|].
  split; [eapply Forall_impl; [|exact Hall]; now intros r [_ H]|].
  unfold selected in Hsel. rewrite Forall_forall in Hself. split.
  - intros Hk.
    assert (E : String.eqb keep "latest" = false)
      by (destruct Hk as [->| ->]; reflexivity).
    rewrite E in Hsel. subst sl to_remove. split; [reflexivity|].
    intros p Hp. apply (Permutation_in _ (Permutation_sym Hperm)) in Hp.
    inversion Hsorted as [|x l Hs' Hfa]; subst.
    destruct Hp as [<-|Hp]; [apply Hself; now left|].
    rewrite Forall_forall in Hfa. now apply Hfa.
  - intros ->. simpl in Hsel. subst sl to_remove. split; [reflexivity|].
    intros p Hp. apply (Permutation_in _ (Permutation_sym Hperm)) in Hp.
    apply in_app_or in Hp as [Hp|[<-|[]]].
    + now apply (strongly_sorted_last _ _ _ Hsorted).
    + apply Hself, in_or_app. right. now left.
Qed.

Lemma select_largest sorted_list fs :
  select "largest" sorted_list fs = select "first" sorted_list fs.
Proof. reflexivity. Qed.

Lemma remove_groups_largest dry_run dups : forall acc fs,
  remove_groups dups "largest" dry_run acc fs = remove_groups dups "first" dry_run acc fs.
Proof.
  induction dups as [|[h plist] dups IH]; intros acc fs; [reflexivity|].
  cbn [remove_groups]. apply bind_ext. intros sl fs1.
  rewrite (bind_ext_l _ _ _ _ (select_largest sl)).
  apply bind_ext. intros kt fs2. apply bind_ext. intros r fs3. apply IH.
Qed.

(** C5. [remove_duplicates] orders every group by modification time,
    ascending; with [keep='first'] the earliest-modified entry is kept and
    there is a removal record for each of the others, with [keep='latest']
    the most recently modified entry is kept, and [keep='largest'] selects
    exactly as [keep='first'] does. *)
Theorem remove_duplicates_keeps_by_mtime
  (dups : list (string * list path)) (dry_run : bool) (fs : node) :
  remove_duplicates dups "largest" dry_run fs = remove_duplicates dups "first" dry_run fs /\
  forall keep recs fs',
    remove_duplicates dups keep dry_run fs = (Ok recs, fs') ->
    exists rss, recs = List.concat rss /\ Forall2 (kept_by_mtime fs keep) dups rss.
Proof.
  split; [apply remove_groups_largest|].
  intros keep recs fs' H.
  destruct (remove_groups_decompose keep dry_run fs dups [] fs recs fs'
              (shrunk_refl fs) H) as (rss & -> & Hf2 & _).
  exists rss. split; [reflexivity|].
  eapply Forall2_impl; [|exact Hf2].
  intros g rs. apply group_records_kept_by_mtime.
Qed.

Lemma remove_duplicates_keeps_by_mtime_witness :
  (exists rss, FxDup.first_records = List.concat rss /\
               Forall2 (kept_by_mtime FxDup.fs "first") FxDup.dups rss) /\
  (exists rss, FxDup.latest_records = List.concat rss /\
               Forall2 (kept_by_mtime FxDup.fs "latest") FxDup.dups rss).
Proof.
  split.
  - exact (proj2 (remove_duplicates_keeps_by_mtime FxDup.dups false FxDup.fs)
             "first"%string FxDup.first_records FxDup.fs_first eq_refl).
  - exact (proj2 (remove_duplicates_keeps_by_mtime FxDup.dups true FxDup.fs)
             "latest"%string FxDup.latest_records FxDup.fs eq_refl).
Defined.

Lemma group_records_one_kept fs keep g rs :
  group_records fs keep g rs -> one_kept g rs.
Proof.
  intros (sl & keeper & to_remove & Hperm & _ & _ & Hsel & Hmap & Hall).
  destruct (selected_cases _ _ _ _ Hsel) as (Hin & Hlen & Hincl & Hnd).
  exists keeper. split; [exact (Permutation_in _ Hperm Hin)|]. split.
  - rewrite <- (Permutation_length Hperm), Hlen, <- Hmap. now rewrite length_map.
  - rewrite Forall_forall in *. intros r Hr. destruct (Hall r Hr) as [Hh Hk].
    assert (Hrem : In (r_removed r) to_remove) by (rewrite <- Hmap; now apply in_map).
    repeat split; auto.
    + apply (Permutation_in _ Hperm), Hincl, Hrem.
    + intros Hnd' Heq. apply Hnd; [|now rewrite <- Heq].
      eapply Permutation_NoDup; [symmetry; exact Hperm | exact Hnd'].
Qed.

Lemma one_kept_paths dups rss :
  Forall2 one_kept dups rss ->
  forall r, In r (List.concat rss) ->
    In (r_removed r) (List.concat (map snd dups)) /\
    In (r_kept r) (List.concat (map snd dups)).
Proof.
  induction 1 as [|g rs dups rss (keeper & Hk & _ & Hall) _ IH]; intros r Hr;
    [destruct Hr|].
  simpl in *. apply in_app_or in Hr as [Hr|Hr].
  - rewrite Forall_forall in Hall. destruct (Hall r Hr) as (_ & -> & Hrem & _).
    split; apply in_or_app; now left.
  - destruct (IH r Hr). split; apply in_or_app; now right.
Qed.

(** Across the groups of a run, no kept path is a removed path. *)
Lemma kept_never_removed dups rss :
  NoDup (List.concat (map snd dups)) -> Forall2 one_kept dups rss ->
  forall r r', In r (List.concat rss) -> In r' (List.concat rss) ->
               r_removed r <> r_kept r'.
Proof.
  intros Hnd H. induction H as [|g rs dups rss Hone Hrest IH]; intros r r' Hr Hr';
    [destruct Hr|].
  simpl in Hnd, Hr, Hr'.
  pose proof (nodup_app_disjoint _ _ Hnd) as Hdisj.
  pose proof (NoDup_app_remove_r _ _ Hnd) as Hnd1.
  pose proof (NoDup_app_remove_l _ _ Hnd) as Hnd2.
  pose proof (one_kept_paths _ _ Hrest) as Hpaths.
  destruct Hone as (keeper & Hk & _ & Hall). rewrite Forall_forall in Hall.
  apply in_app_or in Hr as [Hr|Hr]; apply in_app_or in Hr' as [Hr'|Hr'].
  - destruct (Hall r Hr) as (_ & _ & _ & Hne).
    destruct (Hall r' Hr') as (_ & -> & _). now apply Hne.
  - destruct (Hall r Hr) as (_ & _ & Hrem & _).
    destruct (Hpaths r' Hr') as [_ Hkept].
    intros Heq. apply (Hdisj _ Hrem). now rewrite Heq.
  - destruct (Hall r' Hr') as (_ & -> & _).
    destruct (Hpaths r Hr) as [Hrem _].
    intros Heq. apply (Hdisj _ Hk). now rewrite <- Heq.
  - now apply IH.
Qed.

(** C10. For every keep rule and both dry-run settings, [remove_duplicates]
    returns on groups as [find_duplicates] produces them, and whenever it
    returns, a group of n entries contributes exactly n - 1 records, each
    naming the selected keeper as kept; the keeper is never a removed path
    of its group, nor, when the groups share no path, of any record of the
    run. *)
Theorem remove_duplicates_one_kept_per_group
  (dups : list (string * list path)) (keep : string) (dry_run : bool) (fs : node) :
  (duplicate_groups fs dups ->
   exists recs fs', remove_duplicates dups keep dry_run fs = (Ok recs, fs')) /\
  (forall recs fs',
     remove_duplicates dups keep dry_run fs = (Ok recs, fs') ->
     (exists rss, recs = List.concat rss /\ Forall2 one_kept dups rss) /\
     (NoDup (List.concat (map snd dups)) ->
      forall r r', In r recs -> In r' recs -> r_removed r <> r_kept r')).
Proof.
  split.
  - intros [Hall Hnd]. apply remove_groups_total; [|exact Hnd].
    eapply Forall_impl; [|exact Hall]. intros g [Hne Hf]. split; [exact Hne|].
    eapply Forall_impl; [|exact Hf]. intros p. apply is_file_exists.
  - intros recs fs' H.
    destruct (remove_groups_decompose keep dry_run fs dups [] fs recs fs'
                (shrunk_refl fs) H) as (rss & -> & Hf2 & _).
    assert (Hone : Forall2 one_kept dups rss).
    { eapply Forall2_impl; [|exact Hf2]. intros g rs. apply group_records_one_kept. }
    split; [exists rss; split; [reflexivity | exact Hone]|].
    intros Hnd. now apply (kept_never_removed dups rss).
Qed.

Lemma remove_duplicates_one_kept_per_group_witness :
  duplicate_groups FxDup.fs FxDup.dups /\
  (exists recs fs', remove_duplicates FxDup.dups "first" false FxDup.fs = (Ok recs, fs')) /\
  (exists rss, FxDup.first_records = List.concat rss /\ Forall2 one_kept FxDup.dups rss).
Proof.
  assert (Hwf : duplicate_groups FxDup.fs FxDup.dups).
  { split.
    - repeat constructor. discriminate.
    - simpl. repeat constructor; simpl; intuition discriminate. }
  split; [exact Hwf|]. split.
  - exact (proj1 (remove_duplicates_one_kept_per_group
                    FxDup.dups "first" false FxDup.fs) Hwf).
  - exact (proj1 (proj2 (remove_duplicates_one_kept_per_group
                           FxDup.dups "first" false FxDup.fs)
                    FxDup.first_records FxDup.fs_first eq_refl)).
Defined.

(** C8. The destinations that [organize_files] tries for a file are its
    own name in the category folder, then [stem_1.ext], [stem_2.ext], ...:
    the numbers start at 1, increase by one, and no two candidates
    coincide. When the first [n] candidates hold a different content, the
    search stops at candidate [n] as soon as that one holds the same
    content, with a skip and nothing moved, or does not exist, with a move
    or a copy to it; a dry run lists that action and transfers nothing. *)
Theorem organize_collision_numbering
  (root target : path) (dry_run move : bool) (f rel : path) (x : file)
  (fs fs1 : node) (n : nat) :
  let folder := target ++ [category f] in
  relative_to f root = Some rel ->
  already_organized rel f = false ->
  Fs.find_file fs f = Some x ->
  safe_mkdir folder fs = (Ok tt, fs1) ->
  (forall j, (j < n)%nat -> holds_other fs1 (candidate folder f j) x) ->
  (candidate folder f 0 = folder ++ [name f] /\
   (forall k, candidate folder f (S k) =
              folder ++ [(PyStr.stem (name f) ++ "_" ++ PyStr.dec (S k)
                          ++ PyStr.suffix (name f))%string]) /\
   (forall j k, candidate folder f j = candidate folder f k -> j = k)) /\
  (holds_same fs1 (candidate folder f n) x ->
   organize_one root target dry_run move f fs
   = (Ok (Some (mkOp SkipSame f (candidate folder f n))), fs1)) /\
  (Fs.path_exists fs1 (candidate folder f n) = false ->
   dry_run = true \/ (if move then locked x = false else readable x = true) ->
   exists fs',
     organize_one root target dry_run move f fs
     = (Ok (Some (mkOp (if move then Move else Copy) f (candidate folder f n))), fs') /\
     if dry_run then fs' = fs1 else transferred move fs' f (candidate folder f n) x).
Proof.
  intros folder Hrel Hal Hx Hmk Hbefore.
  assert (Hx1 : Fs.find_file fs1 f = Some x)
    by (now rewrite (safe_mkdir_find_file _ _ _ _ Hmk)).
  assert (Hdir : Fs.is_dir fs1 folder = true).
  { unfold safe_mkdir in Hmk. destruct (Fs.mkdirs fs folder) as [e|fs2] eqn:Hm; [discriminate|].
    injection Hmk as <-. apply (mkdirs_dirs folder fs fs2 Hm), is_prefix_refl. }
  split; [split; [reflexivity | split; [reflexivity | apply candidate_inj]]|].
  split.
  - intros Hsame.
    rewrite (organize_one_run root target dry_run move f fs rel fs1
               (Same (candidate folder f n)) Hrel Hal Hmk); [reflexivity|].
    apply (dest_loop_reaches fs1 folder f x n); auto.
  - intros Hfree Hable.
    rewrite (organize_one_run root target dry_run move f fs rel fs1
               (Free (candidate folder f n)) Hrel Hal Hmk);
      [|apply (dest_loop_reaches fs1 folder f x n); auto].
    assert (Hnone : Fs.find_node fs1 (folder ++ [candidate_name f n]) = None).
    { unfold Fs.path_exists, candidate in Hfree.
      destruct (Fs.find_node fs1 _); [discriminate | reflexivity]. }
    destruct dry_run.
    { exists fs1. destruct move; split; reflexivity. }
    destruct Hable as [[=] | Hable].
    pose proof (find_file_node _ _ _ Hx1) as Hnode.
    assert (Hfile : Fs.is_file fs1 f = true) by (unfold Fs.is_file; now rewrite Hnode).
    assert (Hne : f <> candidate folder f n).
    { intros E. unfold candidate in E. rewrite <- E in Hnone. congruence. }
    destruct move.
    + destruct (shutil_move_total f folder (candidate_name f n) fs1 x Hnode Hable Hnone Hdir)
        as [fs' Hmv].
      exists fs'. unfold bind. unfold candidate at 1. rewrite Hmv.
      split; [reflexivity|].
      destruct (shutil_move_effect f (candidate folder f n) fs1 fs' Hfile Hfree Hmv)
        as [(fl & fl' & Hfl & Hfl' & _ & Hc) Hframe].
      rewrite Hx1 in Hfl. injection Hfl as <-.
      split; [exists fl'; auto|].
      rewrite find_file_meta, (Hframe f Hne), path_eqb_refl. reflexivity.
    + destruct (shutil_copy2_total f folder (candidate_name f n) fs1 x Hnode Hable Hnone Hdir)
        as [fs' Hcp].
      exists fs'. unfold bind. unfold candidate at 1. rewrite Hcp.
      split; [reflexivity|].
      pose proof (shutil_copy2_free f _ fs1 fs' x Hnode Hnone Hcp) as Hm.
      split.
      * eexists. rewrite find_file_meta, Hm, path_eqb_refl. split; reflexivity.
      * rewrite find_file_meta, Hm.
        assert (E : path_eqb f (folder ++ [candidate_name f n]) = false)
          by (apply path_eqb_neq; exact Hne).
        now rewrite E, <- find_file_meta.
Qed.

Lemma organize_collision_numbering_witness :
  exists fs',
    organize_one FxCol.root FxCol.root false true FxCol.a FxCol.fs
    = (Ok (Some (mkOp Move FxCol.a ["root"; "txt"; "a_2.txt"]%string)), fs') /\
    transferred true fs' FxCol.a ["root"; "txt"; "a_2.txt"]%string
      (mkFile [x58] 1 true false).
Proof.
  refine (proj2 (proj2 (organize_collision_numbering
            FxCol.root FxCol.root false true FxCol.a ["a.txt"%string]
            (mkFile [x58] 1 true false) FxCol.fs FxCol.fs 2
            eq_refl eq_refl eq_refl eq_refl _)) eq_refl (or_intror eq_refl)).
  intros [|[|j]] Hj; [| |lia].
  - eexists. split; [reflexivity|]. right.
    split; [reflexivity|]. split; [reflexivity|]. vm_compute. discriminate.
  - eexists. split; [reflexivity|]. right.
    split; [reflexivity|]. split; [reflexivity|]. vm_compute. discriminate.
Defined.

(** C7, as the program has it. For a scanned file that has an extension,
    a completed [organize_files] emits no action exactly when the path of
    the file relative to the root has at least two components and its
    first component, lower-cased, equals the extension category of the
    file (the lower-cased extension without its dot). *)
Theorem organize_skips_organized_files
  (root : path) (target : option path) (dry_run move : bool)
  (ign : list string) (fs : node) (ops : list op) (fs' : node) (f : path) :
  organize_files root target dry_run move ign fs = (Ok ops, fs') ->
  In f (scan_files_in fs root true ign) ->
  ext_of f <> ""%string ->
  exists rel,
    relative_to f root = Some rel /\
    ((forall o, In o ops -> op_src o <> f) <->
     ((2 <= List.length rel)%nat /\ PyStr.lower (hd ""%string rel) = category f)).
Proof.
  intros H Hin Hext. unfold organize_files in H.
  rewrite (bind_ok _ _ _ _ _ (scan_files_run root true ign fs)) in H.
  assert (Hsrcs := organize_loop_srcs _ _ _ _ _ _ _ _ _ H). simpl in Hsrcs.
  assert (Hcat : category f = ext_of f).
  { unfold category. apply String.eqb_neq in Hext. now rewrite Hext. }
  assert (Hrel := organize_loop_relative _ _ _ _ _ _ _ _ _ H f Hin).
  destruct Hrel as [rel Hrel]. exists rel. split; [exact Hrel|].
  assert (Hskip : skipped root f = true <->
                  (2 <= List.length rel)%nat /\ PyStr.lower (hd ""%string rel) = category f).
  { unfold skipped, already_organized. rewrite Hrel, Hcat, andb_true_iff.
    now rewrite Nat.leb_le, String.eqb_eq. }
  rewrite <- Hskip. split.
  - intros Hno. destruct (skipped root f) eqn:E; [reflexivity|]. exfalso.
    assert (Hf : In f (map op_src ops)).
    { rewrite Hsrcs. apply filter_In. now rewrite E. }
    apply in_map_iff in Hf as (o & Ho & Hino). exact (Hno o Hino Ho).
  - intros Hs o Hino Ho.
    assert (Hf : In f (map op_src ops)) by (rewrite <- Ho; now apply in_map).
    rewrite Hsrcs in Hf. apply filter_In in Hf as [_ Hf]. now rewrite Hs in Hf.
Qed.

Lemma organize_skips_organized_files_witness :
  exists rel,
    relative_to FxSkip.a FxSkip.root = Some rel /\
    ((forall o, In o [mkOp SkipSame FxSkip.readme FxSkip.readme] ->
                op_src o <> FxSkip.a) <->
     ((2 <= List.length rel)%nat /\
      PyStr.lower (hd ""%string rel) = category FxSkip.a)).
Proof.
  refine (organize_skips_organized_files FxSkip.root None true true []
            FxSkip.fs [mkOp SkipSame FxSkip.readme FxSkip.readme] _ FxSkip.a _ _ _).
  - vm_compute. reflexivity.
  - vm_compute. auto.
  - vm_compute. discriminate.
Defined.

(** C7 as stated fails in both directions: [TXT/a.txt] gets no action
    although its first component [TXT] is not its category [txt], and
    [no_ext/README] gets an action although its first component is its
    category. *)
Lemma organize_skip_rule_counterexample :
  fst (organize_files FxSkip.root None true true [] FxSkip.fs)
  = Ok [mkOp SkipSame FxSkip.readme FxSkip.readme] /\
  In FxSkip.a (scan_files_in FxSkip.fs FxSkip.root true []) /\
  In FxSkip.readme (scan_files_in FxSkip.fs FxSkip.root true []) /\
  (relative_to FxSkip.a FxSkip.root = Some ["TXT"; "a.txt"]%string /\
   "TXT"%string <> category FxSkip.a) /\
  (relative_to FxSkip.readme FxSkip.root = Some ["no_ext"; "README"]%string /\
   "no_ext"%string = category FxSkip.readme).
Proof.
  split; [vm_compute; reflexivity|].
  split; [vm_compute; auto|].
  split; [vm_compute; auto|].
  split; (split; [reflexivity|]); [discriminate | reflexivity].
Qed.

Lemma perm3_cases {X} (x y z : X) (l : list X) :
  Permutation l [x; y; z] ->
  l = [x; y; z] \/ l = [x; z; y] \/ l = [y; x; z] \/
  l = [y; z; x] \/ l = [z; x; y] \/ l = [z; y; x].
Proof.
  intros H.
  destruct (Permutation_vs_cons_inv H) as (l1 & l2 & ->).
  apply Permutation_sym, Permutation_cons_app_inv in H.
  apply Permutation_length_2_inv in H as [H|H].
  - destruct l1 as [|u [|v [|w l1]]]; simpl in H; try discriminate.
    + subst l2. auto.
    + injection H as -> ->. auto 6.
    + injection H as -> -> ->. auto 6.
  - destruct l1 as [|u [|v [|w l1]]]; simpl in H; try discriminate.
    + subst l2. auto.
    + injection H as -> ->. auto 7.
    + injection H as -> -> ->. auto 7.
Qed.

(** C2, as the program has it. On the fixture, in whatever order the
    system lists the three files, [find_duplicates] returns exactly one
    group, made of [a.txt] and [b.txt], and [organize_files] with
    [move=True] emits a move into [txt/] for each of the three files, and
    nothing else: [b.txt] has the content of [a.txt] but not its name, so
    its destination [txt/b.txt] is free. *)
Theorem fixture_one_group_three_moves
  (es : list (string * node)) (dry_run : bool) :
  Permutation es [FxABC.ea; FxABC.eb; FxABC.ec] ->
  (exists plist,
     find_duplicates FxABC.root [] (FxABC.fixture es)
     = (Ok [(FxABC.digest_X, plist)], FxABC.fixture es) /\
     Permutation plist [FxABC.a; FxABC.b]) /\
  (exists ops fs',
     organize_files FxABC.root None dry_run true [] (FxABC.fixture es) = (Ok ops, fs') /\
     Permutation ops [FxABC.move_a; FxABC.move_b; FxABC.move_c]).
Proof.
  intros H.
  apply perm3_cases in H as [-> | [-> | [-> | [-> | [-> | ->]]]]]; split.
  all: try (eexists; split; [vm_compute; reflexivity|];
            first [apply Permutation_refl | apply perm_swap]).
  all: destruct dry_run; do 2 eexists; (split; [vm_compute; reflexivity|]).
  all: unfold FxABC.move_a, FxABC.move_b, FxABC.move_c, FxABC.a, FxABC.b, FxABC.c.
  all: first [ apply Permutation_refl
             | apply perm_swap
             | apply perm_skip, perm_swap
             | eapply perm_trans; [apply perm_swap | apply perm_skip, perm_swap]
             | eapply perm_trans; [apply perm_skip, perm_swap | apply perm_swap]
             | eapply perm_trans; [apply perm_swap |
                 eapply perm_trans; [apply perm_skip, perm_swap | apply perm_swap]] ].
Qed.

Lemma fixture_one_group_three_moves_witness :
  (exists plist,
     find_duplicates FxABC.root [] FxABC.fs = (Ok [(FxABC.digest_X, plist)], FxABC.fs) /\
     Permutation plist [FxABC.a; FxABC.b]) /\
  (exists ops fs',
     organize_files FxABC.root None false true [] FxABC.fs = (Ok ops, fs') /\
     Permutation ops [FxABC.move_a; FxABC.move_b; FxABC.move_c]).
Proof.
  exact (fixture_one_group_three_moves [FxABC.ea; FxABC.eb; FxABC.ec] false
           (Permutation_refl _)).
Defined.

(** C2 as stated fails: on the fixture [organize_files] with [move=True]
    moves [b.txt] to [txt/b.txt]; no action is a skip. *)
Lemma fixture_organize_counterexample :
  fst (organize_files FxABC.root None false true [] FxABC.fs)
  = Ok [FxABC.move_a; FxABC.move_b; FxABC.move_c] /\
  fst (organize_files FxABC.root None true true [] FxABC.fs)
  = Ok [FxABC.move_a; FxABC.move_b; FxABC.move_c] /\
  ~ In (mkOp SkipSame FxABC.b ["root"; "txt"; "a.txt"]%string)
       [FxABC.move_a; FxABC.move_b; FxABC.move_c] /\
  forall o, In o [FxABC.move_a; FxABC.move_b; FxABC.move_c] -> op_action o <> SkipSame.
Proof.
  split; [vm_compute; reflexivity|]. split; [vm_compute; reflexivity|]. split.
  - simpl. intuition discriminate.
  - intros o [<-|[<-|[<-|[]]]]; discriminate.
Qed.

Lemma two_members {X} (a b : X) (l : list X) :
  In a l -> In b l -> a <> b -> (2 <= List.length l)%nat.
Proof.
  destruct l as [|x [|y l]]; simpl; intros Ha Hb Hne; [destruct Ha | | lia].
  destruct Ha as [Ha|[]], Hb as [Hb|[]]. congruence.
Qed.

Lemma class_of_In {K} (key : path -> option K) (eqb : K -> K -> bool) k files p :
  (forall x y, eqb x y = true <-> x = y) ->
  (In p (class_of key eqb k files) <-> In p files /\ key p = Some k).
Proof.
  intros Heq. unfold class_of. rewrite filter_In.
  destruct (key p) as [k'|]; [|intuition discriminate].
  rewrite Heq. intuition congruence.
Qed.

Lemma hash_at_file fs p c :
  Fs.find_file fs p = Some c -> readable c = true ->
  hash_at fs p = Some (Sha256.hexdigest (content c)) /\
  size_at fs p = Some (Z.of_nat (List.length (content c))).
Proof.
  unfold hash_at, size_at, Fs.find_file.
  destruct (Fs.find_node fs p) as [[f|st es]|]; try discriminate.
  intros [= ->] ->. auto.
Qed.

Lemma hash_at_inv fs p h :
  hash_at fs p = Some h ->
  exists c, Fs.find_file fs p = Some c /\ readable c = true /\
            Sha256.hexdigest (content c) = h /\
            size_at fs p = Some (Z.of_nat (List.length (content c))).
Proof.
  unfold hash_at, size_at, Fs.find_file.
  destruct (Fs.find_node fs p) as [[f|st es]|]; try discriminate.
  destruct (readable f) eqn:E; [|discriminate]. intros [= <-]. exists f. auto.
Qed.

(** C3. [find_duplicates] returns, and puts any two distinct scanned files
    with identical bytes whose hashing succeeds in one and the same group,
    whatever their names and directories; every group it returns has at
    least two entries, all regular files of one size and one digest. *)
Theorem find_duplicates_groups_identical_content
  (fs : node) (root : path) (ign : list string) :
  exists dups,
    find_duplicates root ign fs = (Ok dups, fs) /\
    (forall f g cf cg,
       In f (scan_files_in fs root true ign) ->
       In g (scan_files_in fs root true ign) ->
       f <> g ->
       Fs.find_file fs f = Some cf -> Fs.find_file fs g = Some cg ->
       readable cf = true -> readable cg = true ->
       content cf = content cg ->
       exists h plist, In (h, plist) dups /\ In f plist /\ In g plist) /\
    (forall h plist,
       In (h, plist) dups ->
       (2 <= List.length plist)%nat /\
       exists size,
         forall p, In p plist ->
           exists c, Fs.find_file fs p = Some c /\ readable c = true /\
                     Z.of_nat (List.length (content c)) = size /\
                     Sha256.hexdigest (content c) = h).
Proof.
  destruct (find_duplicates_of_spec (scan_files_in fs root true ign) fs)
    as (dups & Hrun & Hgroups).
  exists dups. split; [|split].
  - unfold find_duplicates.
    now rewrite (bind_ok _ _ _ _ _ (scan_files_run root true ign fs)).
  - intros f g cf cg Hf Hg Hne Hcf Hcg Hrf Hrg Hcontent.
    destruct (hash_at_file fs f cf Hcf Hrf) as [Hhf Hsf].
    destruct (hash_at_file fs g cg Hcg Hrg) as [Hhg Hsg].
    rewrite <- Hcontent in Hhg, Hsg.
    set (h := Sha256.hexdigest (content cf)) in *.
    set (s := Z.of_nat (List.length (content cf))) in *.
    set (plist := class_of (hash_at fs) String.eqb h
                    (class_of (size_at fs) Z.eqb s (scan_files_in fs root true ign))).
    assert (Hin : forall p, In p (scan_files_in fs root true ign) ->
                   hash_at fs p = Some h -> size_at fs p = Some s -> In p plist).
    { intros p Hp Hh Hs. apply (class_of_In _ _ _ _ _ String.eqb_eq).
      split; [|exact Hh]. apply (class_of_In _ _ _ _ _ Z.eqb_eq). auto. }
    exists h, plist. split; [|split]; auto.
    apply Hgroups. exists s. split; [reflexivity|].
    apply (two_members f g); auto.
  - intros h plist Hin. apply Hgroups in Hin as (s & -> & Hlen).
    split; [exact Hlen|]. exists s. intros p Hp.
    apply (class_of_In _ _ _ _ _ String.eqb_eq) in Hp as [Hp Hh].
    apply (class_of_In _ _ _ _ _ Z.eqb_eq) in Hp as [_ Hs].
    apply hash_at_inv in Hh as (c & Hc & Hr & Hd & Hs').
    exists c. repeat split; auto. congruence.
Qed.

Lemma find_duplicates_groups_identical_content_witness :
  exists h plist, In (h, plist) [(FxABC.digest_X, [FxABC.a; FxABC.b])] /\
                  In FxABC.a plist /\ In FxABC.b plist.
Proof.
  destruct (find_duplicates_groups_identical_content FxABC.fs FxABC.root [])
    as (dups & Hrun & Hsame & _).
  assert (Hd : dups = [(FxABC.digest_X, [FxABC.a; FxABC.b])]).
  { assert (E : find_duplicates FxABC.root [] FxABC.fs
                = (Ok [(FxABC.digest_X, [FxABC.a; FxABC.b])], FxABC.fs))
      by (vm_compute; reflexivity).
    rewrite E in Hrun. now injection Hrun. }
  rewrite <- Hd.
  apply (Hsame FxABC.a FxABC.b (mkFile [x58] 1 true false) (mkFile [x58] 2 true false)).
  - vm_compute. auto.
  - vm_compute. auto.
  - discriminate.
  - reflexivity.
  - reflexivity.
  - reflexivity.
  - reflexivity.
  - reflexivity.
Defined.

(** C1, as the program has it. With [dry_run=True], [remove_duplicates]
    leaves the file system as it is and [organize_files] moves, copies and
    deletes no file. The records of a dry [remove_duplicates] are those of
    the effective run on the same snapshot without their error fields, and
    the action a dry [organize_files] records for a file is the one the
    effective step records from the same file system. *)
Theorem dry_run_effects_and_records :
  (forall dups keep fs r fs',
     remove_duplicates dups keep true fs = (r, fs') -> fs' = fs) /\
  (forall root target move ign fs r fs',
     organize_files root target true move ign fs = (r, fs') ->
     forall p, Fs.find_file fs' p = Fs.find_file fs p) /\
  (forall dups keep fs recs fs',
     remove_duplicates dups keep false fs = (Ok recs, fs') ->
     remove_duplicates dups keep true fs = (Ok (map without_error recs), fs)) /\
  (forall root target move f fs o fs',
     organize_one root target false move f fs = (Ok o, fs') ->
     exists fs1, organize_one root target true move f fs = (Ok o, fs1)).
Proof.
  split; [|split; [|split]].
  - intros dups keep fs r fs'. apply read_only_remove_groups_dry.
  - intros root target move ign fs r fs' H p. unfold organize_files in H.
    rewrite (bind_ok _ _ _ _ _ (scan_files_run root true ign fs)) in H.
    eapply organize_loop_dry_files; eauto.
  - intros dups keep fs recs fs' H.
    exact (remove_groups_dry_simulates keep fs dups [] fs recs fs' (shrunk_refl fs) H).
  - intros root target move f fs o fs'. apply organize_one_dry_same_action.
Qed.

Lemma dry_run_effects_and_records_witness :
  remove_duplicates [(FxDup.digest, [FxErr.k; FxErr.l; FxErr.m])] "latest" true FxErr.locked_fs
  = (Ok [mkRemoval FxDup.digest FxErr.k FxErr.m None;
         mkRemoval FxDup.digest FxErr.l FxErr.m None], FxErr.locked_fs) /\
  (exists fs1,
     organize_one FxDry.root FxDry.root true true FxDry.a1 FxDry.fs
     = (Ok (Some (mkOp Move FxDry.a1 FxDry.dest)), fs1)).
Proof.
  destruct dry_run_effects_and_records as (_ & _ & Hrecords & Haction).
  split.
  - refine (Hrecords [(FxDup.digest, [FxErr.k; FxErr.l; FxErr.m])] "latest"%string
              FxErr.locked_fs
              [mkRemoval FxDup.digest FxErr.k FxErr.m None;
               mkRemoval FxDup.digest FxErr.l FxErr.m (Some (OSError EACCES FxErr.l))]
              _ _).
    vm_compute. reflexivity.
  - refine (Haction FxDry.root FxDry.root true FxDry.a1 FxDry.fs
              (Some (mkOp Move FxDry.a1 FxDry.dest)) _ _).
    vm_compute. reflexivity.
Defined.

(** C1 as stated fails: on two files of the same name and content the
    dry run records two moves to the same destination, the effective run a
    move and a skip; and a record of the effective [remove_duplicates]
    carries an error that the dry record lacks. *)
Lemma dry_run_records_counterexample :
  fst (organize_files FxDry.root None true true [] FxDry.fs)
  = Ok [mkOp Move FxDry.a1 FxDry.dest; mkOp Move FxDry.a2 FxDry.dest] /\
  fst (organize_files FxDry.root None false true [] FxDry.fs)
  = Ok [mkOp Move FxDry.a1 FxDry.dest; mkOp SkipSame FxDry.a2 FxDry.dest] /\
  fst (organize_files FxDry.root None true true [] FxDry.fs)
  <> fst (organize_files FxDry.root None false true [] FxDry.fs) /\
  fst (remove_duplicates [(FxDup.digest, [FxErr.k; FxErr.l; FxErr.m])] "latest" true
         FxErr.locked_fs)
  <> fst (remove_duplicates [(FxDup.digest, [FxErr.k; FxErr.l; FxErr.m])] "latest" false
            FxErr.locked_fs).
Proof.
  assert (H1 : fst (organize_files FxDry.root None true true [] FxDry.fs)
               = Ok [mkOp Move FxDry.a1 FxDry.dest; mkOp Move FxDry.a2 FxDry.dest])
    by (vm_compute; reflexivity).
  assert (H2 : fst (organize_files FxDry.root None false true [] FxDry.fs)
               = Ok [mkOp Move FxDry.a1 FxDry.dest; mkOp SkipSame FxDry.a2 FxDry.dest])
    by (vm_compute; reflexivity).
  split; [exact H1|]. split; [exact H2|]. split.
  - rewrite H1, H2. discriminate.
  - vm_compute. discriminate.
Qed.

(** C4. The claim fails on [organize_files], which handles no error at
    all, while [find_duplicates] guards the same failure. On a tree where
    [txt/a.txt] has the size of [a.txt] and cannot be read, the comparison
    made for [a.txt] raises and the exception leaves [organize_files]:
    no action is returned, nothing has changed, and [b.txt], the next file
    of the scan, is not looked at. On the same tree [find_duplicates]
    returns: it passes over the file it cannot hash. *)
Theorem organize_files_aborts_on_a_file_error :
  scan_files_in FxErr.fs FxErr.root true [] = [FxErr.a; FxErr.b; FxErr.dest_a] /\
  organize_files FxErr.root None false true [] FxErr.fs
  = (Raise (OSError EACCES FxErr.dest_a), FxErr.fs) /\
  Fs.is_file FxErr.fs FxErr.b = true /\
  Fs.path_exists FxErr.fs ["root"; "txt"; "b.txt"]%string = false /\
  find_duplicates FxErr.root [] FxErr.fs = (Ok [], FxErr.fs).
Proof.
  split; [vm_compute; reflexivity|]. split; [vm_compute; reflexivity|].
  split; [reflexivity|]. split; [reflexivity|]. vm_compute. reflexivity.
Qed.

Lemma ends_with_dot_app s : ends_with_dot (s ++ ".") = true.
Proof.
  induction s as [|c s IH]; [reflexivity|].
  cbn [append ends_with_dot]. destruct (s ++ ".")%string eqn:E; [|exact IH].
  destruct s; discriminate.
Qed.

Lemma tame_dec n : ends_with_dot n = false -> tame n.
Proof. intros H s ->. now rewrite ends_with_dot_app in H. Qed.

(** C6. The claim fails on a second run. A file named [a.] that collides
    in [no_ext] is moved there as [a._1], a name whose extension is [_1]:
    the second run moves it again, to [_1/a._1], where the claim allows
    skips only. And a file without extension that cannot be read is moved
    to [no_ext] by the first run and is not passed over by the second,
    which raises when it compares the file with itself. *)
Theorem organize_twice_moves_again :
  organize_files FxTwice.root None false true [] FxTwice.dot_fs
  = (Ok FxTwice.dot_ops1, FxTwice.dot_fs1) /\
  fst (organize_files FxTwice.root None false true [] FxTwice.dot_fs1)
  = Ok FxTwice.dot_ops2 /\
  In (mkOp Move ["root"; "no_ext"; "a._1"]%string ["root"; "_1"; "a._1"]%string)
     FxTwice.dot_ops2 /\
  fst (organize_files FxTwice.root None false true [] FxTwice.unreadable_fs)
  = Ok [mkOp Move ["root"; "README"]%string ["root"; "no_ext"; "README"]%string] /\
  fst (organize_files FxTwice.root None false true [] FxTwice.unreadable_fs1)
  = Raise (OSError EACCES ["root"; "no_ext"; "README"]%string).
Proof.
  split; [vm_compute; reflexivity|].
  split; [vm_compute; reflexivity|].
  split; [right; now left|].
  split; vm_compute; reflexivity.
Qed.

(* ------------------------------------------------------------------ *)
(** * Further properties of the program *)

(** ** The scan *)

Lemma distinct_NoDup l : distinct l = true -> NoDup l.
Proof.
  induction l as [|x l IH]; simpl; [constructor|].
  rewrite andb_true_iff, negb_true_iff. intros [Hx Hl].
  constructor; [|now apply IH].
  intros Hin. assert (existsb (String.eqb x) l = true); [|congruence].
  apply existsb_exists. exists x. split; [exact Hin | apply String.eqb_refl].
Qed.

Lemma well_formed_dir st es :
  well_formed (Dir st es) = true ->
  NoDup (map fst es) /\ Forall (fun e => well_formed (snd e) = true) es.
Proof.
  simpl. rewrite andb_true_iff, forallb_forall, Forall_forall.
  intros [Hd Hall]. split; [now apply distinct_NoDup | exact Hall].
Qed.

Lemma well_formed_find p : forall n c,
  well_formed n = true -> Fs.find_node n p = Some c -> well_formed c = true.
Proof.
  induction p as [|s p IH]; intros n c Hwf H; simpl in H.
  - now injection H as <-.
  - destruct n as [f|st es]; [discriminate|].
    destruct (Fs.find_entry s es) as [c0|] eqn:Hc; [|discriminate].
    apply well_formed_dir in Hwf as [_ Hall].
    rewrite Forall_forall in Hall. apply find_entry_In in Hc.
    exact (IH c0 c (Hall _ Hc) H).
Qed.

Lemma app_inv_snoc (a b : path) (x y : string) :
  a ++ [x] = b ++ [y] -> a = b /\ x = y.
Proof. intros H. apply app_inj_tail in H. exact H. Qed.

(** The directories [os.walk] yields are distinct. *)
Lemma walk_node_nodup n : forall base,
  well_formed n = true ->
  NoDup (map (fun t => fst (fst t)) (Fs.walk_node base n)).
Proof.
  induction n as [f|st es IH] using node_ind2; intros base Hwf; simpl; [constructor|].
  apply well_formed_dir in Hwf as [Hnd Hall].
  constructor.
  - rewrite in_map_iff. intros (t & Ht & Hin).
    apply in_flat_map in Hin as (e & _ & Hin).
    apply walk_node_prefix in Hin as [rel Hrel]. rewrite Ht in Hrel.
    rewrite <- app_assoc in Hrel.
    apply (f_equal (@List.length string)) in Hrel.
    rewrite length_app in Hrel. simpl in Hrel. lia.
  - induction es as [|e es IHes]; simpl; [constructor|].
    inversion IH as [|? ? He IH']; subst. inversion Hall as [|? ? Hwe Hall']; subst.
    simpl in Hnd. inversion Hnd as [|? ? Hnotin Hnd']; subst.
    rewrite map_app. apply NoDup_app.
    + now apply He.
    + now apply IHes.
    + intros d Hd1 Hd2.
      apply in_map_iff in Hd1 as (t1 & <- & Ht1).
      apply in_map_iff in Hd2 as (t2 & Heq & Ht2).
      apply in_flat_map in Ht2 as (e2 & He2 & Ht2).
      apply walk_node_prefix in Ht1 as [r1 Hr1].
      apply walk_node_prefix in Ht2 as [r2 Hr2].
      rewrite Heq, Hr1, <- !app_assoc in Hr2. apply app_inv_head in Hr2.
      simpl in Hr2. injection Hr2 as Hname _.
      apply Hnotin. rewrite Hname. now apply in_map.
Qed.

Lemma nodup_flat_map_keyed {A B K} (f : A -> list B) (g : A -> K) (key : B -> K)
  (l : list A) :
  NoDup (map g l) ->
  (forall a, In a l -> NoDup (f a)) ->
  (forall a b, In a l -> In b (f a) -> key b = g a) ->
  NoDup (flat_map f l).
Proof.
  induction l as [|a l IH]; simpl; intros Hnd Hf Hkey; [constructor|].
  inversion Hnd as [|? ? Hnotin Hnd']; subst.
  apply NoDup_app.
  - apply Hf. now left.
  - apply IH; auto.
  - intros b Hb1 Hb2. apply in_flat_map in Hb2 as (a' & Ha' & Hb2).
    apply Hnotin. rewrite <- (Hkey a b (or_introl eq_refl) Hb1).
    rewrite (Hkey a' b (or_intror Ha') Hb2). now apply in_map.
Qed.

Lemma nodup_map_fst_filter {A B} (p : A * B -> bool) (l : list (A * B)) :
  NoDup (map fst l) -> NoDup (map fst (filter p l)).
Proof.
  induction l as [|x l IH]; simpl; intros H; [constructor|].
  inversion H as [|? ? Hnotin Hnd]; subst.
  destruct (p x); simpl; [|now apply IH].
  constructor; [|now apply IH].
  rewrite in_map_iff. intros (y & Hy & Hin). apply filter_In in Hin as [Hin _].
  apply Hnotin. rewrite <- Hy. now apply in_map.
Qed.

Lemma nodup_children (d : path) (l : list string) :
  NoDup l -> NoDup (map (fun x => d ++ [x]) l).
Proof.
  induction 1 as [|x l Hnotin Hnd IH]; simpl; constructor; [|exact IH].
  rewrite in_map_iff. intros (y & Hy & Hin).
  apply app_inv_head in Hy. injection Hy as ->. contradiction.
Qed.

(** The names [os.walk] lists in one directory are distinct. *)
Lemma walk_node_filenames n : forall base t,
  well_formed n = true -> In t (Fs.walk_node base n) -> NoDup (snd t).
Proof.
  induction n as [f|st es IH] using node_ind2; intros base t Hwf; simpl; [intros []|].
  apply well_formed_dir in Hwf as [Hnd Hall].
  intros [<-|Hin].
  - simpl. unfold Fs.filenames. now apply nodup_map_fst_filter.
  - apply in_flat_map in Hin as (e & He & Hin).
    rewrite Forall_forall in IH, Hall. exact (IH e He _ _ (Hall e He) Hin).
Qed.

Lemma scan_loop_recursive fs ign w : forall acc,
  scan_loop fs true ign w acc = acc ++ flat_map (scan_step fs ign) w.
Proof.
  induction w as [|[[d dn] fn] w IH]; intros acc; simpl.
  - now rewrite app_nil_r.
  - unfold scan_step at 1. simpl. destruct (ignored ign d).
    + apply IH.
    + now rewrite IH, scan_dir_spec, <- app_assoc.
Qed.

Lemma scan_loop_all_ignored fs recursive ign w : forall acc,
  (forall t, In t w -> ignored ign (fst (fst t)) = true) ->
  scan_loop fs recursive ign w acc = acc.
Proof.
  induction w as [|[[d dn] fn] w IH]; intros acc H; simpl; [reflexivity|].
  pose proof (H (d, dn, fn) (or_introl eq_refl)) as Hd. simpl in Hd.
  rewrite Hd. apply IH.
  intros t Ht. apply H. now right.
Qed.

(** The scan of a directory: its own regular files first, and below them,
    when the scan is recursive, those of the directories under it. *)
Lemma scan_files_in_dir fs root recursive ign st es :
  Fs.find_node fs root = Some (Dir st es) ->
  scan_files_in fs root recursive ign =
  if ignored ign root then []
  else
    filter (Fs.is_file fs) (map (fun x => root ++ [x]) (Fs.filenames es)) ++
    (if recursive
     then flat_map (scan_step fs ign)
            (flat_map (fun e => Fs.walk_node (root ++ [fst e]) (snd e)) es)
     else []).
Proof.
  intros Hroot. unfold scan_files_in, Fs.walk. rewrite Hroot. simpl.
  destruct (ignored ign root) eqn:Hig.
  - apply scan_loop_all_ignored. intros t Ht.
    apply in_flat_map in Ht as (e & _ & Ht).
    apply walk_node_prefix in Ht as [rel ->]. rewrite <- app_assoc.
    now apply ignored_prefix.
  - rewrite scan_dir_spec. simpl. destruct recursive; simpl.
    + now rewrite scan_loop_recursive.
    + now rewrite app_nil_r.
Qed.

Lemma scan_files_in_no_dir fs root recursive ign :
  Fs.is_dir fs root = false -> scan_files_in fs root recursive ign = [].
Proof.
  unfold Fs.is_dir, scan_files_in, Fs.walk.
  destruct (Fs.find_node fs root) as [[f|st es]|]; [reflexivity | discriminate | reflexivity].
Qed.

Lemma scan_files_in_nodup fs root ign :
  well_formed fs = true -> NoDup (scan_files_in fs root true ign).
Proof.
  intros Hwf. unfold scan_files_in. rewrite scan_loop_recursive. simpl.
  unfold Fs.walk. destruct (Fs.find_node fs root) as [n|] eqn:Hroot; [|constructor].
  pose proof (well_formed_find _ _ _ Hwf Hroot) as Hn.
  apply (nodup_flat_map_keyed _ (fun t => fst (fst t)) parent).
  - now apply walk_node_nodup.
  - intros t Ht. unfold scan_step. destruct (ignored ign (fst (fst t))); [constructor|].
    apply NoDup_filter, nodup_children. eapply walk_node_filenames; eauto.
  - intros t g _. unfold scan_step. destruct (ignored ign (fst (fst t))); [intros []|].
    rewrite filter_In, in_map_iff. intros [(x & <- & _) _]. apply parent_snoc.
Qed.

(** X1. The recursive scan lists exactly the regular files that lie below
    the root in a directory whose path contains no ignore string; in a tree
    where no directory lists a name twice, it lists each of them once, with
    or without recursion. *)
Theorem scan_files_lists_each_file_once (fs : node) (root : path) (ign : list string) :
  (forall g, In g (scan_files_in fs root true ign) <->
             Fs.is_file fs g = true /\ eligible root ign g) /\
  (well_formed fs = true ->
   forall recursive, NoDup (scan_files_in fs root recursive ign)).
Proof.
  split.
  - intros g. split; [apply scan_sound | intros [Hf He]; now apply scan_complete].
  - intros Hwf [|]; [now apply scan_files_in_nodup|].
    pose proof (scan_files_in_nodup fs root ign Hwf) as Hnd.
    destruct (Fs.find_node fs root) as [[f|st es]|] eqn:Hroot.
    + rewrite scan_files_in_no_dir; [constructor|].
      unfold Fs.is_dir. now rewrite Hroot.
    + rewrite (scan_files_in_dir _ _ true _ _ _ Hroot) in Hnd.
      rewrite (scan_files_in_dir _ _ false _ _ _ Hroot).
      destruct (ignored ign root); [constructor|].
      rewrite app_nil_r. now apply NoDup_app_remove_r in Hnd.
    + rewrite scan_files_in_no_dir; [constructor|].
      unfold Fs.is_dir. now rewrite Hroot.
Qed.

Lemma scan_files_lists_each_file_once_witness :
  NoDup (scan_files_in FxABC.fs FxABC.root false []).
Proof.
  apply (scan_files_lists_each_file_once FxABC.fs FxABC.root []).
  vm_compute. reflexivity.
Defined.

(** X2. Without recursion the scan returns the regular files that lie
    directly in the root, and nothing else: they are the entries of the
    recursive scan whose parent is the root, and the recursive scan starts
    with them. *)
Theorem scan_files_without_recursion (fs : node) (root : path) (ign : list string) :
  (forall f, In f (scan_files_in fs root false ign) <->
             In f (scan_files_in fs root true ign) /\ parent f = root) /\
  exists below,
    scan_files_in fs root true ign = scan_files_in fs root false ign ++ below.
Proof.
  destruct (Fs.find_node fs root) as [[f0|st es]|] eqn:Hroot.
  1,3: rewrite !scan_files_in_no_dir by (unfold Fs.is_dir; now rewrite Hroot);
       split; [intros f; simpl; tauto | now exists []].
  rewrite !(scan_files_in_dir _ _ _ _ _ _ Hroot).
  destruct (ignored ign root) eqn:Hig; [split; [intros f; simpl; tauto | now exists []]|].
  rewrite app_nil_r. split; [|eexists; reflexivity].
  intros f. rewrite in_app_iff. split.
  - intros Hf. split; [now left|].
    apply filter_In in Hf as [Hf _]. apply in_map_iff in Hf as (x & <- & _).
    apply parent_snoc.
  - intros [[Hf | Hf] Hp]; [exact Hf|]. exfalso.
    apply in_flat_map in Hf as (t & Ht & Hf).
    apply in_flat_map in Ht as (e & _ & Ht).
    apply walk_node_prefix in Ht as [rel Hrel].
    unfold scan_step in Hf. destruct (ignored ign (fst (fst t))); [destruct Hf|].
    apply filter_In in Hf as [Hf _]. apply in_map_iff in Hf as (x & <- & _).
    rewrite parent_snoc, Hrel, <- app_assoc in Hp.
    apply (f_equal (@List.length string)) in Hp.
    rewrite length_app in Hp. simpl in Hp. lia.
Qed.

(** X3. The scan returns the empty list, without raising, when the root is
    not a directory (it does not exist, or it is a regular file) and when
    the path of the root itself contains an ignore string. *)
Theorem scan_files_of_nothing
  (fs : node) (root : path) (recursive : bool) (ign : list string) :
  Fs.is_dir fs root = false \/ ignored ign root = true ->
  scan_files root recursive ign fs = (Ok [], fs).
Proof.
  intros H. rewrite scan_files_run. f_equal. f_equal.
  destruct (Fs.find_node fs root) as [[f0|st es]|] eqn:Hroot.
  1,3: apply scan_files_in_no_dir; unfold Fs.is_dir; now rewrite Hroot.
  destruct H as [H | H].
  - unfold Fs.is_dir in H. rewrite Hroot in H. discriminate.
  - now rewrite (scan_files_in_dir _ _ _ _ _ _ Hroot), H.
Qed.

Lemma scan_files_of_nothing_witness :
  scan_files ["root"; "library_docs"]%string true ["lib"]%string Fx.lib_fs
  = (Ok [], Fx.lib_fs) /\
  scan_files FxABC.a true [] FxABC.fs = (Ok [], FxABC.fs).
Proof.
  split.
  - apply scan_files_of_nothing. right. vm_compute. reflexivity.
  - apply scan_files_of_nothing. left. reflexivity.
Defined.

(** ** Categories *)

Section CategoryFacts.

Local Open Scope string_scope.

Lemma rfind_dot_zero c s :
  PyStr.rfind_dot (String c s) = Some 0%nat -> c = PyStr.dot /\ PyStr.rfind_dot s = None.
Proof.
  simpl. destruct (PyStr.rfind_dot s); [discriminate|].
  destruct (Ascii.eqb c PyStr.dot) eqn:E; [|discriminate].
  apply Ascii.eqb_eq in E. auto.
Qed.

(** A suffix is a dot followed by at least one character, none a dot. *)
Lemma suffix_shape n i :
  PyStr.split_index n = Some i ->
  exists s, PyStr.suffix n = String PyStr.dot s /\ s <> "" /\ PyStr.rfind_dot s = None.
Proof.
  intros Hi. assert (Hsplit := Hi). unfold PyStr.split_index in Hsplit.
  destruct (PyStr.rfind_dot n) as [i'|] eqn:Hr; [|discriminate].
  destruct ((0 <? i')%nat && (i' <? String.length n - 1)%nat) eqn:Hc; [|discriminate].
  injection Hsplit as ->. apply andb_true_iff in Hc as [H0 H1].
  apply Nat.ltb_lt in H0, H1.
  assert (Hstem : PyStr.stem n = substring 0 i n) by (unfold PyStr.stem; now rewrite Hi).
  assert (Hsuf : PyStr.suffix n = substring i (String.length n - i) n)
    by (unfold PyStr.suffix; now rewrite Hi).
  assert (Hlen_stem : String.length (PyStr.stem n) = i)
    by (rewrite Hstem; apply substring_length; lia).
  assert (Hlen_suf : String.length (PyStr.suffix n) = (String.length n - i)%nat)
    by (rewrite Hsuf; apply substring_length; lia).
  assert (Hdot : PyStr.rfind_dot (PyStr.suffix n) = Some 0%nat).
  { pose proof (rfind_dot_app (PyStr.stem n) (PyStr.suffix n)) as Happ.
    rewrite stem_suffix, Hr in Happ.
    destruct (PyStr.rfind_dot (PyStr.suffix n)) as [j|] eqn:Hj.
    - injection Happ as Happ. f_equal. lia.
    - symmetry in Happ. apply rfind_dot_lt in Happ. lia. }
  destruct (PyStr.suffix n) as [|c s]; [discriminate|].
  apply rfind_dot_zero in Hdot as [-> Hnone].
  exists s. split; [reflexivity|]. split; [|exact Hnone].
  intros ->. simpl in Hlen_suf. lia.
Qed.

Lemma rfind_dot_lower s : PyStr.rfind_dot (PyStr.lower s) = PyStr.rfind_dot s.
Proof.
  induction s as [|c s IH]; simpl; [reflexivity|].
  now rewrite IH, lower_ascii_dot.
Qed.

Lemma length_lower s : String.length (PyStr.lower s) = String.length s.
Proof. induction s as [|c s IH]; simpl; [reflexivity | now rewrite IH]. Qed.

Lemma substring_lower s : forall i k,
  substring i k (PyStr.lower s) = PyStr.lower (substring i k s).
Proof.
  induction s as [|c s IH]; intros [|i] [|k]; simpl; try reflexivity.
  - now rewrite IH.
  - apply IH.
  - apply IH.
Qed.

Lemma suffix_lower n : PyStr.suffix (PyStr.lower n) = PyStr.lower (PyStr.suffix n).
Proof.
  unfold PyStr.suffix, PyStr.split_index.
  rewrite rfind_dot_lower, length_lower.
  destruct (PyStr.rfind_dot n) as [i|]; [|reflexivity].
  destruct ((0 <? i)%nat && (i <? String.length n - 1)%nat); [|reflexivity].
  apply substring_lower.
Qed.

Lemma lstrip_dot_none s : PyStr.rfind_dot s = None -> PyStr.lstrip_dot s = s.
Proof.
  destruct s as [|c s]; [reflexivity|]. simpl.
  destruct (PyStr.rfind_dot s); [discriminate|].
  destruct (Ascii.eqb c PyStr.dot); [discriminate | reflexivity].
Qed.

(** The extension is empty, or the lower-cased suffix without its dot. *)
Lemma ext_of_cases p :
  (PyStr.suffix (name p) = "" /\ ext_of p = "") \/
  (exists s, PyStr.suffix (name p) = String PyStr.dot s /\ s <> "" /\
             PyStr.rfind_dot s = None /\ ext_of p = PyStr.lower s).
Proof.
  unfold ext_of. destruct (PyStr.split_index (name p)) as [i|] eqn:Hi.
  - right. destruct (suffix_shape _ _ Hi) as (s & Hs & Hne & Hnone).
    exists s. rewrite Hs. repeat split; auto.
    cbn [PyStr.lower PyStr.lstrip_dot].
    change (Ascii.eqb (PyStr.lower_ascii PyStr.dot) PyStr.dot) with true. cbv iota.
    apply lstrip_dot_none. now rewrite rfind_dot_lower.
  - left. unfold PyStr.suffix. rewrite Hi. auto.
Qed.

Lemma lower_empty s : PyStr.lower s = "" -> s = "".
Proof. destruct s; [reflexivity | discriminate]. Qed.

End CategoryFacts.

(** X4. The category of a file, which names its bucket in
    [categorize_by_extension] and its folder in [organize_files], is never
    empty and contains no dot. For a name written in ASCII it is in lower
    case, and it is the category of every other ASCII name that differs
    from it by the case of its letters only. *)
Theorem category_is_a_folder_name (p : path) :
  category p <> ""%string /\
  PyStr.rfind_dot (category p) = None /\
  (is_ascii (name p) = true ->
   PyStr.lower (category p) = category p /\
   forall q, is_ascii (name q) = true ->
             PyStr.lower (name q) = PyStr.lower (name p) -> category q = category p).
Proof.
  split; [|split].
  - unfold category. destruct (String.eqb (ext_of p) "") eqn:E; [discriminate|].
    now apply String.eqb_neq in E.
  - unfold category. destruct (String.eqb (ext_of p) "") eqn:E; [reflexivity|].
    destruct (ext_of_cases p) as [[_ H] | (s & _ & _ & Hnone & ->)].
    + rewrite H in E. discriminate.
    + now rewrite rfind_dot_lower.
  - intros _. split; [apply lower_category|].
    intros q _ Hq.
    assert (He : ext_of q = ext_of p).
    { unfold ext_of.
      rewrite <- (lower_idem (PyStr.suffix (name q))), <- (lower_idem (PyStr.suffix (name p))).
      now rewrite <- !suffix_lower, Hq. }
    unfold category. now rewrite He.
Qed.

Lemma category_is_a_folder_name_witness :
  category ["root"; "Report.TXT"]%string = category ["root"; "report.txt"]%string.
Proof.
  apply (proj2 (proj2 (proj2 (category_is_a_folder_name ["root"; "report.txt"]%string))
                 eq_refl));
    reflexivity.
Defined.

(** ** Buckets *)

Lemma dd_append_concat {K V} (eqb : K -> K -> bool) (k : K) (v : V) d :
  Permutation (List.concat (map snd (dd_append eqb k v d)))
              (List.concat (map snd d) ++ [v]).
Proof.
  induction d as [|[k' vs] d IH]; simpl; [reflexivity|].
  destruct (eqb k' k); simpl.
  - rewrite <- !app_assoc. apply Permutation_app_head, Permutation_app_comm.
  - rewrite <- app_assoc. now apply Permutation_app_head.
Qed.

Lemma group_by_concat {K} (eqb : K -> K -> bool) kvs : forall d,
  Permutation (List.concat (map snd (group_by eqb kvs d)))
              (List.concat (map snd d) ++ map snd kvs).
Proof.
  unfold group_by. induction kvs as [|[k v] kvs IH]; intros d; simpl.
  - now rewrite app_nil_r.
  - rewrite IH, dd_append_concat, <- app_assoc. reflexivity.
Qed.

Lemma categorize_group_by files :
  categorize_by_extension files =
  group_by String.eqb (keyed (fun p => Some (category p)) files) [].
Proof.
  unfold categorize_by_extension, group_by, keyed. generalize (@nil (string * list path)).
  induction files as [|f files IH]; intros d; simpl; [reflexivity | apply IH].
Qed.

(** X5. [categorize_by_extension] partitions its input: the keys of the
    result are distinct, the bucket of a key holds exactly the files of
    that category, in the order of the input, no bucket is empty, and all
    the buckets together hold the files of the input, each as often as the
    input lists it. *)
Theorem categorize_by_extension_partitions (files : list path) :
  NoDup (map fst (categorize_by_extension files)) /\
  (forall ext ps,
     In (ext, ps) (categorize_by_extension files) <->
     ps = filter (fun p => String.eqb (category p) ext) files /\ ps <> []) /\
  Permutation (List.concat (map snd (categorize_by_extension files))) files.
Proof.
  rewrite categorize_group_by.
  pose proof (grouped_fold String.eqb String.eqb_eq
                (keyed (fun p => Some (category p)) files) [] []
                (grouped_nil String.eqb)) as [Hnd _].
  split; [exact Hnd|]. split.
  - intros ext ps. rewrite (group_by_classes String.eqb String.eqb_eq). reflexivity.
  - rewrite group_by_concat. simpl. unfold keyed.
    clear. induction files as [|f files IH]; simpl; [reflexivity|].
    now constructor.
Qed.

(** ** Hashing and comparing *)

(** X6. Whatever the positive chunk size, [compute_hash] returns the
    SHA-256 digest of the complete content of a readable regular file and
    leaves the file system as it is; it raises [OSError] on a file that
    cannot be read, on a directory and on a missing path. With a chunk size
    of zero the first read is empty and the digest is that of no bytes. *)
Theorem compute_hash_reads_whole_file (chunk_size : nat) (p : path) (fs : node) :
  (0 < chunk_size)%nat ->
  compute_hash_chunked chunk_size p fs =
  match Fs.find_node fs p with
  | Some (File f) =>
      if readable f then (Ok (Sha256.hexdigest (content f)), fs)
      else (Raise (OSError EACCES p), fs)
  | Some (Dir _ _) => (Raise (OSError EISDIR p), fs)
  | None => (Raise (OSError (Fs.missing_errno fs p) p), fs)
  end /\
  compute_hash p fs = compute_hash_chunked chunk_size p fs /\
  compute_hash_chunked 0 p fs =
  match compute_hash p fs with
  | (Ok _, _) => (Ok (Sha256.hexdigest []), fs)
  | r => r
  end.
Proof.
  intros Hc.
  assert (Hany : forall n, (0 < n)%nat ->
            compute_hash_chunked n p fs =
            match Fs.find_node fs p with
            | Some (File f) =>
                if readable f then (Ok (Sha256.hexdigest (content f)), fs)
                else (Raise (OSError EACCES p), fs)
            | Some (Dir _ _) => (Raise (OSError EISDIR p), fs)
            | None => (Raise (OSError (Fs.missing_errno fs p) p), fs)
            end).
  { intros n Hn. unfold compute_hash_chunked, bind, open_read, os_error, ret.
    destruct (Fs.find_node fs p) as [[f|st es]|]; try reflexivity.
    destruct (readable f); [|reflexivity].
    rewrite read_loop_all; [reflexivity | exact Hn | lia]. }
  split; [now apply Hany|]. split.
  - unfold compute_hash. rewrite !Hany; [reflexivity | exact Hc | lia].
  - unfold compute_hash. rewrite (Hany (8 * 1024)%nat) by lia.
    unfold compute_hash_chunked, bind, open_read, os_error, ret.
    destruct (Fs.find_node fs p) as [[f|st es]|]; try reflexivity.
    destruct (readable f); [|reflexivity].
    destruct (content f); reflexivity.
Qed.

Lemma compute_hash_reads_whole_file_witness :
  compute_hash FxABC.a FxABC.fs = compute_hash_chunked 1 FxABC.a FxABC.fs.
Proof.
  apply (compute_hash_reads_whole_file 1 FxABC.a FxABC.fs). lia.
Defined.

Lemma same_meta_sym ma mb : same_meta ma mb = same_meta mb ma.
Proof.
  unfold same_meta. destruct ma as [x|], mb as [y|]; try reflexivity.
  rewrite (Z.eqb_sym (meta_size x) (meta_size y)).
  destruct (negb (meta_size y =? meta_size x)%Z); [reflexivity|].
  destruct x as [fa|sa], y as [fb|sb]; try reflexivity.
  rewrite (andb_comm (readable fa)), (String.eqb_sym (Sha256.hexdigest (content fa))).
  reflexivity.
Qed.

(** X7. [is_same_file] reads without writing and its verdict does not
    depend on the order of its arguments. Two regular files of different
    sizes are reported different without being opened, readable or not;
    two readable files with the same bytes are reported the same; and the
    verdict "same" is given only to two readable regular files of equal
    size and equal digest. *)
Theorem is_same_file_compares_contents (a b : path) (fs : node) :
  (forall r fs', is_same_file a b fs = (r, fs') -> fs' = fs) /\
  (forall v, is_same_file a b fs = (Ok v, fs) -> is_same_file b a fs = (Ok v, fs)) /\
  (forall fa fb,
     Fs.find_file fs a = Some fa -> Fs.find_file fs b = Some fb ->
     List.length (content fa) <> List.length (content fb) ->
     is_same_file a b fs = (Ok false, fs)) /\
  (forall fa fb,
     Fs.find_file fs a = Some fa -> Fs.find_file fs b = Some fb ->
     readable fa = true -> readable fb = true -> content fa = content fb ->
     is_same_file a b fs = (Ok true, fs)) /\
  (is_same_file a b fs = (Ok true, fs) ->
   exists fa fb,
     Fs.find_file fs a = Some fa /\ Fs.find_file fs b = Some fb /\
     readable fa = true /\ readable fb = true /\
     List.length (content fa) = List.length (content fb) /\
     Sha256.hexdigest (content fa) = Sha256.hexdigest (content fb)).
Proof.
  assert (Hfile : forall p f, Fs.find_file fs p = Some f -> find_meta fs p = Some (inl f)).
  { intros p f. rewrite find_file_meta.
    destruct (find_meta fs p) as [[g|st]|]; congruence. }
  split; [|split; [|split; [|split]]].
  - intros r fs'. apply read_only_is_same_file.
  - intros v. rewrite !is_same_file_meta, same_meta_sym. auto.
  - intros fa fb Ha Hb Hlen. apply is_same_file_meta.
    rewrite (Hfile _ _ Ha), (Hfile _ _ Hb). unfold same_meta, meta_size.
    destruct (Z.eqb_spec (Z.of_nat (List.length (content fa)))
                         (Z.of_nat (List.length (content fb)))) as [E|E]; [lia | reflexivity].
  - intros fa fb Ha Hb Hra Hrb Hc. apply is_same_file_meta.
    rewrite (Hfile _ _ Ha), (Hfile _ _ Hb). unfold same_meta, meta_size.
    rewrite Hc, Z.eqb_refl, Hra, Hrb, String.eqb_refl. reflexivity.
  - rewrite is_same_file_meta. unfold same_meta. rewrite !find_file_meta.
    destruct (find_meta fs a) as [x|]; [|discriminate].
    destruct (find_meta fs b) as [y|]; [|discriminate].
    destruct (Z.eqb_spec (meta_size x) (meta_size y)) as [E|E]; [|discriminate].
    simpl. destruct x as [fa|sa]; [|discriminate]. destruct y as [fb|sb]; [|discriminate].
    destruct (readable fa) eqn:Hra; [|discriminate].
    destruct (readable fb) eqn:Hrb; [|discriminate]. simpl.
    intros [= Hh]. apply String.eqb_eq in Hh. simpl in E.
    exists fa, fb. repeat split; auto. lia.
Qed.

Lemma is_same_file_compares_contents_witness :
  is_same_file FxABC.a FxABC.b FxABC.fs = (Ok true, FxABC.fs) /\
  is_same_file FxABC.b FxABC.a FxABC.fs = (Ok true, FxABC.fs).
Proof.
  assert (H : is_same_file FxABC.a FxABC.b FxABC.fs = (Ok true, FxABC.fs)).
  { eapply (is_same_file_compares_contents FxABC.a FxABC.b FxABC.fs);
      vm_compute; reflexivity. }
  split; [exact H|].
  now apply (is_same_file_compares_contents FxABC.a FxABC.b FxABC.fs).
Defined.

(** ** Creating folders *)

Lemma extends_find_file t t' p fl :
  extends t t' -> Fs.find_file t p = Some fl -> Fs.find_file t' p = Some fl.
Proof.
  intros He. rewrite !find_file_meta.
  destruct (find_meta t p) as [[f|st]|] eqn:E; try discriminate.
  now rewrite (He p _ E).
Qed.

Lemma extends_is_dir t t' q : extends t t' -> Fs.is_dir t q = true -> Fs.is_dir t' q = true.
Proof.
  intros He. unfold Fs.is_dir. intros H.
  destruct (Fs.find_node t q) as [[f|st es]|] eqn:E; try discriminate.
  assert (Hm : find_meta t q = Some (inr st)) by (unfold find_meta; now rewrite E).
  apply He in Hm. unfold find_meta in Hm.
  destruct (Fs.find_node t' q) as [[f|st' es']|]; simpl in Hm; congruence.
Qed.

Lemma extends_grows t t' : extends t t' -> grows t t'.
Proof.
  intros He. split.
  - intros p fl. now apply extends_find_file.
  - intros p. now apply extends_is_dir.
Qed.

(** X8. [safe_mkdir] succeeds exactly when neither the path nor any of
    its ancestors is a regular file. On success the path and all its
    ancestors are directories, every regular file is unchanged at its
    place, every directory is still one, nothing changes outside the
    chain from the root to the path, and a second call changes nothing.
    On failure it raises [OSError] and creates nothing. *)
Theorem safe_mkdir_creates_the_chain (p : path) (fs : node) :
  ((exists fs', safe_mkdir p fs = (Ok tt, fs')) <->
   (forall q, is_prefix q p = true -> Fs.is_file fs q = false)) /\
  (forall fs',
     safe_mkdir p fs = (Ok tt, fs') ->
     (forall q, is_prefix q p = true -> Fs.is_dir fs' q = true) /\
     grows fs fs' /\
     (forall q, is_prefix q p = false -> find_meta fs' q = find_meta fs q) /\
     safe_mkdir p fs' = (Ok tt, fs')) /\
  (forall e fs',
     safe_mkdir p fs = (Raise e, fs') ->
     fs' = fs /\ exists en, e = OSError en p).
Proof.
  split; [|split].
  - unfold safe_mkdir. pose proof (mkdirs_fails_iff p fs) as Hiff.
    destruct (Fs.mkdirs fs p) as [e|fs1] eqn:Hm.
    + split; [intros [fs' [=]]|]. intros Hno.
      destruct (proj1 Hiff (ex_intro _ e eq_refl)) as (q & Hq & Hf).
      rewrite (Hno q Hq) in Hf. discriminate.
    + split; [|eauto]. intros _ q Hq.
      destruct (Fs.is_file fs q) eqn:Hf; [|reflexivity].
      destruct (proj2 Hiff (ex_intro _ q (conj Hq Hf))) as [e [=]].
  - intros fs' H. pose proof (safe_mkdir_extends _ _ _ H) as Hext.
    unfold safe_mkdir in H. destruct (Fs.mkdirs fs p) as [e|fs1] eqn:Hm; [discriminate|].
    injection H as <-.
    pose proof (mkdirs_dirs p fs fs1 Hm) as Hdirs.
    split; [exact Hdirs|]. split; [exact (extends_grows _ _ Hext)|]. split.
    + intros q Hq. rewrite (mkdirs_meta p fs fs1 Hm q), Hq.
      destruct (find_meta fs q); reflexivity.
    + unfold safe_mkdir. rewrite mkdirs_noop; [reflexivity|].
      apply Hdirs, is_prefix_refl.
  - intros e fs'. unfold safe_mkdir.
    destruct (Fs.mkdirs fs p) as [en|fs1]; [|discriminate].
    intros [= <- <-]. eauto.
Qed.

Lemma safe_mkdir_creates_the_chain_witness :
  exists fs',
    safe_mkdir ["root"; "txt"]%string FxABC.fs = (Ok tt, fs') /\
    safe_mkdir ["root"; "txt"]%string fs' = (Ok tt, fs').
Proof.
  destruct (proj2 (proj1 (safe_mkdir_creates_the_chain ["root"; "txt"]%string FxABC.fs)))
    as [fs' H].
  - intros q Hq. destruct q as [|s [|t [|u q]]]; simpl in Hq.
    + reflexivity.
    + apply andb_true_iff in Hq as [Hs _]. apply String.eqb_eq in Hs. now subst s.
    + apply andb_true_iff in Hq as [Hs Hq]. apply andb_true_iff in Hq as [Ht _].
      apply String.eqb_eq in Hs, Ht. now subst s t.
    + apply andb_true_iff in Hq as [_ Hq]. apply andb_true_iff in Hq as [_ Hq].
      discriminate.
  - exists fs'. split; [exact H|].
    now apply (safe_mkdir_creates_the_chain ["root"; "txt"]%string FxABC.fs).
Defined.

(** ** Organizing by copy *)

Lemma shutil_copy2_raise_state src dst fs e fs' :
  shutil_copy2 src dst fs = (Raise e, fs') -> fs' = fs.
Proof.
  unfold shutil_copy2, os_error. cbv zeta.
  destruct (Fs.find_node fs src) as [[f|? ?]|]; try (intros [= _ <-]; reflexivity).
  destruct (path_eqb src _); [intros [= _ <-]; reflexivity|].
  destruct (negb (readable f)); [intros [= _ <-]; reflexivity|].
  destruct (Fs.find_node fs _) as [[g|? ?]|].
  - destruct (locked g); [intros [= _ <-]; reflexivity|].
    destruct (Fs.write_node fs _ _); [discriminate | intros [= _ <-]; reflexivity].
  - intros [= _ <-]; reflexivity.
  - destruct (Fs.write_node fs _ _); [discriminate | intros [= _ <-]; reflexivity].
Qed.

Lemma shutil_copy2_ok_src src dst fs u fs' :
  shutil_copy2 src dst fs = (Ok u, fs') ->
  exists fl, Fs.find_node fs src = Some (File fl) /\ readable fl = true.
Proof.
  unfold shutil_copy2, os_error. cbv zeta.
  destruct (Fs.find_node fs src) as [[f|? ?]|]; try discriminate.
  destruct (path_eqb src _); [discriminate|].
  destruct (readable f) eqn:Hr; [|discriminate]. eauto.
Qed.

Lemma extends_same t t' a b :
  extends t t' -> is_same_file a b t = (Ok true, t) ->
  is_same_file a b t' = (Ok true, t').
Proof.
  intros He. rewrite !is_same_file_meta. intros H.
  destruct (same_meta_some _ _ _ H) as [Ha Hb].
  destruct (find_meta t a) as [ma|] eqn:Ea; [|congruence].
  destruct (find_meta t b) as [mb|] eqn:Eb; [|congruence].
  now rewrite (He a _ Ea), (He b _ Eb).
Qed.

Lemma settled_extends fs0 t t' o : extends t t' -> settled fs0 t o -> settled fs0 t' o.
Proof.
  intros He. unfold settled. destruct (op_action o); [|auto|].
  - now apply extends_same.
  - intros [Hfree (fl & fl' & Hs & Hd & Hc)]. split; [exact Hfree|].
    exists fl, fl'. split; [|split]; eauto using extends_find_file.
Qed.

(** One step of a copying run. *)
Lemma organize_one_copy root target dry f fs r fs' :
  organize_one root target dry false f fs = (r, fs') ->
  extends fs fs' /\
  (dry = false -> forall o fs0, r = Ok (Some o) -> extends fs0 fs -> settled fs0 fs' o).
Proof.
  intros H.
  apply organize_one_inv in H
    as [(_ & -> & ->) | [(rel & _ & _ & -> & ->) | (rel & Hrel & Hal & H)]].
  1,2: split; [apply extends_refl | discriminate].
  cbv zeta in H.
  destruct H as [(en & _ & -> & ->) | (fs1 & Hmk & H)];
    [split; [apply extends_refl | discriminate]|].
  pose proof (safe_mkdir_extends _ _ _ Hmk) as He1.
  destruct H as [(en & p & _ & -> & ->) | [(k & d & _ & Hs & -> & ->) | H]].
  - split; [exact He1 | discriminate].
  - split; [exact He1|]. intros _ o fs0 [= <-] _.
    unfold settled. simpl. destruct Hs as [_ (_ & _ & Hsame)]. exact Hsame.
  - destruct H as (k & d & _ & Hs & H).
    assert (Hfree : Fs.path_exists fs1 d = false) by (destruct Hs as [_ [_ Hd]]; exact Hd).
    assert (Hnone : Fs.find_node fs1 d = None).
    { unfold Fs.path_exists in Hfree. destruct (Fs.find_node fs1 d); [discriminate | reflexivity]. }
    destruct dry.
    + destruct H as [(u & Hret & ->) | (en & p & [=] & _)].
      injection Hret as _ <-. split; [exact He1 | discriminate].
    + destruct H as [(u & Hcp & ->) | (en & p & Hcp & ->)].
      * destruct (shutil_copy2_ok_src _ _ _ _ _ Hcp) as (fl & Hfl & Hread).
        destruct u.
        pose proof (shutil_copy2_free f d fs1 fs' fl Hfl Hnone Hcp) as Hm.
        assert (He2 : extends fs1 fs').
        { intros q m Hq. rewrite Hm. destruct (path_eqb q d) eqn:E; [|exact Hq].
          apply path_eqb_eq in E. subst q. apply find_meta_none in Hnone. congruence. }
        split; [eapply extends_trans; eauto|].
        intros _ o fs0 [= <-] He0. unfold settled. simpl. split.
        -- destruct (Fs.path_exists fs0 d) eqn:E; [|reflexivity].
           apply (extends_exists fs0 fs1) in E; [congruence|].
           eapply extends_trans; eauto.
        -- exists fl, (mkFile (content fl) (mtime fl) (readable fl) false). simpl.
           split; [|split; [|split; reflexivity]].
           ++ apply (extends_find_file fs1 fs' f fl He2).
              unfold Fs.find_file. now rewrite Hfl.
           ++ rewrite find_file_meta, Hm, path_eqb_refl. reflexivity.
      * apply shutil_copy2_raise_state in Hcp. subst fs'.
        split; [exact He1 | discriminate].
Qed.

Lemma organize_loop_copy root target dry fs0 files : forall acc s r s',
  organize_loop root target dry false files acc s = (r, s') ->
  extends s s' /\
  (dry = false -> forall ops, r = Ok ops -> extends fs0 s ->
     Forall (settled fs0 s) acc -> Forall (settled fs0 s') ops).
Proof.
  induction files as [|f files IH]; intros acc s r s' H.
  - injection H as <- <-. split; [apply extends_refl|].
    intros _ ops [= <-] _ Hacc. exact Hacc.
  - cbn [organize_loop] in H.
    apply bind_inv in H as [(o & s1 & Hone & H) | (e & Hone & ->)].
    + destruct (organize_one_copy _ _ _ _ _ _ _ Hone) as [He1 Hset].
      destruct (IH _ _ _ _ H) as [He2 Hrest].
      split; [eapply extends_trans; eauto|].
      intros Hdry ops Hr He0 Hacc. apply (Hrest Hdry ops Hr).
      * eapply extends_trans; eauto.
      * assert (Hacc1 : Forall (settled fs0 s1) acc).
        { eapply Forall_impl; [|exact Hacc]. intros a. now apply settled_extends. }
        destruct o as [o|]; [|exact Hacc1].
        apply Forall_app. split; [exact Hacc1|].
        constructor; [|constructor]. now apply (Hset Hdry o fs0).
    + destruct (organize_one_copy _ _ _ _ _ _ _ Hone) as [He1 _].
      split; [exact He1 | discriminate].
Qed.

(** X9. With [move=False], [organize_files] only adds to the tree: every
    regular file that existed is unchanged at its place and every
    directory is still one, whether the run completes or raises, dry or
    not. When an effective
    run completes, every action it lists is a copy or a skip; a copy went
    to a destination that did not exist before the run, which now holds
    the bytes and the timestamp of the source, and a skipped destination
    compares equal to the source. *)
Theorem organize_copy_only_adds
  (root : path) (target : option path) (ign : list string) (fs : node) :
  (forall dry_run r fs',
     organize_files root target dry_run false ign fs = (r, fs') -> grows fs fs') /\
  (forall ops fs',
     organize_files root target false false ign fs = (Ok ops, fs') ->
     Forall (settled fs fs') ops).
Proof.
  split.
  - intros dry r fs' H. unfold organize_files in H.
    rewrite (bind_ok _ _ _ _ _ (scan_files_run root true ign fs)) in H.
    apply (organize_loop_copy _ _ _ fs) in H as [He _]. now apply extends_grows.
  - intros ops fs' H. unfold organize_files in H.
    rewrite (bind_ok _ _ _ _ _ (scan_files_run root true ign fs)) in H.
    apply (organize_loop_copy _ _ _ fs) in H as [_ Hset].
    apply Hset; auto using extends_refl.
Qed.

Lemma organize_copy_only_adds_witness :
  grows FxABC.fs (snd (organize_files FxABC.root None false false [] FxABC.fs)) /\
  Forall (settled FxABC.fs (snd (organize_files FxABC.root None false false [] FxABC.fs)))
    [mkOp Copy FxABC.a ["root"; "txt"; "a.txt"]%string;
     mkOp Copy FxABC.b ["root"; "txt"; "b.txt"]%string;
     mkOp Copy FxABC.c ["root"; "txt"; "c.txt"]%string].
Proof.
  split.
  - apply (proj1 (organize_copy_only_adds FxABC.root None [] FxABC.fs) false
             (fst (organize_files FxABC.root None false false [] FxABC.fs))).
    vm_compute. reflexivity.
  - apply (proj2 (organize_copy_only_adds FxABC.root None [] FxABC.fs)).
    vm_compute. reflexivity.
Defined.

(** ** Organizing by move *)

(** One step of a moving run keeps every file of the start, at its place
    or at the destination of its move. *)
Lemma organize_one_move_keeps root target fs0 f todo acc s o s' :
  ~ In f todo ->
  (forall g, In g (f :: todo) -> Fs.is_file s g = true) ->
  (forall p fl, Fs.find_file fs0 p = Some fl ->
     Fs.find_file s p = Some fl \/
     exists d fl',
       In (mkOp Move p d) acc /\ Fs.find_file s d = Some fl' /\
       content fl' = content fl /\ readable fl' = readable fl /\ ~ In d (f :: todo)) ->
  organize_one root target false true f s = (Ok o, s') ->
  (forall g, In g todo -> Fs.is_file s' g = true) /\
  (forall p fl, Fs.find_file fs0 p = Some fl ->
     Fs.find_file s' p = Some fl \/
     exists d fl',
       In (mkOp Move p d) (match o with Some x => acc ++ [x] | None => acc end) /\
       Fs.find_file s' d = Some fl' /\
       content fl' = content fl /\ readable fl' = readable fl /\ ~ In d todo).
Proof.
  intros Hnotin Hfiles Hinv H.
  assert (Hweak : forall s1 acc',
            (forall q, Fs.find_file s1 q = Fs.find_file s q) -> incl acc acc' ->
            forall p fl, Fs.find_file fs0 p = Some fl ->
              Fs.find_file s1 p = Some fl \/
              exists d fl',
                In (mkOp Move p d) acc' /\ Fs.find_file s1 d = Some fl' /\
                content fl' = content fl /\ readable fl' = readable fl /\ ~ In d todo).
  { intros s1 acc' Hsame Hincl p fl Hp.
    destruct (Hinv p fl Hp) as [Hk | (d & fl' & Hin & Hd & Hc & Hr & Hnd)].
    - left. now rewrite Hsame.
    - right. exists d, fl'. rewrite Hsame. repeat split; auto.
      intros Hd'. apply Hnd. now right. }
  assert (Hfile_eq : forall s1, (forall q, Fs.find_file s1 q = Fs.find_file s q) ->
            forall g, Fs.is_file s1 g = Fs.is_file s g).
  { intros s1 Hsame g. specialize (Hsame g). unfold Fs.find_file, Fs.is_file in *.
    destruct (Fs.find_node s1 g) as [[?|? ?]|], (Fs.find_node s g) as [[?|? ?]|];
      congruence. }
  apply organize_one_inv in H
    as [(_ & [=] & _) | [(rel & _ & _ & [= ->] & ->) | (rel & Hrel & Hal & H)]].
  - split; [intros g Hg; apply Hfiles; now right|].
    apply Hweak; [reflexivity | apply incl_refl].
  - cbv zeta in H.
    destruct H as [(en & _ & [=] & _) | (s1 & Hmk & H)].
    assert (Hsame : forall q, Fs.find_file s1 q = Fs.find_file s q)
      by (intros q; eapply safe_mkdir_find_file; eauto).
    destruct H as [(en & p & _ & [=] & _) | [(k & d & _ & _ & [= ->] & ->) | H]].
    + split; [intros g Hg; rewrite (Hfile_eq s1 Hsame); apply Hfiles; now right|].
      apply Hweak; [exact Hsame | apply incl_appl, incl_refl].
    + destruct H as (k & d & _ & Hs & [(u & Hact & [= ->]) | (en & p & _ & [=])]).
      destruct u. simpl negb. cbv iota.
      assert (Hdfree : Fs.path_exists s1 d = false) by (destruct Hs as [_ [_ Hd]]; exact Hd).
      assert (Hf1 : Fs.is_file s1 f = true)
        by (rewrite (Hfile_eq s1 Hsame); apply Hfiles; now left).
      destruct (shutil_move_effect f d s1 s' Hf1 Hdfree Hact)
        as [(fl0 & fl0' & Hfl0 & Hfl0' & Hread & Hcont) Hframe].
      assert (Hother : forall q, Fs.path_exists s1 q = true -> q <> f ->
                                 Fs.find_file s' q = Fs.find_file s1 q).
      { intros q Hq Hqf. rewrite !find_file_meta, Hframe by (intros ->; congruence).
        apply path_eqb_neq in Hqf. now rewrite Hqf. }
      assert (Hexists : forall q fl, Fs.find_file s1 q = Some fl ->
                                     Fs.path_exists s1 q = true).
      { intros q fl. unfold Fs.find_file, Fs.path_exists.
        destruct (Fs.find_node s1 q); [reflexivity | discriminate]. }
      split.
      * intros g Hg.
        assert (Hg1 : Fs.is_file s1 g = true)
          by (rewrite (Hfile_eq s1 Hsame); apply Hfiles; now right).
        assert (Hgf : g <> f) by (intros ->; contradiction).
        pose proof (Hother g (is_file_exists _ _ Hg1) Hgf) as Hg'.
        unfold Fs.find_file, Fs.is_file in *.
        destruct (Fs.find_node s' g) as [[?|? ?]|], (Fs.find_node s1 g) as [[?|? ?]|];
          congruence.
      * intros p fl Hp.
        destruct (Hinv p fl Hp) as [Hk | (d0 & fl' & Hin & Hd0 & Hc & Hr & Hnd)].
        -- rewrite <- Hsame in Hk.
           destruct (list_eq_dec string_dec p f) as [->|Hpf].
           ++ right. exists d, fl0'.
              assert (fl0 = fl) by congruence. subst fl0.
              split; [apply in_app_iff; right; now left|].
              split; [exact Hfl0'|]. split; [exact Hcont|]. split; [exact Hread|].
              intros Hd. assert (Fs.is_file s1 d = true)
                by (rewrite (Hfile_eq s1 Hsame); apply Hfiles; now right).
              apply is_file_exists in H. congruence.
           ++ left. rewrite Hother; eauto.
        -- right. exists d0, fl'. rewrite <- Hsame in Hd0.
           split; [apply in_app_iff; now left|].
           split; [|split; [exact Hc | split; [exact Hr|]]].
           ++ rewrite Hother; eauto. intros ->. apply Hnd. now left.
           ++ intros Hd'. apply Hnd. now right.
Qed.

Lemma organize_loop_move_keeps root target fs0 files : forall acc s ops s',
  NoDup files ->
  (forall g, In g files -> Fs.is_file s g = true) ->
  (forall p fl, Fs.find_file fs0 p = Some fl ->
     Fs.find_file s p = Some fl \/
     exists d fl',
       In (mkOp Move p d) acc /\ Fs.find_file s d = Some fl' /\
       content fl' = content fl /\ readable fl' = readable fl /\ ~ In d files) ->
  organize_loop root target false true files acc s = (Ok ops, s') ->
  forall p fl, Fs.find_file fs0 p = Some fl -> kept_or_moved s' ops p fl.
Proof.
  induction files as [|f files IH]; intros acc s ops s' Hnd Hfiles Hinv H.
  - injection H as <- <-. intros p fl Hp.
    destruct (Hinv p fl Hp) as [Hk | (d & fl' & Hin & Hd & Hc & Hr & _)];
      [now left | right; exists d, fl'; auto].
  - cbn [organize_loop] in H. apply bind_ok_inv in H as (o & s1 & Hone & H).
    inversion Hnd as [|? ? Hnotin Hnd']; subst.
    destruct (organize_one_move_keeps _ _ fs0 _ _ acc _ _ _ Hnotin Hfiles Hinv Hone)
      as [Hfiles1 Hinv1].
    exact (IH _ _ _ _ Hnd' Hfiles1 Hinv1 H).
Qed.

(** X10. A completed [organize_files] with [move=True] loses no file: in
    a tree where no directory lists a name twice, every regular file of the
    start is afterwards still at its place, unchanged, or the run lists its
    move to a destination that now holds its bytes, as readable as they
    were. The files that the scan does not reach (outside the root, or in
    an ignored directory) and the files that are passed over as already
    organized stay at their place, unchanged. *)
Theorem organize_move_loses_no_file
  (root : path) (target : option path) (ign : list string)
  (fs : node) (ops : list op) (fs' : node) :
  well_formed fs = true ->
  organize_files root target false true ign fs = (Ok ops, fs') ->
  (forall p fl, Fs.find_file fs p = Some fl -> kept_or_moved fs' ops p fl) /\
  (forall p fl, Fs.find_file fs p = Some fl ->
     ~ eligible root ign p \/ skipped root p = true ->
     Fs.find_file fs' p = Some fl).
Proof.
  intros Hwf H. unfold organize_files in H.
  rewrite (bind_ok _ _ _ _ _ (scan_files_run root true ign fs)) in H.
  assert (Hkept : forall p fl, Fs.find_file fs p = Some fl -> kept_or_moved fs' ops p fl).
  { eapply organize_loop_move_keeps; [| | |exact H].
    - now apply scan_files_in_nodup.
    - intros g Hg. now apply scan_sound in Hg.
    - intros p fl Hp. now left. }
  split; [exact Hkept|].
  intros p fl Hp Hout.
  destruct (Hkept p fl Hp) as [Hk | (d & fl' & Hin & _)]; [exact Hk|]. exfalso.
  assert (Hsrc : In p (map op_src ops)) by (apply in_map_iff; exists (mkOp Move p d); auto).
  rewrite (organize_loop_srcs _ _ _ _ _ _ _ _ _ H) in Hsrc. simpl in Hsrc.
  apply filter_In in Hsrc as [Hscan Hskip].
  destruct Hout as [Hne | Hs].
  - apply Hne. now apply scan_sound in Hscan.
  - rewrite Hs in Hskip. discriminate.
Qed.

Lemma organize_move_loses_no_file_witness :
  kept_or_moved FxTwice.fs1 FxTwice.ops1 ["root"; "a.txt"]%string
    (mkFile [x58] 1 true false).
Proof.
  apply (proj1 (organize_move_loses_no_file FxTwice.root None [] FxTwice.fs
                  FxTwice.ops1 FxTwice.fs1 eq_refl eq_refl)).
  vm_compute. reflexivity.
Defined.

(** ** From [find_duplicates] to [remove_duplicates] *)

Lemma keyed_snd {K} (key : path -> option K) files :
  map snd (keyed key files) =
  filter (fun f => match key f with Some _ => true | None => false end) files.
Proof.
  unfold keyed. induction files as [|f files IH]; simpl; [reflexivity|].
  rewrite map_app, IH. destruct (key f); reflexivity.
Qed.

Lemma group_by_members {K} (eqb : K -> K -> bool) (key : path -> option K) files :
  Permutation (List.concat (map snd (group_by eqb (keyed key files) [])))
              (filter (fun f => match key f with Some _ => true | None => false end) files).
Proof.
  eapply Permutation_trans; [apply group_by_concat|].
  simpl. rewrite keyed_snd. apply Permutation_refl.
Qed.

Lemma concat_filter_nodup {K} (p : K * list path -> bool) (d : list (K * list path)) :
  NoDup (List.concat (map snd d)) -> NoDup (List.concat (map snd (filter p d))).
Proof.
  induction d as [|g d IH]; simpl; intros H; [constructor|].
  pose proof (NoDup_app_remove_l _ _ H) as Hd.
  destruct (p g); simpl; [|now apply IH].
  apply NoDup_app; [now apply NoDup_app_remove_r in H | now apply IH |].
  intros x Hx Hx'. apply (nodup_app_disjoint _ _ H x Hx).
  apply in_concat in Hx' as (l & Hl & Hxl). apply in_concat. exists l. split; [|exact Hxl].
  apply in_map_iff in Hl as (g' & <- & Hg'). apply in_map.
  now apply filter_In in Hg' as [Hg' _].
Qed.

Lemma concat_filter_incl {K} (p : K * list path -> bool) (d : list (K * list path)) :
  incl (List.concat (map snd (filter p d))) (List.concat (map snd d)).
Proof.
  intros x Hx. apply in_concat in Hx as (l & Hl & Hxl). apply in_concat.
  exists l. split; [|exact Hxl].
  apply in_map_iff in Hl as (g & <- & Hg). apply in_map.
  now apply filter_In in Hg as [Hg _].
Qed.

Lemma concat_flat_map_nodup {K K'} (F : K * list path -> list (K' * list path))
  (d : list (K * list path)) :
  NoDup (List.concat (map snd d)) ->
  (forall g, In g d ->
     NoDup (List.concat (map snd (F g))) /\
     incl (List.concat (map snd (F g))) (snd g)) ->
  NoDup (List.concat (map snd (flat_map F d))).
Proof.
  induction d as [|g d IH]; simpl; intros Hnd HF; [constructor|].
  rewrite map_app, List.concat_app.
  destruct (HF g (or_introl eq_refl)) as [Hg Hincl].
  apply NoDup_app; [exact Hg | |].
  - apply IH; [now apply NoDup_app_remove_l in Hnd | intros g' Hg'; apply HF; now right].
  - intros x Hx Hx'. apply (nodup_app_disjoint _ _ Hnd x (Hincl x Hx)).
    apply in_concat in Hx' as (l & Hl & Hxl).
    apply in_map_iff in Hl as (g' & <- & Hg').
    apply in_flat_map in Hg' as (g0 & Hg0 & Hg').
    destruct (HF g0 (or_intror Hg0)) as [_ Hincl0].
    apply in_concat. exists (snd g0). split; [now apply in_map|].
    apply Hincl0. apply in_concat. exists (snd g'). split; [now apply in_map | exact Hxl].
Qed.

(** No file is listed in two groups, nor twice in one. *)
Lemma find_duplicates_of_disjoint files fs dups fs' :
  NoDup files -> find_duplicates_of files fs = (Ok dups, fs') ->
  NoDup (List.concat (map snd dups)).
Proof.
  intros Hnd H. unfold find_duplicates_of in H.
  rewrite (bind_ok _ _ _ _ _ (size_loop_spec files [] fs)), group_loop_spec in H.
  injection H as <- _. simpl.
  apply concat_flat_map_nodup.
  - eapply Permutation_NoDup; [symmetry; apply group_by_members|].
    now apply NoDup_filter.
  - intros [s grp] Hin. cbn [snd].
    assert (Hgrp : NoDup grp).
    { assert (H : NoDup (List.concat (map snd
                   (group_by Z.eqb (keyed (size_at fs) files) [])))).
      { eapply Permutation_NoDup; [symmetry; apply group_by_members|].
        now apply NoDup_filter. }
      clear -H Hin. induction (group_by Z.eqb (keyed (size_at fs) files) []) as [|g d IH];
        [destruct Hin|].
      simpl in H. destruct Hin as [->|Hin].
      - now apply NoDup_app_remove_r in H.
      - apply IH; [exact Hin | now apply NoDup_app_remove_l in H]. }
    destruct (List.length grp <? 2)%nat; [split; [constructor | intros x []]|].
    assert (Hall : NoDup (List.concat (map snd
                     (group_by String.eqb (keyed (hash_at fs) grp) [])))).
    { eapply Permutation_NoDup; [symmetry; apply group_by_members|].
      now apply NoDup_filter. }
    split; [now apply concat_filter_nodup|].
    intros x Hx. apply concat_filter_incl in Hx.
    apply (Permutation_in _ (group_by_members _ _ _)) in Hx.
    now apply filter_In in Hx as [Hx _].
Qed.

(** X11. What [find_duplicates] returns is what [remove_duplicates]
    expects: in a tree where no directory lists a name twice, every group
    is a non-empty list of regular files and no path occurs in two groups
    or twice in one; on this result [remove_duplicates] returns, for every
    keep rule, dry or not. *)
Theorem find_duplicates_feeds_remove_duplicates
  (root : path) (ign : list string) (fs : node) (dups : list (string * list path))
  (fs' : node) :
  well_formed fs = true ->
  find_duplicates root ign fs = (Ok dups, fs') ->
  duplicate_groups fs dups /\
  forall keep dry_run,
    exists recs fs'', remove_duplicates dups keep dry_run fs = (Ok recs, fs'').
Proof.
  intros Hwf H. unfold find_duplicates in H.
  rewrite (bind_ok _ _ _ _ _ (scan_files_run root true ign fs)) in H.
  pose proof (find_duplicates_of_disjoint _ _ _ _ (scan_files_in_nodup fs root ign Hwf) H)
    as Hnd.
  destruct (find_duplicates_of_spec (scan_files_in fs root true ign) fs)
    as (dups0 & Hrun & Hspec).
  rewrite Hrun in H. injection H as -> _.
  assert (Hgroups : Forall (fun g => snd g <> [] /\
                      Forall (fun p => Fs.is_file fs p = true) (snd g)) dups).
  { apply Forall_forall. intros [h plist] Hin. cbn [snd].
    apply Hspec in Hin as (s & -> & Hlen). split.
    - intros E. rewrite E in Hlen. simpl in Hlen. lia.
    - apply Forall_forall. intros p Hp.
      apply (class_of_In _ _ _ _ _ String.eqb_eq) in Hp as [_ Hh].
      apply hash_at_inv in Hh as (c & Hc & _).
      unfold Fs.find_file, Fs.is_file in *.
      destruct (Fs.find_node fs p) as [[?|? ?]|]; congruence. }
  split; [split; assumption|].
  intros keep dry. apply remove_groups_total; [|exact Hnd].
  eapply Forall_impl; [|exact Hgroups]. intros g [Hne Hf]. split; [exact Hne|].
  eapply Forall_impl; [|exact Hf]. intros p. apply is_file_exists.
Qed.

Lemma find_duplicates_feeds_remove_duplicates_witness :
  duplicate_groups FxDup.fs FxDup.dups.
Proof.
  apply (find_duplicates_feeds_remove_duplicates ["root"]%string [] FxDup.fs FxDup.dups
           FxDup.fs); vm_compute; reflexivity.
Defined.

(** ** What the deletions leave *)

Lemma NoDup_distinct l : NoDup l -> distinct l = true.
Proof.
  induction 1 as [|x l Hnotin _ IH]; simpl; [reflexivity|].
  rewrite IH, andb_true_r, negb_true_iff.
  destruct (existsb (String.eqb x) l) eqn:E; [|reflexivity].
  apply existsb_exists in E as (y & Hy & Hxy). apply String.eqb_eq in Hxy. now subst y.
Qed.

Lemma well_formed_build st es :
  NoDup (map fst es) -> Forall (fun e => well_formed (snd e) = true) es ->
  well_formed (Dir st es) = true.
Proof.
  intros Hnd Hall. simpl. rewrite (NoDup_distinct _ Hnd). simpl.
  apply forallb_forall. now rewrite Forall_forall in Hall.
Qed.

Lemma put_entry_names s c c' es :
  Fs.find_entry s es = Some c -> map fst (Fs.put_entry s c' es) = map fst es.
Proof.
  induction es as [|[t v] es IH]; simpl; [discriminate|].
  destruct (String.eqb t s) eqn:E.
  - apply String.eqb_eq in E. now subst t.
  - intros H. simpl. now rewrite IH.
Qed.

Lemma put_entry_forall (P : string * node -> Prop) s c' es :
  Forall P es -> P (s, c') -> Forall P (Fs.put_entry s c' es).
Proof.
  intros Hall Hc. induction es as [|[t v] es IH]; simpl.
  - now constructor.
  - inversion Hall; subst. destruct (String.eqb t s); constructor; auto.
Qed.

Lemma well_formed_delete p : forall fs fs',
  well_formed fs = true -> Fs.delete_node fs p = Some fs' -> well_formed fs' = true.
Proof.
  induction p as [|s p IH]; intros fs fs' Hwf H; simpl in H; [discriminate|].
  destruct fs as [f|st es]; [discriminate|].
  destruct (Fs.find_entry s es) as [c|] eqn:Hc; [|discriminate].
  apply well_formed_dir in Hwf as [Hnd Hall].
  destruct p as [|t p].
  - injection H as <-. apply well_formed_build.
    + unfold Fs.del_entry. now apply nodup_map_fst_filter.
    + unfold Fs.del_entry. rewrite Forall_forall in *. intros e He.
      apply filter_In in He as [He _]. now apply Hall.
  - destruct (Fs.delete_node c (t :: p)) as [c'|] eqn:Hd; [|discriminate].
    injection H as <-. apply well_formed_build.
    + now rewrite (put_entry_names s c c' es Hc).
    + apply put_entry_forall; [exact Hall|]. simpl.
      apply (IH c c'); [|exact Hd].
      rewrite Forall_forall in Hall. apply find_entry_In in Hc. exact (Hall _ Hc).
Qed.

Lemma removed_from_nil fs : removed_from fs fs [].
Proof. repeat split; auto using shrunk_refl. intros r []. Qed.

Lemma removed_from_app fs fs1 fs2 rs1 rs2 :
  removed_from fs fs1 rs1 -> removed_from fs1 fs2 rs2 ->
  removed_from fs fs2 (rs1 ++ rs2).
Proof.
  intros (Hs1 & Hk1 & Hg1 & Hw1) (Hs2 & Hk2 & Hg2 & Hw2).
  split; [eapply shrunk_trans; eauto|]. split; [|split].
  - intros q Hq. rewrite map_app, in_app_iff in Hq.
    rewrite Hk2, Hk1; tauto.
  - intros r Hr He. apply in_app_or in Hr as [Hr|Hr]; [|now apply Hg2].
    destruct (Hs2 (r_removed r)) as [H|H]; [exact H|].
    rewrite H. now apply Hg1.
  - auto.
Qed.

Lemma os_remove_effect h keeper p fs r fs' :
  os_remove p fs = (r, fs') ->
  removed_from fs fs'
    [mkRemoval h p keeper (match r with Ok _ => None | Raise e => Some e end)].
Proof.
  intros H. destruct (os_remove_spec _ _ _ _ H) as (Hs & Hk & Hraise).
  split; [exact Hs|]. split; [|split].
  - intros q Hq. apply Hk. simpl in Hq. intros ->. tauto.
  - intros r0 [<-|[]]. simpl. destruct r as [u|e]; [intros _|discriminate].
    unfold os_remove, os_error in H.
    destruct (Fs.find_node fs p) as [[f|st es]|] eqn:Hf; try discriminate.
    destruct (locked f); [discriminate|].
    destruct (Fs.delete_node fs p) as [fs1|] eqn:Hd; [|discriminate].
    injection H as _ <-.
    rewrite (delete_file_meta p fs fs1 f Hf Hd). now rewrite path_eqb_refl.
  - intros Hwf. destruct r as [u|e]; [|now rewrite (Hraise e eq_refl)].
    unfold os_remove, os_error in H.
    destruct (Fs.find_node fs p) as [[f|st es]|] eqn:Hf; try discriminate.
    destruct (locked f); [discriminate|].
    destruct (Fs.delete_node fs p) as [fs1|] eqn:Hd; [|discriminate].
    injection H as _ <-. eapply well_formed_delete; eauto.
Qed.

Lemma remove_loop_effect h keeper l : forall acc fs recs fs',
  remove_loop h keeper false l acc fs = (Ok recs, fs') ->
  exists rs, recs = acc ++ rs /\ removed_from fs fs' rs.
Proof.
  induction l as [|p l IH]; intros acc fs recs fs' H.
  - injection H as <- <-. exists []. rewrite app_nil_r.
    split; [reflexivity | apply removed_from_nil].
  - cbn [remove_loop] in H. unfold bind at 1, try_catch, bind at 1 in H.
    destruct (os_remove p fs) as [[[]|e] fs1] eqn:Hrm; cbn [ret] in H.
    + destruct (IH _ _ _ _ H) as (rs & -> & Heff).
      exists (mkRemoval h p keeper None :: rs). rewrite <- app_assoc.
      split; [reflexivity|].
      apply (removed_from_app fs fs1 fs' [_] rs); [|exact Heff].
      exact (os_remove_effect h keeper p fs _ fs1 Hrm).
    + destruct (IH _ _ _ _ H) as (rs & -> & Heff).
      exists (mkRemoval h p keeper (Some e) :: rs). rewrite <- app_assoc.
      split; [reflexivity|].
      apply (removed_from_app fs fs1 fs' [_] rs); [|exact Heff].
      exact (os_remove_effect h keeper p fs _ fs1 Hrm).
Qed.

Lemma remove_groups_effect keep dups : forall acc fs recs fs',
  remove_groups dups keep false acc fs = (Ok recs, fs') ->
  exists rs, recs = acc ++ rs /\ removed_from fs fs' rs.
Proof.
  induction dups as [|[h plist] dups IH]; intros acc fs recs fs' H.
  - injection H as <- <-. exists []. rewrite app_nil_r.
    split; [reflexivity | apply removed_from_nil].
  - cbn [remove_groups] in H.
    apply bind_ok_inv in H as (sl & fs1 & Hsort & H).
    destruct (sorted_by_mtime_ok _ _ _ _ Hsort) as (-> & _).
    apply bind_ok_inv in H as ([keeper to_remove] & fs2 & Hsel & H).
    destruct (select_ok _ _ _ _ _ _ Hsel) as (-> & _).
    apply bind_ok_inv in H as (removed' & fs3 & Hloop & H).
    cbn [fst snd] in Hloop.
    destruct (remove_loop_effect _ _ _ _ _ _ _ Hloop) as (rs1 & -> & He1).
    destruct (IH _ _ _ _ H) as (rs2 & -> & He2).
    exists (rs1 ++ rs2). rewrite app_assoc. split; [reflexivity|].
    eapply removed_from_app; eauto.
Qed.

Lemma forall2_in_l {A B} (R : A -> B -> Prop) l1 l2 a :
  Forall2 R l1 l2 -> In a l1 -> exists b, In b l2 /\ R a b.
Proof.
  induction 1 as [|x y l1 l2 Hxy _ IH]; intros Ha; [destruct Ha|].
  destruct Ha as [<-|Ha]; [exists y; split; [now left | exact Hxy]|].
  destruct (IH Ha) as (b & Hb & Hab). exists b. split; [now right | exact Hab].
Qed.

Lemma forall2_concat_in {A B} (R : A -> list B -> Prop) l1 l2 r :
  Forall2 R l1 l2 -> In r (List.concat l2) ->
  exists a rs, In a l1 /\ R a rs /\ In rs l2 /\ In r rs.
Proof.
  induction 1 as [|x y l1 l2 Hxy _ IH]; simpl; intros Hr; [destruct Hr|].
  apply in_app_or in Hr as [Hr|Hr].
  - exists x, y. auto.
  - destruct (IH Hr) as (a & rs & Ha & HR & Hrs & Hin). exists a, rs. auto.
Qed.

Lemma selected_split keep sl keeper to_remove x :
  selected keep sl keeper to_remove -> In x sl -> x = keeper \/ In x to_remove.
Proof.
  unfold selected. destruct (String.eqb keep "latest"); intros -> Hx.
  - apply in_app_or in Hx as [Hx|[<-|[]]]; auto.
  - destruct Hx as [<-|Hx]; auto.
Qed.

Lemma size_at_meta fs p : size_at fs p = option_map meta_size (find_meta fs p).
Proof.
  unfold size_at, find_meta. destruct (Fs.find_node fs p) as [n|]; simpl; [|reflexivity].
  now rewrite meta_size_st_size.
Qed.

(** The members of a group are scanned regular files of one digest and
    one size. *)
Lemma is_group_member fs files h plist x :
  is_group fs files h plist -> In x plist ->
  exists s, In x files /\ hash_at fs x = Some h /\ size_at fs x = Some s /\
            plist = class_of (hash_at fs) String.eqb h
                      (class_of (size_at fs) Z.eqb s files).
Proof.
  intros (s & Hp & _) Hx. exists s. rewrite Hp in Hx.
  apply (class_of_In _ _ _ _ _ String.eqb_eq) in Hx as [Hx Hh].
  apply (class_of_In _ _ _ _ _ Z.eqb_eq) in Hx as [Hx Hs]. auto.
Qed.

Lemma shrunk_present fs fs' x :
  shrunk fs fs' -> Fs.is_file fs' x = true -> find_meta fs' x = find_meta fs x.
Proof.
  intros Hs Hf. destruct (Hs x) as [H|H]; [|exact H].
  rewrite is_file_meta, H in Hf. discriminate.
Qed.

(** X12. Removing the duplicates that [find_duplicates] reports leaves
    none behind: in a tree where no directory lists a name twice, when an
    effective [remove_duplicates] on the reported groups returns records
    without errors, a new [find_duplicates] on the same root reports no
    group. *)
Theorem remove_duplicates_leaves_no_duplicates
  (root : path) (ign : list string) (fs : node) (dups : list (string * list path))
  (keep : string) (recs : list removal) (fs' : node) :
  well_formed fs = true ->
  find_duplicates root ign fs = (Ok dups, fs) ->
  remove_duplicates dups keep false fs = (Ok recs, fs') ->
  Forall (fun r => r_error r = None) recs ->
  find_duplicates root ign fs' = (Ok [], fs').
Proof.
  intros Hwf Hfind Hrm Hclean.
  unfold find_duplicates in Hfind.
  rewrite (bind_ok _ _ _ _ _ (scan_files_run root true ign fs)) in Hfind.
  destruct (find_duplicates_of_spec (scan_files_in fs root true ign) fs)
    as (d0 & Hrun & Hspec).
  rewrite Hrun in Hfind. injection Hfind as ->.
  unfold remove_duplicates in Hrm.
  destruct (remove_groups_effect _ _ _ _ _ _ Hrm) as (rs & Hrecs & Hsh & _ & Hgone & Hwf').
  destruct (remove_groups_decompose keep false fs dups [] fs recs fs' (shrunk_refl fs) Hrm)
    as (rss & Hrecs' & Hf2 & _).
  simpl in Hrecs, Hrecs'. subst rs.
  unfold find_duplicates.
  rewrite (bind_ok _ _ _ _ _ (scan_files_run root true ign fs')).
  destruct (find_duplicates_of_spec (scan_files_in fs' root true ign) fs')
    as (d' & Hrun' & Hspec').
  rewrite Hrun'. destruct d' as [|[h plist] d']; [reflexivity|]. exfalso.
  assert (Hgrp : is_group fs' (scan_files_in fs' root true ign) h plist)
    by (apply Hspec'; now left).
  assert (Hnd : NoDup plist).
  { destruct Hgrp as (s & -> & _). unfold class_of.
    apply NoDup_filter, NoDup_filter, scan_files_in_nodup. auto. }
  assert (Hlen : (2 <= List.length plist)%nat) by (destruct Hgrp as (s & _ & Hl); exact Hl).
  destruct plist as [|a [|b plist]]; simpl in Hlen; try lia.
  assert (Hab : a <> b).
  { inversion Hnd as [|? ? Hnotin _]; subst. intros ->. apply Hnotin. now left. }
  assert (Hold : forall x, In x (a :: b :: plist) ->
            exists s, Fs.is_file fs' x = true /\
                      In x (scan_files_in fs root true ign) /\
                      hash_at fs x = Some h /\ size_at fs x = Some s /\
                      size_at fs' x = Some s).
  { intros x Hx. destruct (is_group_member _ _ _ _ _ Hgrp Hx) as (s & Hscan & Hh & Hs & _).
    apply scan_sound in Hscan as [Hfile Hel].
    pose proof (shrunk_present _ _ _ Hsh Hfile) as Hm.
    exists s. split; [exact Hfile|]. split; [|split; [|split]].
    - apply scan_complete; [|exact Hel]. now rewrite is_file_meta, <- Hm, <- is_file_meta.
    - now rewrite hash_at_meta, <- Hm, <- hash_at_meta.
    - now rewrite size_at_meta, <- Hm, <- size_at_meta.
    - exact Hs. }
  destruct (Hold a (or_introl eq_refl)) as (sa & Hfa & Hina & Hha & Hsa & Hsa').
  destruct (Hold b (or_intror (or_introl eq_refl))) as (sb & Hfb & Hinb & Hhb & Hsb & Hsb').
  assert (sb = sa).
  { destruct (is_group_member _ _ _ _ _ Hgrp (or_introl eq_refl)) as (s1 & _ & _ & Hs1 & Hp1).
    destruct (is_group_member _ _ _ _ _ Hgrp (or_intror (or_introl eq_refl)))
      as (s2 & _ & _ & Hs2 & _).
    assert (Hb : In b (a :: b :: plist)) by (right; now left).
    rewrite Hp1 in Hb.
    apply (class_of_In _ _ _ _ _ String.eqb_eq) in Hb as [Hb _].
    apply (class_of_In _ _ _ _ _ Z.eqb_eq) in Hb as [_ Hb]. congruence. }
  subst sb.
  set (plist0 := class_of (hash_at fs) String.eqb h
                   (class_of (size_at fs) Z.eqb sa (scan_files_in fs root true ign))).
  assert (Ha0 : In a plist0).
  { apply (class_of_In _ _ _ _ _ String.eqb_eq). split; [|exact Hha].
    apply (class_of_In _ _ _ _ _ Z.eqb_eq). auto. }
  assert (Hb0 : In b plist0).
  { apply (class_of_In _ _ _ _ _ String.eqb_eq). split; [|exact Hhb].
    apply (class_of_In _ _ _ _ _ Z.eqb_eq). auto. }
  assert (Hin : In (h, plist0) dups).
  { apply Hspec. exists sa. split; [reflexivity|]. exact (two_members a b _ Ha0 Hb0 Hab). }
  destruct (forall2_in_l _ _ _ _ Hf2 Hin) as (rs0 & Hrs0 & Hgr).
  destruct Hgr as (sl & keeper & to_remove & Hperm & _ & _ & Hsel & Hmap & _).
  cbn [snd] in Hperm.
  assert (Hcases : forall x, In x plist0 -> x = keeper \/ In x to_remove).
  { intros x Hx. apply (selected_split keep sl); [exact Hsel|].
    exact (Permutation_in _ (Permutation_sym Hperm) Hx). }
  assert (Hdel : forall x, In x to_remove -> Fs.is_file fs' x = true -> False).
  { intros x Hx Hfile. rewrite <- Hmap in Hx. apply in_map_iff in Hx as (r & <- & Hr).
    assert (Hrin : In r recs).
    { rewrite Hrecs'. apply in_concat. exists rs0. auto. }
    rewrite Forall_forall in Hclean.
    rewrite is_file_meta, (Hgone r) in Hfile; [discriminate | exact Hrin | now apply Hclean]. }
  destruct (Hcases a Ha0) as [Hak|Har]; [|exact (Hdel a Har Hfa)].
  destruct (Hcases b Hb0) as [Hbk|Hbr]; [congruence | exact (Hdel b Hbr Hfb)].
Qed.

Lemma remove_duplicates_leaves_no_duplicates_witness :
  find_duplicates ["root"]%string [] FxDup.fs_first = (Ok [], FxDup.fs_first).
Proof.
  apply (remove_duplicates_leaves_no_duplicates ["root"]%string [] FxDup.fs FxDup.dups
           "first"%string FxDup.first_records FxDup.fs_first).
  - vm_compute. reflexivity.
  - vm_compute. reflexivity.
  - vm_compute. reflexivity.
  - repeat constructor.
Defined.

(** X13. On a tree of directories and regular files, without symbolic
    links, as the trees of this development are, [remove_duplicates] never
    deletes the last copy: on the groups that [find_duplicates] reports
    for a tree where no directory lists a name twice, every record names a
    removed file and a kept file such that the kept file is still there
    after the run, readable, with the size and the digest that the removed
    file had. *)
Theorem remove_duplicates_keeps_a_copy
  (root : path) (ign : list string) (fs : node) (dups : list (string * list path))
  (keep : string) (dry_run : bool) (recs : list removal) (fs' : node) :
  well_formed fs = true ->
  find_duplicates root ign fs = (Ok dups, fs) ->
  remove_duplicates dups keep dry_run fs = (Ok recs, fs') ->
  forall r, In r recs ->
    exists fr fk,
      Fs.find_file fs (r_removed r) = Some fr /\
      Fs.find_file fs' (r_kept r) = Some fk /\
      readable fk = true /\
      List.length (content fk) = List.length (content fr) /\
      Sha256.hexdigest (content fk) = r_hash r /\
      Sha256.hexdigest (content fr) = r_hash r.
Proof.
  intros Hwf Hfind Hrm r Hr.
  unfold find_duplicates in Hfind.
  rewrite (bind_ok _ _ _ _ _ (scan_files_run root true ign fs)) in Hfind.
  pose proof (find_duplicates_of_disjoint _ _ _ _ (scan_files_in_nodup fs root ign Hwf) Hfind)
    as Hnd.
  destruct (find_duplicates_of_spec (scan_files_in fs root true ign) fs)
    as (d0 & Hrun & Hspec).
  rewrite Hrun in Hfind. injection Hfind as ->.
  unfold remove_duplicates in Hrm.
  destruct (remove_groups_decompose keep dry_run fs dups [] fs recs fs' (shrunk_refl fs) Hrm)
    as (rss & Hrecs & Hf2 & _).
  simpl in Hrecs.
  assert (Hone : Forall2 one_kept dups rss).
  { eapply Forall2_impl; [|exact Hf2]. intros g rs. apply group_records_one_kept. }
  assert (Hkept : find_meta fs' (r_kept r) = find_meta fs (r_kept r)).
  { destruct dry_run.
    - now rewrite (read_only_remove_groups_dry keep dups [] fs _ fs' Hrm).
    - destruct (remove_groups_effect _ _ _ _ _ _ Hrm) as (rs & Hrs & _ & Hsame & _).
      simpl in Hrs. subst rs. apply Hsame.
      intros Hin. apply in_map_iff in Hin as (r1 & Heq & Hr1).
      rewrite Hrecs in Hr, Hr1.
      exact (kept_never_removed dups rss Hnd Hone r1 r Hr1 Hr Heq). }
  rewrite Hrecs in Hr.
  destruct (forall2_concat_in _ _ _ _ Hf2 Hr) as ([h plist0] & rs0 & Hg & Hgr & _ & Hr0).
  destruct Hgr as (sl & keeper & to_remove & Hperm & _ & _ & Hsel & Hmap & Hall).
  cbn [fst snd] in *.
  rewrite Forall_forall in Hall. destruct (Hall r Hr0) as [Hh Hk].
  apply Hspec in Hg as (s & Hp & _).
  assert (Hmem : forall x, In x plist0 ->
            exists c, Fs.find_file fs x = Some c /\ readable c = true /\
                      Sha256.hexdigest (content c) = h /\
                      Z.of_nat (List.length (content c)) = s).
  { intros x Hx. rewrite Hp in Hx.
    apply (class_of_In _ _ _ _ _ String.eqb_eq) in Hx as [Hx Hhx].
    apply (class_of_In _ _ _ _ _ Z.eqb_eq) in Hx as [_ Hsx].
    apply hash_at_inv in Hhx as (c & Hc & Hread & Hd & Hsz).
    exists c. repeat split; auto. congruence. }
  assert (Hrem : In (r_removed r) plist0).
  { apply (selected_perm_incl keep sl keeper to_remove plist0 Hperm Hsel).
    rewrite <- Hmap. now apply in_map. }
  assert (Hkeeper : In (r_kept r) plist0).
  { rewrite Hk. apply (Permutation_in _ Hperm).
    now destruct (selected_cases _ _ _ _ Hsel) as [Hin _]. }
  destruct (Hmem _ Hrem) as (fr & Hfr & _ & Hdr & Hsr).
  destruct (Hmem _ Hkeeper) as (fk & Hfk & Hrk & Hdk & Hsk).
  exists fr, fk. split; [exact Hfr|]. split.
  - now rewrite find_file_meta, Hkept, <- find_file_meta.
  - split; [exact Hrk|]. split; [lia|]. split; congruence.
Qed.

Lemma remove_duplicates_keeps_a_copy_witness :
  exists fr fk,
    Fs.find_file FxDup.fs FxDup.c = Some fr /\
    Fs.find_file FxDup.fs_first FxDup.b = Some fk /\
    readable fk = true /\
    List.length (content fk) = List.length (content fr) /\
    Sha256.hexdigest (content fk) = FxDup.digest /\
    Sha256.hexdigest (content fr) = FxDup.digest.
Proof.
  apply (remove_duplicates_keeps_a_copy ["root"]%string [] FxDup.fs FxDup.dups
           "first"%string false FxDup.first_records FxDup.fs_first
           eq_refl) with (r := mkRemoval FxDup.digest FxDup.c FxDup.b None).
  - vm_compute. reflexivity.
  - vm_compute. reflexivity.
  - now left.
Defined.

(** ** Groups that cannot be processed *)

Lemma bind_assoc {A B C} (m : M A) (k : A -> M B) (k' : B -> M C) fs :
  bind (bind m k) k' fs = bind m (fun a => bind (k a) k') fs.
Proof. unfold bind. destruct (m fs) as [[a|e] fs1]; reflexivity. Qed.

Lemma remove_groups_app keep dry pre post : forall acc fs,
  remove_groups (pre ++ post) keep dry acc fs =
  bind (remove_groups pre keep dry acc) (fun acc' => remove_groups post keep dry acc') fs.
Proof.
  induction pre as [|[h plist] pre IH]; intros acc fs; [reflexivity|].
  cbn [app remove_groups]. rewrite bind_assoc. apply bind_ext. intros sl fs1.
  rewrite bind_assoc. apply bind_ext. intros kt fs2.
  rewrite bind_assoc. apply bind_ext. intros acc1 fs3. apply IH.
Qed.

Lemma mtime_keys_missing l : forall fs,
  (exists p, In p l /\ Fs.path_exists fs p = false) ->
  exists en p, In p l /\ Fs.path_exists fs p = false /\
               mtime_keys l fs = (Raise (OSError en p), fs).
Proof.
  induction l as [|p0 l IH]; intros fs (p & Hp & Hmiss); [destruct Hp|].
  cbn [mtime_keys]. unfold bind at 1, os_stat, os_error.
  destruct (Fs.find_node fs p0) as [n|] eqn:Hn.
  - destruct Hp as [->|Hp].
    + unfold Fs.path_exists in Hmiss. rewrite Hn in Hmiss. discriminate.
    + destruct (IH fs (ex_intro _ p (conj Hp Hmiss))) as (en & q & Hq & Hqm & Hrun).
      exists en, q. split; [now right|]. split; [exact Hqm|].
      unfold bind. now rewrite Hrun.
  - exists (Fs.missing_errno fs p0), p0. split; [now left|]. split; [|reflexivity].
    unfold Fs.path_exists. now rewrite Hn.
Qed.

(** X14. [remove_duplicates] is not protected against a group it cannot
    sort: when the groups before it have been processed, a group with an
    empty list raises [IndexError] and a group that names a path which no
    longer exists raises the [OSError] of its [stat]; the exception leaves
    [remove_duplicates], no record is returned, and the deletions of the
    earlier groups stay done. *)
Theorem remove_duplicates_stops_at_a_bad_group
  (pre : list (string * list path)) (h : string) (plist : list path)
  (post : list (string * list path)) (keep : string) (dry_run : bool)
  (fs : node) (recs : list removal) (fs1 : node) :
  remove_duplicates pre keep dry_run fs = (Ok recs, fs1) ->
  (plist = [] ->
   remove_duplicates (pre ++ (h, plist) :: post) keep dry_run fs
   = (Raise IndexError, fs1)) /\
  ((exists p, In p plist /\ Fs.path_exists fs1 p = false) ->
   exists en p,
     In p plist /\ Fs.path_exists fs1 p = false /\
     remove_duplicates (pre ++ (h, plist) :: post) keep dry_run fs
     = (Raise (OSError en p), fs1)).
Proof.
  unfold remove_duplicates. intros Hpre. split.
  - intros ->. rewrite remove_groups_app, (bind_ok _ _ _ _ _ Hpre).
    cbn [remove_groups]. unfold sorted_by_mtime. cbn [mtime_keys].
    unfold bind, ret, select. simpl.
    destruct (String.eqb keep "first"); [reflexivity|].
    destruct (String.eqb keep "latest"); reflexivity.
  - intros Hmiss. destruct (mtime_keys_missing plist fs1 Hmiss) as (en & p & Hp & Hpm & Hrun).
    exists en, p. split; [exact Hp|]. split; [exact Hpm|].
    rewrite remove_groups_app, (bind_ok _ _ _ _ _ Hpre).
    cbn [remove_groups]. unfold sorted_by_mtime.
    unfold bind at 1 2. now rewrite Hrun.
Qed.

Lemma remove_duplicates_stops_at_a_bad_group_witness :
  remove_duplicates [(FxDup.digest, [FxDup.a; FxDup.b]); (FxDup.digest, [])]
    "first"%string false FxDup.fs
  = (Raise IndexError, snd (remove_duplicates [(FxDup.digest, [FxDup.a; FxDup.b])]
                              "first"%string false FxDup.fs)) /\
  exists en p,
    In p [FxDup.a; FxDup.c] /\
    remove_duplicates [(FxDup.digest, [FxDup.a; FxDup.b]); (FxDup.digest, [FxDup.a; FxDup.c])]
      "first"%string false FxDup.fs
    = (Raise (OSError en p),
       snd (remove_duplicates [(FxDup.digest, [FxDup.a; FxDup.b])]
              "first"%string false FxDup.fs)).
Proof.
  assert (Hpre : remove_duplicates [(FxDup.digest, [FxDup.a; FxDup.b])]
                   "first"%string false FxDup.fs
                 = (Ok [mkRemoval FxDup.digest FxDup.a FxDup.b None],
                    snd (remove_duplicates [(FxDup.digest, [FxDup.a; FxDup.b])]
                           "first"%string false FxDup.fs)))
    by (vm_compute; reflexivity).
  split.
  - apply (proj1 (remove_duplicates_stops_at_a_bad_group
                    [(FxDup.digest, [FxDup.a; FxDup.b])] FxDup.digest [] []
                    "first"%string false FxDup.fs _ _ Hpre)).
    reflexivity.
  - destruct (proj2 (remove_duplicates_stops_at_a_bad_group
                       [(FxDup.digest, [FxDup.a; FxDup.b])] FxDup.digest
                       [FxDup.a; FxDup.c] [] "first"%string false FxDup.fs _ _ Hpre))
      as (en & p & Hp & _ & Hrun).
    + exists FxDup.a. split; [now left | vm_compute; reflexivity].
    + exists en, p. split; [exact Hp | exact Hrun].
Defined.

(** ** What a dry run of [organize_files] changes *)

Lemma only_new_folders_refl folders fs : only_new_folders folders fs fs.
Proof. intros q. now left. Qed.

Lemma only_new_folders_trans folders a b c :
  only_new_folders folders a b -> only_new_folders folders b c ->
  only_new_folders folders a c.
Proof.
  intros Hab Hbc q.
  destruct (Hbc q) as [Hq | (Hnone & Hnew & Hd)].
  - rewrite Hq. apply Hab.
  - destruct (Hab q) as [Hq | (_ & Hb & _)]; [|congruence].
    right. rewrite <- Hq. auto.
Qed.

Lemma only_new_folders_incl f1 f2 a b :
  incl f1 f2 -> only_new_folders f1 a b -> only_new_folders f2 a b.
Proof.
  intros Hincl H q. destruct (H q) as [Hq | (Hn & Hnew & d & Hd & Hp)]; [now left|].
  right. split; [exact Hn|]. split; [exact Hnew|]. exists d. auto.
Qed.

Lemma safe_mkdir_only_new p fs fs' :
  safe_mkdir p fs = (Ok tt, fs') -> only_new_folders [p] fs fs'.
Proof.
  unfold safe_mkdir. destruct (Fs.mkdirs fs p) as [e|fs1] eqn:Hm; [discriminate|].
  intros [= <-] q. rewrite (mkdirs_meta p fs fs1 Hm q).
  destruct (find_meta fs q) as [m|]; [now left|].
  destruct (is_prefix q p) eqn:Hq; [|now left].
  right. split; [reflexivity|]. split; [reflexivity|]. exists p. split; [now left | exact Hq].
Qed.

Lemma only_new_folders_extends folders t t' : only_new_folders folders t t' -> extends t t'.
Proof.
  intros H q m Hq. destruct (H q) as [E | (Hn & _)]; congruence.
Qed.

(** One step of a dry run. *)
Lemma organize_one_dry root target move f fs r fs' :
  organize_one root target true move f fs = (r, fs') ->
  only_new_folders [target ++ [category f]] fs fs' /\
  (forall o, r = Ok (Some o) -> op_src o = f /\
             Fs.is_dir fs' (parent (op_dest o)) = true /\
             parent (op_dest o) = target ++ [category f]).
Proof.
  intros H.
  apply organize_one_inv in H
    as [(_ & -> & ->) | [(rel & _ & _ & -> & ->) | (rel & Hrel & Hal & H)]].
  1,2: split; [apply only_new_folders_refl | discriminate].
  cbv zeta in H.
  destruct H as [(en & _ & -> & ->) | (fs1 & Hmk & H)];
    [split; [apply only_new_folders_refl | discriminate]|].
  pose proof (safe_mkdir_only_new _ _ _ Hmk) as Hnew.
  assert (Hdir : Fs.is_dir fs1 (target ++ [category f]) = true).
  { unfold safe_mkdir in Hmk.
    destruct (Fs.mkdirs fs (target ++ [category f])) as [e|fs2] eqn:Hm; [discriminate|].
    injection Hmk as <-. eapply mkdirs_dirs; [exact Hm | apply is_prefix_refl]. }
  destruct H as [(en & p & _ & -> & ->) | [(k & d & _ & Hs & -> & ->) | H]].
  - split; [exact Hnew | discriminate].
  - split; [exact Hnew|]. intros o [= <-]. simpl.
    destruct Hs as [_ [-> _]]. unfold candidate. rewrite parent_snoc. auto.
  - destruct H as (k & d & _ & Hs & [(u & Hret & ->) | (en & p & [=] & _)]).
    injection Hret as _ <-. split; [exact Hnew|]. intros o [= <-]. simpl.
    destruct Hs as [_ [-> _]]. unfold candidate. rewrite parent_snoc. auto.
Qed.

Lemma organize_loop_dry root target move files : forall acc s r s',
  organize_loop root target true move files acc s = (r, s') ->
  only_new_folders (map (fun f => target ++ [category f]) files) s s' /\
  (forall ops, r = Ok ops ->
     Forall (fun o => Fs.is_dir s (parent (op_dest o)) = true) acc ->
     Forall (fun o => Fs.is_dir s' (parent (op_dest o)) = true) ops).
Proof.
  induction files as [|f files IH]; intros acc s r s' H.
  - injection H as <- <-. split; [apply only_new_folders_refl|].
    now intros ops [= <-].
  - cbn [organize_loop] in H.
    apply bind_inv in H as [(o & s1 & Hone & H) | (e & Hone & ->)].
    + destruct (organize_one_dry _ _ _ _ _ _ _ Hone) as [Hnew Hop].
      destruct (IH _ _ _ _ H) as [Hrest Hdirs].
      split.
      * eapply only_new_folders_trans.
        -- eapply only_new_folders_incl; [|exact Hnew].
           intros x [<-|[]]. now left.
        -- eapply only_new_folders_incl; [|exact Hrest].
           intros x Hx. now right.
      * intros ops Hr Hacc. apply (Hdirs ops Hr).
        assert (Hacc1 : Forall (fun o => Fs.is_dir s1 (parent (op_dest o)) = true) acc).
        { eapply Forall_impl; [|exact Hacc]. intros a.
          apply extends_is_dir. now apply (only_new_folders_extends _ _ _ Hnew). }
        destruct o as [o|]; [|exact Hacc1].
        apply Forall_app. split; [exact Hacc1|]. constructor; [|constructor].
        now destruct (Hop o eq_refl) as (_ & Hd & _).
    + destruct (organize_one_dry _ _ _ _ _ _ _ Hone) as [Hnew _].
      split; [|discriminate].
      eapply only_new_folders_incl; [|exact Hnew]. intros x [<-|[]]. now left.
Qed.

Lemma is_dir_meta fs p :
  Fs.is_dir fs p = match find_meta fs p with Some (inr _) => true | _ => false end.
Proof.
  unfold Fs.is_dir, find_meta. destruct (Fs.find_node fs p) as [[f|st es]|]; reflexivity.
Qed.

Lemma only_new_adds folders fs fs' :
  only_new_folders folders fs fs' -> adds_folders folders fs fs'.
Proof.
  intros H. split; [|split].
  - intros p. rewrite !find_file_meta.
    destruct (H p) as [E | (Hn & Hnew & _)]; [now rewrite E | now rewrite Hn, Hnew].
  - intros p. apply extends_is_dir. now apply only_new_folders_extends in H.
  - intros p Hp. destruct (H p) as [E | (_ & _ & Hd)]; [left | now right].
    now rewrite is_dir_meta, <- E, <- is_dir_meta.
Qed.

(** X15. A dry run of [organize_files] is not without effect: it adds,
    removes and changes no regular file and removes no directory, but it
    creates directories on the way to the category folders of scanned
    files, and when it completes, the folder of the destination of every
    action it lists exists; the folders are created by [safe_mkdir], which
    is called before [dry_run] is tested. *)
Theorem organize_dry_run_only_creates_folders
  (root : path) (target : option path) (move : bool) (ign : list string)
  (fs : node) (r : result (list op)) (fs' : node) :
  organize_files root target true move ign fs = (r, fs') ->
  adds_folders
    (map (fun f => match target with Some t => t | None => root end ++ [category f])
         (scan_files_in fs root true ign)) fs fs' /\
  (forall ops, r = Ok ops ->
     Forall (fun o => Fs.is_dir fs' (parent (op_dest o)) = true) ops).
Proof.
  intros H. unfold organize_files in H.
  rewrite (bind_ok _ _ _ _ _ (scan_files_run root true ign fs)) in H.
  destruct (organize_loop_dry _ _ _ _ _ _ _ _ H) as [Hnew Hdirs].
  split; [exact (only_new_adds _ _ _ Hnew)|]. intros ops Hr. apply (Hdirs ops Hr). constructor.
Qed.

Lemma organize_dry_run_only_creates_folders_witness :
  Fs.is_dir FxABC.fs ["root"; "txt"]%string = false /\
  Forall (fun o => Fs.is_dir (snd (organize_files FxABC.root None true true [] FxABC.fs))
                     (parent (op_dest o)) = true)
    [FxABC.move_a; FxABC.move_b; FxABC.move_c].
Proof.
  split; [reflexivity|].
  apply (proj2 (organize_dry_run_only_creates_folders FxABC.root None true [] FxABC.fs
                  (fst (organize_files FxABC.root None true true [] FxABC.fs))
                  (snd (organize_files FxABC.root None true true [] FxABC.fs))
                  (surjective_pairing _))).
  vm_compute. reflexivity.
Defined.

(** ** Ties between modification times *)

Section StableSort.
Context {A : Type}.

Lemma sorted_head_least (x : Z * A) l :
  StronglySorted key_le (x :: l) -> Forall (fun y => (fst x <= fst y)%Z) (x :: l).
Proof.
  intros H. inversion H as [|? ? _ Hall]; subst.
  constructor; [lia | exact Hall].
Qed.

(** The head of the sorted list is the first entry with the least key. *)
Lemma sort_by_key_head (l : list (Z * A)) x rest :
  sort_by_key l = x :: rest ->
  exists l1 l2, l = l1 ++ x :: l2 /\
    Forall (fun y => (fst x < fst y)%Z) l1 /\ Forall (fun y => (fst x <= fst y)%Z) l2.
Proof.
  revert x rest. induction l as [|a l IH]; intros x rest H; [discriminate|].
  simpl in H. destruct (sort_by_key l) as [|y t] eqn:Hs.
  - simpl in H. injection H as <- <-.
    assert (l = []) by (apply Permutation_nil; rewrite <- Hs; apply sort_by_key_perm).
    subst l. exists [], []. repeat split; constructor.
  - simpl in H. destruct (fst a <=? fst y)%Z eqn:E.
    + injection H as <- <-. apply Z.leb_le in E.
      exists [], l. split; [reflexivity|]. split; [constructor|].
      pose proof (sort_by_key_sorted l) as Hsorted. rewrite Hs in Hsorted.
      apply sorted_head_least in Hsorted.
      apply (Permutation_Forall (sort_by_key_perm l)). rewrite Hs.
      eapply Forall_impl; [|exact Hsorted]. simpl. intros; lia.
    + injection H as <- <-. apply Z.leb_gt in E.
      destruct (IH y t eq_refl) as (l1 & l2 & -> & H1 & H2).
      exists (a :: l1), l2. split; [reflexivity|]. split; [|exact H2].
      constructor; [exact E | exact H1].
Qed.

Lemma insert_by_key_last (a : Z * A) s init x :
  StronglySorted key_le s ->
  insert_by_key a s = init ++ [x] ->
  (x = a /\ init = s /\ Forall (fun y => (fst y < fst a)%Z) s) \/
  (exists init', s = init' ++ [x] /\ (fst a <= fst x)%Z).
Proof.
  revert init. induction s as [|y t IH]; intros init Hs H; simpl in H.
  - left. destruct init as [|i init]; [|destruct init; discriminate].
    injection H as <-. auto.
  - inversion Hs as [|? ? Hs' Hall]; subst.
    destruct (fst a <=? fst y)%Z eqn:E.
    + right. apply Z.leb_le in E.
      destruct init as [|i init]; [discriminate|].
      injection H as <- H. exists (removelast (y :: t)).
      assert (Hne : y :: t <> []) by discriminate.
      pose proof (app_removelast_last y Hne) as Hl.
      rewrite H in Hl at 1. rewrite H.
      assert (Hx : last (init ++ [x]) y = x) by apply last_last.
      rewrite <- H in Hx at 1. rewrite Hx in Hl.
      assert (Hrl : removelast (init ++ [x]) = init) by apply removelast_last.
      split; [now rewrite Hrl|].
      pose proof (sorted_head_least y t Hs) as Hle.
      rewrite Forall_forall in Hle.
      assert (Hin : In x (y :: t)) by (rewrite H; apply in_or_app; right; now left).
      specialize (Hle x Hin). simpl in Hle. lia.
    + apply Z.leb_gt in E.
      destruct init as [|i init].
      * destruct (insert_by_key a t) eqn:Hi; [|discriminate].
        exfalso. assert (Hp := insert_by_key_perm a t). rewrite Hi in Hp.
        now apply Permutation_nil in Hp.
      * injection H as <- H.
        destruct (IH init Hs' H) as [(-> & -> & Hlt) | (init' & -> & Hle)].
        -- left. split; [reflexivity|]. split; [reflexivity|].
           constructor; [exact E | exact Hlt].
        -- right. exists (y :: init'). split; [reflexivity | exact Hle].
Qed.

(** The last entry of the sorted list is the last entry with the greatest
    key. *)
Lemma sort_by_key_last (l : list (Z * A)) init x :
  sort_by_key l = init ++ [x] ->
  exists l1 l2, l = l1 ++ x :: l2 /\
    Forall (fun y => (fst y <= fst x)%Z) l1 /\ Forall (fun y => (fst y < fst x)%Z) l2.
Proof.
  revert init x. induction l as [|a l IH]; intros init x H.
  - destruct init; discriminate.
  - simpl in H.
    destruct (insert_by_key_last a (sort_by_key l) init x (sort_by_key_sorted l) H)
      as [(-> & _ & Hlt) | (init' & Hs & Hle)].
    + exists [], l. split; [reflexivity|]. split; [constructor|].
      eapply Permutation_Forall; [apply sort_by_key_perm | exact Hlt].
    + destruct (IH init' x Hs) as (l1 & l2 & -> & H1 & H2).
      exists (a :: l1), l2. split; [reflexivity|]. split; [|exact H2].
      constructor; [exact Hle | exact H1].
Qed.

End StableSort.

Lemma mtime_of_key fs (ks : list (Z * path)) y :
  Forall (fun kp => mtime_at fs (snd kp) = Some (fst kp)) ks -> In y ks ->
  mtime_at fs (snd y) = Some (fst y).
Proof. rewrite Forall_forall. auto. Qed.

(** The selection in one group. *)
Lemma select_keeper_order keep plist fs sl fs1 keeper to_remove fs2 :
  sorted_by_mtime plist fs = (Ok sl, fs1) ->
  select keep sl fs1 = (Ok (keeper, to_remove), fs2) ->
  kept_by_order fs keep plist keeper.
Proof.
  unfold sorted_by_mtime. intros Hsort Hsel.
  apply bind_ok_inv in Hsort as (ks & fs1' & Hks & Hret).
  injection Hret as <- _.
  destruct (mtime_keys_ok _ _ _ _ Hks) as [Hmap Hall].
  apply select_ok in Hsel as [_ Hsel]. unfold selected in Hsel.
  unfold kept_by_order. destruct (String.eqb keep "latest").
  - apply map_eq_app in Hsel as (init & lx & Hs & _ & Hx).
    destruct lx as [|x [|? ?]]; try discriminate. injection Hx as <-.
    destruct (sort_by_key_last ks init x Hs) as (l1 & l2 & -> & H1 & H2).
    exists (map snd l1), (map snd l2).
    split; [now rewrite <- Hmap, map_app|].
    assert (Hxm : mtime_at fs (snd x) = Some (fst x)).
    { apply (mtime_of_key fs _ x Hall). apply in_or_app. right. now left. }
    split; apply Forall_map, Forall_forall; intros y Hy.
    + assert (Hym : mtime_at fs (snd y) = Some (fst y)).
      { apply (mtime_of_key fs _ y Hall). apply in_or_app. now left. }
      unfold mtime_le. rewrite Hym, Hxm. rewrite Forall_forall in H1. now apply H1.
    + assert (Hym : mtime_at fs (snd y) = Some (fst y)).
      { apply (mtime_of_key fs _ y Hall). apply in_or_app. right. now right. }
      unfold mtime_lt. rewrite Hym, Hxm. rewrite Forall_forall in H2. now apply H2.
  - apply map_eq_cons in Hsel as (x & rest & Hs & <- & _).
    destruct (sort_by_key_head ks x rest Hs) as (l1 & l2 & -> & H1 & H2).
    exists (map snd l1), (map snd l2).
    split; [now rewrite <- Hmap, map_app|].
    assert (Hxm : mtime_at fs (snd x) = Some (fst x)).
    { apply (mtime_of_key fs _ x Hall). apply in_or_app. right. now left. }
    split; apply Forall_map, Forall_forall; intros y Hy.
    + assert (Hym : mtime_at fs (snd y) = Some (fst y)).
      { apply (mtime_of_key fs _ y Hall). apply in_or_app. now left. }
      unfold mtime_lt. rewrite Hym, Hxm. rewrite Forall_forall in H1. now apply H1.
    + assert (Hym : mtime_at fs (snd y) = Some (fst y)).
      { apply (mtime_of_key fs _ y Hall). apply in_or_app. right. now right. }
      unfold mtime_le. rewrite Hxm, Hym. rewrite Forall_forall in H2. now apply H2.
Qed.

Lemma sorted_by_mtime_shrunk fs0 fs plist sl fs1 :
  shrunk fs0 fs -> sorted_by_mtime plist fs = (Ok sl, fs1) ->
  sorted_by_mtime plist fs0 = (Ok sl, fs0).
Proof.
  unfold sorted_by_mtime. intros Hs H.
  apply bind_ok_inv in H as (ks & fs1' & Hks & Hret). injection Hret as <- _.
  now rewrite (bind_ok _ _ _ _ _ (mtime_keys_shrunk fs0 plist fs ks fs1' Hs Hks)).
Qed.

Lemma remove_groups_ties keep dry fs0 dups : forall acc fs recs fs',
  shrunk fs0 fs ->
  remove_groups dups keep dry acc fs = (Ok recs, fs') ->
  exists rss,
    recs = acc ++ List.concat rss /\ Forall2 (keeps_by_order fs0 keep) dups rss.
Proof.
  induction dups as [|[h plist] dups IH]; intros acc fs recs fs' Hs H.
  - injection H as <- _. exists []. simpl. rewrite app_nil_r. auto.
  - cbn [remove_groups] in H.
    apply bind_ok_inv in H as (sl & fs1 & Hsort & H).
    pose proof (sorted_by_mtime_shrunk _ _ _ _ _ Hs Hsort) as Hsort0.
    destruct (sorted_by_mtime_ok _ _ _ _ Hsort) as (-> & _).
    apply bind_ok_inv in H as ([keeper to_remove] & fs2 & Hsel & H).
    assert (Hsel0 : select keep sl fs0 = (Ok (keeper, to_remove), fs0)).
    { destruct (select_ok _ _ _ _ _ _ Hsel) as [_ Hsd].
      unfold select in *.
      destruct (String.eqb keep "first"); [|destruct (String.eqb keep "latest")];
        destruct sl; try discriminate; unfold ret in *; congruence. }
    destruct (select_ok _ _ _ _ _ _ Hsel) as (-> & _).
    apply bind_ok_inv in H as (removed' & fs3 & Hloop & H).
    cbn [fst snd] in Hloop.
    destruct (remove_loop_spec h keeper dry to_remove acc fs)
      as (rs & fs3' & Hrun & _ & Hall & Hsh & _).
    rewrite Hrun in Hloop. injection Hloop as <- <-.
    destruct (IH _ _ _ _ (shrunk_trans _ _ _ Hs Hsh) H) as (rss & -> & Hf2).
    exists (rs :: rss). split; [simpl; now rewrite app_assoc|].
    constructor; [|exact Hf2].
    exists keeper. split.
    + exact (select_keeper_order keep plist fs0 sl fs0 keeper to_remove fs0 Hsort0 Hsel0).
    + eapply Forall_impl; [|exact Hall]. now intros r [_ Hk].
Qed.

(** X16. [remove_duplicates] breaks ties by the order of the group, as the
    stable [sorted] does: under "latest" the entry that is kept is the last
    of those with the greatest modification time, the entries listed after
    it being strictly older; under any other rule it is the first of those
    with the least modification time, the entries listed before it being
    strictly newer. Every record of the group names this entry as kept. *)
Theorem remove_duplicates_breaks_ties_by_order
  (dups : list (string * list path)) (keep : string) (dry_run : bool)
  (fs : node) (recs : list removal) (fs' : node) :
  remove_duplicates dups keep dry_run fs = (Ok recs, fs') ->
  exists rss, recs = List.concat rss /\ Forall2 (keeps_by_order fs keep) dups rss.
Proof.
  intros H. unfold remove_duplicates in H.
  destruct (remove_groups_ties keep dry_run fs dups [] fs recs fs' (shrunk_refl fs) H)
    as (rss & Hrecs & Hties).
  exists rss. split; [exact Hrecs | exact Hties].
Qed.

Lemma remove_duplicates_breaks_ties_by_order_witness :
  exists rss,
    FxTie.records = List.concat rss /\
    Forall2 (keeps_by_order FxTie.fs "first") FxTie.dups rss.
Proof.
  apply (remove_duplicates_breaks_ties_by_order FxTie.dups "first"%string true
           FxTie.fs FxTie.records FxTie.fs).
  vm_compute. reflexivity.
Defined.

(** ** Organizing by copy, twice *)

(** The step for a quiet file copies nothing. *)
Lemma organize_one_quiet_copy root f t o t' :
  quiet root t f ->
  organize_one root root false false f t = (Ok o, t') ->
  extends t t' /\ (o = None \/ exists d, o = Some (mkOp SkipSame f d)).
Proof.
  intros Hq H.
  apply organize_one_inv in H
    as [(_ & [=] & _) | [(rel & _ & _ & [= ->] & ->) | (rel & Hrel & Hal & H)]].
  - split; [apply extends_refl | auto].
  - cbv zeta in H.
    destruct H as [(en & _ & [=] & _) | (t1 & Hmk & H)].
    pose proof (safe_mkdir_extends _ _ _ Hmk) as He.
    destruct H as [(en & p & _ & [=] & _) | [(k & d & _ & _ & [= ->] & ->) | H]].
    + split; [exact He | eauto].
    + destruct H as (k & d & _ & Hs & _). exfalso.
      apply (quiet_not_free root t1 f k d); [eapply quiet_extends; eauto | | exact Hs].
      unfold skipped. now rewrite Hrel.
Qed.

Lemma same_true_readable fs a b :
  is_same_file a b fs = (Ok true, fs) -> can_read fs a /\ can_read fs b.
Proof.
  rewrite is_same_file_meta. unfold same_meta, can_read. rewrite !find_file_meta.
  destruct (find_meta fs a) as [x|]; [|discriminate].
  destruct (find_meta fs b) as [y|]; [|discriminate].
  destruct (negb (meta_size x =? meta_size y)%Z); [discriminate|].
  destruct x as [fa|sa]; [|discriminate]. destruct y as [fb|sb]; [|discriminate].
  destruct (readable fa) eqn:Ha; [|discriminate].
  destruct (readable fb) eqn:Hb; [|discriminate].
  intros _. split; [exists fa | exists fb]; auto.
Qed.

(** One step of the first copying run keeps its invariants. *)
Lemma copy_run_step root ign f todo s o s' :
  ~ In f todo -> tame (name f) ->
  first_run_inv root ign s (f :: todo) ->
  read_or_skipped root ign s (f :: todo) ->
  organize_one root root false false f s = (Ok o, s') ->
  first_run_inv root ign s' todo /\ read_or_skipped root ign s' todo.
Proof.
  intros Hnotin Htame [Hfiles Hquiet] Hread H.
  assert (Hkeep : forall s1, extends s s1 ->
            (forall q, Fs.is_file s1 q = Fs.is_file s q) ->
            (skipped root f = true \/
             (exists k d, search_ends s1 (root ++ [category f]) f k (Same d))) ->
            first_run_inv root ign s1 todo /\ read_or_skipped root ign s1 todo).
  { intros s1 Hext Hsame Hf. split; [split|].
    - intros g Hg. rewrite Hsame. apply Hfiles. now right.
    - intros g Hg He. rewrite Hsame in Hg.
      destruct (Hquiet g Hg He) as [[<-|Hin] | Hq]; auto.
      + right. destruct Hf as [Hsk | Hse]; [now left|].
        right. left. split; [exact Htame | exact Hse].
      + right. eapply quiet_extends; eauto.
    - intros g Hg He. rewrite Hsame in Hg.
      destruct (Hread g Hg He) as [[<-|Hin] | [Hsk | Hr]]; auto.
      + destruct Hf as [Hsk | (k & d & Hse)]; [auto|].
        right. right. destruct Hse as [_ (_ & _ & Hs)].
        now apply same_true_readable in Hs as [_ Hs].
      + right. right. eapply extends_can_read; eauto. }
  apply organize_one_inv in H
    as [(_ & [=] & _) | [(rel & Hrel & Hal & _ & ->) | (rel & Hrel & Hal & H)]].
  - apply Hkeep; [apply extends_refl | reflexivity|].
    left. unfold skipped. now rewrite Hrel.
  - cbv zeta in H.
    destruct H as [(en & _ & [=] & _) | (s1 & Hmk & H)].
    pose proof (safe_mkdir_extends _ _ _ Hmk) as Hext.
    assert (Hsame_files : forall q, Fs.is_file s1 q = Fs.is_file s q)
      by (intros q; eapply safe_mkdir_files; eauto).
    destruct H as [(en & p & _ & [=] & _) | [(k & d & _ & Hs & _ & ->) | H]].
    + apply Hkeep; eauto.
    + destruct H as (k & d & _ & Hs & [(u & Hact & _) | (en & p & _ & [=])]).
      simpl in Hact.
      assert (Hd : d = candidate (root ++ [category f]) f k /\ Fs.path_exists s1 d = false)
        by (destruct Hs as [_ Hend]; exact Hend).
      destruct Hd as [Hd Hdfree].
      assert (Hdnone : Fs.find_node s1 d = None).
      { unfold Fs.path_exists in Hdfree. destruct (Fs.find_node s1 d); congruence. }
      destruct (shutil_copy2_ok_src _ _ _ _ _ Hact) as (fl & Hfl & Hrd). destruct u.
      pose proof (shutil_copy2_free f d s1 s' fl Hfl Hdnone Hact) as Hm.
      assert (Hother : forall g, Fs.path_exists s1 g = true -> find_meta s' g = find_meta s1 g).
      { intros g Hg. rewrite Hm. destruct (path_eqb g d) eqn:E; [|reflexivity].
        apply path_eqb_eq in E. congruence. }
      assert (Hext2 : extends s1 s').
      { intros q m Hq. rewrite Hother; [exact Hq|].
        rewrite path_exists_meta, Hq. reflexivity. }
      assert (Hext' : extends s s') by (eapply extends_trans; eauto).
      assert (Hdmeta : find_meta s' d
                       = Some (inl (mkFile (content fl) (mtime fl) (readable fl) false)))
        by now rewrite Hm, path_eqb_refl.
      assert (Hfmeta : find_meta s' f = Some (inl fl)).
      { rewrite Hother; [now apply find_meta_file|].
        unfold Fs.path_exists. now rewrite Hfl. }
      assert (Hfquiet : search_ends s' (root ++ [category f]) f k (Same d)).
      { destruct Hs as [Hbefore _]. split.
        - intros j Hj. destruct (Hbefore j Hj) as [He Hsm]. split.
          + exact (extends_exists s1 s' _ Hext2 He).
          + apply is_same_file_meta. apply is_same_file_meta in Hsm.
            rewrite (Hother _ He), Hfmeta.
            replace (Some (inl fl)) with (find_meta s1 f); [exact Hsm|].
            now apply find_meta_file.
        - split; [exact Hd|]. split.
          + rewrite path_exists_meta, Hdmeta. reflexivity.
          + apply is_same_file_meta. rewrite Hdmeta, Hfmeta.
            unfold same_meta, meta_size. simpl.
            rewrite Z.eqb_refl, Hrd, String.eqb_refl. reflexivity. }
      assert (Hgcases : forall g, Fs.is_file s' g = true -> g <> d -> Fs.is_file s g = true).
      { intros g Hg Hgd. rewrite <- Hsame_files, is_file_meta.
        rewrite is_file_meta, Hm in Hg. apply path_eqb_neq in Hgd. now rewrite Hgd in Hg. }
      split; [split|].
      * intros g Hg. apply (extends_file s s' g Hext'). apply Hfiles. now right.
      * intros g Hg He.
        destruct (list_eq_dec string_dec g d) as [->|Hgd].
        { right. right. right. split; [|exact Hg]. now apply (candidate_self root f k). }
        destruct (Hquiet g (Hgcases g Hg Hgd) He) as [[<-|Hin] | Hq]; auto.
        -- right. right. left. split; [exact Htame|]. eauto.
        -- right. eapply quiet_extends; eauto.
      * intros g Hg He.
        destruct (list_eq_dec string_dec g d) as [->|Hgd].
        { right. right. eexists. rewrite find_file_meta, Hdmeta. split; [reflexivity | exact Hrd]. }
        destruct (Hread g (Hgcases g Hg Hgd) He) as [[<-|Hin] | [Hsk | Hr]]; auto.
        -- right. right. exists fl. rewrite find_file_meta, Hfmeta. auto.
        -- right. right. eapply extends_can_read; eauto.
Qed.

Lemma copy_run_loop root ign files : forall s acc ops s',
  NoDup files -> (forall g, In g files -> tame (name g)) ->
  first_run_inv root ign s files -> read_or_skipped root ign s files ->
  organize_loop root root false false files acc s = (Ok ops, s') ->
  first_run_inv root ign s' [] /\ read_or_skipped root ign s' [].
Proof.
  induction files as [|f files IH]; intros s acc ops s' Hnd Htame Hinv Hread H.
  - injection H as _ <-. auto.
  - cbn [organize_loop] in H. apply bind_ok_inv in H as (o & s1 & Hone & H).
    inversion Hnd as [|f' l Hnotin Hnd']; subst.
    destruct (copy_run_step root ign f files s o s1 Hnotin
                (Htame f (or_introl eq_refl)) Hinv Hread Hone) as [Hinv1 Hread1].
    eapply IH; [exact Hnd' | | exact Hinv1 | exact Hread1 | exact H].
    intros g Hg. apply Htame. now right.
Qed.

(** The step of a second copying run returns for a quiet file that is
    passed over or can be read. *)
Lemma organize_one_quiet_copy_total root ign g t :
  quiet root t g -> eligible root ign g -> skipped root g = true \/ can_read t g ->
  exists o t', organize_one root root false false g t = (Ok o, t').
Proof.
  intros Hq He Hr. destruct (eligible_relative _ _ _ He) as [rel Hrel].
  destruct (already_organized rel g) eqn:Hal.
  - exists None, t. unfold organize_one. now rewrite Hrel, Hal.
  - assert (Hs : exists k d, search_ends t (root ++ [category g]) g k (Same d)).
    { destruct Hq as [H | [[_ H] | [Hself _]]].
      - unfold skipped in H. rewrite Hrel in H. congruence.
      - exact H.
      - exists 0%nat, g. apply can_read_self_search; [exact Hself|].
        destruct Hr as [Hsk | Hr]; [|exact Hr].
        unfold skipped in Hsk. rewrite Hrel in Hsk. congruence. }
    destruct Hs as (k & d & Hs).
    assert (Hdir : Fs.is_dir t (root ++ [category g]) = true).
    { apply (is_dir_of_child _ _ (candidate_name g 0)).
      apply (search_same_candidates _ _ _ _ _ 0%nat Hs). lia. }
    destruct (safe_mkdir_existing _ _ Hdir) as [t1 Hmk].
    pose proof (search_same_extends _ _ _ _ _ _ (safe_mkdir_extends _ _ _ Hmk) Hs) as Hs1.
    destruct (dest_loop_follows _ _ _ _ _ Hs1
                (S (entry_count t1 (root ++ [category g]))) 0%nat ltac:(lia))
      as [Hloop | Hloop].
    + exists (Some (mkOp SkipSame g d)), t1.
      now rewrite (organize_one_run _ _ _ _ _ _ _ _ _ Hrel Hal Hmk Hloop).
    + now apply dest_loop_terminates in Hloop.
Qed.

Lemma copy_second_run root ign files : forall t acc,
  (forall g, In g files ->
     quiet root t g /\ eligible root ign g /\ (skipped root g = true \/ can_read t g)) ->
  Forall (fun o => op_action o = SkipSame) acc ->
  exists ops t',
    organize_loop root root false false files acc t = (Ok ops, t') /\
    Forall (fun o => op_action o = SkipSame) ops.
Proof.
  induction files as [|f files IH]; intros t acc H Hacc.
  - exists acc, t. split; [reflexivity | exact Hacc].
  - destruct (H f (or_introl eq_refl)) as (Hq & He & Hr).
    destruct (organize_one_quiet_copy_total root ign f t Hq He Hr) as (o & t1 & Hone).
    destruct (organize_one_quiet_copy root f t o t1 Hq Hone) as (Hext & Ho).
    destruct (IH t1 (match o with Some x => acc ++ [x] | None => acc end))
      as (ops & t' & Hloop & Hops).
    + intros g Hg. destruct (H g (or_intror Hg)) as (Hq' & He' & Hr').
      split; [eapply quiet_extends; eauto|]. split; [exact He'|].
      destruct Hr' as [Hsk | Hr']; [now left | right; eapply extends_can_read; eauto].
    + destruct Ho as [-> | [d ->]]; [exact Hacc|].
      apply Forall_app. split; [exact Hacc|]. repeat constructor.
    + exists ops, t'. cbn [organize_loop]. now rewrite (bind_ok _ _ _ _ _ Hone).
Qed.

(** X17. Organizing by copy is idempotent where organizing by move needs
    readable files: with [move=False] and the root as target, in a tree
    where no directory lists a name twice and no scanned file name ends
    with a dot, when a first run completes, a second run completes too and
    every action it lists is a skip; no further copy is made. *)
Theorem organize_copy_twice_only_skips
  (root : path) (target : option path) (ign : list string)
  (fs0 : node) (ops1 : list op) (fs1 : node) :
  target = None \/ target = Some root ->
  well_formed fs0 = true ->
  (forall g, In g (scan_files_in fs0 root true ign) -> tame (name g)) ->
  organize_files root target false false ign fs0 = (Ok ops1, fs1) ->
  exists ops2 fs2,
    organize_files root target false false ign fs1 = (Ok ops2, fs2) /\
    Forall (fun o => op_action o = SkipSame) ops2.
Proof.
  intros Htarget Hwf Htame H1.
  unfold organize_files in *.
  rewrite (bind_ok _ _ _ _ _ (scan_files_run root true ign fs0)) in H1.
  rewrite (bind_ok _ _ _ _ _ (scan_files_run root true ign fs1)).
  assert (Ht : match target with Some t => t | None => root end = root)
    by (destruct Htarget as [-> | ->]; reflexivity).
  rewrite Ht in *.
  assert (Hinv : first_run_inv root ign fs0 (scan_files_in fs0 root true ign)).
  { split.
    - intros g Hg. now apply scan_sound in Hg.
    - intros g Hg He. left. now apply scan_complete. }
  assert (Hread : read_or_skipped root ign fs0 (scan_files_in fs0 root true ign)).
  { intros g Hg He. left. now apply scan_complete. }
  destruct (copy_run_loop root ign _ fs0 [] ops1 fs1
              (scan_files_in_nodup fs0 root ign Hwf) Htame Hinv Hread H1) as [[_ Hq] Hr].
  apply (copy_second_run root ign); [|constructor].
  intros g Hg. apply scan_sound in Hg as [Hfile Hel].
  split; [|split; [exact Hel|]].
  - destruct (Hq g Hfile Hel) as [[] | Hquiet]. exact Hquiet.
  - destruct (Hr g Hfile Hel) as [[] | Hrs]. exact Hrs.
Qed.

Lemma organize_copy_twice_only_skips_witness :
  exists ops2 fs2,
    organize_files FxTwice.root None false false []
      (snd (organize_files FxTwice.root None false false [] FxTwice.fs))
    = (Ok ops2, fs2) /\
    Forall (fun o => op_action o = SkipSame) ops2.
Proof.
  apply (organize_copy_twice_only_skips FxTwice.root None [] FxTwice.fs
           (match fst (organize_files FxTwice.root None false false [] FxTwice.fs) with
            | Ok ops => ops
            | Raise _ => []
            end)).
  - now left.
  - reflexivity.
  - intros g Hg. apply tame_dec. vm_compute in Hg.
    repeat (destruct Hg as [<-|Hg]; [reflexivity|]). destruct Hg.
  - vm_compute. reflexivity.
Defined.

(** ** Where the files go *)

Lemma candidate_placed target f k :
  placed target (mkOp SkipSame f (candidate (target ++ [category f]) f k)) /\
  forall a, placed target (mkOp a f (candidate (target ++ [category f]) f k)).
Proof.
  assert (H : forall a, placed target (mkOp a f (candidate (target ++ [category f]) f k))).
  { intros a. unfold placed, candidate. simpl. rewrite parent_snoc.
    split; [reflexivity|]. intros Htame.
    assert (Hs : PyStr.suffix (name ((target ++ [category f]) ++ [candidate_name f k]))
                 = PyStr.suffix (name f)).
    { rewrite name_snoc. now apply suffix_candidate_name. }
    split; [exact Hs|].
    set (d := (target ++ [category f]) ++ [candidate_name f k]) in *.
    unfold category, ext_of. now rewrite Hs. }
  split; [apply H | exact H].
Qed.

Lemma organize_one_placed root target dry move f fs o fs' :
  organize_one root target dry move f fs = (Ok (Some o), fs') -> placed target o.
Proof.
  intros H.
  apply organize_one_inv in H
    as [(_ & [=] & _) | [(rel & _ & _ & [=] & _) | (rel & Hrel & Hal & H)]].
  cbv zeta in H.
  destruct H as [(en & _ & [=] & _) | (fs1 & Hmk & H)].
  destruct H as [(en & p & _ & [=] & _) | [(k & d & _ & Hs & [= ->] & _) | H]].
  - destruct Hs as [_ [-> _]]. apply candidate_placed.
  - destruct H as (k & d & _ & Hs & [(u & _ & [= ->]) | (en & p & _ & [=])]).
    destruct Hs as [_ [-> _]]. apply candidate_placed.
Qed.

Lemma organize_loop_placed root target dry move files : forall acc fs ops fs',
  organize_loop root target dry move files acc fs = (Ok ops, fs') ->
  Forall (placed target) acc -> Forall (placed target) ops.
Proof.
  induction files as [|f files IH]; intros acc fs ops fs' H Hacc.
  - now injection H as <- _.
  - cbn [organize_loop] in H. apply bind_ok_inv in H as (o & fs1 & Hone & H).
    apply (IH _ _ _ _ H). destruct o as [o|]; [|exact Hacc].
    apply Forall_app. split; [exact Hacc|]. constructor; [|constructor].
    eapply organize_one_placed; eauto.
Qed.

(** X18. Every action of a completed [organize_files], whatever its kind,
    has its destination directly in the folder named after the category of
    its source under the target directory; and unless the name of the
    source ends with a dot, the destination has the suffix of the source,
    hence the same category, numbered or not. *)
Theorem organize_places_by_extension
  (root : path) (target : option path) (dry_run move : bool) (ign : list string)
  (fs : node) (ops : list op) (fs' : node) :
  organize_files root target dry_run move ign fs = (Ok ops, fs') ->
  Forall (placed (match target with Some t => t | None => root end)) ops.
Proof.
  intros H. unfold organize_files in H.
  rewrite (bind_ok _ _ _ _ _ (scan_files_run root true ign fs)) in H.
  apply (organize_loop_placed _ _ _ _ _ _ _ _ _ H). constructor.
Qed.

Lemma organize_places_by_extension_witness :
  Forall (placed FxTwice.root) FxTwice.ops1.
Proof.
  apply (organize_places_by_extension FxTwice.root None false true [] FxTwice.fs
           FxTwice.ops1 FxTwice.fs1).
  vm_compute. reflexivity.
Defined.

(** ** The shape of a digest *)

Section DigestShape.

Lemma round_length st kw : List.length (Sha256.round st kw) = List.length st.
Proof.
  unfold Sha256.round.
  destruct st as [|a [|b [|c [|d [|e [|f [|g [|h [|? ?]]]]]]]]]; reflexivity.
Qed.

Lemma rounds_length kws : forall st,
  List.length (fold_left Sha256.round kws st) = List.length st.
Proof.
  induction kws as [|kw kws IH]; intros st; simpl; [reflexivity|].
  now rewrite IH, round_length.
Qed.

Lemma compress_length hs block : List.length (Sha256.compress hs block) = List.length hs.
Proof.
  unfold Sha256.compress. rewrite length_map, length_combine, rounds_length. lia.
Qed.

Lemma blocks_length fuel : forall ws hs,
  List.length (Sha256.blocks fuel ws hs) = List.length hs.
Proof.
  induction fuel as [|fuel IH]; intros ws hs; simpl.
  - destruct ws; reflexivity.
  - destruct ws; [reflexivity|]. now rewrite IH, compress_length.
Qed.

Lemma hex_digit_is_hex n : (n < 16)%N -> is_hex (Sha256.hex_digit n) = true.
Proof.
  intros H. destruct n as [|p]; [reflexivity|].
  destruct p as [p|p|]; try reflexivity;
    (destruct p as [p|p|]; try reflexivity);
    (destruct p as [p|p|]; try reflexivity);
    (destruct p as [p|p|]; try reflexivity); lia.
Qed.

Lemma hex_word_shape k x :
  String.length (Sha256.hex_word k x) = k /\ all_hex (Sha256.hex_word k x) = true.
Proof.
  induction k as [|k [IHl IHh]]; simpl; [auto|].
  split; [now rewrite IHl|]. rewrite IHh, andb_true_r.
  apply hex_digit_is_hex.
  change (15%N) with (N.ones 4). rewrite N.land_ones. apply N.mod_lt. discriminate.
Qed.

Lemma all_hex_app a b : all_hex (a ++ b) = all_hex a && all_hex b.
Proof.
  induction a as [|c a IH]; simpl; [reflexivity|]. now rewrite IH, andb_assoc.
Qed.

Lemma hex_words_shape ws :
  String.length (fold_right (fun w s => (Sha256.hex_word 8 w ++ s)%string) EmptyString ws)
  = (8 * List.length ws)%nat /\
  all_hex (fold_right (fun w s => (Sha256.hex_word 8 w ++ s)%string) EmptyString ws) = true.
Proof.
  induction ws as [|w ws [IHl IHh]]; [auto|].
  cbn [fold_right List.length].
  destruct (hex_word_shape 8 w) as [Hl Hh].
  rewrite str_length_app, all_hex_app, Hl, Hh, IHl, IHh. split; [lia | reflexivity].
Qed.

Lemma hexdigest_shape msg :
  String.length (Sha256.hexdigest msg) = 64%nat /\ all_hex (Sha256.hexdigest msg) = true.
Proof.
  unfold Sha256.hexdigest.
  destruct (hex_words_shape (Sha256.digest_words msg)) as [Hl Hh].
  split; [|exact Hh].
  etransitivity; [exact Hl|].
  unfold Sha256.digest_words. rewrite blocks_length. reflexivity.
Qed.

End DigestShape.

(** X19. Whenever [compute_hash] returns, its result is a string of 64
    lower-case hexadecimal digits, whatever the file and its size. *)
Theorem compute_hash_returns_64_hex_digits (p : path) (fs : node) (h : string) (fs' : node) :
  compute_hash p fs = (Ok h, fs') ->
  String.length h = 64%nat /\ all_hex h = true.
Proof.
  intros H. destruct (hash_at fs p) as [h0|] eqn:Hh.
  - rewrite (compute_hash_some fs p h0 Hh) in H. injection H as <- _.
    apply hash_at_inv in Hh as (c & _ & _ & <- & _). apply hexdigest_shape.
  - destruct (compute_hash_none fs p Hh) as (en & q & Hr). congruence.
Qed.

Lemma compute_hash_returns_64_hex_digits_witness :
  String.length FxABC.digest_X = 64%nat /\ all_hex FxABC.digest_X = true.
Proof.
  apply (compute_hash_returns_64_hex_digits FxABC.a FxABC.fs FxABC.digest_X FxABC.fs).
  vm_compute. reflexivity.
Defined.

(** ** The report and the command line *)

(** Writing a regular file at a free path or over a regular file changes
    what is found at that path only. *)
Lemma write_over_meta d : forall fs fs' g,
  Fs.find_node fs d = None \/ (exists g0, Fs.find_node fs d = Some (File g0)) ->
  Fs.write_node fs d (File g) = Some fs' ->
  forall q, find_meta fs' q = if path_eqb q d then Some (inl g) else find_meta fs q.
Proof.
  unfold find_meta.
  induction d as [|s d IH]; intros fs fs' g Hd Hw q.
  - simpl in Hw. injection Hw as <-.
    destruct Hd as [Hd | [g0 Hd]]; [discriminate|]. simpl in Hd. injection Hd as ->.
    destruct q as [|t q]; reflexivity.
  - destruct fs as [f0|st es]; [discriminate|].
    simpl in Hd, Hw.
    destruct (Fs.find_entry s es) as [c|] eqn:Hc.
    + destruct (Fs.write_node c d (File g)) as [c'|] eqn:Hw'; [|discriminate].
      injection Hw as <-. destruct q as [|t q]; [reflexivity|].
      destruct (string_dec s t) as [<-|Hne].
      * simpl. rewrite find_entry_put_same, Hc, path_eqb_cons.
        apply (IH c c' g Hd Hw' q).
      * simpl. rewrite find_entry_put_other by exact Hne.
        now rewrite (path_eqb_cons_neq s t q d Hne).
    + destruct d as [|s0 d]; [|discriminate]. injection Hw as <-.
      destruct q as [|t q]; [reflexivity|].
      destruct (string_dec s t) as [<-|Hne].
      * simpl. rewrite find_entry_put_same, Hc, path_eqb_cons.
        destruct q as [|x q]; [now rewrite path_eqb_refl|].
        assert (E : path_eqb (x :: q) [] = false) by (apply path_eqb_neq; discriminate).
        now rewrite E.
      * simpl. rewrite find_entry_put_other by exact Hne.
        now rewrite (path_eqb_cons_neq s t q [] Hne).
Qed.

Lemma same_files_but_refl out fs : same_files_but out fs fs.
Proof. intros p _. reflexivity. Qed.

Section ReportFacts.

Variable now : string.
Variable clock : Z.
Variable json_dumps : report -> string.
Variable csv_rows : list (list string) -> string.
Variable encodable : string -> bool.

(** What [open(p, 'w')] and the writing leave. *)
Lemma write_text_spec p text fs r fs' :
  write_text clock p text fs = (r, fs') ->
  (r = Ok tt /\
   (exists f, Fs.find_file fs' p = Some f /\ content f = list_byte_of_string text) /\
   forall q, q <> p -> find_meta fs' q = find_meta fs q) \/
  ((exists en, r = Raise (OSError en p)) /\ fs' = fs).
Proof.
  unfold write_text, os_error.
  destruct (Fs.find_node fs p) as [[g|st es]|] eqn:Hp.
  - destruct (locked g); [intros [= <- <-]; right; eauto|].
    destruct (Fs.write_node fs p _) as [fs1|] eqn:Hw; [|intros [= <- <-]; right; eauto].
    intros [= <- <-]. left. split; [reflexivity|].
    pose proof (write_over_meta p fs fs1 _ (or_intror (ex_intro _ g Hp)) Hw) as Hm.
    split.
    + eexists. rewrite find_file_meta, Hm, path_eqb_refl. split; reflexivity.
    + intros q Hq. rewrite Hm. apply path_eqb_neq in Hq. now rewrite Hq.
  - intros [= <- <-]. right. eauto.
  - destruct (Fs.write_node fs p _) as [fs1|] eqn:Hw; [|intros [= <- <-]; right; eauto].
    intros [= <- <-]. left. split; [reflexivity|].
    pose proof (write_over_meta p fs fs1 _ (or_introl Hp) Hw) as Hm.
    split.
    + eexists. rewrite find_file_meta, Hm, path_eqb_refl. split; reflexivity.
    + intros q Hq. rewrite Hm. apply path_eqb_neq in Hq. now rewrite Hq.
Qed.

(** The rows written are the rows before the first one that cannot be
    encoded. *)
Lemma written_rows_spec rows w all :
  written_rows encodable rows = (w, all) ->
  Forall (fun r => forallb encodable r = true) w /\
  if all then w = rows
  else exists bad rest, rows = w ++ bad :: rest /\ forallb encodable bad = false.
Proof.
  revert w all. induction rows as [|r rows IH]; intros w all; cbn [written_rows].
  - intros [= <- <-]. split; [constructor | reflexivity].
  - destruct (forallb encodable r) eqn:Er.
    + destruct (written_rows encodable rows) as [w0 all0].
      intros [= <- <-]. destruct (IH w0 all0 eq_refl) as [Hw Hall].
      split; [constructor; auto|].
      destruct all0; [now rewrite Hall|].
      destruct Hall as (bad & rest & Hrows & Hbad).
      exists bad, rest. split; [|exact Hbad]. cbn [app]. now rewrite <- Hrows.
    + intros [= <- <-]. split; [constructor|]. exists r, rows. auto.
Qed.

(** What the writing of the CSV rows leaves: nothing when the file cannot
    be opened, and else the rows that could be written. *)
Lemma write_csv_spec p rows w all fs r fs' :
  written_rows encodable rows = (w, all) ->
  write_csv clock csv_rows encodable p rows fs = (r, fs') ->
  ((exists en, r = Raise (OSError en p)) /\ fs' = fs) \/
  ((exists f, Fs.find_file fs' p = Some f /\
              content f = list_byte_of_string (csv_rows w)) /\
   (forall q, q <> p -> find_meta fs' q = find_meta fs q) /\
   r = if all then Ok tt else Raise ValueError).
Proof.
  intros Ew. unfold write_csv. rewrite Ew. intros H.
  apply bind_inv in H as [(u & fs1 & Hw & Hk) | (e & Hw & ->)].
  - apply write_text_spec in Hw as [(_ & Hfile & Hframe) | ([en [=]] & _)].
    right. destruct all; injection Hk as <- <-; auto.
  - apply write_text_spec in Hw as [([=] & _) | ((en & [= ->]) & ->)].
    left. eauto.
Qed.

(** X20. [generate_report] builds the report from its arguments and, when
    it is given an output path, writes one file: the CSV rows made from
    the timestamp, the actions and the removals when the lower-cased
    suffix of the path is [.csv], the JSON text of the report for every
    other suffix or none. No other regular file changes, and without an
    output path nothing changes. It raises the [OSError] of a file that
    cannot be opened, or, for a CSV report with a row that cannot be
    encoded, [UnicodeEncodeError]: the file then holds the rows before the
    first such row. *)
Theorem generate_report_writes_one_file
  (ops : list op) (duplicates : list (string * list path)) (removed : list removal)
  (out_file : option path) (fs : node) (r : result report) (fs' : node) :
  generate_report now clock json_dumps csv_rows encodable ops duplicates removed out_file fs
  = (r, fs') ->
  same_files_but out_file fs fs' /\
  (out_file = None ->
   fs' = fs /\
   r = Ok (mkReport (now ++ "Z") ops
             (map (fun d => (fst d, map path_str (snd d))) duplicates) removed)) /\
  (forall rep, r = Ok rep ->
     rep = mkReport (now ++ "Z") ops
             (map (fun d => (fst d, map path_str (snd d))) duplicates) removed /\
     forall out, out_file = Some out ->
       exists f,
         Fs.find_file fs' out = Some f /\
         content f =
         list_byte_of_string
           (if String.eqb (PyStr.lower (PyStr.suffix (name out))) ".csv"
            then csv_rows (csv_table (now ++ "Z") ops removed)
            else json_dumps rep)) /\
  (forall e, r = Raise e ->
     exists out, out_file = Some out /\
       ((exists en, e = OSError en out) \/
        e = ValueError /\
        PyStr.lower (PyStr.suffix (name out)) = ".csv"%string /\
        exists w bad rest f,
          csv_table (now ++ "Z") ops removed = w ++ bad :: rest /\
          Forall (fun row => forallb encodable row = true) w /\
          forallb encodable bad = false /\
          Fs.find_file fs' out = Some f /\
          content f = list_byte_of_string (csv_rows w))).
Proof.
  unfold generate_report. cbn [rp_timestamp]. intros H.
  set (rep0 := mkReport (now ++ "Z") ops
                 (map (fun d => (fst d, map path_str (snd d))) duplicates) removed) in *.
  set (rows := csv_table (now ++ "Z") ops removed) in *.
  destruct out_file as [out|].
  2: { unfold bind, ret in H. injection H as <- <-.
       split; [apply same_files_but_refl|]. split; [auto|]. split.
       - intros rep [= <-]. split; [reflexivity | discriminate].
       - discriminate. }
  assert (Hcases :
    (String.eqb (PyStr.lower (PyStr.suffix (name out))) ".csv" = false /\
     bind (write_text clock out (json_dumps rep0)) (fun _ => ret rep0) fs = (r, fs')) \/
    (PyStr.lower (PyStr.suffix (name out)) = ".csv"%string /\
     bind (write_csv clock csv_rows encodable out rows) (fun _ => ret rep0) fs = (r, fs'))).
  { destruct (String.eqb (PyStr.lower (PyStr.suffix (name out))) ".json") eqn:Ej.
    - left. apply String.eqb_eq in Ej. split; [now rewrite Ej | exact H].
    - destruct (String.eqb (PyStr.lower (PyStr.suffix (name out))) ".csv") eqn:Ec.
      + right. apply String.eqb_eq in Ec. auto.
      + left. auto. }
  clear H. destruct Hcases as [[Hs Hrun] | [Hs Hrun]].
  - apply bind_inv in Hrun as [([] & fs1 & Hwrite & Hret) | (e & Hwrite & ->)].
    + injection Hret as <- <-.
      apply write_text_spec in Hwrite as [(_ & (f & Hf & Hc) & Hframe) | ([en [=]] & _)].
      split; [|split; [discriminate|split]].
      * intros q Hq. rewrite !find_file_meta, Hframe; [reflexivity | congruence].
      * intros rep [= <-]. split; [reflexivity|].
        intros out' [= <-]. exists f. rewrite Hs. auto.
      * discriminate.
    + apply write_text_spec in Hwrite as [([=] & _) | ((en & [= ->]) & ->)].
      split; [apply same_files_but_refl|]. split; [discriminate|]. split; [discriminate|].
      intros e [= <-]. exists out. split; [reflexivity|]. left. eauto.
  - destruct (written_rows encodable rows) as [w all] eqn:Ew.
    destruct (written_rows_spec rows w all Ew) as [Hok Hall].
    apply bind_inv in Hrun as [([] & fs1 & Hwrite & Hret) | (e & Hwrite & ->)].
    + injection Hret as <- <-.
      destruct (write_csv_spec out rows w all fs _ _ Ew Hwrite)
        as [([en [=]] & _) | ((f & Hf & Hc) & Hframe & Hr)].
      destruct all; [|discriminate]. subst w.
      split; [|split; [discriminate|split]].
      * intros q Hq. rewrite !find_file_meta, Hframe; [reflexivity | congruence].
      * intros rep [= <-]. split; [reflexivity|].
        intros out' [= <-]. exists f. rewrite Hs. auto.
      * discriminate.
    + destruct (write_csv_spec out rows w all fs _ _ Ew Hwrite)
        as [((en & [= ->]) & ->) | ((f & Hf & Hc) & Hframe & Hr)].
      * split; [apply same_files_but_refl|]. split; [discriminate|]. split; [discriminate|].
        intros e [= <-]. exists out. split; [reflexivity|]. left. eauto.
      * destruct all; [discriminate|]. injection Hr as ->.
        destruct Hall as (bad & rest & Hrows & Hbad).
        split; [|split; [discriminate|split; [discriminate|]]].
        -- intros q Hq. rewrite !find_file_meta, Hframe; [reflexivity | congruence].
        -- intros e [= <-]. exists out. split; [reflexivity|]. right.
           split; [reflexivity|]. split; [exact Hs|].
           exists w, bad, rest, f. auto.
Qed.

End ReportFacts.

Lemma wbind_inv {A B} (m : W A) (k : A -> W B) w r w' :
  wbind m k w = (r, w') ->
  (exists a w1, m w = (Ok a, w1) /\ k a w1 = (r, w')) \/
  (exists e, m w = (Raise e, w') /\ r = Raise e).
Proof.
  unfold wbind. destruct (m w) as [[a|e] w1].
  - intros H. left. eauto.
  - intros [= <- <-]. right. eauto.
Qed.

Section RelFacts.

Variable R : node -> node -> Prop.
Hypothesis R_refl : forall fs, R fs fs.
Hypothesis R_trans : forall a b c, R a b -> R b c -> R a c.

Lemma run_rel_wret {A} (a : A) : run_rel R (wret a).
Proof. intros w r w' [= _ <-]. apply R_refl. Qed.

Lemma run_rel_print s : run_rel R (print s).
Proof. intros w r w' [= _ <-]. apply R_refl. Qed.

Lemma run_rel_lift {A} (m : M A) : m_rel R m -> run_rel R (lift m).
Proof.
  intros Hm w r w'. unfold lift. destruct (m (fst w)) as [r0 fs1] eqn:E.
  intros [= _ <-]. simpl. eapply Hm; eauto.
Qed.

Lemma run_rel_wbind {A B} (m : W A) (k : A -> W B) :
  run_rel R m -> (forall a, run_rel R (k a)) -> run_rel R (wbind m k).
Proof.
  intros Hm Hk w r w' H.
  apply wbind_inv in H as [(a & w1 & H1 & H2) | (e & H1 & _)].
  - eapply R_trans; [eapply Hm | eapply Hk]; eauto.
  - eapply Hm; eauto.
Qed.

Lemma run_rel_print_paths plist : run_rel R (print_paths plist).
Proof.
  induction plist as [|p plist IH]; simpl; [apply run_rel_wret|].
  apply run_rel_wbind; [apply run_rel_print | intros _; exact IH].
Qed.

Lemma run_rel_print_groups dups : run_rel R (print_groups dups).
Proof.
  induction dups as [|[h plist] dups IH]; simpl; [apply run_rel_wret|].
  apply run_rel_wbind; [apply run_rel_print | intros _].
  apply run_rel_wbind; [apply run_rel_print_paths | intros _; exact IH].
Qed.

Lemma m_rel_read_only {A} (m : M A) : read_only m -> m_rel R m.
Proof. intros Hm fs r fs' H. rewrite (Hm _ _ _ H). apply R_refl. Qed.

Lemma read_only_find_duplicates root ign : read_only (find_duplicates root ign).
Proof.
  intros fs r fs' H. unfold find_duplicates in H.
  rewrite (bind_ok _ _ _ _ _ (scan_files_run root true ign fs)) in H.
  destruct (find_duplicates_of_spec (scan_files_in fs root true ign) fs) as (d & Hd & _).
  rewrite Hd in H. now injection H as _ <-.
Qed.

(** [main] keeps a relation on the file system that its three effective
    steps keep. *)
Lemma main_rel now clock json_dumps csv_rows encodable (a : args) :
  (a_organize a = true ->
   m_rel R (organize_files (a_root a) (Some (a_root a)) (a_dry_run a) (a_move a)
              (a_ignore a))) ->
  (a_remove_duplicates a = true ->
   forall d, m_rel R (remove_duplicates d (a_keep a) (a_dry_run a))) ->
  (forall ops d rm,
     m_rel R (generate_report now clock json_dumps csv_rows encodable ops d rm
                (a_report a))) ->
  run_rel R (main now clock json_dumps csv_rows encodable a).
Proof.
  intros Horg Hrm Hrep. unfold main.
  apply run_rel_wbind; [apply run_rel_lift, m_rel_read_only, read_only_gets | intros e].
  destruct (negb e).
  { apply run_rel_wbind; [apply run_rel_print | intros _; apply run_rel_wret]. }
  apply run_rel_wbind.
  { destruct (a_organize a); [|apply run_rel_wret].
    apply run_rel_wbind; [apply run_rel_print | intros _].
    apply run_rel_wbind; [apply run_rel_lift; now apply Horg | intros ops].
    apply run_rel_wbind; [apply run_rel_print | intros _; apply run_rel_wret]. }
  intros ops. apply run_rel_wbind.
  { destruct (a_duplicates a); [|apply run_rel_wret].
    apply run_rel_wbind; [apply run_rel_print | intros _].
    apply run_rel_wbind;
      [apply run_rel_lift, m_rel_read_only, read_only_find_duplicates | intros d].
    apply run_rel_wbind; [apply run_rel_print | intros _].
    apply run_rel_wbind; [apply run_rel_print_groups | intros _; apply run_rel_wret]. }
  intros d. apply run_rel_wbind.
  { destruct (a_remove_duplicates a); [|apply run_rel_wret].
    apply run_rel_wbind.
    - destruct d; [apply run_rel_lift, m_rel_read_only, read_only_find_duplicates
                  | apply run_rel_wret].
    - intros d'. apply run_rel_wbind; [apply run_rel_print | intros _].
      apply run_rel_wbind; [apply run_rel_lift; now apply Hrm | intros rm].
      apply run_rel_wbind; [apply run_rel_print | intros _; apply run_rel_wret]. }
  intros dr. destruct (a_report a) as [out|] eqn:Hout.
  - apply run_rel_wbind; [apply run_rel_lift; apply Hrep | intros rep].
    apply run_rel_wbind; [apply run_rel_print | intros _; apply run_rel_wret].
  - apply run_rel_wbind; [apply run_rel_lift; apply Hrep | intros rep].
    apply run_rel_wbind; [apply run_rel_print | intros _; apply run_rel_wret].
Qed.

End RelFacts.

Lemma same_files_but_trans out a b c :
  same_files_but out a b -> same_files_but out b c -> same_files_but out a c.
Proof. intros Hab Hbc p Hp. now rewrite Hbc, Hab. Qed.

Lemma keeps_files_but_refl out fs : keeps_files_but out fs fs.
Proof. intros p fl _ H. exact H. Qed.

Lemma keeps_files_but_trans out a b c :
  keeps_files_but out a b -> keeps_files_but out b c -> keeps_files_but out a c.
Proof. intros Hab Hbc p fl Hp H. apply (Hbc p fl Hp). now apply Hab. Qed.

Lemma same_keeps out fs fs' : same_files_but out fs fs' -> keeps_files_but out fs fs'.
Proof. intros H p fl Hp Hfl. now rewrite H. Qed.

Lemma generate_report_frame now clock json_dumps csv_rows encodable ops d rm out :
  m_rel (same_files_but out)
    (generate_report now clock json_dumps csv_rows encodable ops d rm out).
Proof.
  intros fs r fs' H p Hp. unfold generate_report in H.
  assert (Hw : forall (m : M unit) u0 fs0,
            m = (match out with
                 | Some o =>
                     if String.eqb (PyStr.lower (PyStr.suffix (name o))) ".json"
                     then write_text clock o (json_dumps
                            (mkReport (now ++ "Z") ops
                               (map (fun d => (fst d, map path_str (snd d))) d) rm))
                     else if String.eqb (PyStr.lower (PyStr.suffix (name o))) ".csv"
                     then write_csv clock csv_rows encodable o
                            (csv_table (now ++ "Z") ops rm)
                     else write_text clock o (json_dumps
                            (mkReport (now ++ "Z") ops
                               (map (fun d => (fst d, map path_str (snd d))) d) rm))
                 | None => ret tt
                 end) ->
            m fs = (u0, fs0) -> Fs.find_file fs0 p = Fs.find_file fs p).
  { intros m u0 fs0 -> Hm. destruct out as [o|]; [|now injection Hm as _ <-].
    assert (Hpo : p <> o) by congruence.
    destruct (String.eqb _ ".json"); [|destruct (String.eqb _ ".csv")].
    - apply write_text_spec in Hm as [(_ & _ & Hf) | (_ & ->)];
        [now rewrite !find_file_meta, Hf | reflexivity].
    - destruct (written_rows encodable (csv_table (now ++ "Z") ops rm)) as [w all] eqn:Ew.
      destruct (write_csv_spec clock csv_rows encodable o _ w all fs _ _ Ew Hm)
        as [(_ & ->) | (_ & Hf & _)];
        [reflexivity | now rewrite !find_file_meta, Hf].
    - apply write_text_spec in Hm as [(_ & _ & Hf) | (_ & ->)];
        [now rewrite !find_file_meta, Hf | reflexivity]. }
  cbn [rp_timestamp] in H.
  apply bind_inv in H as [(u & fs1 & Hm & Hret) | (e & Hm & _)].
  - injection Hret as _ <-. exact (Hw _ _ _ eq_refl Hm).
  - exact (Hw _ _ _ eq_refl Hm).
Qed.

(** X21. The dry run of the command line: with [--dry-run], whatever the
    other options and however the run ends, [main] leaves every regular
    file as it was, but for the report file when [--report] names one. *)
Theorem main_dry_run_spares_the_files
  (now : string) (clock : Z) (json_dumps : report -> string)
  (csv_rows : list (list string) -> string) (encodable : string -> bool) (a : args)
  (fs : node) (out : list string) (r : result nat) (fs' : node) (out' : list string) :
  a_dry_run a = true ->
  main now clock json_dumps csv_rows encodable a (fs, out) = (r, (fs', out')) ->
  same_files_but (a_report a) fs fs'.
Proof.
  intros Hdry H.
  apply (main_rel (same_files_but (a_report a)) (same_files_but_refl _)
           (same_files_but_trans _) now clock json_dumps csv_rows encodable a) in H;
    [exact H | | |].
  - intros _ fs0 r0 fs1 H0 p _. rewrite Hdry in H0. unfold organize_files in H0.
    rewrite (bind_ok _ _ _ _ _ (scan_files_run _ true _ fs0)) in H0.
    eapply organize_loop_dry_files; eauto.
  - intros _ d fs0 r0 fs1 H0 p _. rewrite Hdry in H0.
    now rewrite (read_only_remove_groups_dry _ _ _ _ _ _ H0).
  - intros ops d rm. apply generate_report_frame.
Qed.

(** X22. On the command line [--organize] copies unless [--move] is given:
    without [--move] and without [--remove-duplicates], however the run
    ends, every regular file that was in the tree is still at its place,
    unchanged, but for a file that the report overwrites. *)
Theorem main_organize_copies_by_default
  (now : string) (clock : Z) (json_dumps : report -> string)
  (csv_rows : list (list string) -> string) (encodable : string -> bool) (a : args)
  (fs : node) (out : list string) (r : result nat) (fs' : node) (out' : list string) :
  a_move a = false -> a_remove_duplicates a = false ->
  main now clock json_dumps csv_rows encodable a (fs, out) = (r, (fs', out')) ->
  keeps_files_but (a_report a) fs fs'.
Proof.
  intros Hmove Hrm H.
  apply (main_rel (keeps_files_but (a_report a)) (keeps_files_but_refl _)
           (keeps_files_but_trans _) now clock json_dumps csv_rows encodable a) in H;
    [exact H | | |].
  - intros _ fs0 r0 fs1 H0 p fl _ Hfl. rewrite Hmove in H0. unfold organize_files in H0.
    rewrite (bind_ok _ _ _ _ _ (scan_files_run _ true _ fs0)) in H0.
    apply (organize_loop_copy _ _ _ fs0) in H0 as [He _].
    exact (extends_find_file _ _ _ _ He Hfl).
  - rewrite Hrm. discriminate.
  - intros ops d rm fs0 r0 fs1 H0. apply same_keeps.
    exact (generate_report_frame _ _ _ _ _ _ _ _ _ _ _ _ H0).
Qed.

Lemma generate_report_writes_one_file_witness :
  exists w bad rest f,
    csv_table (FxMain.now ++ "Z") [FxABC.move_a; FxMain.move_odd] [] = w ++ bad :: rest /\
    Forall (fun row => forallb FxMain.utf8_ok row = true) w /\
    forallb FxMain.utf8_ok bad = false /\
    Fs.find_file
      (snd (generate_report FxMain.now FxMain.clock FxMain.json_text FxMain.csv_text
              FxMain.utf8_ok [FxABC.move_a; FxMain.move_odd] [] []
              (Some ["root"; "report.csv"]%string) FxABC.fs))
      ["root"; "report.csv"]%string = Some f /\
    content f = list_byte_of_string (FxMain.csv_text w).
Proof.
  destruct (generate_report_writes_one_file FxMain.now FxMain.clock FxMain.json_text
              FxMain.csv_text FxMain.utf8_ok [FxABC.move_a; FxMain.move_odd] [] []
              (Some ["root"; "report.csv"]%string)
              FxABC.fs _ _ (surjective_pairing _)) as (_ & _ & _ & Hraise).
  destruct (Hraise ValueError) as (out & Hout & [[en [=]] | (_ & _ & H)]).
  - vm_compute. reflexivity.
  - injection Hout as <-. exact H.
Defined.

Lemma main_dry_run_spares_the_files_witness :
  same_files_but None FxABC.fs
    (fst (snd (main FxMain.now FxMain.clock FxMain.json_text FxMain.csv_text
                 FxMain.utf8_ok FxMain.dry (FxABC.fs, [])))).
Proof.
  apply (main_dry_run_spares_the_files FxMain.now FxMain.clock FxMain.json_text
           FxMain.csv_text FxMain.utf8_ok FxMain.dry FxABC.fs []
           (fst (main FxMain.now FxMain.clock FxMain.json_text FxMain.csv_text
                   FxMain.utf8_ok FxMain.dry (FxABC.fs, [])))
           _
           (snd (snd (main FxMain.now FxMain.clock FxMain.json_text FxMain.csv_text
                        FxMain.utf8_ok FxMain.dry (FxABC.fs, []))))).
  - reflexivity.
  - vm_compute. reflexivity.
Defined.

Lemma main_organize_copies_by_default_witness :
  keeps_files_but (Some ["root"; "report.csv"]%string) FxABC.fs
    (fst (snd (main FxMain.now FxMain.clock FxMain.json_text FxMain.csv_text
                 FxMain.utf8_ok FxMain.organize_only (FxABC.fs, [])))).
Proof.
  apply (main_organize_copies_by_default FxMain.now FxMain.clock FxMain.json_text
           FxMain.csv_text FxMain.utf8_ok FxMain.organize_only FxABC.fs []
           (fst (main FxMain.now FxMain.clock FxMain.json_text FxMain.csv_text
                   FxMain.utf8_ok FxMain.organize_only (FxABC.fs, [])))
           _
           (snd (snd (main FxMain.now FxMain.clock FxMain.json_text FxMain.csv_text
                        FxMain.utf8_ok FxMain.organize_only (FxABC.fs, []))))).
  - reflexivity.
  - reflexivity.
  - vm_compute. reflexivity.
Defined.

(** ** How [main] ends *)

Lemma sat_wret {A} E (Q : A -> Prop) a : Q a -> sat E Q (wret a).
Proof. intros Ha w r w' [= <- _]. exact Ha. Qed.

Lemma sat_print E (Q : unit -> Prop) s : Q tt -> sat E Q (print s).
Proof. intros Ha w r w' [= <- _]. exact Ha. Qed.

Lemma sat_wbind {A B} E (P : A -> Prop) (Q : B -> Prop) (m : W A) (k : A -> W B) :
  sat E P m -> (forall a, P a -> sat E Q (k a)) -> sat E Q (wbind m k).
Proof.
  intros Hm Hk w r w' H.
  apply wbind_inv in H as [(a & w1 & H1 & H2) | (e & H1 & ->)].
  - apply Hm in H1. exact (Hk a H1 _ _ _ H2).
  - now apply Hm in H1.
Qed.

Lemma sat_lift {A} E (Q : A -> Prop) (m : M A) :
  (forall fs r fs', m fs = (r, fs') ->
     match r with Ok a => Q a | Raise e => E e end) ->
  sat E Q (lift m).
Proof.
  intros Hm w r w'. unfold lift. destruct (m (fst w)) as [r0 fs1] eqn:E0.
  intros [= <- _]. eapply Hm; eauto.
Qed.

Lemma sat_print_paths E plist : sat E (fun _ => True) (print_paths plist).
Proof.
  induction plist as [|p plist IH]; simpl; [now apply sat_wret|].
  apply (sat_wbind E (fun _ => True)); [now apply sat_print | intros _ _; exact IH].
Qed.

Lemma sat_print_groups E dups : sat E (fun _ => True) (print_groups dups).
Proof.
  induction dups as [|[h plist] dups IH]; simpl; [now apply sat_wret|].
  apply (sat_wbind E (fun _ => True)); [now apply sat_print | intros _ _].
  apply (sat_wbind E (fun _ => True)); [apply sat_print_paths | intros _ _; exact IH].
Qed.

(** [organize_files] raises nothing but [OSError]. *)
Lemma organize_loop_raises root target dry move files : forall acc fs e fs',
  (forall f, In f files -> exists rel, relative_to f root = Some rel) ->
  organize_loop root target dry move files acc fs = (Raise e, fs') -> os_failure e.
Proof.
  induction files as [|f files IH]; intros acc fs e fs' Hrel H; [discriminate|].
  cbn [organize_loop] in H.
  apply bind_inv in H as [(o & fs1 & Hone & H) | (e0 & Hone & [= <-])].
  - eapply IH; [|exact H]. intros g Hg. apply Hrel. now right.
  - destruct (Hrel f (or_introl eq_refl)) as [rel Hf].
    apply organize_one_inv in Hone
      as [(Hnone & _) | [(rel' & _ & _ & [=] & _) | (rel' & _ & _ & Hone)]];
      [congruence|].
    cbv zeta in Hone.
    destruct Hone as [(en & _ & [= ->] & _) | (fs2 & _ & Hone)]; [red; eauto|].
    destruct Hone as [(en & p & _ & [= ->] & _) | [(k & d & _ & _ & [=] & _) | Hone]];
      [red; eauto|].
    destruct Hone as (k & d & _ & _ & [(u & _ & [=]) | (en & p & _ & [= ->])]).
    red; eauto.
Qed.

Lemma organize_files_raises root target dry move ign fs e fs' :
  organize_files root target dry move ign fs = (Raise e, fs') -> os_failure e.
Proof.
  unfold organize_files. intros H.
  rewrite (bind_ok _ _ _ _ _ (scan_files_run root true ign fs)) in H.
  eapply organize_loop_raises; [|exact H].
  intros f Hf. apply scan_sound in Hf as [_ He]. exact (eligible_relative _ _ _ He).
Qed.

Lemma mtime_keys_raises l : forall fs e fs',
  mtime_keys l fs = (Raise e, fs') -> os_failure e.
Proof.
  induction l as [|p l IH]; intros fs e fs' H; [discriminate|].
  cbn [mtime_keys] in H.
  apply bind_inv in H as [(k & fs1 & _ & H) | (e0 & Hst & [= <-])].
  - apply bind_inv in H as [(ks & fs2 & _ & [=]) | (e0 & Hks & [= <-])].
    eapply IH; eauto.
  - unfold os_stat, os_error in Hst.
    destruct (Fs.find_node fs p); [discriminate|]. injection Hst as <- _. red; eauto.
Qed.

(** On groups none of which is empty, [remove_duplicates] raises nothing
    but [OSError]. *)
Lemma remove_groups_raises keep dry dups : forall acc fs e fs',
  Forall (fun g => snd g <> []) dups ->
  remove_groups dups keep dry acc fs = (Raise e, fs') -> os_failure e.
Proof.
  induction dups as [|[h plist] dups IH]; intros acc fs e fs' Hne H; [discriminate|].
  inversion Hne as [|? ? Hp Hrest]; subst. cbn [snd] in Hp.
  cbn [remove_groups] in H.
  apply bind_inv in H as [(sl & fs1 & Hsort & H) | (e0 & Hsort & [= <-])].
  - destruct (sorted_by_mtime_ok _ _ _ _ Hsort) as (-> & Hperm & _).
    assert (Hsl : sl <> []).
    { intros ->. apply Permutation_nil in Hperm. congruence. }
    destruct (select_total keep sl fs Hsl) as [kt Hsel].
    rewrite (bind_ok _ _ _ _ _ Hsel) in H.
    destruct (remove_loop_spec h (fst kt) dry (snd kt) acc fs)
      as (rs & fs3 & Hloop & _).
    rewrite (bind_ok _ _ _ _ _ Hloop) in H.
    eapply IH; eauto.
  - unfold sorted_by_mtime in Hsort.
    apply bind_inv in Hsort as [(ks & fs1 & _ & [=]) | (e1 & Hks & [= <-])].
    eapply mtime_keys_raises; eauto.
Qed.

Lemma find_duplicates_groups root ign fs :
  exists d, find_duplicates root ign fs = (Ok d, fs) /\ Forall (fun g => snd g <> []) d.
Proof.
  unfold find_duplicates.
  rewrite (bind_ok _ _ _ _ _ (scan_files_run root true ign fs)).
  destruct (find_duplicates_of_spec (scan_files_in fs root true ign) fs) as (d & Hd & Hspec).
  exists d. split; [exact Hd|]. apply Forall_forall. intros [h plist] Hin.
  apply Hspec in Hin as (s & _ & Hlen). cbn [snd].
  intros ->. simpl in Hlen. lia.
Qed.

(** X23. [main] ends in one of four ways. When the root does not exist it
    prints one line and exits with status 1, leaving the tree as it is.
    When the root exists it returns (status 0), or is left by an
    [OSError], or is left by the [UnicodeEncodeError] of a CSV report; no
    other exception escapes: the scanned files are all below the root,
    and the groups that reach [remove_duplicates] are never empty. *)
Theorem main_ends_in_four_ways
  (now : string) (clock : Z) (json_dumps : report -> string)
  (csv_rows : list (list string) -> string) (encodable : string -> bool) (a : args)
  (fs : node) (out : list string) (r : result nat) (fs' : node) (out' : list string) :
  main now clock json_dumps csv_rows encodable a (fs, out) = (r, (fs', out')) ->
  (Fs.path_exists fs (a_root a) = false ->
   r = Ok 1%nat /\ fs' = fs /\
   out' = out ++ [("Error: root path does not exist: " ++ path_str (a_root a))%string]) /\
  (Fs.path_exists fs (a_root a) = true ->
   r = Ok 0%nat \/
   (exists en p, r = Raise (OSError en p)) \/
   (r = Raise ValueError /\
    exists o, a_report a = Some o /\
              PyStr.lower (PyStr.suffix (name o)) = ".csv"%string)).
Proof.
  unfold main. intros H.
  apply wbind_inv in H as [(e & w1 & Hg & H) | (e & Hg & _)]; [|discriminate].
  unfold lift, gets in Hg. cbn [fst snd] in Hg. injection Hg as <- <-.
  destruct (Fs.path_exists fs (a_root a)) eqn:He; cbn [negb] in H.
  - split; [discriminate|]. intros _.
    set (E := fun e : exn =>
                os_failure e \/
                (e = ValueError /\
                 exists o, a_report a = Some o /\
                           PyStr.lower (PyStr.suffix (name o)) = ".csv"%string)).
    assert (Hsat : match r with Ok n => n = 0%nat | Raise e => E e end).
    { revert H. generalize (fs, out) (fs', out'). intros w w'. revert w r w'.
      change (sat E (fun n => n = 0%nat)
        (wbind
           (if a_organize a
            then wbind (print ((if a_dry_run a then "DRY RUN: " else "")
                               ++ "Organizing files under: " ++ path_str (a_root a)))
                   (fun _ => wbind
                      (lift (organize_files (a_root a) (Some (a_root a)) (a_dry_run a)
                               (a_move a) (a_ignore a)))
                      (fun ops => wbind
                         (print ("Organize operations: " ++ PyStr.dec (List.length ops)))
                         (fun _ => wret ops)))
            else wret [])
           (fun ops => wbind
              (if a_duplicates a
               then wbind (print "Scanning for duplicates...")
                      (fun _ => wbind (lift (find_duplicates (a_root a) (a_ignore a)))
                         (fun duplicates => wbind
                            (print ("Duplicate groups found: "
                                    ++ PyStr.dec (List.length duplicates)))
                            (fun _ => wbind (print_groups duplicates)
                               (fun _ => wret duplicates))))
               else wret [])
              (fun duplicates => wbind
                 (if a_remove_duplicates a
                  then wbind
                         (match duplicates with
                          | [] => lift (find_duplicates (a_root a) (a_ignore a))
                          | _ :: _ => wret duplicates
                          end)
                         (fun duplicates' => wbind
                            (print ((if a_dry_run a then "DRY RUN: " else "")
                                    ++ "Removing duplicates (keep=" ++ a_keep a ++ ")..."))
                            (fun _ => wbind
                               (lift (remove_duplicates duplicates' (a_keep a) (a_dry_run a)))
                               (fun removed => wbind
                                  (print ("Files removed: "
                                          ++ PyStr.dec (List.length removed)))
                                  (fun _ => wret (duplicates', removed)))))
                  else wret (duplicates, []))
                 (fun dr =>
                    match a_report a with
                    | Some o =>
                        wbind (lift (generate_report now clock json_dumps csv_rows
                                       encodable ops (fst dr) (snd dr) (Some o)))
                          (fun _ => wbind (print ("Report written to: " ++ path_str o))
                                      (fun _ => wret 0%nat))
                    | None =>
                        wbind (lift (generate_report now clock json_dumps csv_rows
                                       encodable ops (fst dr) (snd dr) None))
                          (fun report => wbind (print (json_dumps report))
                                           (fun _ => wret 0%nat))
                    end))))).
      apply (sat_wbind E (fun _ => True)).
      { destruct (a_organize a); [|now apply sat_wret].
        apply (sat_wbind E (fun _ => True)); [now apply sat_print | intros _ _].
        apply (sat_wbind E (fun _ => True)).
        - apply sat_lift. intros fs0 r0 fs1 Hr. destruct r0; [exact I|].
          left. eapply organize_files_raises; eauto.
        - intros ops _. apply (sat_wbind E (fun _ => True)); [now apply sat_print|].
          intros _ _. now apply sat_wret. }
      intros ops _.
      apply (sat_wbind E (fun d => Forall (fun g => snd g <> []) d)).
      { destruct (a_duplicates a); [|apply sat_wret; constructor].
        apply (sat_wbind E (fun _ => True)); [now apply sat_print | intros _ _].
        apply (sat_wbind E (fun d => Forall (fun g => snd g <> []) d)).
        - apply sat_lift. intros fs0 r0 fs1 Hr.
          destruct (find_duplicates_groups (a_root a) (a_ignore a) fs0) as (d & Hd & Hne).
          rewrite Hd in Hr. now injection Hr as <- _.
        - intros d Hd. apply (sat_wbind E (fun _ => True)); [now apply sat_print|].
          intros _ _. apply (sat_wbind E (fun _ => True)); [apply sat_print_groups|].
          intros _ _. now apply sat_wret. }
      intros d Hd.
      apply (sat_wbind E (fun _ => True)).
      { destruct (a_remove_duplicates a); [|now apply sat_wret].
        apply (sat_wbind E (fun d => Forall (fun g => snd g <> []) d)).
        - destruct d; [|now apply sat_wret].
          apply sat_lift. intros fs0 r0 fs1 Hr.
          destruct (find_duplicates_groups (a_root a) (a_ignore a) fs0) as (d & Hd' & Hne).
          rewrite Hd' in Hr. now injection Hr as <- _.
        - intros d' Hd'. apply (sat_wbind E (fun _ => True)); [now apply sat_print|].
          intros _ _. apply (sat_wbind E (fun _ => True)).
          + apply sat_lift. intros fs0 r0 fs1 Hr. destruct r0; [exact I|].
            left. eapply remove_groups_raises; eauto.
          + intros rm _. apply (sat_wbind E (fun _ => True)); [now apply sat_print|].
            intros _ _. now apply sat_wret. }
      intros dr _.
      assert (Hrep : forall fs0 r0 fs1,
                generate_report now clock json_dumps csv_rows encodable ops (fst dr) (snd dr)
                  (a_report a) fs0 = (r0, fs1) ->
                match r0 with Ok _ => True | Raise e => E e end).
      { intros fs0 r0 fs1 Hr. destruct r0 as [rep|e]; [exact I|].
        destruct (generate_report_writes_one_file _ _ _ _ _ _ _ _ _ _ _ _ Hr)
          as (_ & _ & _ & Hraise).
        destruct (Hraise e eq_refl) as (o & Ho & [[en ->] | (-> & Hs & _)]).
        - left. red. eauto.
        - right. split; [reflexivity|]. eauto. }
      destruct (a_report a) as [o|].
      - apply (sat_wbind E (fun _ => True)).
        + apply sat_lift. exact Hrep.
        + intros _ _. apply (sat_wbind E (fun _ => True)); [now apply sat_print|].
          intros _ _. now apply sat_wret.
      - apply (sat_wbind E (fun _ => True)).
        + apply sat_lift. exact Hrep.
        + intros rep _. apply (sat_wbind E (fun _ => True)); [now apply sat_print|].
          intros _ _. now apply sat_wret. }
    destruct r as [n|e]; [left; now subst n | right].
    destruct Hsat as [(en & p & ->) | [-> Hcsv]]; [left; eauto | right; auto].
  - split; [|discriminate]. intros _.
    unfold wbind, print, wret in H. cbn [fst snd] in H.
    injection H as <- <- <-. auto.
Qed.

Lemma main_ends_in_four_ways_witness :
  fst (main FxMain.now FxMain.clock FxMain.json_text FxMain.csv_text FxMain.utf8_ok
         FxMain.nowhere (FxABC.fs, [])) = Ok 1%nat /\
  fst (snd (main FxMain.now FxMain.clock FxMain.json_text FxMain.csv_text FxMain.utf8_ok
              FxMain.nowhere (FxABC.fs, []))) = FxABC.fs /\
  snd (snd (main FxMain.now FxMain.clock FxMain.json_text FxMain.csv_text FxMain.utf8_ok
              FxMain.nowhere (FxABC.fs, [])))
  = [] ++ ["Error: root path does not exist: /missing"%string].
Proof.
  apply (proj1 (main_ends_in_four_ways FxMain.now FxMain.clock FxMain.json_text
                  FxMain.csv_text FxMain.utf8_ok FxMain.nowhere FxABC.fs []
                  (fst (main FxMain.now FxMain.clock FxMain.json_text FxMain.csv_text
                          FxMain.utf8_ok FxMain.nowhere (FxABC.fs, [])))
                  (fst (snd (main FxMain.now FxMain.clock FxMain.json_text
                               FxMain.csv_text FxMain.utf8_ok FxMain.nowhere
                               (FxABC.fs, []))))
                  (snd (snd (main FxMain.now FxMain.clock FxMain.json_text
                               FxMain.csv_text FxMain.utf8_ok FxMain.nowhere
                               (FxABC.fs, []))))
                  ltac:(vm_compute; reflexivity))).
  reflexivity.
Defined.

(** ** [--remove-duplicates] without [--duplicates] *)

Lemma same_outcome_refl {A} (x : result A * (node * list string)) : same_outcome x x.
Proof. split; reflexivity. Qed.

Lemma blind_wret {A} (a : A) : blind (wret a).
Proof. intros fs o1 o2. split; reflexivity. Qed.

Lemma blind_print s : blind (print s).
Proof. intros fs o1 o2. split; reflexivity. Qed.

Lemma blind_lift {A} (m : M A) : blind (lift m).
Proof.
  intros fs o1 o2. unfold lift, same_outcome. cbn [fst snd].
  destruct (m fs) as [r fs1]. split; reflexivity.
Qed.

(** Two runs that agree so far agree after a step that is blind to the
    output. *)
Lemma same_outcome_wbind {A B} (m1 m2 : W A) (k : A -> W B) wA wB :
  same_outcome (m1 wA) (m2 wB) -> (forall a, blind (k a)) ->
  same_outcome (wbind m1 k wA) (wbind m2 k wB).
Proof.
  unfold same_outcome, wbind. intros [Hr Hfs] Hk.
  destruct (m1 wA) as [r1 [fs1 o1]], (m2 wB) as [r2 [fs2 o2]]. cbn [fst snd] in *.
  subst r2 fs2. destruct r1 as [a|e]; [apply Hk | split; reflexivity].
Qed.

Lemma blind_wbind {A B} (m : W A) (k : A -> W B) :
  blind m -> (forall a, blind (k a)) -> blind (wbind m k).
Proof. intros Hm Hk fs o1 o2. apply same_outcome_wbind; [apply Hm | exact Hk]. Qed.

Lemma same_outcome_tail {A B} (m : W A) (k1 k2 : A -> W B) w :
  (forall a w1, same_outcome (k1 a w1) (k2 a w1)) ->
  same_outcome (wbind m k1 w) (wbind m k2 w).
Proof.
  intros Hk. unfold wbind. destruct (m w) as [[a|e] w1]; [apply Hk | split; reflexivity].
Qed.

Lemma same_outcome_head {A B} (m1 m2 : W A) (k : A -> W B) w x1 x2 w1 w2 :
  m1 w = (Ok x1, w1) -> m2 w = (Ok x2, w2) ->
  same_outcome (k x1 w1) (k x2 w2) ->
  same_outcome (wbind m1 k w) (wbind m2 k w).
Proof. intros H1 H2 H. unfold wbind. rewrite H1, H2. exact H. Qed.

Lemma print_groups_runs dups : forall fs o,
  exists o', print_groups dups (fs, o) = (Ok tt, (fs, o')).
Proof.
  assert (Hpaths : forall plist fs o, exists o', print_paths plist (fs, o) = (Ok tt, (fs, o'))).
  { induction plist as [|p plist IH]; intros fs o; cbn [print_paths];
      [eexists; reflexivity|].
    unfold wbind, print. cbn [fst snd]. apply IH. }
  induction dups as [|[h plist] dups IH]; intros fs o; cbn [print_groups];
    [eexists; reflexivity|].
  unfold wbind at 1, print. cbn [fst snd].
  destruct (Hpaths plist fs (o ++ [("Hash: " ++ h ++ " -> " ++ PyStr.dec (List.length plist)
                                   ++ " files")%string])) as [o1 H1].
  unfold wbind at 1. rewrite H1. apply IH.
Qed.

(** X24. [--remove-duplicates] does not need [--duplicates]: with
    [--remove-duplicates], [main] ends the same way and leaves the same
    tree whether [--duplicates] is given or not; the option only changes
    what is printed. *)
Theorem main_remove_duplicates_scans_itself
  (now : string) (clock : Z) (json_dumps : report -> string)
  (csv_rows : list (list string) -> string) (encodable : string -> bool)
  (a : args) (fs : node) (out : list string) :
  a_remove_duplicates a = true ->
  same_outcome (main now clock json_dumps csv_rows encodable (with_duplicates a false) (fs, out))
               (main now clock json_dumps csv_rows encodable (with_duplicates a true) (fs, out)).
Proof.
  intros Hrm. unfold main, with_duplicates.
  cbn [a_root a_organize a_move a_dry_run a_duplicates a_remove_duplicates a_keep
       a_report a_ignore a_recursive].
  rewrite Hrm.
  apply same_outcome_tail. intros e w0.
  destruct (negb e); [apply same_outcome_refl|].
  apply same_outcome_tail. intros ops [fs1 o1].
  destruct (find_duplicates_groups (a_root a) (a_ignore a) fs1) as (d & Hd & _).
  assert (Hscan : exists o',
            wbind (print "Scanning for duplicates...")
              (fun _ => wbind (lift (find_duplicates (a_root a) (a_ignore a)))
                 (fun duplicates => wbind
                    (print ("Duplicate groups found: "
                            ++ PyStr.dec (List.length duplicates)))
                    (fun _ => wbind (print_groups duplicates)
                       (fun _ => wret duplicates)))) (fs1, o1)
            = (Ok d, (fs1, o'))).
  { unfold wbind at 1, print. cbn [fst snd].
    unfold wbind at 1, lift. cbn [fst snd]. rewrite Hd.
    unfold wbind at 1. cbn [fst snd].
    destruct (print_groups_runs d fs1
                ((o1 ++ ["Scanning for duplicates..."%string])
                 ++ [("Duplicate groups found: " ++ PyStr.dec (List.length d))%string]))
      as [o' Ho'].
    exists o'. unfold wbind. now rewrite Ho'. }
  destruct Hscan as [o' Hscan].
  eapply same_outcome_head; [reflexivity | exact Hscan | cbv beta].
  apply same_outcome_wbind.
  - apply same_outcome_wbind.
    + unfold same_outcome, lift. cbn [fst snd]. rewrite Hd. cbn [fst snd].
      destruct d; cbn [fst snd]; [rewrite Hd|]; split; reflexivity.
    + intros d'. apply blind_wbind; [apply blind_print | intros _].
      apply blind_wbind; [apply blind_lift | intros rm].
      apply blind_wbind; [apply blind_print | intros _; apply blind_wret].
  - intros dr. destruct (a_report a).
    + apply blind_wbind; [apply blind_lift | intros _].
      apply blind_wbind; [apply blind_print | intros _; apply blind_wret].
    + apply blind_wbind; [apply blind_lift | intros rep].
      apply blind_wbind; [apply blind_print | intros _; apply blind_wret].
Qed.

Lemma main_remove_duplicates_scans_itself_witness :
  same_outcome
    (main FxMain.now FxMain.clock FxMain.json_text FxMain.csv_text FxMain.utf8_ok
       (with_duplicates FxMain.remove_only false) (FxDup.fs, []))
    (main FxMain.now FxMain.clock FxMain.json_text FxMain.csv_text FxMain.utf8_ok
       (with_duplicates FxMain.remove_only true) (FxDup.fs, [])).
Proof.
  apply (main_remove_duplicates_scans_itself FxMain.now FxMain.clock FxMain.json_text
           FxMain.csv_text FxMain.utf8_ok FxMain.remove_only FxDup.fs []).
  reflexivity.
Defined.

(** ** Errors that the duplicate pipeline passes over *)

Lemma os_remove_state p fs r fs' :
  os_remove p fs = (r, fs') ->
  forall q, find_meta fs' q =
            if path_eqb q p && match r with Ok _ => true | Raise _ => false end
            then None else find_meta fs q.
Proof.
  unfold os_remove, os_error.
  destruct (Fs.find_node fs p) as [[f|st es]|] eqn:Hf.
  - destruct (locked f).
    + intros [= <- <-] q. now rewrite andb_false_r.
    + destruct (Fs.delete_node fs p) as [fs1|] eqn:Hd.
      * intros [= <- <-] q. rewrite andb_true_r.
        exact (delete_file_meta p fs fs1 f Hf Hd q).
      * intros [= <- <-] q. now rewrite andb_false_r.
  - intros [= <- <-] q. now rewrite andb_false_r.
  - intros [= <- <-] q. now rewrite andb_false_r.
Qed.

Lemma deleted_by_app rs1 rs2 q :
  deleted_by (rs1 ++ rs2) q = deleted_by rs1 q || deleted_by rs2 q.
Proof. apply existsb_app. Qed.

(** The tree after the deletions of one group: the files of the records
    without error are gone, every other path is as it was. *)
Lemma remove_loop_state h keeper l : forall acc fs recs fs',
  remove_loop h keeper false l acc fs = (Ok recs, fs') ->
  exists rs, recs = acc ++ rs /\
    forall q, find_meta fs' q = if deleted_by rs q then None else find_meta fs q.
Proof.
  induction l as [|p l IH]; intros acc fs recs fs' H.
  - injection H as <- <-. exists []. rewrite app_nil_r. split; reflexivity.
  - cbn [remove_loop] in H. unfold bind at 1, try_catch, bind at 1 in H.
    destruct (os_remove p fs) as [[[]|e] fs1] eqn:Hrm; cbn [ret] in H;
      destruct (IH _ _ _ _ H) as (rs & -> & Hst);
      pose proof (os_remove_state _ _ _ _ Hrm) as H1;
      eexists (_ :: rs); rewrite <- app_assoc; (split; [reflexivity|]);
      intros q; rewrite Hst, H1; cbn [deleted_by existsb r_removed r_error];
      fold (deleted_by rs q);
      destruct (path_eqb q p), (deleted_by rs q); reflexivity.
Qed.

Lemma remove_groups_state keep dups : forall acc fs recs fs',
  remove_groups dups keep false acc fs = (Ok recs, fs') ->
  exists rs, recs = acc ++ rs /\
    forall q, find_meta fs' q = if deleted_by rs q then None else find_meta fs q.
Proof.
  induction dups as [|[h plist] dups IH]; intros acc fs recs fs' H.
  - injection H as <- <-. exists []. rewrite app_nil_r. split; reflexivity.
  - cbn [remove_groups] in H.
    apply bind_ok_inv in H as (sl & fs1 & Hsort & H).
    destruct (sorted_by_mtime_ok _ _ _ _ Hsort) as (-> & _).
    apply bind_ok_inv in H as ([keeper to_remove] & fs2 & Hsel & H).
    destruct (select_ok _ _ _ _ _ _ Hsel) as (-> & _).
    apply bind_ok_inv in H as (removed' & fs3 & Hloop & H).
    cbn [fst snd] in Hloop.
    destruct (remove_loop_state _ _ _ _ _ _ _ Hloop) as (rs1 & -> & H1).
    destruct (IH _ _ _ _ H) as (rs2 & -> & H2).
    exists (rs1 ++ rs2). rewrite app_assoc. split; [reflexivity|].
    intros q. rewrite H2, H1, deleted_by_app.
    destruct (deleted_by rs1 q), (deleted_by rs2 q); reflexivity.
Qed.

(** X25. A deletion that fails does not stop [remove_duplicates]. On the
    groups of regular files that [find_duplicates] reports, an effective
    run returns, with the complete list of records: for every group of n
    entries, n - 1 records that name the same kept entry. A record carries
    an error exactly when its file is locked against removal. Afterwards
    the files of the records without error are gone and every other
    regular file, those behind a record with an error included, is as it
    was. *)
Theorem remove_duplicates_goes_on_after_a_failed_deletion
  (fs : node) (dups : list (string * list path)) (keep : string) :
  Fs.is_dir fs [] = true -> duplicate_groups fs dups ->
  exists recs fs' rss,
    remove_duplicates dups keep false fs = (Ok recs, fs') /\
    recs = List.concat rss /\
    Forall2 one_kept dups rss /\
    Forall (error_iff_locked fs) recs /\
    forall q, Fs.find_file fs' q = if deleted_by recs q then None else Fs.find_file fs q.
Proof.
  intros Hroot [Hall Hnd].
  destruct (remove_groups_errors keep dups [] fs) as (rs & fs' & Hrun & Herr & _).
  { eapply Forall_impl; [|exact Hall]. intros g [Hne Hf]. split; [exact Hne|].
    eapply Forall_impl; [|exact Hf]. intros p Hp. split; [exact Hp|].
    intros ->. unfold Fs.is_dir, Fs.is_file in *. simpl in *.
    destruct fs; discriminate. }
  { exact Hnd. }
  cbn [app] in Hrun.
  destruct (remove_groups_decompose keep false fs dups [] fs rs fs' (shrunk_refl fs) Hrun)
    as (rss & Hrecs & Hf2 & _).
  destruct (remove_groups_state keep dups [] fs rs fs' Hrun) as (rs' & Hrs' & Hst).
  cbn [app] in Hrecs, Hrs'. subst rs'.
  exists rs, fs', rss. split; [exact Hrun|]. split; [exact Hrecs|]. split; [|split].
  - eapply Forall2_impl; [|exact Hf2]. intros g rs0. apply group_records_one_kept.
  - exact Herr.
  - intros q. rewrite !find_file_meta, Hst. now destruct (deleted_by rs q).
Qed.

Lemma remove_duplicates_goes_on_after_a_failed_deletion_witness :
  exists recs fs' rss,
    remove_duplicates [(FxDup.digest, [FxErr.k; FxErr.l; FxErr.m])] "latest" false
      FxErr.locked_fs = (Ok recs, fs') /\
    recs = List.concat rss /\
    Forall2 one_kept [(FxDup.digest, [FxErr.k; FxErr.l; FxErr.m])] rss /\
    Forall (error_iff_locked FxErr.locked_fs) recs /\
    forall q, Fs.find_file fs' q
              = if deleted_by recs q then None else Fs.find_file FxErr.locked_fs q.
Proof.
  apply (remove_duplicates_goes_on_after_a_failed_deletion FxErr.locked_fs
           [(FxDup.digest, [FxErr.k; FxErr.l; FxErr.m])] "latest").
  - reflexivity.
  - split.
    + repeat constructor. discriminate.
    + simpl. repeat constructor; simpl; intuition discriminate.
Defined.

Lemma class_of_skip {K} (key : path -> option K) (eqb : K -> K -> bool)
  (hash : path -> option string) k h l1 bad l2 :
  hash bad = None ->
  class_of hash String.eqb h (class_of key eqb k (l1 ++ bad :: l2))
  = class_of hash String.eqb h (class_of key eqb k (l1 ++ l2)).
Proof.
  intros Hbad. unfold class_of. rewrite !filter_app. f_equal. simpl.
  destruct (match key bad with Some k' => eqb k' k | None => false end);
    [|reflexivity].
  simpl. now rewrite Hbad.
Qed.

(** X26. The loops of [find_duplicates] pass over a file whose [stat] or
    hash fails, whatever its place in the scanned list: they return, and
    the groups are those of the list without that file. *)
Theorem find_duplicates_leaves_out_failing_files
  (fs : node) (l1 l2 : list path) (bad : path) :
  hash_at fs bad = None ->
  exists d1 d2,
    find_duplicates_of (l1 ++ bad :: l2) fs = (Ok d1, fs) /\
    find_duplicates_of (l1 ++ l2) fs = (Ok d2, fs) /\
    forall g, In g d1 <-> In g d2.
Proof.
  intros Hbad.
  destruct (find_duplicates_of_spec (l1 ++ bad :: l2) fs) as (d1 & Hr1 & H1).
  destruct (find_duplicates_of_spec (l1 ++ l2) fs) as (d2 & Hr2 & H2).
  exists d1, d2. split; [exact Hr1|]. split; [exact Hr2|].
  intros [h plist]. rewrite H1, H2. unfold is_group.
  split; intros (s & -> & Hlen); exists s.
  - now rewrite class_of_skip in * by exact Hbad.
  - now rewrite class_of_skip by exact Hbad.
Qed.

Lemma find_duplicates_leaves_out_failing_files_witness :
  exists d1 d2,
    find_duplicates_of ([FxErr.a] ++ FxErr.dest_a :: [FxErr.b]) FxErr.fs = (Ok d1, FxErr.fs) /\
    find_duplicates_of ([FxErr.a] ++ [FxErr.b]) FxErr.fs = (Ok d2, FxErr.fs) /\
    forall g, In g d1 <-> In g d2.
Proof.
  apply (find_duplicates_leaves_out_failing_files FxErr.fs [FxErr.a] [FxErr.b] FxErr.dest_a).
  reflexivity.
Defined.

(** ** Organizing twice by move *)

(** X27. Organizing twice into the root with [move=True], when the scan
    lists no file twice, no scanned file name ends with a dot and the first
    run completes: every action of a second run that completes is a skip
    (the files the first run moved are passed over or found at their own
    destination, the files it left in place are found again beside their
    copy); and when every scanned file can be read, the second run does
    complete. *)
Theorem organize_move_twice_only_skips
  (root : path) (target : option path) (ign : list string)
  (fs0 : node) (ops1 : list op) (fs1 : node) :
  target = None \/ target = Some root ->
  NoDup (scan_files_in fs0 root true ign) ->
  (forall g, In g (scan_files_in fs0 root true ign) -> tame (name g)) ->
  organize_files root target false true ign fs0 = (Ok ops1, fs1) ->
  (forall ops2 fs2,
     organize_files root target false true ign fs1 = (Ok ops2, fs2) ->
     Forall (fun o => op_action o = SkipSame) ops2) /\
  ((forall g, In g (scan_files_in fs0 root true ign) -> can_read fs0 g) ->
   exists ops2 fs2,
     organize_files root target false true ign fs1 = (Ok ops2, fs2)).
Proof.
  intros Htarget Hnd Htame H1.
  unfold organize_files in *.
  rewrite (bind_ok _ _ _ _ _ (scan_files_run root true ign fs0)) in H1.
  rewrite (bind_ok _ _ _ _ _ (scan_files_run root true ign fs1)).
  assert (Ht : match target with Some t => t | None => root end = root)
    by (destruct Htarget as [-> | ->]; reflexivity).
  rewrite Ht in *.
  assert (Hstart : first_run_inv root ign fs0 (scan_files_in fs0 root true ign)).
  { split.
    - intros g Hg. now apply scan_sound in Hg.
    - intros g Hg He. left. now apply scan_complete. }
  split.
  - intros ops2 fs2 H2.
    pose proof (first_run_loop _ _ _ _ _ _ _ Hnd Htame Hstart H1) as [_ Hq].
    eapply second_run_loop; [| constructor | exact H2].
    intros g Hg. apply scan_sound in Hg as [Hfile Hel].
    destruct (Hq g Hfile Hel) as [[] | Hquiet]. exact Hquiet.
  - intros Hread.
    assert (Hall : all_readable root ign fs0).
    { intros g Hg He. apply Hread. now apply scan_complete. }
    assert (Hel : forall g, In g (scan_files_in fs0 root true ign) ->
                            tame (name g) /\ eligible root ign g).
    { intros g Hg. split; [now apply Htame|]. now apply scan_sound in Hg. }
    destruct (first_run_loop_readable root ign _ _ _ _ _ Hnd Hel Hstart Hall H1)
      as [[_ Hq] Hall1].
    apply (second_run_total root ign).
    intros g Hg. apply scan_sound in Hg as [Hfile Heg].
    split; [|split; [exact Heg | now apply Hall1]].
    destruct (Hq g Hfile Heg) as [[] | Hquiet]. exact Hquiet.
Qed.

Lemma organize_move_twice_only_skips_witness :
  Forall (fun o => op_action o = SkipSame) FxTwice.ops2 /\
  exists ops2 fs2,
    organize_files FxTwice.root None false true [] FxTwice.fs1 = (Ok ops2, fs2).
Proof.
  assert (Hnd : NoDup (scan_files_in FxTwice.fs FxTwice.root true [])).
  { vm_compute. repeat constructor; simpl; intuition discriminate. }
  assert (Htame : forall g, In g (scan_files_in FxTwice.fs FxTwice.root true []) ->
                            tame (name g)).
  { intros g Hg. apply tame_dec. vm_compute in Hg.
    repeat (destruct Hg as [<-|Hg]; [reflexivity|]). destruct Hg. }
  assert (Hrun : organize_files FxTwice.root None false true [] FxTwice.fs
                 = (Ok FxTwice.ops1, FxTwice.fs1)) by (vm_compute; reflexivity).
  destruct (organize_move_twice_only_skips FxTwice.root None [] FxTwice.fs
              FxTwice.ops1 FxTwice.fs1 (or_introl eq_refl) Hnd Htame Hrun)
    as [Hskips Hdone].
  split.
  - apply (Hskips FxTwice.ops2 FxTwice.fs2). vm_compute. reflexivity.
  - apply Hdone. intros g Hg. vm_compute in Hg.
    repeat (destruct Hg as [<-|Hg]; [eexists; split; vm_compute; reflexivity|]).
    destruct Hg.
Defined.

